(* ===== verification/_CoqProject ===== *)
-Q . S2P
Prelude.v
Framing.v
Net.v
Names.v
Message.v
MessageProofs.v
Cache.v
EngineState.v
Records.v
Routing.v
Engine.v
EngineInv.v
EngineStep.v
EngineRun.v
EngineMachine.v
EngineFlow.v
EngineFacts.v
EngineProps.v
CodecProps.v
Io.v
IoProps.v
IpText.v
Msgpack.v
MsgpackProofs.v
NativeWire.v
NativeWireProofs.v
NativeWireProps.v
WireTyped.v
Stub.v
StubProps.v
Upstream.v
UpstreamProps.v
Control.v
Door.v
Nss.v
NssProofs.v
NssProps.v
CViews.v
CViewsProofs.v
CLibrary.v
CLibraryProofs.v
CLibraryProps.v
Tool.v
ToolProps.v
NetdCodec.v
NetdCodecProofs.v
NetdLink.v
NetdProps.v
Sockets.v
RegistryConfig.v
Present.v
EngineAnswers.v
EngineTruth.v
AnswersProps.v
FuzzEngine.v
EngineTests.v
FuzzEngineProofs.v
FuzzEngineOps.v
FuzzCodec.v
RandomTests.v
CodecTests.v
NssTests.v
ClientTests.v
Daemon.v
DaemonLoop.v
DaemonInv.v
DaemonServe.v
DaemonRun.v
DaemonPhases.v
DaemonProps.v
Service.v
DaemonTests.v
