(* ===== verification/Prelude.v ===== *)
(** * Verification of resolvd, the Peios stub resolver

    resolvd is a caching stub resolver.  Clients ask it over two doors, the
    native socket and DNS on the loopback; it asks the servers of the network
    interfaces that netd tells it of, and the ones its registry key names.

    ** The program and where it is modelled

    - The DNS codec (dns/src/lib.rs): [Names] has names, their text, wire form
      and compression, reverse names and case randomisation; [Message] the
      records and messages, [MessageProofs] the wire form of each and the
      round trip; [Present] a record as a client sees it.
    - The cache (resolvd/src/cache.rs): [Cache].
    - The engine (resolvd/src/engine.rs), which decides every answer and does
      no I/O: [EngineState] has its state, [Records] the evaluation of a reply,
      [Routing] the choice of scope, servers, candidates and synthetic answers,
      [Engine] every operation as a function from state to state and actions.
      [EngineInv] states the invariant, [EngineStep], [EngineRun] and
      [EngineMachine] prove that every operation keeps it and account for the
      questions, [EngineFlow] for the transactions, [EngineFacts] and
      [EngineProps] hold what follows.  [EngineAnswers] is the invariant that
      every completion is one a client can be shown, [EngineTruth] carries it
      through whole runs, and [AnswersProps] has the theorems.
    - Reply queue, accept pause and entropy (reply_queue.rs, accept_backoff.rs,
      entropy.rs): [Io], [IoProps].
    - The stub door (stub.rs): [Stub], [StubProps].
    - Upstream sockets (upstream.rs): [Upstream], [UpstreamProps].
    - The native protocol (resolvd-core/src/lib.rs and msgpack.rs): [Msgpack],
      [MsgpackProofs], [NativeWire], [NativeWireProofs], [NativeWireProps]; its
      texts of addresses in [IpText]; [WireTyped] that a decoded reply is
      well typed; the door (control.rs) in [Control], and the opening and the
      protection of its socket in [Door].
    - The channel to netd (netd_link.rs): [NetdLink], over the wire of netd's
      control protocol (vendor/netd/netd-core/src/lib.rs) in [NetdCodec] and
      [NetdCodecProofs]; [NetdProps] has the theorem on the two together.
    - The registry (config.rs, registry_reader.rs): [RegistryConfig].
    - The sockets that upstream.rs and netd_link.rs open, call by call:
      [Sockets].
    - The daemon (main.rs): [Daemon] has the state and the handlers,
      [DaemonLoop] one turn of the event loop, its deadline, its poll set and
      the start; [DaemonInv] the invariant between an engine operation and the
      end of its actions, [DaemonServe] who is answered by them, [DaemonRun]
      and [DaemonPhases] that each phase of a turn keeps the invariant,
      [DaemonProps] the theorems.  [Service] is the program around the
      loop: the start, the notification of the service manager
      (notification.rs), the log (log.rs) and the loop itself.
    - The NSS module (nss/src/lib.rs, buffer.rs and connect.rs), which glibc
      loads into other programs: [Nss] has its entry points over a memory of bytes,
      [NssProofs] what the packer leaves in memory, [NssProps] what a C program
      reads there.
    - The C library and its Rust client (libresolvd, resolvd-abi,
      resolvd-client): [CViews] has the structures, their storage in an arena
      and the copies back, over a memory of typed allocations, [CViewsProofs]
      the interface [Faithful] between the two; [CLibrary] the channel with its
      deadline, the entry points and the client, [CLibraryProofs] and
      [CLibraryProps] the proofs.
    - The operator command (resolv/src/main.rs): [Tool], [ToolProps].
    - The fuzz targets (fuzz/fuzz_targets): [FuzzEngine] is the harness that
      drives the engine with a script of operations, [FuzzEngineProofs] and
      [FuzzEngineOps] prove that its assertions hold for every script;
      [FuzzCodec] has the targets of the codecs.
    - The unit tests, run on the model: [EngineTests], [CodecTests], [NssTests],
      [ClientTests] and [DaemonTests].  Each test of the code is one
      definition, [None] when an assertion fails, and one lemma per file
      evaluates them all.  The codecs' random tests are in [RandomTests],
      which proves that they pass for every seed.
    - [Framing] is the interface of length-prefixed streams, which the TCP
      exchange with a server and the netd channel both instantiate, and [Net]
      has addresses and machine integers.

    ** How the code is modelled

    Integers are [Z] with their width written out ([wrap], [is_u16], ...);
    bytes and strings are lists of [Z], a string's being UTF-8; instants and
    durations are nanoseconds.  [HashMap]s are [gmap]s; where the code iterates
    over one, the order is the class [MapOrder], any permutation, and every
    theorem holds for all of them.  [Name] compares without case, so maps keyed
    by names use the lower-case form.  The identifiers and counters that the
    code keeps in a [u64] are unbounded: none gets near its width.  A [Result] is [result], a panic-free
    [expect] has a lemma that its branch is not taken.

    System calls are data.  What [recv], [read], [accept], [write], [poll] and
    the clock give comes in as arguments ([RecvUdp], [ReadTcp], [Write],
    [TurnIo], ...), and what is sent comes out as a list of effects; a theorem
    for all arguments is one for everything the system may do.  Code that is
    not in the repository is a parameter: the kernel's access check, the
    interface table, the registry, the random source, the allocator, and the
    MessagePack of the peios crate, which is the interface [Peios] with its
    laws [PeiosTyped] and [PeiosRoundTrip], of which the resolver's own
    MessagePack is an instance.  [Service] has what the log does with a line;
    the text of most lines has no model.

    ** Fuel

    - Reading a name follows compression pointers that must point backwards,
      so the length of the message bounds the jumps; running out is proved not
      to happen.
    - Skipping a MessagePack value recurses at most to its depth limit, and
      more fuel changes nothing.
    - Draining a buffer of frames, reading a stream and taking messages use the
      bytes there are; each step consumes some.
    - [perform] calls itself on the actions that a send which fails at once
      gives rise to.  [perform_rounds] returns [None] when it runs out; each
      round uses up upstream work, so the work there is and one round more
      suffice, and the theorem says it returns.

    ** What the theorems show

    - Clients: each is answered exactly once, in the form of its door (only a
      reply larger than any DNS message is not sent at all); none is forgotten,
      and none waits forever even if no server ever answers; every table is
      bounded; no socket leaks; the loop wakes up in time and polls what it
      must; a peer without rights changes nothing.
    - Engine: each question completes exactly once; only the reply to the
      question asked, letter case included, is believed; queries follow the
      routing rule and never leave their scope; an answer holds exactly the
      records its reply justifies, for no longer than they live; a scope that
      changes takes its answers with it; local names stay local.
    - Codecs: messages, names, requests and replies round-trip; decoding is
      total and yields well-formed data; streams are understood whatever their
      cuts, at the stub door, the native door, upstream and from netd.
    - netd: whatever netd encodes is decoded as it was sent, frame by frame,
      and only a whole snapshot reaches the engine.
    - Fuzz targets: every assertion of the four targets and of the codecs'
      random tests holds for every input.
    - Service: readiness is announced exactly when the start succeeded, and the
      loop ends only when poll fails; the native door lets everyone ask and
      only the system replace it; a socket opened in vain is closed.
    - NSS: nothing outside the caller's buffer is written, an answer that fits
      is read back whole, one that does not asks for more room, and absence is
      reported only when the daemon asserts it, or for a name that cannot be
      asked at all.
    - C library: a call returns exactly what the exchange gave, through the C
      structures and back; the channel loses no byte, and its deadline covers
      connecting, sending and receiving.
    - Command: its exit status is the daemon's verdict, 0, 2 or 3, and 1 for a
      failure; what the reply holds is printed.
    - Configuration: it is loaded whole or not at all, one unreadable entry
      failing the load, and is fit for the engine.

    ** Not modelled

    - What the kernel does behind a system call: its results are arguments.
    - Of netd-core, what resolvd does not use: its client side, its registry
      rules, its policy and its profiles; the other vendored crates.
    - Tests that only exercise the kernel's sockets or that fill a table of
      thousands of entries; the harness of the virtual machine tests.
    - Build scripts and the generated constants they write. *)

From stdpp Require Export base decidable option list gmap strings numbers sorting.
From Stdlib Require Export ZArith Lia.

Set Default Proof Using "Type".

(** ** Notation scope of the development *)

Declare Scope resolvd_scope.
Delimit Scope resolvd_scope with resolvd.

(** ** Results

    Rust's [Result<A, E>].  [?] is the monadic bind; [ok_or] and [ok] are
    [Option::ok_or] and [Result::ok]. *)

Inductive result (E A : Type) : Type :=
| Ok (a : A)
| Err (e : E).
Arguments Ok {E A} a.
Arguments Err {E A} e.

Definition result_bind {E A B} (c : result E A) (k : A -> result E B) : result E B :=
  match c with Ok a => k a | Err e => Err e end.

Notation "'let?' x ':=' c 'in' k" := (result_bind c (fun x => k))
  (at level 10, x pattern, c at level 100, k at level 200) : resolvd_scope.
Open Scope resolvd_scope.

Definition ok_or {E A} (o : option A) (e : E) : result E A :=
  match o with Some a => Ok a | None => Err e end.

Definition ok {E A} (r : result E A) : option A :=
  match r with Ok a => Some a | Err _ => None end.

(** [Result::expect] and [Option::expect] panic on the failing branch.  The
    model returns [d] there; each use comes with a theorem that the branch is
    not taken. *)
Definition expect {E A} (d : A) (r : result E A) : A :=
  match r with Ok a => a | Err _ => d end.

#[export] Instance result_eq_dec {E A} `{EqDecision E, EqDecision A} : EqDecision (result E A).
Proof. solve_decision. Defined.

(** ** Machine integers as [Z]

    [u8], [u16], [u32], [u64], [u128] are [Z] with the range written out;
    [wrap w] is the [as] cast to a [w]-bit unsigned integer. *)

Definition in_width (w : Z) (z : Z) : Prop := (0 <= z < 2 ^ w)%Z.
Abbreviation is_u8 := (in_width 8).
Abbreviation is_u16 := (in_width 16).
Abbreviation is_u32 := (in_width 32).
Abbreviation is_u64 := (in_width 64).
Abbreviation is_u128 := (in_width 128).

#[export] Instance in_width_dec w z : Decision (in_width w z).
Proof. unfold in_width. apply _. Defined.

Definition wrap (w : Z) (z : Z) : Z := (z mod 2 ^ w)%Z.

Definition bytes_ok (bs : list Z) : Prop := Forall is_u8 bs.

(** [to_be_bytes] of an [8*n]-bit integer and [from_be_bytes]. *)
Fixpoint be_bytes (n : nat) (z : Z) : list Z :=
  match n with
  | O => []
  | S m => ((z / 256 ^ Z.of_nat m) mod 256)%Z :: be_bytes m z
  end.

Definition from_be (bs : list Z) : Z :=
  fold_left (fun acc b => (acc * 256 + b)%Z) bs 0%Z.

(** [to_le_bytes] and [from_le_bytes]. *)
Definition le_bytes (n : nat) (z : Z) : list Z := rev (be_bytes n z).
Definition from_le (bs : list Z) : Z := from_be (rev bs).

(** ** Slices: [s.get(a..b)] *)

Definition slice_get {A} (s : list A) (a b : nat) : option (list A) :=
  if ((a <=? b) && (b <=? length s))%nat then Some (take (b - a) (drop a s)) else None.

(** ** ASCII *)

Definition is_ascii_uppercase (b : Z) : bool := ((65 <=? b) && (b <=? 90))%Z.
Definition is_ascii_lowercase (b : Z) : bool := ((97 <=? b) && (b <=? 122))%Z.
Definition is_ascii_alphabetic (b : Z) : bool := is_ascii_uppercase b || is_ascii_lowercase b.
Definition to_ascii_lowercase (b : Z) : Z := if is_ascii_uppercase b then (b + 32)%Z else b.
Definition lower (s : list Z) : list Z := map to_ascii_lowercase s.

(** [<[u8]>::eq_ignore_ascii_case]. *)
Definition eq_ignore_ascii_case (a b : list Z) : bool := bool_decide (lower a = lower b).

(** A string literal as its bytes. *)
Fixpoint bytes_of (s : string) : list Z :=
  match s with
  | EmptyString => []
  | String c s' => Z.of_N (Ascii.N_of_ascii c) :: bytes_of s'
  end.

(** ** Iterators: [min_by_key], stable [sort_by_key], [dedup]

    [min_by_key] returns the first of the minimal elements. *)

Definition min_by {A} (lt : A -> A -> bool) (l : list A) : option A :=
  match l with
  | [] => None
  | x :: l' => Some (fold_left (fun acc y => if lt y acc then y else acc) l' x)
  end.

Definition min_by_key {A} (k : A -> Z) (l : list A) : option A :=
  min_by (fun x y => (k x <? k y)%Z) l.

Fixpoint insert_by_key {A} (k : A -> Z) (x : A) (l : list A) : list A :=
  match l with
  | [] => [x]
  | y :: l' => if (k x <=? k y)%Z then x :: l else y :: insert_by_key k x l'
  end.

Definition sort_by_key {A} (k : A -> Z) (l : list A) : list A :=
  foldr (insert_by_key k) [] l.

Fixpoint dedup {A} `{EqDecision A} (l : list A) : list A :=
  match l with
  | [] => []
  | x :: l' =>
      match dedup l' with
      | [] => [x]
      | y :: r => if decide (x = y) then y :: r else x :: y :: r
      end
  end.

(** Minimum of a list of integers, [Iterator::min]. *)
Fixpoint list_min (l : list Z) : option Z :=
  match l with
  | [] => None
  | x :: l' => Some (match list_min l' with None => x | Some m => Z.min x m end)
  end.

(** ** Hash maps

    A [HashMap] is a [gmap]; its iteration order is unspecified.  Every
    definition that iterates over a map takes the order as an instance of
    [MapOrder], and every theorem holds for all of them. *)

Class MapOrder : Type := {
  map_iter : forall {K : Type} `{Countable K} {A : Type}, gmap K A -> list (K * A);
  map_iter_perm : forall {K : Type} `{Countable K} {A : Type} (m : gmap K A),
    map_iter m ≡ₚ map_to_list m;
}.

(** The order of [map_to_list], for evaluating the definitions. *)
Definition canonical_order : MapOrder :=
  {| map_iter := fun _ _ _ _ m => map_to_list m;
     map_iter_perm := fun _ _ _ _ _ => reflexivity _ |}.

(** ** Tactics *)

(** Split the goal's innermost [match]/[if] scrutinee and simplify. *)
Ltac case_step :=
  match goal with
  | |- context [match ?x with _ => _ end] =>
      lazymatch x with
      | context [match _ with _ => _ end] => fail
      | _ => let E := fresh "E" in destruct x eqn:E
      end
  end; simplify_eq/=.

(** The same on a hypothesis. *)
Ltac case_step_in H :=
  match type of H with
  | context [match ?x with _ => _ end] =>
      lazymatch x with
      | context [match _ with _ => _ end] => fail
      | _ => let E := fresh "E" in destruct x eqn:E
      end
  end; simplify_eq/=.

Ltac bool_simpl :=
  repeat match goal with
  | H : (_ && _)%bool = true |- _ => apply andb_true_iff in H as [? ?]
  | H : (_ || _)%bool = false |- _ => apply orb_false_iff in H as [? ?]
  | H : negb _ = true |- _ => apply negb_true_iff in H
  | H : negb _ = false |- _ => apply negb_false_iff in H
  | H : bool_decide _ = true |- _ => apply bool_decide_eq_true in H
  | H : bool_decide _ = false |- _ => apply bool_decide_eq_false in H
  | H : (_ <=? _)%nat = true |- _ => apply Nat.leb_le in H
  | H : (_ <=? _)%nat = false |- _ => apply Nat.leb_gt in H
  | H : (_ <? _)%nat = true |- _ => apply Nat.ltb_lt in H
  | H : (_ <? _)%nat = false |- _ => apply Nat.ltb_ge in H
  | H : (_ =? _)%nat = true |- _ => apply Nat.eqb_eq in H
  | H : (_ =? _)%nat = false |- _ => apply Nat.eqb_neq in H
  | H : (_ <=? _)%Z = true |- _ => apply Z.leb_le in H
  | H : (_ <=? _)%Z = false |- _ => apply Z.leb_gt in H
  | H : (_ <? _)%Z = true |- _ => apply Z.ltb_lt in H
  | H : (_ <? _)%Z = false |- _ => apply Z.ltb_ge in H
  | H : (_ =? _)%Z = true |- _ => apply Z.eqb_eq in H
  | H : (_ =? _)%Z = false |- _ => apply Z.eqb_neq in H
  end.

(** [Forall] on a literal list. *)
Ltac forall_list := repeat first [apply Forall_nil_2 | apply Forall_cons_2].

(** A closed decidable proposition, by evaluation. *)
Ltac by_decide := apply (bool_decide_eq_true_1 _); vm_compute; reflexivity.

(** Destruct every [match] of a hypothesis, closing impossible branches. *)
Ltac case_all_in H := repeat (case_step_in H; try done).

(** ** Lemmas on results *)

Lemma result_bind_ok {E A B} (c : result E A) (k : A -> result E B) b :
  result_bind c k = Ok b <-> exists a, c = Ok a /\ k a = Ok b.
Proof. destruct c; simpl; split; [eauto|by intros (? & [= ->] & ?)|done|by intros (? & ? & ?)]. Qed.

Lemma ok_or_ok {E A} (o : option A) (e : E) a : ok_or o e = Ok a <-> o = Some a.
Proof. destruct o; simpl; split; congruence. Qed.

(** Invert a chain of binds that returned [Ok]. *)
Ltac inv_ok H :=
  repeat match type of H with
  | result_bind _ _ = Ok _ =>
      let a := fresh "a" in let E := fresh "E" in
      apply result_bind_ok in H as (a & E & H);
      lazymatch type of E with ok_or _ _ = _ => apply ok_or_ok in E | _ => idtac end;
      cbn beta in H
  end.

(** ** Lemmas on bytes *)

Lemma bytes_ok_app a b : bytes_ok (a ++ b) <-> bytes_ok a /\ bytes_ok b.
Proof. apply Forall_app. Qed.

Lemma bytes_ok_cons x b : bytes_ok (x :: b) <-> is_u8 x /\ bytes_ok b.
Proof. apply Forall_cons. Qed.

Lemma bytes_ok_nil : bytes_ok [].
Proof. constructor. Qed.

Lemma is_u8_le z : is_u8 z <-> (0 <= z <= 255)%Z.
Proof. unfold in_width. lia. Qed.

Lemma wrap_in_width w z : (0 <= w)%Z -> in_width w (wrap w z).
Proof. intros Hw. unfold wrap, in_width. apply Z.mod_pos_bound. lia. Qed.

Lemma wrap_small w z : in_width w z -> wrap w z = z.
Proof. intros [??]. apply Z.mod_small; lia. Qed.

Lemma length_be_bytes n z : length (be_bytes n z) = n.
Proof. induction n; simpl; congruence. Qed.

Lemma be_bytes_ok n z : bytes_ok (be_bytes n z).
Proof.
  induction n; simpl; constructor; [|done].
  unfold in_width. pose proof (Z.mod_pos_bound (z / 256 ^ Z.of_nat n) 256). lia.
Qed.

Lemma from_be_snoc bs b : from_be (bs ++ [b]) = (from_be bs * 256 + b)%Z.
Proof. unfold from_be. by rewrite fold_left_app. Qed.

Lemma fold_from_be bs a :
  fold_left (fun acc b => (acc * 256 + b)%Z) bs a
  = (a * 256 ^ Z.of_nat (length bs) + from_be bs)%Z.
Proof.
  unfold from_be. revert a.
  induction bs as [|b bs IH] using rev_ind; intros a; simpl; [lia|].
  rewrite !fold_left_app; simpl. rewrite IH, length_app; simpl.
  rewrite Nat2Z.inj_add, Z.pow_add_r by lia. lia.
Qed.

Lemma from_be_cons b bs : from_be (b :: bs) = (b * 256 ^ Z.of_nat (length bs) + from_be bs)%Z.
Proof. unfold from_be at 1; simpl. rewrite fold_from_be. lia. Qed.

Lemma from_be_bound bs : bytes_ok bs -> (0 <= from_be bs < 256 ^ Z.of_nat (length bs))%Z.
Proof.
  induction bs as [|b bs IH] using rev_ind; [done|].
  intros [? Hb]%bytes_ok_app. rewrite from_be_snoc, length_app; simpl.
  apply bytes_ok_cons in Hb as [Hb%is_u8_le _]. specialize (IH ltac:(done)).
  rewrite Nat2Z.inj_add, Z.pow_add_r by lia. simpl; lia.
Qed.

Lemma from_be_be_bytes n z : from_be (be_bytes n z) = (z mod 256 ^ Z.of_nat n)%Z.
Proof.
  induction n as [|n IH]; [simpl; by rewrite Z.mod_1_r|].
  cbn [be_bytes]. rewrite from_be_cons, length_be_bytes, IH.
  rewrite Nat2Z.inj_succ, Z.pow_succ_r by lia.
  rewrite (Z.mul_comm 256), Z.rem_mul_r by lia. lia.
Qed.

(** Integers survive their big-endian encoding at their own width. *)
Lemma be_roundtrip n z : in_width (8 * Z.of_nat n) z -> from_be (be_bytes n z) = z.
Proof.
  intros Hz. rewrite from_be_be_bytes. apply Z.mod_small.
  unfold in_width in Hz. by rewrite Z.pow_mul_r in Hz by lia.
Qed.

Lemma be_bytes_shift b n z k :
  (n <= k)%nat -> be_bytes n (b * 256 ^ Z.of_nat k + z) = be_bytes n z.
Proof.
  revert z. induction n as [|n IH]; intros z Hk; cbn [be_bytes]; [done|].
  rewrite IH by lia. f_equal.
  replace (Z.of_nat k) with (Z.succ (Z.of_nat k - Z.of_nat n - 1) + Z.of_nat n)%Z by lia.
  rewrite Z.pow_add_r, Z.mul_assoc, Z.div_add_l, Z.pow_succ_r by lia.
  rewrite Z.add_mod, Z.mul_assoc, (Z.mul_comm b 256), <- Z.mul_assoc, Z.mul_comm, Z.mod_mul by lia.
  by rewrite Z.add_0_l, Z.mod_mod by lia.
Qed.

Lemma be_bytes_from_be bs : bytes_ok bs -> be_bytes (length bs) (from_be bs) = bs.
Proof.
  induction bs as [|b bs IH]; intros Hbs; [done|].
  apply bytes_ok_cons in Hbs as [Hb%is_u8_le Hbs].
  pose proof (from_be_bound bs Hbs) as Hr.
  cbn [be_bytes length]. rewrite from_be_cons. f_equal.
  - rewrite Z.div_add_l, (Z.div_small (from_be bs)), Z.add_0_r by lia.
    apply Z.mod_small; lia.
  - rewrite be_bytes_shift by done. by apply IH.
Qed.

Lemma length_le_bytes n z : length (le_bytes n z) = n.
Proof. unfold le_bytes. by rewrite length_rev, length_be_bytes. Qed.

Lemma le_roundtrip n z : in_width (8 * Z.of_nat n) z -> from_le (le_bytes n z) = z.
Proof. intros. unfold from_le, le_bytes. rewrite rev_involutive. by apply be_roundtrip. Qed.

Lemma from_be_u16 bs : bytes_ok bs -> length bs = 2 -> is_u16 (from_be bs).
Proof. intros H Hl. pose proof (from_be_bound bs H). rewrite Hl in *. unfold in_width. lia. Qed.

Lemma from_be_u32 bs : bytes_ok bs -> length bs = 4 -> is_u32 (from_be bs).
Proof. intros H Hl. pose proof (from_be_bound bs H). rewrite Hl in *. unfold in_width. lia. Qed.

Lemma from_be_u128 bs : bytes_ok bs -> length bs = 16 -> is_u128 (from_be bs).
Proof. intros H Hl. pose proof (from_be_bound bs H). rewrite Hl in *. unfold in_width. lia. Qed.

(** ** Lemmas on slices *)

Lemma slice_get_Some {A} (s : list A) a b t :
  slice_get s a b = Some t <->
  (a <= b <= length s)%nat /\ t = take (b - a) (drop a s).
Proof.
  unfold slice_get. split.
  - intros H. case_all_in H. bool_simpl. split; [lia|done].
  - intros [[Ha Hb] ->]. apply Nat.leb_le in Ha, Hb. by rewrite Ha, Hb.
Qed.

Lemma slice_get_length {A} (s : list A) a b t :
  slice_get s a b = Some t -> length t = (b - a)%nat.
Proof. intros [? ->]%slice_get_Some. rewrite length_take, length_drop. lia. Qed.

Lemma slice_get_forall {A} (P : A -> Prop) (s : list A) a b t :
  Forall P s -> slice_get s a b = Some t -> Forall P t.
Proof. intros Hs [_ ->]%slice_get_Some. by apply Forall_take, Forall_drop. Qed.

(** The slice that spans exactly the middle of a concatenation. *)
Lemma slice_get_mid {A} (pre mid post : list A) a b :
  a = length pre -> b = (length pre + length mid)%nat ->
  slice_get (pre ++ mid ++ post) a b = Some mid.
Proof.
  intros -> ->. apply slice_get_Some. rewrite !length_app. split; [lia|].
  rewrite drop_app_length. replace (_ + _ - _)%nat with (length mid) by lia.
  by rewrite take_app_length.
Qed.

Lemma lookup_mid {A} (pre : list A) x post i :
  i = length pre -> (pre ++ x :: post) !! i = Some x.
Proof. intros ->. by apply list_lookup_middle. Qed.

(** ** Lemmas on ASCII case *)

Lemma to_ascii_lowercase_idem b : to_ascii_lowercase (to_ascii_lowercase b) = to_ascii_lowercase b.
Proof.
  unfold to_ascii_lowercase. destruct (is_ascii_uppercase b) eqn:E; [|by rewrite E].
  unfold is_ascii_uppercase in *. bool_simpl. destruct (_ && _) eqn:F; [|done]. bool_simpl. lia.
Qed.

Lemma lower_idem s : lower (lower s) = lower s.
Proof.
  unfold lower. rewrite map_map. apply map_ext. apply to_ascii_lowercase_idem.
Qed.

Lemma length_lower s : length (lower s) = length s.
Proof. apply length_map. Qed.

(** Flipping bit 5 of a letter keeps its lower case. *)
Lemma lower_flip b : is_ascii_alphabetic b = true ->
  to_ascii_lowercase (Z.lxor b 32) = to_ascii_lowercase b.
Proof.
  intros H.
  assert (65 <= b <= 122)%Z as Hb.
  { unfold is_ascii_alphabetic, is_ascii_uppercase, is_ascii_lowercase in H.
    apply orb_true_iff in H as [H|H]; bool_simpl; lia. }
  assert (forallb (fun n => let b := Z.of_nat n in
      negb (is_ascii_alphabetic b) ||
      (to_ascii_lowercase (Z.lxor b 32) =? to_ascii_lowercase b)%Z) (seq 65 58) = true)
    as Hall by (vm_compute; reflexivity).
  rewrite forallb_forall in Hall.
  specialize (Hall (Z.to_nat b) ltac:(apply in_seq; lia)). cbv zeta in Hall.
  rewrite Z2Nat.id in Hall by lia.
  rewrite H in Hall. by apply Z.eqb_eq.
Qed.

Lemma to_ascii_lowercase_u8 b : is_u8 b -> is_u8 (to_ascii_lowercase b).
Proof.
  rewrite !is_u8_le. unfold to_ascii_lowercase, is_ascii_uppercase.
  destruct (_ && _) eqn:E; [|lia]. bool_simpl. lia.
Qed.

Lemma bytes_of_ok s : bytes_ok (bytes_of s).
Proof.
  induction s as [|c s IH]; simpl; constructor; [|done].
  pose proof (Ascii.N_ascii_bounded c). unfold in_width. lia.
Qed.

Lemma sum_list_app xs ys : sum_list (xs ++ ys) = (sum_list xs + sum_list ys)%nat.
Proof. induction xs; simpl; lia. Qed.

(** ** Lemmas on iterators *)

Lemma fold_min {A} (k : A -> Z) l x :
  let m := fold_left (fun acc y => if (k y <? k acc)%Z then y else acc) l x in
  m ∈ x :: l /\ forall y, y ∈ x :: l -> (k m <= k y)%Z.
Proof.
  revert x. induction l as [|y l IH]; intros x; simpl.
  { split; [set_solver|]. intros z Hz. apply list_elem_of_singleton in Hz as ->. lia. }
  set (acc := if (k y <? k x)%Z then y else x).
  assert (acc ∈ [x; y] /\ (k acc <= k x)%Z /\ (k acc <= k y)%Z) as (Hin & Hx & Hy).
  { unfold acc. destruct (k y <? k x)%Z eqn:E; bool_simpl; (split_and!; [set_solver|lia|lia]). }
  clearbody acc. destruct (IH acc) as [Hm Hle]. split.
  { apply elem_of_cons in Hm as [->|Hm]; set_solver. }
  intros z Hz. pose proof (Hle acc (list_elem_of_here _ _)) as Ha.
  apply elem_of_cons in Hz as [->|Hz]; [lia|].
  apply elem_of_cons in Hz as [->|Hz]; [lia|]. apply Hle. by right.
Qed.

Lemma min_by_key_Some {A} (k : A -> Z) l m :
  min_by_key k l = Some m -> m ∈ l /\ forall y, y ∈ l -> (k m <= k y)%Z.
Proof. destruct l as [|x l]; [done|]. intros [= <-]. apply fold_min. Qed.

Lemma min_by_key_None {A} (k : A -> Z) l : min_by_key k l = None <-> l = [].
Proof. by destruct l. Qed.

Lemma insert_by_key_perm {A} (k : A -> Z) x l : insert_by_key k x l ≡ₚ x :: l.
Proof.
  induction l as [|y l IH]; simpl; [done|]. case_match; [done|].
  rewrite IH. constructor.
Qed.

Lemma sort_by_key_perm {A} (k : A -> Z) l : sort_by_key k l ≡ₚ l.
Proof. induction l as [|x l IH]; simpl; [done|]. by rewrite insert_by_key_perm, IH. Qed.

Lemma dedup_elem {A} `{EqDecision A} (l : list A) x : x ∈ dedup l <-> x ∈ l.
Proof.
  induction l as [|y l IH]; simpl; [done|]. rewrite elem_of_cons, <- IH.
  destruct (dedup l) as [|z r]; [set_solver|]. case_decide; set_solver.
Qed.

Lemma list_min_Some l m : list_min l = Some m -> m ∈ l /\ forall y, y ∈ l -> (m <= y)%Z.
Proof.
  revert m. induction l as [|x l IH]; intros m; simpl; [done|]. intros [= <-].
  destruct (list_min l) as [n|] eqn:E.
  - destruct (IH n eq_refl) as [Hn Hle]. split.
    + destruct (Z.min_spec x n) as [[_ ->]|[_ ->]]; set_solver.
    + intros y [->|Hy]%elem_of_cons; [lia|]. specialize (Hle y Hy). lia.
  - destruct l; [|done]. split; [set_solver|].
    intros y Hy. apply list_elem_of_singleton in Hy as ->. lia.
Qed.

Lemma list_min_None l : list_min l = None <-> l = [].
Proof. by destruct l. Qed.

(** ** Lemmas on map iteration *)

Lemma map_iter_elem `{MapOrder} `{Countable K} {A} (m : gmap K A) k x :
  (k, x) ∈ map_iter m <-> m !! k = Some x.
Proof. by rewrite map_iter_perm, elem_of_map_to_list. Qed.

Lemma map_iter_NoDup `{MapOrder} `{Countable K} {A} (m : gmap K A) :
  NoDup (map_iter m).*1.
Proof. rewrite map_iter_perm. apply NoDup_fst_map_to_list. Qed.

Lemma map_iter_nil `{MapOrder} `{Countable K} {A} (m : gmap K A) :
  map_iter m = [] <-> m = ∅.
Proof.
  split; [intros E|intros ->].
  - apply map_to_list_empty_iff. apply Permutation_nil_r. by rewrite <- map_iter_perm, E.
  - apply Permutation_nil_r. by rewrite map_iter_perm, map_to_list_empty.
Qed.

Create HintDb resolvd discriminated.
Create Rewrite HintDb resolvd.
#[export] Hint Resolve be_bytes_ok bytes_ok_nil bytes_of_ok to_ascii_lowercase_u8 : resolvd.
#[export] Hint Rewrite @length_be_bytes @length_le_bytes @length_lower : resolvd.
