(* ===== verification/Framing.v ===== *)
(** * Length-prefixed streams

    What the stream transports share: messages behind a header that holds
    their length.  A header format is an instance of [Framing]; the daemon
    uses two big-endian bytes towards DNS peers and four little-endian ones on
    the local sockets. *)

From S2P Require Import Prelude.
Local Open Scope nat_scope.

Class Framing : Type := mkFraming {
  head_length : nat;
  head_enc : nat -> list Z;
  head_dec : list Z -> nat;
  head_fits : nat -> Prop;
  head_enc_length n : length (head_enc n) = head_length;
  head_dec_enc n : head_fits n -> head_dec (head_enc n) = n;
}.

Lemma u16_dec_enc n :
  is_u16 (Z.of_nat n) -> Z.to_nat (from_be (be_bytes 2 (wrap 16 (Z.of_nat n)))) = n.
Proof. intros Hn. by rewrite wrap_small, be_roundtrip, Nat2Z.id. Qed.

Definition u16_framing : Framing :=
  mkFraming 2 (fun n => be_bytes 2 (wrap 16 (Z.of_nat n))) (fun h => Z.to_nat (from_be h))
    (fun n => is_u16 (Z.of_nat n)) (fun n => length_be_bytes 2 _) u16_dec_enc.

Lemma u32_dec_enc n : is_u32 (Z.of_nat n) -> Z.to_nat (from_le (le_bytes 4 (Z.of_nat n))) = n.
Proof. intros Hn. by rewrite le_roundtrip, Nat2Z.id. Qed.

Definition u32_framing : Framing :=
  mkFraming 4 (fun n => le_bytes 4 (Z.of_nat n)) (fun h => Z.to_nat (from_le h))
    (fun n => is_u32 (Z.of_nat n)) (fun n => length_le_bytes 4 _) u32_dec_enc.

Section framing.
Context `{Framing}.

Definition framed (m : list Z) : list Z := head_enc (length m) ++ m.
Definition fits (m : list Z) : Prop := head_fits (length m).
Definition stream_of (ms : list (list Z)) : list Z := concat (map framed ms).

(** No complete message at the front. *)
Definition incomplete (s : list Z) : Prop :=
  length s < head_length \/ length s < head_length + head_dec (take head_length s).

Lemma length_framed m : length (framed m) = head_length + length m.
Proof. unfold framed. by rewrite length_app, head_enc_length. Qed.

Lemma framed_header m x : fits m ->
  take head_length (framed m ++ x) = head_enc (length m) /\
  drop head_length (framed m ++ x) = m ++ x /\ head_dec (head_enc (length m)) = length m.
Proof.
  intros Hm. unfold framed. rewrite <- app_assoc.
  rewrite take_app_length', drop_app_length' by (symmetry; apply head_enc_length).
  by rewrite head_dec_enc.
Qed.

Lemma stream_of_cons m ms : stream_of (m :: ms) = framed m ++ stream_of ms.
Proof. done. Qed.

Lemma stream_of_app ms ms' : stream_of (ms ++ ms') = stream_of ms ++ stream_of ms'.
Proof. unfold stream_of. by rewrite map_app, concat_app. Qed.

Lemma length_stream_of ms : length ms * head_length <= length (stream_of ms).
Proof.
  induction ms as [|m ms IH]; [simpl; lia|]. rewrite stream_of_cons, length_app, length_framed. simpl. lia.
Qed.

Lemma incomplete_nil : 0 < head_length -> incomplete [].
Proof. intros. by left. Qed.

Lemma incomplete_prefix p x : incomplete (p ++ x) -> incomplete p.
Proof.
  unfold incomplete. rewrite length_app.
  destruct (Nat.lt_ge_cases (length p) head_length) as [|H2]; [by left|].
  rewrite take_app_le by lia. intros []; [lia|right; lia].
Qed.

(** A prefix of a stream cuts it after some messages. *)
Lemma stream_prefix ms rest : forall p x,
  Forall fits ms -> incomplete rest -> p ++ x = stream_of ms ++ rest ->
  exists ms1 ms2 r, ms = ms1 ++ ms2 /\ p = stream_of ms1 ++ r /\ incomplete r /\
    r ++ x = stream_of ms2 ++ rest.
Proof.
  induction ms as [|m ms IH]; intros p x Hms Hr Heq.
  { exists [], [], p. split_and!; try done. simpl in Heq. apply (incomplete_prefix p x). by rewrite Heq. }
  apply Forall_cons in Hms as [Hm Hms]. rewrite stream_of_cons, <- app_assoc in Heq.
  destruct (Nat.lt_ge_cases (length p) (length (framed m))) as [Hl|Hl].
  - exists [], (m :: ms), p. split_and!; try done.
    2: { by rewrite Heq, stream_of_cons, <- app_assoc. }
    rewrite length_framed in Hl.
    destruct (Nat.lt_ge_cases (length p) head_length) as [|H2]; [by left|]. right.
    destruct (framed_header m (stream_of ms ++ rest) Hm) as (Ht & _ & Hn).
    rewrite <- Heq, take_app_le in Ht by lia. rewrite Ht, Hn. lia.
  - assert (exists k, p = framed m ++ k /\ k ++ x = stream_of ms ++ rest) as (k & -> & Hk).
    { exists (drop (length (framed m)) p).
      assert (take (length (framed m)) (p ++ x) = framed m) as Ht by (rewrite Heq; apply take_app_length).
      assert (drop (length (framed m)) (p ++ x) = stream_of ms ++ rest) as Hd
        by (rewrite Heq; apply drop_app_length).
      rewrite take_app_le in Ht by done. rewrite drop_app_le in Hd by done.
      split; [|done]. rewrite <- Ht at 1. by rewrite take_drop. }
    destruct (IH k x Hms Hr Hk) as (ms1 & ms2 & r & -> & -> & Hi & Hx).
    exists (m :: ms1), ms2, r. split_and!; try done. by rewrite stream_of_cons, <- app_assoc.
Qed.
End framing.
