(* ===== verification/Net.v ===== *)
(** * Addresses and text: what the sources use of [std::net] and [std::fmt]

    [Ipv4Addr] is its 32-bit value and [Ipv6Addr] its 128-bit value, as
    [u32::from] and [u128::from] give them; [octets] is the big-endian byte
    list.  Strings are their UTF-8 bytes. *)

From S2P Require Import Prelude.

Local Open Scope Z_scope.

(** ** Addresses *)

Definition Ipv4Addr := Z.
Definition Ipv6Addr := Z.

Inductive IpAddr : Type :=
| V4 (a : Ipv4Addr)
| V6 (a : Ipv6Addr).

#[export] Instance IpAddr_eq_dec : EqDecision IpAddr.
Proof. solve_decision. Defined.

#[export] Program Instance IpAddr_countable : Countable IpAddr :=
  inj_countable (fun x => match x with V4 a => inl a | V6 a => inr a end)
                (fun s => Some (match s with inl a => V4 a | inr a => V6 a end)) _.
Next Obligation. by intros []. Qed.

Definition octets_v4 (a : Ipv4Addr) : list Z := be_bytes 4 a.
Definition octets_v6 (a : Ipv6Addr) : list Z := be_bytes 16 a.

Arguments octets_v4 _ : simpl never.
Arguments octets_v6 _ : simpl never.

Definition IpAddr_wf (a : IpAddr) : Prop :=
  match a with V4 x => is_u32 x | V6 x => is_u128 x end.

(** [127.0.0.0/8] and [::1]. *)
Definition is_loopback (a : IpAddr) : bool :=
  match a with
  | V4 x => Z.shiftr x 24 =? 127
  | V6 x => x =? 1
  end.

(** [fe80::/10]. *)
Definition is_unicast_link_local (x : Ipv6Addr) : bool := Z.shiftr x 118 =? 1018.

Definition LOCALHOST_V4 : IpAddr := V4 2130706433.
Definition LOCALHOST_V6 : IpAddr := V6 1.

(** ** Text *)

(** [str::split(c)] for an ASCII [c]. *)
Fixpoint split_on (c : Z) (s : list Z) : list (list Z) :=
  match s with
  | [] => [[]]
  | x :: s' =>
      match split_on c s' with
      | [] => [[x]]
      | w :: ws => if x =? c then [] :: w :: ws else (x :: w) :: ws
      end
  end.

(** [strip_suffix(c).unwrap_or(s)] for an ASCII [c]. *)
Definition strip_suffix (c : Z) (s : list Z) : list Z :=
  match last s with
  | Some x => if x =? c then removelast s else s
  | None => s
  end.

(** Join with a separator. *)
Fixpoint join_with (c : Z) (ws : list (list Z)) : list Z :=
  match ws with
  | [] => []
  | [w] => w
  | w :: ws' => w ++ c :: join_with c ws'
  end.

(** [{}] of an unsigned integer: decimal digits, most significant first.  40
    digits are enough for a [u128]. *)
Fixpoint dec_go (fuel : nat) (z : Z) (acc : list Z) : list Z :=
  match fuel with
  | O => acc
  | S f =>
      let acc' := (48 + z mod 10) :: acc in
      if z <? 10 then acc' else dec_go f (z / 10) acc'
  end.
Definition fmt_dec (z : Z) : list Z := dec_go 40 z [].

Arguments fmt_dec _ : simpl never.

(** [{:x}] of one nibble. *)
Definition fmt_nibble (z : Z) : Z := if z <? 10 then 48 + z else 87 + z.

(** [char::to_digit(16)]. *)
Definition hex_digit (b : Z) : option Z :=
  if (48 <=? b) && (b <=? 57) then Some (b - 48)
  else if (97 <=? b) && (b <=? 102) then Some (b - 87)
  else if (65 <=? b) && (b <=? 70) then Some (b - 55)
  else None.

Definition dec_digit (b : Z) : option Z :=
  if (48 <=? b) && (b <=? 57) then Some (b - 48) else None.

(** [str::parse] of a [w]-bit unsigned integer: an optional [+], at least one
    digit, and checked multiplication and addition. *)
Fixpoint parse_digits (w : Z) (acc : Z) (s : list Z) : option Z :=
  match s with
  | [] => Some acc
  | b :: s' =>
      match dec_digit b with
      | Some d =>
          let acc' := acc * 10 + d in
          if acc' <? 2 ^ w then parse_digits w acc' s' else None
      | None => None
      end
  end.
Definition parse_uint (w : Z) (s : list Z) : option Z :=
  match s with
  | [] => None
  | b :: s' =>
      if b =? 43
      then (match s' with [] => None | _ => parse_digits w 0 s' end)
      else parse_digits w 0 s
  end.

(** ** Lemmas *)

Lemma split_on_nonempty c s : split_on c s <> [].
Proof. destruct s as [|x s]; simpl; [done|]. repeat case_step; done. Qed.

Lemma split_on_no_sep c s : c ∉ s -> split_on c s = [s].
Proof.
  induction s as [|x s IH]; intros Hc; simpl; [done|].
  apply not_elem_of_cons in Hc as [Hx Hc]. rewrite (IH Hc).
  by destruct (Z.eqb_spec x c) as [->|].
Qed.

Lemma split_on_app c w s : c ∉ w -> split_on c (w ++ c :: s) = w :: split_on c s.
Proof.
  induction w as [|x w IH]; intros Hc; simpl.
  - destruct (split_on c s) eqn:E; [by destruct (split_on_nonempty c s)|]. by rewrite Z.eqb_refl.
  - apply not_elem_of_cons in Hc as [Hx Hc]. rewrite (IH Hc).
    by destruct (Z.eqb_spec x c) as [->|].
Qed.

(** Splitting undoes joining when no word holds the separator. *)
Lemma split_join c ws :
  ws <> [] -> Forall (fun w => c ∉ w) ws -> split_on c (join_with c ws) = ws.
Proof.
  intros Hne Hall. induction Hall as [|w ws Hw Hall IH]; [done|].
  destruct ws as [|w' ws]; [by apply split_on_no_sep|].
  change (join_with c (w :: w' :: ws)) with (w ++ c :: join_with c (w' :: ws)).
  by rewrite split_on_app, IH.
Qed.

(** Joining undoes splitting, always. *)
Lemma join_split c s : join_with c (split_on c s) = s.
Proof.
  induction s as [|x s IH]; simpl; [done|].
  destruct (split_on c s) as [|w ws] eqn:E; [by destruct (split_on_nonempty c s)|].
  destruct (Z.eqb_spec x c) as [->|].
  - change (join_with c ([] :: w :: ws)) with (c :: join_with c (w :: ws)). by rewrite IH.
  - rewrite <- IH. by destruct ws.
Qed.

Lemma split_on_words c s : Forall (fun w => c ∉ w) (split_on c s).
Proof.
  induction s as [|x s IH]; simpl; [by repeat constructor; set_solver|].
  destruct (split_on c s) as [|w ws] eqn:E; [by destruct (split_on_nonempty c s)|].
  apply Forall_cons in IH as [Hw Hws].
  destruct (Z.eqb_spec x c) as [->|]; repeat constructor; set_solver.
Qed.

Lemma split_on_forall (P : Z -> Prop) c s :
  Forall P s -> Forall (Forall P) (split_on c s).
Proof.
  induction 1 as [|x s Hx Hs IH]; simpl; [by repeat constructor|].
  destruct (split_on c s) as [|w ws] eqn:E; [by repeat constructor|].
  apply Forall_cons in IH as [Hw Hws]. case_match; repeat constructor; done.
Qed.

Lemma strip_suffix_id c s : last s <> Some c -> strip_suffix c s = s.
Proof.
  unfold strip_suffix. intros H. case_match; [|done].
  destruct (Z.eqb_spec z c) as [->|]; done.
Qed.

Lemma strip_suffix_snoc c s : strip_suffix c (s ++ [c]) = s.
Proof. unfold strip_suffix. by rewrite last_snoc, Z.eqb_refl, removelast_last. Qed.

Lemma last_join c ws w :
  Forall (fun w => w <> []) ws -> last ws = Some w -> last (join_with c ws) = last w.
Proof.
  intros Hall. induction Hall as [|w' ws Hw Hall IH]; [done|].
  destruct ws as [|w'' ws]; [by intros [= ->]|].
  change (join_with c (w' :: w'' :: ws)) with (w' ++ c :: join_with c (w'' :: ws)).
  intros Hl. change (last (w' :: w'' :: ws)) with (last (w'' :: ws)) in Hl.
  rewrite last_app, last_cons, (IH Hl).
  destruct (last w) eqn:E; [done|].
  apply last_None in E as ->.
  apply last_Some_elem_of in Hl. rewrite Forall_forall in Hall. by apply Hall in Hl.
Qed.

(** Decimal formatting and parsing of octets, and hexadecimal nibbles, over
    the whole range by evaluation. *)
Lemma range_forall (P : Z -> Prop) `{forall z, Decision (P z)} (n : nat) :
  forallb (fun k => bool_decide (P (Z.of_nat k))) (seq 0 n) = true ->
  forall z, 0 <= z < Z.of_nat n -> P z.
Proof.
  rewrite forallb_forall. intros Hall z Hz.
  specialize (Hall (Z.to_nat z) ltac:(apply in_seq; lia)).
  rewrite Z2Nat.id in Hall by lia. by bool_simpl.
Qed.

Ltac by_range n := apply (range_forall _ n); [vm_compute; reflexivity | lia].

Lemma parse_fmt_u8 b : is_u8 b -> parse_uint 8 (fmt_dec b) = Some b.
Proof. intros Hb%is_u8_le. pattern b. by_range (256%nat). Qed.

Lemma fmt_u8_label b : is_u8 b ->
  (1 <= length (fmt_dec b) <= 3)%nat /\ (46 ∉ fmt_dec b) /\ bytes_ok (fmt_dec b).
Proof. intros Hb%is_u8_le. pattern b. by_range (256%nat). Qed.

Lemma hex_fmt_nibble b : 0 <= b < 16 -> hex_digit (fmt_nibble b) = Some b.
Proof. intros Hb. pattern b. by_range (16%nat). Qed.

Lemma fmt_nibble_label b : 0 <= b < 16 -> fmt_nibble b <> 46 /\ is_u8 (fmt_nibble b).
Proof.
  intros Hb. unfold fmt_nibble, in_width. destruct (Z.ltb_spec b 10); lia.
Qed.
