(* ===== verification/Names.v ===== *)
(** * Domain names: [dns/src/lib.rs], [Name]

    A name is its list of labels, without the root label.  Equality ([==],
    here [Name_eqb] and the equivalence [Name_equiv]) ignores ASCII case; the
    labels keep the case they arrived in.  [Name_read] is the decoder of
    possibly-compressed names, the most exposed loop of the program; its fuel
    is discharged by [read_loop_terminates]. *)

From S2P Require Import Prelude Net.

Local Open Scope Z_scope.

(** ** Errors of the wire codec *)

Inductive Error : Type :=
| Truncated
| NameTooLong
| BadLabel
| BadPointer
| BadRData
| TrailingBytes
| BadName
| TooLarge.

#[export] Instance Error_eq_dec : EqDecision Error.
Proof. solve_decision. Defined.

Definition CLASSIC_UDP_SIZE : Z := 512.
Definition EDNS_UDP_SIZE : Z := 1232.
Definition MAX_MESSAGE_SIZE : Z := 65535.
Definition MAX_NAME_LEN : nat := 255.
Definition MAX_LABEL_LEN : nat := 63.

(** ** Names *)

Record Name : Type := mkName { labels : list (list Z) }.

#[export] Instance Name_eq_dec : EqDecision Name.
Proof. solve_decision. Defined.

#[export] Program Instance Name_countable : Countable Name :=
  inj_countable labels (fun l => Some (mkName l)) _.
Next Obligation. by intros []. Qed.

Definition Name_root : Name := mkName [].

Definition is_root (n : Name) : bool := bool_decide (labels n = []).

Definition label_count (n : Name) : nat := length (labels n).

(** Bytes on the wire, uncompressed, with the root label. *)
Definition wire_len (n : Name) : nat :=
  (sum_list (map (fun l => length l + 1)%nat (labels n)) + 1)%nat.

Definition label_bad (l : list Z) : bool :=
  bool_decide (l = []) || (MAX_LABEL_LEN <? length l)%nat.

(** The loop of [parse] and [from_labels]: the first bad label ends it. *)
Definition Name_from_labels (ls : list (list Z)) : result Error Name :=
  if existsb label_bad ls then Err BadName
  else
    let name := mkName ls in
    if (MAX_NAME_LEN <? wire_len name)%nat then Err NameTooLong else Ok name.

Definition Name_parse (s : list Z) : result Error Name :=
  let s := strip_suffix 46 s in
  if bool_decide (s = []) then Ok Name_root
  else
    let ls := split_on 46 s in
    if existsb label_bad ls then Err BadName
    else
      let name := mkName ls in
      if (MAX_NAME_LEN <? wire_len name)%nat then Err NameTooLong else Ok name.

(** [PartialEq::eq]. *)
Definition Name_eqb (a b : Name) : bool :=
  (length (labels a) =? length (labels b))%nat &&
  forallb (fun '(x, y) => eq_ignore_ascii_case x y) (zip (labels a) (labels b)).

(** What [Hash::hash] feeds the hasher. *)
Inductive HashWrite : Type :=
| WriteUsize (n : nat)
| WriteU8 (b : Z).

Definition Name_hash (n : Name) : list HashWrite :=
  WriteUsize (length (labels n)) ::
  concat (map (fun l => map (fun b => WriteU8 (to_ascii_lowercase b)) l ++ [WriteU8 255])
              (labels n)).

Definition ends_with (n suffix : Name) : bool :=
  if (length (labels n) <? length (labels suffix))%nat then false
  else
    let skip := (length (labels n) - length (labels suffix))%nat in
    forallb (fun '(a, b) => eq_ignore_ascii_case a b)
            (zip (drop skip (labels n)) (labels suffix)).

Definition Name_join (n suffix : Name) : result Error Name :=
  Name_from_labels (labels n ++ labels suffix).

Definition to_lowercase (n : Name) : Name := mkName (map lower (labels n)).

(** ** Presentation form *)

Definition fmt_dec3 (b : Z) : list Z :=
  [48 + b / 100; 48 + (b / 10) mod 10; 48 + b mod 10].

Definition fmt_label_byte (b : Z) : list Z :=
  if (b =? 46) || (b =? 92) then [92; b]
  else if (33 <=? b) && (b <=? 126) then [b]
  else 92 :: fmt_dec3 b.

Definition Name_to_string (n : Name) : list Z :=
  if bool_decide (labels n = []) then [46]
  else join_with 46 (map (fun l => concat (map fmt_label_byte l)) (labels n)).

(** ** Reverse-mapping names *)

Definition octet (o : list Z) (i : nat) : Z := default 0 (o !! i).

Definition reverse_v4_text (addr : Ipv4Addr) : list Z :=
  let o := octets_v4 addr in
  join_with 46 [fmt_dec (octet o 3); fmt_dec (octet o 2); fmt_dec (octet o 1);
                fmt_dec (octet o 0); bytes_of "in-addr"; bytes_of "arpa"].

Definition reverse_v4 (addr : Ipv4Addr) : Name :=
  expect Name_root (Name_parse (reverse_v4_text addr)).

Definition reverse_v6_text (addr : Ipv6Addr) : list Z :=
  concat (map (fun b => [fmt_nibble (Z.land b 15); 46; fmt_nibble (Z.shiftr b 4); 46])
              (rev (octets_v6 addr)))
  ++ bytes_of "ip6.arpa".

Definition reverse_v6 (addr : Ipv6Addr) : Name :=
  expect Name_root (Name_parse (reverse_v6_text addr)).

Definition in_addr_arpa : Name := expect Name_root (Name_parse (bytes_of "in-addr.arpa")).
Definition ip6_arpa : Name := expect Name_root (Name_parse (bytes_of "ip6.arpa")).

(** The octet array [o], filled from its last slot down; [None] is the early
    return on a label that is not a number. *)
Fixpoint reverse_octets (i : nat) (ls : list (list Z)) (o : list Z) : option (list Z) :=
  match ls with
  | [] => Some o
  | l :: ls' =>
      match parse_uint 8 l with
      | Some v => reverse_octets (S i) ls' (<[(3 - i)%nat := v]> o)
      | None => None
      end
  end.

Fixpoint reverse_nibbles (i : nat) (ls : list (list Z)) (o : list Z) : option (list Z) :=
  match ls with
  | [] => Some o
  | l :: ls' =>
      match l with
      | [c] =>
          match hex_digit c with
          | Some nibble =>
              let byte := (15 - i / 2)%nat in
              let old := octet o byte in
              let new := if (i mod 2 =? 0)%nat then Z.lor old nibble
                         else Z.lor old (wrap 8 (Z.shiftl nibble 4)) in
              reverse_nibbles (S i) ls' (<[byte := new]> o)
          | None => None
          end
      | _ => None
      end
  end.

Definition reverse_address (n : Name) : option IpAddr :=
  if ends_with n in_addr_arpa && (length (labels n) =? 6)%nat then
    match reverse_octets 0 (take 4 (labels n)) (replicate 4 0) with
    | Some o => Some (V4 (from_be o))
    | None => None
    end
  else if ends_with n ip6_arpa && (length (labels n) =? 34)%nat then
    match reverse_nibbles 0 (take 32 (labels n)) (replicate 16 0) with
    | Some o => Some (V6 (from_be o))
    | None => None
    end
  else None.

(** ** 0x20 case randomisation

    The bit source is the stream [bits]; only letters consume a bit, in order,
    and the number consumed is threaded through. *)

Fixpoint randomise_label (bits : nat -> bool) (k : nat) (l : list Z) : list Z * nat :=
  match l with
  | [] => ([], k)
  | b :: l' =>
      if is_ascii_alphabetic b then
        let '(r, k') := randomise_label bits (S k) l' in
        ((if bits k then Z.lxor b 32 else b) :: r, k')
      else
        let '(r, k') := randomise_label bits k l' in (b :: r, k')
  end.

Fixpoint randomise_labels (bits : nat -> bool) (k : nat) (ls : list (list Z))
  : list (list Z) * nat :=
  match ls with
  | [] => ([], k)
  | l :: ls' =>
      let '(r, k') := randomise_label bits k l in
      let '(rs, k'') := randomise_labels bits k' ls' in
      (r :: rs, k'')
  end.

Definition randomise_case (bits : nat -> bool) (n : Name) : Name :=
  mkName (randomise_labels bits 0 (labels n)).1.

(** ** Wire form *)

Definition Name_write (n : Name) (out : list Z) : list Z :=
  foldl (fun out l => out ++ [wrap 8 (Z.of_nat (length l))] ++ l) out (labels n) ++ [0].

(** The loop of [read].  [None] is "out of fuel"; [end_] is the position after
    the first pointer. *)
Fixpoint read_loop (fuel : nat) (msg : list Z) (ls : list (list Z)) (total p : nat)
    (end_ : option nat) (hops : nat) : option (result Error (Name * nat)) :=
  match fuel with
  | O => None
  | S fuel =>
      match msg !! p with
      | None => Some (Err Truncated)
      | Some len =>
          let tag := Z.land len 192 in
          if tag =? 0 then
            let p := (p + 1)%nat in
            if len =? 0 then Some (Ok (mkName ls, default p end_))
            else
              let n := Z.to_nat len in
              match slice_get msg p (p + n) with
              | None => Some (Err Truncated)
              | Some label =>
                  let total := (total + (n + 1))%nat in
                  if (MAX_NAME_LEN <? total + 1)%nat then Some (Err NameTooLong)
                  else read_loop fuel msg (ls ++ [label]) total (p + n) end_ hops
              end
          else if tag =? 192 then
            match msg !! (p + 1)%nat with
            | None => Some (Err Truncated)
            | Some lo =>
                let target := Z.to_nat (Z.lor (Z.shiftl (Z.land len 63) 8) lo) in
                let end_ := match end_ with None => Some (p + 2)%nat | Some _ => end_ end in
                if (p <=? target)%nat then Some (Err BadPointer)
                else
                  let hops := (hops + 1)%nat in
                  if (64 <? hops)%nat then Some (Err BadPointer)
                  else read_loop fuel msg ls total target end_ hops
            end
          else Some (Err BadLabel)
      end
  end.

(** At most 127 labels and 64 pointers, and one last iteration. *)
Definition READ_FUEL : nat := 192.

Definition Name_read (msg : list Z) (pos : nat) : result Error (Name * nat) :=
  default (Err BadPointer) (read_loop READ_FUEL msg [] 0 pos None 0).

(** ** Well-formed names

    What [from_labels] accepts and [write] can encode. *)

Definition label_ok (l : list Z) : Prop := (1 <= length l <= MAX_LABEL_LEN)%nat /\ bytes_ok l.

Definition Name_wf (n : Name) : Prop :=
  Forall label_ok (labels n) /\ (wire_len n <= MAX_NAME_LEN)%nat.

#[export] Instance Name_wf_dec n : Decision (Name_wf n).
Proof. unfold Name_wf, label_ok. apply _. Defined.

(** ** Equality up to case *)

Definition lower_labels (n : Name) : list (list Z) := map lower (labels n).

Definition Name_equiv (a b : Name) : Prop := lower_labels a = lower_labels b.
Infix "≃" := Name_equiv (at level 70) : resolvd_scope.

#[export] Instance Name_equiv_equivalence : Equivalence Name_equiv.
Proof. unfold Name_equiv. split; [done|by intros ??|by intros ???->]. Qed.

#[export] Instance Name_equiv_dec a b : Decision (a ≃ b).
Proof. unfold Name_equiv. apply _. Defined.

Lemma zip_ignore_case xs ys :
  length xs = length ys ->
  forallb (fun '(x, y) => eq_ignore_ascii_case x y) (zip xs ys) = true <->
  map lower xs = map lower ys.
Proof.
  revert ys. induction xs as [|x xs IH]; intros [|y ys] Hl; simplify_eq/=; [done|].
  rewrite andb_true_iff, (IH ys) by done. unfold eq_ignore_ascii_case.
  rewrite bool_decide_eq_true. split; [by intros [-> ->]|by intros [= -> ->]].
Qed.

Lemma Name_eqb_spec a b : Name_eqb a b = true <-> a ≃ b.
Proof.
  unfold Name_eqb, Name_equiv, lower_labels. rewrite andb_true_iff, Nat.eqb_eq. split.
  - intros [Hl H]. by apply zip_ignore_case.
  - intros H. assert (length (labels a) = length (labels b)) as Hl.
    { apply (f_equal length) in H. by rewrite !length_map in H. }
    split; [done|by apply zip_ignore_case].
Qed.

Lemma Name_eqb_decide a b : Name_eqb a b = bool_decide (a ≃ b).
Proof. apply eq_true_iff_eq. by rewrite Name_eqb_spec, bool_decide_eq_true. Qed.

Lemma Name_eqb_refl a : Name_eqb a a = true.
Proof. by apply Name_eqb_spec. Qed.

Lemma lower_labels_lowercase n : lower_labels (to_lowercase n) = lower_labels n.
Proof.
  unfold lower_labels, to_lowercase; simpl. rewrite map_map. apply map_ext, lower_idem.
Qed.

Lemma to_lowercase_equiv n : to_lowercase n ≃ n.
Proof. apply lower_labels_lowercase. Qed.

(** Two names are equal exactly when their lowercase forms, the cache keys,
    are the same. *)
Lemma to_lowercase_eq a b : to_lowercase a = to_lowercase b <-> a ≃ b.
Proof. unfold to_lowercase, Name_equiv, lower_labels. split; congruence. Qed.

(** ** [ends_with] is the suffix order up to case *)

Lemma ends_with_spec n s :
  ends_with n s = true <-> lower_labels s `suffix_of` lower_labels n.
Proof.
  unfold ends_with, lower_labels. destruct (Nat.ltb_spec (length (labels n)) (length (labels s))).
  - split; [done|]. intros [k Hk%(f_equal length)].
    rewrite length_app, !length_map in Hk. lia.
  - rewrite zip_ignore_case by (rewrite length_drop; lia). split.
    + intros Hd. exists (map lower (take (length (labels n) - length (labels s)) (labels n))).
      by rewrite <- Hd, <- map_app, take_drop.
    + intros [k Hk].
      assert (length k = length (labels n) - length (labels s))%nat as Hlk.
      { apply (f_equal length) in Hk. rewrite length_app, !length_map in Hk. lia. }
      change (map lower (drop ?i ?l)) with (lower <$> drop i l).
      rewrite fmap_drop, <- Hlk. change (lower <$> labels n) with (map lower (labels n)).
      by rewrite Hk, drop_app_length.
Qed.

#[export] Instance ends_with_proper : Proper (Name_equiv ==> Name_equiv ==> eq) ends_with.
Proof.
  intros a a' Ha b b' Hb. apply eq_true_iff_eq. rewrite !ends_with_spec.
  unfold Name_equiv in *. by rewrite Ha, Hb.
Qed.

#[export] Instance Name_eqb_proper : Proper (Name_equiv ==> Name_equiv ==> eq) Name_eqb.
Proof.
  intros a a' Ha b b' Hb. apply eq_true_iff_eq. rewrite !Name_eqb_spec. by rewrite Ha, Hb.
Qed.

Lemma length_lower_labels n : length (lower_labels n) = length (labels n).
Proof. apply length_map. Qed.

#[export] Instance label_count_proper : Proper (Name_equiv ==> eq) label_count.
Proof.
  intros a b H. unfold label_count. by rewrite <- (length_lower_labels a), H, length_lower_labels.
Qed.

Lemma ends_with_refl n : ends_with n n = true.
Proof. by apply ends_with_spec. Qed.

Lemma ends_with_trans a b c : ends_with a b = true -> ends_with b c = true -> ends_with a c = true.
Proof. rewrite !ends_with_spec. intros. by etrans. Qed.

Lemma ends_with_join n s : ends_with (mkName (labels n ++ labels s)) s = true.
Proof. apply ends_with_spec. unfold lower_labels; simpl. rewrite map_app. by eexists. Qed.

(** Two domains that a name ends with are comparable: the longer one ends with
    the shorter. *)
Lemma ends_with_total n a b :
  ends_with n a = true -> ends_with n b = true ->
  (label_count b <= label_count a)%nat -> ends_with a b = true.
Proof.
  rewrite !ends_with_spec. unfold label_count.
  rewrite <- (length_lower_labels a), <- (length_lower_labels b).
  generalize (lower_labels a) (lower_labels b). intros la lb [ka Ha] [kb Hb] Hle.
  rewrite Ha in Hb.
  assert (length kb = length ka + (length la - length lb))%nat as Hk.
  { apply (f_equal length) in Hb. rewrite !length_app in Hb. lia. }
  exists (take (length la - length lb) la).
  apply (f_equal (drop (length kb))) in Hb. rewrite drop_app_length, Hk in Hb.
  rewrite <- drop_drop, drop_app_length in Hb. rewrite <- Hb at 2. by rewrite take_drop.
Qed.

(** ** Construction gives well-formed names *)

Lemma label_bad_false l : label_bad l = false <-> (1 <= length l <= MAX_LABEL_LEN)%nat.
Proof.
  unfold label_bad. rewrite orb_false_iff, bool_decide_eq_false, Nat.ltb_ge.
  destruct l; simpl; split; [by intros [? ?]|lia|lia|]. intros [? ?]. split; [done|lia].
Qed.

Lemma existsb_label_bad ls :
  existsb label_bad ls = false <-> Forall (fun l => 1 <= length l <= MAX_LABEL_LEN)%nat ls.
Proof.
  induction ls as [|l ls IH]; simpl; [by split; constructor|].
  by rewrite orb_false_iff, label_bad_false, IH, Forall_cons.
Qed.

Lemma Name_from_labels_ok ls n :
  Name_from_labels ls = Ok n <->
  n = mkName ls /\ Forall (fun l => 1 <= length l <= MAX_LABEL_LEN)%nat ls /\
  (wire_len (mkName ls) <= MAX_NAME_LEN)%nat.
Proof.
  rewrite <- existsb_label_bad, <- Nat.ltb_ge. unfold Name_from_labels.
  destruct (existsb _ _); [split; [done|by intros (_ & ? & _)]|]. cbv zeta.
  destruct (_ <? _)%nat; split; try done; [by intros (_ & _ & ?)|by intros [= <-]|by intros [-> _]].
Qed.

Lemma Name_from_labels_wf ls n :
  Forall bytes_ok ls -> Name_from_labels ls = Ok n -> Name_wf n.
Proof.
  intros Hb (-> & Hl & Hw)%Name_from_labels_ok. split; [|done]. simpl.
  rewrite Forall_forall in *. intros l Hin. split; auto.
Qed.

Lemma Name_join_wf a b n : Name_wf a -> Name_wf b -> Name_join a b = Ok n -> Name_wf n.
Proof.
  intros [Ha _] [Hb _]. apply Name_from_labels_wf.
  apply Forall_app; split; eapply Forall_impl; try done; by intros ? [? ?].
Qed.

(** [parse] is [from_labels] on the dot-separated words of the text without one
    trailing dot. *)
Lemma Name_parse_from_labels s :
  strip_suffix 46 s <> [] ->
  Name_parse s = Name_from_labels (split_on 46 (strip_suffix 46 s)).
Proof. intros H. unfold Name_parse. by rewrite bool_decide_false. Qed.

Lemma Name_root_wf : Name_wf Name_root.
Proof. split; [constructor|unfold wire_len; simpl; unfold MAX_NAME_LEN; lia]. Qed.

Lemma strip_suffix_ok c s : bytes_ok s -> bytes_ok (strip_suffix c s).
Proof.
  intros H. unfold strip_suffix. repeat case_match; try done.
  destruct (decide (s = [])) as [->|Hs]; [done|].
  rewrite (app_removelast_last 0 Hs) in H. by apply bytes_ok_app in H as [? _].
Qed.

Lemma Name_parse_wf s n : bytes_ok s -> Name_parse s = Ok n -> Name_wf n.
Proof.
  intros Hs. destruct (decide (strip_suffix 46 s = [])) as [E|E].
  - unfold Name_parse. rewrite E. intros [= <-]. apply Name_root_wf.
  - rewrite Name_parse_from_labels by done. apply Name_from_labels_wf.
    by apply split_on_forall, strip_suffix_ok.
Qed.

Lemma to_lowercase_wf n : Name_wf n -> Name_wf (to_lowercase n).
Proof.
  intros [Hl Hw]. split.
  - simpl. apply Forall_map. eapply Forall_impl; [done|]. intros l [Hlen Hb]. simpl.
    split; [by rewrite length_lower|]. apply Forall_map. eapply Forall_impl; [done|]. eauto with resolvd.
  - unfold wire_len, to_lowercase in *; simpl. rewrite map_map.
    rewrite (map_ext _ (fun l => length l + 1)%nat); [done|]. intros. by rewrite length_lower.
Qed.

Lemma equiv_wire_len a b : a ≃ b -> wire_len a = wire_len b.
Proof.
  unfold Name_equiv, lower_labels, wire_len. intros H. f_equal.
  apply (f_equal (map (fun l : list Z => length l + 1)%nat)) in H.
  rewrite !map_map in H. revert H. erewrite (map_ext _ (fun l => length l + 1)%nat),
    (map_ext (fun x => length (lower x) + 1)%nat (fun l => length l + 1)%nat).
  - by intros ->.
  - intros. by rewrite length_lower.
  - intros. by rewrite length_lower.
Qed.

(** ** Presentation round trip *)

(** A byte that [Display] writes as itself. *)
Definition plain_byte (b : Z) : Prop := 33 <= b <= 126 /\ b <> 46 /\ b <> 92.

#[export] Instance plain_byte_dec b : Decision (plain_byte b).
Proof. unfold plain_byte. apply _. Defined.

Lemma fmt_plain l : Forall plain_byte l -> concat (map fmt_label_byte l) = l.
Proof.
  induction 1 as [|b l (Hb & H1 & H2) Hl IH]; [done|]. simpl. rewrite IH.
  unfold fmt_label_byte. apply Z.eqb_neq in H1, H2. rewrite H1, H2. simpl.
  destruct Hb as [Hb1 Hb2]. apply Z.leb_le in Hb1, Hb2. by rewrite Hb1, Hb2.
Qed.

Lemma join_nonempty c ws : ws <> [] -> Forall (fun w => w <> []) ws -> join_with c ws <> [].
Proof. destruct ws as [|w [|w' ws]]; simpl; [done|by intros _ [? _]%Forall_cons|by destruct w]. Qed.

Lemma to_string_plain n :
  labels n <> [] -> Forall (Forall plain_byte) (labels n) ->
  Name_to_string n = join_with 46 (labels n).
Proof.
  intros Hne Hp. unfold Name_to_string. rewrite bool_decide_false by done. f_equal.
  rewrite <- (map_id (labels n)) at 2. apply map_ext_in. intros l Hl.
  apply fmt_plain. rewrite Forall_forall in Hp. by apply Hp, list_elem_of_In.
Qed.

Lemma parse_join ls :
  ls <> [] -> Forall (fun l => 46 ∉ l) ls -> Forall (fun l => l <> []) ls ->
  Name_parse (join_with 46 ls) = Name_from_labels ls.
Proof.
  intros Hne Hdot Hnil.
  assert (strip_suffix 46 (join_with 46 ls) = join_with 46 ls) as Hs.
  { apply strip_suffix_id. destruct (last ls) as [w|] eqn:E; [|by apply last_None in E].
    rewrite (last_join _ _ w) by done. intros Hw%last_Some_elem_of.
    apply last_Some_elem_of in E. rewrite Forall_forall in Hdot. by apply (Hdot w). }
  rewrite Name_parse_from_labels; rewrite Hs; [by rewrite split_join|by apply join_nonempty].
Qed.

Lemma parse_to_string n :
  Name_wf n -> Forall (Forall plain_byte) (labels n) ->
  Name_parse (Name_to_string n) = Ok n.
Proof.
  intros [Hl Hw] Hp. destruct (decide (labels n = [])) as [E|E].
  - destruct n as [ls]; simpl in *; subst. by vm_compute.
  - rewrite to_string_plain, parse_join; try done.
    + apply Name_from_labels_ok. split; [by destruct n|]. split; [|by destruct n].
      apply (Forall_impl _ _ _ Hl). by intros l [? ?].
    + apply (Forall_impl _ _ _ Hp). intros l Hpl Hin. rewrite Forall_forall in Hpl.
      apply Hpl in Hin as (_ & ? & _). done.
    + apply (Forall_impl _ _ _ Hl). intros l [? ?] ->. simpl in *. lia.
Qed.

(** ** Hashing agrees with equality *)

Lemma hash_label_lower l :
  map (fun b => WriteU8 (to_ascii_lowercase b)) l = map WriteU8 (lower l).
Proof. unfold lower. by rewrite map_map. Qed.

Lemma Name_hash_equiv a b : a ≃ b -> Name_hash a = Name_hash b.
Proof.
  unfold Name_equiv, lower_labels, Name_hash. intros H. f_equal.
  - f_equal. by rewrite <- (length_map lower (labels a)), H, length_map.
  - apply (f_equal (fun ls => concat (map (fun l => map WriteU8 l ++ [WriteU8 255]) ls))) in H.
    rewrite !map_map in H.
    by setoid_rewrite hash_label_lower.
Qed.

(** ** 0x20 randomisation *)

Lemma randomise_label_lower bits k l :
  lower (randomise_label bits k l).1 = lower l.
Proof.
  revert k. induction l as [|b l IH]; intros k; simpl; [done|].
  destruct (is_ascii_alphabetic b) eqn:E.
  - specialize (IH (S k)). destruct (randomise_label bits (S k) l); simpl in *.
    rewrite IH. f_equal. destruct (bits k); [by apply lower_flip|done].
  - specialize (IH k). destruct (randomise_label bits k l); simpl in *. by rewrite IH.
Qed.

Lemma randomise_labels_lower bits k ls :
  map lower (randomise_labels bits k ls).1 = map lower ls.
Proof.
  revert k. induction ls as [|l ls IH]; intros k; simpl; [done|].
  pose proof (randomise_label_lower bits k l) as Hl.
  destruct (randomise_label bits k l) as [r k']. specialize (IH k').
  destruct (randomise_labels bits k' ls) as [rs k'']. simpl in *. by rewrite Hl, IH.
Qed.

Lemma randomise_case_equiv bits n : randomise_case bits n ≃ n.
Proof. apply randomise_labels_lower. Qed.

Lemma randomise_label_len bits k l :
  length (randomise_label bits k l).1 = length l /\
  (k <= (randomise_label bits k l).2 <= k + length l)%nat.
Proof.
  revert k. induction l as [|b l IH]; intros k; simpl; [lia|].
  destruct (is_ascii_alphabetic b).
  - specialize (IH (S k)). destruct (randomise_label bits (S k) l); simpl in *. lia.
  - specialize (IH k). destruct (randomise_label bits k l); simpl in *. lia.
Qed.

Lemma randomise_labels_len bits k ls :
  map length (randomise_labels bits k ls).1 = map length ls /\
  ((randomise_labels bits k ls).2 <= k + sum_list (map length ls))%nat.
Proof.
  revert k. induction ls as [|l ls IH]; intros k; simpl; [split; [done|lia]|].
  pose proof (randomise_label_len bits k l) as [Hl Hk].
  destruct (randomise_label bits k l) as [r k']. specialize (IH k').
  destruct (randomise_labels bits k' ls) as [rs k'']. simpl in *.
  destruct IH as [IH1 IH2]. rewrite Hl, IH1. split; [done|lia].
Qed.

(** Flipping the case of a byte keeps it a byte. *)
Lemma lxor_u8 b : is_u8 b -> is_u8 (Z.lxor b 32).
Proof. intros Hb%is_u8_le. pattern b. by_range (256%nat). Qed.

Lemma randomise_label_ok bits k l : bytes_ok l -> bytes_ok (randomise_label bits k l).1.
Proof.
  intros H. revert k. induction H as [|b l Hb Hl IH]; intros k; simpl; [constructor|].
  destruct (is_ascii_alphabetic b).
  - specialize (IH (S k)). destruct (randomise_label bits (S k) l); simpl in *.
    constructor; [|done]. destruct (bits k); [by apply lxor_u8|done].
  - specialize (IH k). destruct (randomise_label bits k l); simpl in *. by constructor.
Qed.

Lemma randomise_labels_ok bits k ls :
  Forall label_ok ls -> Forall label_ok (randomise_labels bits k ls).1.
Proof.
  intros H. revert k. induction H as [|l ls [Hlen Hb] Hls IH]; intros k; simpl; [constructor|].
  pose proof (randomise_label_len bits k l) as [Hl _].
  pose proof (randomise_label_ok bits k l Hb) as Hr.
  destruct (randomise_label bits k l) as [r k']. specialize (IH k').
  destruct (randomise_labels bits k' ls) as [rs k'']. simpl in *.
  constructor; [split; [by rewrite Hl|done]|done].
Qed.

Lemma randomise_case_wf bits n : Name_wf n -> Name_wf (randomise_case bits n).
Proof.
  intros [Hl Hw]. split; [by apply randomise_labels_ok|].
  by rewrite (equiv_wire_len _ _ (randomise_case_equiv bits n)).
Qed.

Lemma wire_len_sum n : (wire_len n = sum_list (map length (labels n)) + length (labels n) + 1)%nat.
Proof. unfold wire_len. induction (labels n); simpl in *; lia. Qed.

(** The case bits a name consumes fit the 32 random bytes after the ID. *)
Lemma randomise_bits_bound bits n :
  (wire_len n <= MAX_NAME_LEN)%nat -> ((randomise_labels bits 0 (labels n)).2 < 256)%nat.
Proof.
  intros Hw. pose proof (randomise_labels_len bits 0 (labels n)) as [_ H].
  rewrite wire_len_sum in Hw. unfold MAX_NAME_LEN in Hw. lia.
Qed.

(** ** Reading names *)

Lemma plain_tag len : is_u8 len -> Z.land len 192 = 0 -> 0 <= len <= 63.
Proof.
  intros Hb%is_u8_le. pattern len. by_range (256%nat).
Qed.

Lemma lookup_u8 msg p len : bytes_ok msg -> msg !! p = Some len -> is_u8 len.
Proof. apply Forall_lookup_1. Qed.

(** Every iteration adds a label of at least two wire bytes or follows a
    pointer, so the fuel lasts. *)
Lemma read_loop_fuel fuel msg ls total p end_ hops :
  bytes_ok msg -> (total <= 254)%nat -> (hops <= 64)%nat ->
  ((254 - total) + 2 * (64 - hops) + 2 <= 2 * fuel)%nat ->
  read_loop fuel msg ls total p end_ hops <> None.
Proof.
  intros Hmsg. revert ls total p end_ hops.
  induction fuel as [|fuel IH]; intros ls total p end_ hops Ht Hh Hf; [lia|].
  cbn [read_loop]. destruct (msg !! p) as [len|] eqn:Elen; [|done].
  pose proof (lookup_u8 _ _ _ Hmsg Elen) as Hlen.
  destruct (Z.eqb_spec (Z.land len 192) 0) as [Htag|_].
  - pose proof (plain_tag _ Hlen Htag).
    destruct (Z.eqb_spec len 0); [done|]. case_step; [|done].
    unfold MAX_NAME_LEN. destruct (Nat.ltb_spec 255 (total + (Z.to_nat len + 1) + 1)); [done|].
    apply IH; lia.
  - case_step; [|done]. case_step; [|done]. case_step; [done|].
    destruct (Nat.ltb_spec 64 (hops + 1)); [done|]. apply IH; lia.
Qed.

Lemma read_loop_done msg pos :
  bytes_ok msg -> read_loop READ_FUEL msg [] 0 pos None 0 = Some (Name_read msg pos).
Proof.
  intros Hmsg. unfold Name_read.
  destruct (read_loop READ_FUEL msg [] 0 pos None 0) eqn:E; [done|].
  by destruct (read_loop_fuel READ_FUEL msg [] 0 pos None 0 Hmsg ltac:(lia) ltac:(lia)
    ltac:(unfold READ_FUEL; lia)).
Qed.

Lemma wire_len_snoc ls l : wire_len (mkName (ls ++ [l])) = (wire_len (mkName ls) + length l + 1)%nat.
Proof. rewrite !wire_len_sum; simpl. induction ls; simpl in *; lia. Qed.

(** What the loop guarantees of the name and of the position it returns. *)
Lemma read_loop_inv fuel msg ls total p end_ hops n next pos :
  bytes_ok msg -> Forall label_ok ls -> wire_len (mkName ls) = (total + 1)%nat ->
  (total <= 254)%nat ->
  match end_ with None => pos <= p | Some e => pos < e <= length msg end%nat ->
  read_loop fuel msg ls total p end_ hops = Some (Ok (n, next)) ->
  Name_wf n /\ (pos < next <= length msg)%nat.
Proof.
  intros Hmsg. revert ls total p end_ hops.
  induction fuel as [|fuel IH]; intros ls total p end_ hops Hls Hw Ht Hend Hr; [done|].
  cbn [read_loop] in Hr. destruct (msg !! p) as [len|] eqn:Elen; [|done].
  pose proof (lookup_u8 _ _ _ Hmsg Elen) as Hlen.
  pose proof (lookup_lt_Some _ _ _ Elen) as Hp.
  destruct (Z.eqb_spec (Z.land len 192) 0) as [Htag|_].
  - pose proof (plain_tag _ Hlen Htag).
    destruct (Z.eqb_spec len 0) as [->|Hnz].
    + simplify_eq/=. split; [split; [done|unfold MAX_NAME_LEN; lia]|].
      destruct end_; simpl in *; lia.
    + destruct (slice_get msg (p + 1) (p + 1 + Z.to_nat len)) as [label|] eqn:Es; [|done].
      pose proof (slice_get_length _ _ _ _ Es) as Hll.
      destruct (Nat.ltb_spec MAX_NAME_LEN (total + (Z.to_nat len + 1) + 1)) as [|Hmax]; [done|].
      unfold MAX_NAME_LEN in Hmax. revert Hr. apply IH; try lia.
      * apply Forall_app; split; [done|]. apply Forall_singleton.
        split; [unfold MAX_LABEL_LEN; lia|]. by apply (slice_get_forall _ _ _ _ _ Hmsg Es).
      * rewrite wire_len_snoc. lia.
      * destruct end_; lia.
  - destruct (Z.eqb_spec (Z.land len 192) 192); [|done].
    destruct (msg !! (p + 1)%nat) eqn:Elo; [|done].
    pose proof (lookup_lt_Some _ _ _ Elo) as Hp1.
    destruct (Nat.leb_spec p (Z.to_nat (Z.lor (Z.shiftl (Z.land len 63) 8) z))); [done|].
    destruct (64 <? hops + 1)%nat; [done|].
    revert Hr. apply IH; try done. destruct end_; lia.
Qed.

Lemma Name_read_inv msg pos n next :
  bytes_ok msg -> Name_read msg pos = Ok (n, next) ->
  Name_wf n /\ (pos < next <= length msg)%nat.
Proof.
  intros Hmsg Hr. pose proof (read_loop_done msg pos Hmsg) as H. rewrite Hr in H.
  by apply (read_loop_inv READ_FUEL msg [] 0 pos None 0 n next pos); [..|lia| |].
Qed.

(** The wire form of a name. *)
Definition name_wire (n : Name) : list Z :=
  concat (map (fun l => Z.of_nat (length l) :: l) (labels n)) ++ [0].

Lemma Name_write_wire n out : Name_wf n -> Name_write n out = out ++ name_wire n.
Proof.
  intros [Hl _]. unfold Name_write, name_wire. rewrite app_assoc. f_equal.
  revert out. induction Hl as [|l ls [Hlen _] Hls IH]; intros out; simpl; [by rewrite app_nil_r|].
  rewrite IH, wrap_small by (unfold in_width, MAX_LABEL_LEN in *; lia).
  by rewrite <- !app_assoc.
Qed.

Lemma length_name_wire n : length (name_wire n) = wire_len n.
Proof.
  unfold name_wire, wire_len. rewrite length_app. simpl. f_equal.
  induction (labels n); simpl; [done|]. rewrite length_app. lia.
Qed.

Lemma name_wire_ok n : Name_wf n -> bytes_ok (name_wire n).
Proof.
  intros [Hl _]. unfold name_wire. apply bytes_ok_app. split; [|by repeat constructor].
  induction Hl as [|l ls [Hlen Hb] Hls IH]; simpl; [constructor|].
  constructor; [unfold in_width, MAX_LABEL_LEN in *; lia|]. by apply bytes_ok_app.
Qed.

Lemma small_tag len : 0 <= len <= 63 -> Z.land len 192 = 0.
Proof. intros H. pattern len. by_range (64%nat). Qed.

Lemma read_loop_write todo : forall fuel pre post acc total end_ hops,
  Forall label_ok todo ->
  (total + wire_len (mkName todo) <= MAX_NAME_LEN)%nat -> (length todo < fuel)%nat ->
  read_loop fuel (pre ++ name_wire (mkName todo) ++ post) acc total (length pre) end_ hops
  = Some (Ok (mkName (acc ++ todo), default (length pre + wire_len (mkName todo))%nat end_)).
Proof.
  induction todo as [|l todo IH]; intros fuel pre post acc total end_ hops Hok Ht Hf;
    (destruct fuel as [|fuel]; [simpl in *; lia|]).
  - cbn [read_loop]. unfold name_wire; simpl. rewrite lookup_mid by done. simpl.
    by rewrite app_nil_r.
  - apply Forall_cons in Hok as [[Hlen Hb] Hok]. unfold MAX_LABEL_LEN in Hlen.
    assert (pre ++ name_wire (mkName (l :: todo)) ++ post =
            pre ++ Z.of_nat (length l) :: (l ++ (name_wire (mkName todo) ++ post))) as Hsplit.
    { unfold name_wire; simpl. by rewrite <- !app_assoc. }
    rewrite wire_len_sum in Ht. simpl in Ht.
    cbn [read_loop]. rewrite Hsplit, lookup_mid by done.
    rewrite small_tag by lia. simpl (0 =? 0).
    destruct (Z.eqb_spec (Z.of_nat (length l)) 0); [lia|].
    rewrite Nat2Z.id.
    rewrite cons_middle, app_assoc, slice_get_mid by (rewrite ?length_app; simpl; lia).
    destruct (Nat.ltb_spec MAX_NAME_LEN (total + (length l + 1) + 1)); [lia|].
    rewrite app_assoc, <- (app_assoc pre).
    replace (length pre + 1 + length l)%nat with (length (pre ++ ([Z.of_nat (length l)] ++ l)))
      by (rewrite !length_app; simpl; lia).
    rewrite IH; try done.
    + rewrite <- app_assoc.
      replace (length _ + wire_len _)%nat with (length pre + wire_len (mkName (l :: todo)))%nat;
        [done|]. rewrite !wire_len_sum, !length_app. simpl. lia.
    + rewrite wire_len_sum. simpl. lia.
    + simpl in Hf. lia.
Qed.

Lemma Forall_label_sum ls : Forall label_ok ls -> (length ls <= sum_list (map length ls))%nat.
Proof. induction 1 as [|l ls [? _] Hls IH]; simpl in *; lia. Qed.

Lemma Name_read_write pre n post :
  Name_wf n ->
  Name_read (pre ++ name_wire n ++ post) (length pre) = Ok (n, (length pre + wire_len n)%nat).
Proof.
  intros [Hl Hw]. unfold Name_read. destruct n as [ls]. simpl in Hl.
  rewrite read_loop_write; try done.
  rewrite wire_len_sum in Hw. pose proof (Forall_label_sum _ Hl). simpl in *.
  unfold MAX_NAME_LEN, READ_FUEL in *. lia.
Qed.

(** ** Reverse names *)

Definition v4_labels (addr : Ipv4Addr) : list (list Z) :=
  let o := octets_v4 addr in
  [fmt_dec (octet o 3); fmt_dec (octet o 2); fmt_dec (octet o 1); fmt_dec (octet o 0);
   bytes_of "in-addr"; bytes_of "arpa"].

Lemma octet_u8 o i : bytes_ok o -> is_u8 (octet o i).
Proof.
  intros H. unfold octet. destruct (o !! i) eqn:E; simpl; [by eapply lookup_u8|].
  apply is_u8_le. lia.
Qed.

Ltac u8_labels a :=
  pose proof (fmt_u8_label (octet (octets_v4 a) 0) ltac:(apply octet_u8, be_bytes_ok)) as (? & ? & ?);
  pose proof (fmt_u8_label (octet (octets_v4 a) 1) ltac:(apply octet_u8, be_bytes_ok)) as (? & ? & ?);
  pose proof (fmt_u8_label (octet (octets_v4 a) 2) ltac:(apply octet_u8, be_bytes_ok)) as (? & ? & ?);
  pose proof (fmt_u8_label (octet (octets_v4 a) 3) ltac:(apply octet_u8, be_bytes_ok)) as (? & ? & ?).

Lemma reverse_v4_fits a : Name_parse (reverse_v4_text a) = Ok (mkName (v4_labels a)).
Proof.
  unfold reverse_v4_text. u8_labels a.
  rewrite parse_join; try done.
  - apply Name_from_labels_ok. split; [done|]. split.
    + unfold MAX_LABEL_LEN. forall_list; simpl; lia.
    + rewrite wire_len_sum. unfold MAX_NAME_LEN. simpl. lia.
  - forall_list; cbv beta; first [assumption | by_decide].
  - forall_list; cbv beta; try done; intros E; rewrite E in *; simpl in *; lia.
Qed.

Lemma reverse_v4_labels a : reverse_v4 a = mkName (v4_labels a).
Proof. unfold reverse_v4. by rewrite reverse_v4_fits. Qed.

Lemma reverse_octets_v4 a :
  reverse_octets 0 (take 4 (v4_labels a)) (replicate 4 0) = Some (octets_v4 a).
Proof.
  unfold v4_labels. cbn [take reverse_octets].
  repeat (rewrite parse_fmt_u8 by apply octet_u8, be_bytes_ok; cbn [reverse_octets]).
  reflexivity.
Qed.

Lemma reverse_address_v4 a : is_u32 a -> reverse_address (reverse_v4 a) = Some (V4 a).
Proof.
  intros Ha. rewrite reverse_v4_labels. unfold reverse_address.
  assert (ends_with (mkName (v4_labels a)) in_addr_arpa = true) as ->.
  { apply ends_with_spec. exists (map lower (take 4 (v4_labels a))). reflexivity. }
  simpl andb. cbn [labels]. rewrite reverse_octets_v4.
  unfold octets_v4. by rewrite be_roundtrip.
Qed.

Definition nibble_labels (bs : list Z) : list (list Z) :=
  concat (map (fun b => [[fmt_nibble (Z.land b 15)]; [fmt_nibble (Z.shiftr b 4)]]) bs).

Definition v6_labels (a : Ipv6Addr) : list (list Z) :=
  nibble_labels (rev (octets_v6 a)) ++ [bytes_of "ip6"; bytes_of "arpa"].

Lemma nibble_labels_cons b bs :
  nibble_labels (b :: bs) =
  [fmt_nibble (Z.land b 15)] :: [fmt_nibble (Z.shiftr b 4)] :: nibble_labels bs.
Proof. done. Qed.

Lemma nibbles_text bs w ws :
  concat (map (fun b => [fmt_nibble (Z.land b 15); 46; fmt_nibble (Z.shiftr b 4); 46]) bs)
    ++ join_with 46 (w :: ws)
  = join_with 46 (nibble_labels bs ++ w :: ws).
Proof.
  induction bs as [|b bs IH]; [done|]. cbn [map concat app]. rewrite IH.
  rewrite nibble_labels_cons.
  by destruct (nibble_labels bs).
Qed.

Lemma nibble_range b : is_u8 b -> 0 <= Z.land b 15 < 16 /\ 0 <= Z.shiftr b 4 < 16.
Proof. intros Hb%is_u8_le. pattern b. by_range (256%nat). Qed.

Lemma nibble_join b : is_u8 b ->
  Z.lor (Z.lor 0 (Z.land b 15)) (wrap 8 (Z.shiftl (Z.shiftr b 4) 4)) = b.
Proof. intros Hb%is_u8_le. pattern b. by_range (256%nat). Qed.

Lemma nibble_labels_forall (P : list Z -> Prop) bs :
  (forall b, 0 <= b < 16 -> P [fmt_nibble b]) -> bytes_ok bs -> Forall P (nibble_labels bs).
Proof.
  intros HP. induction 1 as [|b bs Hb Hbs IH]; [constructor|].
  pose proof (nibble_range b Hb) as [? ?]. by repeat (constructor; [by apply HP|]).
Qed.

Lemma nibble_labels_len bs :
  length (nibble_labels bs) = (2 * length bs)%nat /\
  sum_list (map length (nibble_labels bs)) = (2 * length bs)%nat.
Proof.
  induction bs as [|b bs [IH1 IH2]]; [done|]. rewrite nibble_labels_cons. simpl.
  rewrite IH1, IH2. lia.
Qed.

Lemma octets_v6_ok a : bytes_ok (rev (octets_v6 a)).
Proof. apply Forall_rev, be_bytes_ok. Qed.

Lemma length_octets_v6 a : length (rev (octets_v6 a)) = 16%nat.
Proof. rewrite length_rev. apply length_be_bytes. Qed.

Lemma v6_labels_forall (P : list Z -> Prop) a :
  (forall b, 0 <= b < 16 -> P [fmt_nibble b]) -> P (bytes_of "ip6") -> P (bytes_of "arpa") ->
  Forall P (v6_labels a).
Proof.
  intros. apply Forall_app; split; [|by forall_list].
  apply nibble_labels_forall; [done|apply octets_v6_ok].
Qed.

Lemma reverse_v6_fits a : Name_parse (reverse_v6_text a) = Ok (mkName (v6_labels a)).
Proof.
  unfold reverse_v6_text.
  change (bytes_of "ip6.arpa") with (join_with 46 [bytes_of "ip6"; bytes_of "arpa"]).
  rewrite nibbles_text. fold (v6_labels a). rewrite parse_join.
  - apply Name_from_labels_ok. split; [done|]. split.
    + apply v6_labels_forall; intros; unfold MAX_LABEL_LEN; simpl; lia.
    + rewrite wire_len_sum. cbn [labels]. unfold v6_labels.
      rewrite map_app, sum_list_app, length_app.
      pose proof (nibble_labels_len (rev (octets_v6 a))) as [-> ->].
      rewrite length_octets_v6. unfold MAX_NAME_LEN. simpl. lia.
  - unfold v6_labels. destruct (nibble_labels _); done.
  - apply v6_labels_forall; [|by_decide..].
    intros b Hb. pose proof (fmt_nibble_label b Hb) as [? _]. set_solver.
  - by apply v6_labels_forall.
Qed.

Lemma reverse_v6_labels a : reverse_v6 a = mkName (v6_labels a).
Proof. unfold reverse_v6. by rewrite reverse_v6_fits. Qed.

Lemma reverse_nibbles_spec bs : forall k tail,
  bytes_ok bs -> (length bs + k = 16)%nat ->
  reverse_nibbles (2 * k) (nibble_labels bs) (replicate (16 - k) 0 ++ tail) = Some (rev bs ++ tail).
Proof.
  induction bs as [|b bs IH]; intros k tail Hok Hk.
  { simpl in *. by replace (16 - k)%nat with 0%nat by lia. }
  apply bytes_ok_cons in Hok as [Hb Hok]. simpl in Hk.
  pose proof (nibble_range b Hb) as [Hlo Hhi].
  rewrite nibble_labels_cons.
  cbn [reverse_nibbles]. rewrite !hex_fmt_nibble by done.
  replace (16 - k)%nat with (S (15 - k)) by lia.
  rewrite replicate_S_end, <- app_assoc.
  pose proof (Nat.div_mod_eq (2 * k) 2). pose proof (Nat.mod_upper_bound (2 * k) 2).
  pose proof (Nat.div_mod_eq (S (2 * k)) 2). pose proof (Nat.mod_upper_bound (S (2 * k)) 2).
  assert (2 * k / 2 = k /\ S (2 * k) / 2 = k /\ 2 * k mod 2 = 0 /\ S (2 * k) mod 2 = 1)%nat
    as (-> & -> & -> & ->) by lia.
  simpl Nat.eqb. cbn iota. unfold octet.
  rewrite !(insert_app_r_alt _ _ (15 - k)) by (rewrite length_replicate; lia).
  rewrite length_replicate, Nat.sub_diag. cbn [app list_insert insert].
  rewrite !lookup_app_r by (rewrite length_replicate; lia).
  rewrite length_replicate, Nat.sub_diag. cbn [lookup list_lookup default from_option id].
  rewrite nibble_join by done.
  replace (S (S (2 * k))) with (2 * S k)%nat by lia.
  replace (15 - k)%nat with (16 - S k)%nat by lia.
  rewrite IH by (done || lia). simpl. by rewrite <- app_assoc.
Qed.

Lemma reverse_address_v6 a : is_u128 a -> reverse_address (reverse_v6 a) = Some (V6 a).
Proof.
  intros Ha. rewrite reverse_v6_labels. unfold reverse_address.
  pose proof (nibble_labels_len (rev (octets_v6 a))) as [Hlen _].
  rewrite length_octets_v6 in Hlen.
  assert (length (v6_labels a) = 34%nat) as Hl.
  { unfold v6_labels. rewrite length_app, Hlen. done. }
  cbn [labels]. rewrite Hl. simpl (34 =? 6)%nat. rewrite andb_false_r.
  assert (ends_with (mkName (v6_labels a)) ip6_arpa = true) as ->.
  { apply ends_with_spec. unfold lower_labels, v6_labels; cbn [labels]. rewrite map_app.
    by eexists. }
  simpl andb. unfold v6_labels. rewrite take_app_le, take_ge by lia.
  pose proof (reverse_nibbles_spec (rev (octets_v6 a)) 0 [] (octets_v6_ok a)
    ltac:(by rewrite length_octets_v6)) as Hs.
  rewrite !app_nil_r, rev_involutive in Hs. simpl (16 - 0)%nat in Hs. simpl (2 * 0)%nat in Hs.
  rewrite Hs. unfold octets_v6. by rewrite be_roundtrip.
Qed.

(** ** The presentation form determines the name

    Escaped bytes and the separating dot form a prefix-free code. *)

Definition codeword (c : option Z) : list Z :=
  match c with None => [46] | Some b => fmt_label_byte b end.

Definition symbol_ok (c : option Z) : Prop :=
  match c with None => True | Some b => is_u8 b end.

Definition all_symbols : list (option Z) := None :: map (fun k => Some (Z.of_nat k)) (seq 0 256).

Lemma symbol_ok_elem c : symbol_ok c -> c ∈ all_symbols.
Proof.
  destruct c as [b|]; intros Hb; [right|left]. apply list_elem_of_In, in_map_iff.
  apply is_u8_le in Hb. exists (Z.to_nat b). rewrite Z2Nat.id by lia.
  split; [done|]. apply in_seq. lia.
Qed.

Lemma prefix_free_check :
  forallb (fun x => forallb (fun y =>
    negb (bool_decide (take (length (codeword x)) (codeword y) = codeword x))
    || bool_decide (x = y)) all_symbols) all_symbols = true.
Proof. vm_compute. reflexivity. Qed.

Lemma codeword_prefix_free x y :
  symbol_ok x -> symbol_ok y -> take (length (codeword x)) (codeword y) = codeword x -> x = y.
Proof.
  intros Hx%symbol_ok_elem%list_elem_of_In Hy%symbol_ok_elem%list_elem_of_In Ht.
  pose proof prefix_free_check as Hc. rewrite forallb_forall in Hc. specialize (Hc x Hx).
  rewrite forallb_forall in Hc. specialize (Hc y Hy).
  rewrite (bool_decide_eq_true_2 _ Ht) in Hc. simpl in Hc. by bool_simpl.
Qed.

Lemma codeword_app_inj x y r r' :
  symbol_ok x -> symbol_ok y -> codeword x ++ r = codeword y ++ r' -> x = y /\ r = r'.
Proof.
  intros Hx Hy E. assert (x = y) as ->; [|split; [done|by apply app_inv_head in E]].
  destruct (le_ge_dec (length (codeword x)) (length (codeword y))) as [Hle|Hle].
  - apply codeword_prefix_free; [done..|]. apply (f_equal (take (length (codeword x)))) in E.
    by rewrite take_app_length, take_app_le in E by done.
  - symmetry. apply codeword_prefix_free; [done..|].
    apply (f_equal (take (length (codeword y)))) in E.
    by rewrite take_app_length, take_app_le in E by done.
Qed.

Lemma codeword_nonempty x : codeword x <> [].
Proof. destruct x as [b|]; [|done]. simpl. unfold fmt_label_byte. by repeat case_match. Qed.

Lemma codewords_inj xs : forall ys,
  Forall symbol_ok xs -> Forall symbol_ok ys ->
  concat (map codeword xs) = concat (map codeword ys) -> xs = ys.
Proof.
  induction xs as [|x xs IH]; intros [|y ys] Hx Hy E; simpl in E; [done| | |].
  - symmetry in E. apply app_eq_nil in E as [E _]. by apply codeword_nonempty in E.
  - apply app_eq_nil in E as [E _]. by apply codeword_nonempty in E.
  - apply Forall_cons in Hx as [Hx Hxs], Hy as [Hy Hys].
    apply codeword_app_inj in E as [-> E]; [|done..]. f_equal. by apply IH.
Qed.

Fixpoint symbols (ls : list (list Z)) : list (option Z) :=
  match ls with
  | [] => []
  | [l] => map Some l
  | l :: ls' => map Some l ++ None :: symbols ls'
  end.

Lemma join_symbols ls :
  join_with 46 (map (fun l => concat (map fmt_label_byte l)) ls) = concat (map codeword (symbols ls)).
Proof.
  assert (forall l, concat (map codeword (map Some l)) = concat (map fmt_label_byte l)) as Hl.
  { intros l. by rewrite map_map. }
  induction ls as [|l [|l' ls] IH]; [done|by simpl; rewrite Hl|].
  change (symbols (l :: l' :: ls)) with (map Some l ++ None :: symbols (l' :: ls)).
  rewrite map_app, concat_app, Hl.
  change (concat (map codeword (None :: symbols (l' :: ls))))
    with (46 :: concat (map codeword (symbols (l' :: ls)))).
  by rewrite <- IH.
Qed.

Lemma map_Some_split l r l' r' :
  map Some l ++ None :: r = map Some l' ++ (None : option Z) :: r' -> l = l' /\ r = r'.
Proof.
  revert l'. induction l as [|x l IH]; intros [|y l'] E; simpl in E; try discriminate E.
  - by injection E as ->.
  - injection E as -> E. by apply IH in E as [-> ->].
Qed.

Lemma map_Some_no_sep l l' r' : map Some l = map Some l' ++ (None : option Z) :: r' -> False.
Proof.
  revert l'. induction l as [|x l IH]; intros [|y l'] E; simpl in E; try discriminate E.
  injection E as -> E. by apply IH in E.
Qed.

Lemma symbols_inj ls : forall ls', ls <> [] -> ls' <> [] -> symbols ls = symbols ls' -> ls = ls'.
Proof.
  induction ls as [|l [|m ls] IH]; intros [|l' [|m' ls']] H H' E; try done.
  - simpl in E. apply (inj (fmap Some)) in E. by subst.
  - change (map Some l = map Some l' ++ None :: symbols (m' :: ls')) in E.
    by apply map_Some_no_sep in E.
  - change (map Some l ++ None :: symbols (m :: ls) = map Some l') in E.
    symmetry in E. by apply map_Some_no_sep in E.
  - change (map Some l ++ None :: symbols (m :: ls) = map Some l' ++ None :: symbols (m' :: ls')) in E.
    apply map_Some_split in E as [-> E]. f_equal. by apply IH.
Qed.

Lemma symbols_ok ls : Forall bytes_ok ls -> Forall symbol_ok (symbols ls).
Proof.
  assert (forall l, bytes_ok l -> Forall symbol_ok (map Some l)) as Hl.
  { intros l H. by apply Forall_map. }
  induction ls as [|l [|m ls] IH]; intros H; [constructor|apply Hl; by inversion H|].
  apply Forall_cons in H as [H Hs]. apply Forall_app. split; [by apply Hl|].
  constructor; [done|by apply IH].
Qed.

Lemma Name_wf_bytes n : Name_wf n -> Forall bytes_ok (labels n).
Proof. intros [Hl _]. apply (Forall_impl _ _ _ Hl). by intros l [? ?]. Qed.

Lemma to_string_nonroot_dot l ls :
  Name_wf (mkName (l :: ls)) -> Name_to_string (mkName (l :: ls)) <> [46].
Proof.
  intros Hwf. unfold Name_to_string. rewrite bool_decide_eq_false_2 by done.
  cbn [labels]. rewrite join_symbols. intros E.
  change [46] with (concat (map codeword [None])) in E.
  apply codewords_inj in E; [|apply symbols_ok, (Name_wf_bytes _ Hwf)|by repeat constructor].
  destruct Hwf as [Hl _]. apply Forall_cons in Hl as [[Hlen _] _]. simpl in *.
  destruct l as [|b l]; [simpl in Hlen; lia|]. destruct ls; simpl in E; simplify_eq.
Qed.

Lemma Name_to_string_inj a b :
  Name_wf a -> Name_wf b -> Name_to_string a = Name_to_string b -> a = b.
Proof.
  intros Ha Hb E. destruct a as [[|l ls]], b as [[|l' ls']]; [done| | |].
  - by apply to_string_nonroot_dot in Hb.
  - by apply to_string_nonroot_dot in Ha.
  - revert E. unfold Name_to_string. rewrite !bool_decide_eq_false_2 by done. cbn [labels].
    rewrite !join_symbols. intros E.
    apply codewords_inj in E; [|by apply symbols_ok, (Name_wf_bytes _ Ha)|by apply symbols_ok, (Name_wf_bytes _ Hb)].
    apply symbols_inj in E; [|done..]. by rewrite E.
Qed.
