(* ===== verification/Message.v ===== *)
(** * The DNS message codec: [dns/src/lib.rs], [Header], [RData], [Record], [Message]

    The definitions follow the source field by field: the encoder appends to
    an output buffer and back-patches the rdata length, the decoder walks the
    message by position.  [MessageProofs] proves the round trip. *)

From S2P Require Import Prelude Net Names.

Local Open Scope Z_scope.

(** ** Constants *)

Module rtype.
Definition A : Z := 1.
Definition NS : Z := 2.
Definition CNAME : Z := 5.
Definition SOA : Z := 6.
Definition PTR : Z := 12.
Definition MX : Z := 15.
Definition TXT : Z := 16.
Definition AAAA : Z := 28.
Definition SRV : Z := 33.
Definition OPT : Z := 41.
Definition ANY : Z := 255.
End rtype.

Module rcode.
Definition NOERROR : Z := 0.
Definition FORMERR : Z := 1.
Definition SERVFAIL : Z := 2.
Definition NXDOMAIN : Z := 3.
Definition NOTIMP : Z := 4.
Definition REFUSED : Z := 5.
End rcode.

Definition class_IN : Z := 1.

Definition rtype_name (t : Z) : list Z :=
  if t =? rtype.A then bytes_of "A"
  else if t =? rtype.NS then bytes_of "NS"
  else if t =? rtype.CNAME then bytes_of "CNAME"
  else if t =? rtype.SOA then bytes_of "SOA"
  else if t =? rtype.PTR then bytes_of "PTR"
  else if t =? rtype.MX then bytes_of "MX"
  else if t =? rtype.TXT then bytes_of "TXT"
  else if t =? rtype.AAAA then bytes_of "AAAA"
  else if t =? rtype.SRV then bytes_of "SRV"
  else if t =? rtype.OPT then bytes_of "OPT"
  else if t =? rtype.ANY then bytes_of "ANY"
  else bytes_of "TYPE" ++ fmt_dec t.

Definition to_ascii_uppercase (b : Z) : Z := if is_ascii_lowercase b then b - 32 else b.

Definition strip_prefix (p s : list Z) : option (list Z) :=
  if bool_decide (take (length p) s = p) then Some (drop (length p) s) else None.

Definition rtype_parse (s : list Z) : option Z :=
  let u := map to_ascii_uppercase s in
  if bool_decide (u = bytes_of "A") then Some rtype.A
  else if bool_decide (u = bytes_of "NS") then Some rtype.NS
  else if bool_decide (u = bytes_of "CNAME") then Some rtype.CNAME
  else if bool_decide (u = bytes_of "SOA") then Some rtype.SOA
  else if bool_decide (u = bytes_of "PTR") then Some rtype.PTR
  else if bool_decide (u = bytes_of "MX") then Some rtype.MX
  else if bool_decide (u = bytes_of "TXT") then Some rtype.TXT
  else if bool_decide (u = bytes_of "AAAA") then Some rtype.AAAA
  else if bool_decide (u = bytes_of "SRV") then Some rtype.SRV
  else if bool_decide (u = bytes_of "ANY") then Some rtype.ANY
  else match strip_prefix (bytes_of "TYPE") u with
       | Some d => parse_uint 16 d
       | None => None
       end.

Definition rcode_name (r : Z) : list Z :=
  if r =? rcode.NOERROR then bytes_of "NOERROR"
  else if r =? rcode.FORMERR then bytes_of "FORMERR"
  else if r =? rcode.SERVFAIL then bytes_of "SERVFAIL"
  else if r =? rcode.NXDOMAIN then bytes_of "NXDOMAIN"
  else if r =? rcode.NOTIMP then bytes_of "NOTIMP"
  else if r =? rcode.REFUSED then bytes_of "REFUSED"
  else bytes_of "RCODE" ++ fmt_dec r.

(** ** Header *)

Record Header : Type := mkHeader {
  h_id : Z;
  response : bool;
  opcode : Z;
  authoritative : bool;
  truncated : bool;
  recursion_desired : bool;
  recursion_available : bool;
  authentic_data : bool;
  checking_disabled : bool;
  h_rcode : Z;
}.

Definition Header_default : Header :=
  mkHeader 0 false 0 false false false false false false 0.

Definition bit (b : bool) (k : Z) : Z := Z.shiftl (Z.b2z b) k.

Definition Header_flags (h : Header) : Z :=
  Z.lor (Z.lor (Z.lor (Z.lor (Z.lor (Z.lor (Z.lor (Z.lor
    (bit (response h) 15)
    (Z.shiftl (Z.land (opcode h) 15) 11))
    (bit (authoritative h) 10))
    (bit (truncated h) 9))
    (bit (recursion_desired h) 8))
    (bit (recursion_available h) 7))
    (bit (authentic_data h) 5))
    (bit (checking_disabled h) 4))
    (Z.land (h_rcode h) 15).

Definition flag (f mask : Z) : bool := negb (Z.land f mask =? 0).

Definition Header_from_flags (id f : Z) : Header := {|
  h_id := id;
  response := flag f 32768;
  opcode := wrap 8 (Z.land (Z.shiftr f 11) 15);
  authoritative := flag f 1024;
  truncated := flag f 512;
  recursion_desired := flag f 256;
  recursion_available := flag f 128;
  authentic_data := flag f 32;
  checking_disabled := flag f 16;
  h_rcode := wrap 8 (Z.land f 15);
|}.

(** ** Questions and records *)

Record Question : Type := mkQuestion { q_name : Name; q_rtype : Z; q_class : Z }.

Definition Question_new (name : Name) (rtype : Z) : Question := mkQuestion name rtype class_IN.

Inductive RData : Type :=
| RA (a : Ipv4Addr)
| RAaaa (a : Ipv6Addr)
| RCname (n : Name)
| RPtr (n : Name)
| RNs (n : Name)
| RSoa (mname rname : Name) (serial refresh retry expire minimum : Z)
| RMx (preference : Z) (exchange : Name)
| RSrv (priority weight port : Z) (target : Name)
| RTxt (strings : list (list Z))
| ROpt (b : list Z)
| RUnknown (b : list Z).

Record Record_ : Type := mkRecord {
  r_name : Name;
  r_rtype : Z;
  r_class : Z;
  r_ttl : Z;
  r_rdata : RData;
}.

#[export] Instance Header_eq_dec : EqDecision Header.
Proof. solve_decision. Defined.
#[export] Instance Question_eq_dec : EqDecision Question.
Proof. solve_decision. Defined.
#[export] Instance RData_eq_dec : EqDecision RData.
Proof. unfold Ipv4Addr, Ipv6Addr. solve_decision. Defined.
#[export] Instance Record_eq_dec : EqDecision Record_.
Proof. solve_decision. Defined.

Definition rdata_rtype (rdata : RData) : Z :=
  match rdata with
  | RA _ => rtype.A
  | RAaaa _ => rtype.AAAA
  | RCname _ => rtype.CNAME
  | RPtr _ => rtype.PTR
  | RNs _ => rtype.NS
  | RSoa _ _ _ _ _ _ _ => rtype.SOA
  | RMx _ _ => rtype.MX
  | RSrv _ _ _ _ => rtype.SRV
  | RTxt _ => rtype.TXT
  | ROpt _ => rtype.OPT
  | RUnknown _ => 0
  end.

Definition Record_new (name : Name) (ttl : Z) (rdata : RData) : Record_ :=
  mkRecord name (rdata_rtype rdata) class_IN ttl rdata.

Definition Record_opt (udp_size : Z) (do_bit : bool) : Record_ :=
  mkRecord Name_root rtype.OPT udp_size (if do_bit then 32768 else 0) (ROpt []).

(** ** Writing *)

Definition push_u16 (out : list Z) (v : Z) : list Z := out ++ be_bytes 2 v.
Definition push_u32 (out : list Z) (v : Z) : list Z := out ++ be_bytes 4 v.

Definition write_txt (out s : list Z) : list Z :=
  let n := Nat.min (length s) 255 in
  out ++ [wrap 8 (Z.of_nat n)] ++ take n s.

Definition write_rdata (out : list Z) (rdata : RData) : list Z :=
  match rdata with
  | RA a => out ++ octets_v4 a
  | RAaaa a => out ++ octets_v6 a
  | RCname n | RPtr n | RNs n => Name_write n out
  | RSoa mname rname serial refresh retry expire minimum =>
      foldl push_u32 (Name_write rname (Name_write mname out))
            [serial; refresh; retry; expire; minimum]
  | RMx preference exchange => Name_write exchange (push_u16 out preference)
  | RSrv priority weight port target =>
      Name_write target (push_u16 (push_u16 (push_u16 out priority) weight) port)
  | RTxt strings => foldl write_txt out strings
  | ROpt b | RUnknown b => out ++ b
  end.

Definition rdata_bytes (r : Record_) : list Z := write_rdata [] (r_rdata r).

(** The length is written as zero, and patched once the data is there. *)
Definition Record_write (r : Record_) (out : list Z) : list Z :=
  let out := Name_write (r_name r) out in
  let out := push_u16 out (r_rtype r) in
  let out := push_u16 out (r_class r) in
  let out := push_u32 out (r_ttl r) in
  let at_ := length out in
  let out := out ++ [0; 0] in
  let out := write_rdata out (r_rdata r) in
  let len := wrap 16 (Z.of_nat (length out - at_ - 2)) in
  take at_ out ++ be_bytes 2 len ++ drop (at_ + 2) out.

(** ** Reading *)

Definition u16_of (b : list Z) (i : nat) : Z := from_be [octet b i; octet b (i + 1)].
Definition u32_of (b : list Z) (i : nat) : Z :=
  from_be [octet b i; octet b (i + 1); octet b (i + 2); octet b (i + 3)].

Definition name_at (msg : list Z) (end_ pos : nat) : result Error (Name * nat) :=
  let? (n, next) := Name_read msg pos in
  if (end_ <? next)%nat then Err BadRData else Ok (n, next).

Definition u32_at (msg : list Z) (pos : nat) : result Error Z :=
  let? b := ok_or (slice_get msg pos (pos + 4)) BadRData in Ok (u32_of b 0).

Definition u16_at (msg : list Z) (pos : nat) : result Error Z :=
  let? b := ok_or (slice_get msg pos (pos + 2)) BadRData in Ok (u16_of b 0).

(** The [while p < data.len()] loop over character strings.  Every iteration
    advances [p], so the length of the data is fuel enough. *)
Fixpoint read_txt (fuel : nat) (data : list Z) (p : nat) (strings : list (list Z))
  : option (result Error (list (list Z))) :=
  if (p <? length data)%nat then
    match fuel with
    | O => None
    | S fuel =>
        let n := Z.to_nat (octet data p) in
        match slice_get data (p + 1) (p + 1 + n) with
        | None => Some (Err BadRData)
        | Some s => read_txt fuel data (p + (1 + n)) (strings ++ [s])
        end
    end
  else Some (Ok strings).

Definition read_rdata (msg : list Z) (rt : Z) (start len : nat) : result Error RData :=
  let? data := ok_or (slice_get msg start (start + len)) Truncated in
  let end_ := (start + len)%nat in
  if rt =? rtype.A then
    if negb (len =? 4)%nat then Err BadRData else Ok (RA (from_be data))
  else if rt =? rtype.AAAA then
    if negb (len =? 16)%nat then Err BadRData else Ok (RAaaa (from_be data))
  else if (rt =? rtype.CNAME) || (rt =? rtype.PTR) || (rt =? rtype.NS) then
    let? (n, next) := name_at msg end_ start in
    if negb (next =? end_)%nat then Err BadRData
    else if rt =? rtype.CNAME then Ok (RCname n)
    else if rt =? rtype.PTR then Ok (RPtr n)
    else Ok (RNs n)
  else if rt =? rtype.SOA then
    let? (mname, p) := name_at msg end_ start in
    let? (rname, p) := name_at msg end_ p in
    if negb (p + 20 =? end_)%nat then Err BadRData
    else
      let? serial := u32_at msg p in
      let? refresh := u32_at msg (p + 4) in
      let? retry := u32_at msg (p + 8) in
      let? expire := u32_at msg (p + 12) in
      let? minimum := u32_at msg (p + 16) in
      Ok (RSoa mname rname serial refresh retry expire minimum)
  else if rt =? rtype.MX then
    if (len <? 3)%nat then Err BadRData
    else
      let? (exchange, next) := name_at msg end_ (start + 2) in
      if negb (next =? end_)%nat then Err BadRData
      else
        let? preference := u16_at msg start in
        Ok (RMx preference exchange)
  else if rt =? rtype.SRV then
    if (len <? 7)%nat then Err BadRData
    else
      let? (target, next) := name_at msg end_ (start + 6) in
      if negb (next =? end_)%nat then Err BadRData
      else
        let? priority := u16_at msg start in
        let? weight := u16_at msg (start + 2) in
        let? port := u16_at msg (start + 4) in
        Ok (RSrv priority weight port target)
  else if rt =? rtype.TXT then
    let? strings := default (Err BadRData) (read_txt (length data) data 0 []) in
    Ok (RTxt strings)
  else if rt =? rtype.OPT then Ok (ROpt data)
  else Ok (RUnknown data).

(** ** Messages *)

Record Message : Type := mkMessage {
  header : Header;
  questions : list Question;
  answers : list Record_;
  authority : list Record_;
  additional : list Record_;
}.

#[export] Instance Message_eq_dec : EqDecision Message.
Proof. solve_decision. Defined.

Definition Message_default : Message := mkMessage Header_default [] [] [] [].

Definition Message_query (id : Z) (question : Question) : Message := {|
  header := mkHeader id false 0 false false true false false false 0;
  questions := [question];
  answers := [];
  authority := [];
  additional := [Record_opt EDNS_UDP_SIZE false];
|}.

Definition reply_to (query : Message) : Message := {|
  header := {|
    h_id := h_id (header query);
    response := true;
    opcode := opcode (header query);
    authoritative := false;
    truncated := false;
    recursion_desired := recursion_desired (header query);
    recursion_available := true;
    authentic_data := false;
    checking_disabled := checking_disabled (header query);
    h_rcode := 0;
  |};
  questions := questions query;
  answers := [];
  authority := [];
  additional := [];
|}.

Definition Message_opt (m : Message) : option Record_ :=
  List.find (fun r => r_rtype r =? rtype.OPT) (additional m).

Definition udp_size (m : Message) : Z :=
  match Message_opt m with
  | Some o => Z.max (r_class o) CLASSIC_UDP_SIZE
  | None => CLASSIC_UDP_SIZE
  end.

(** The full response code, with the EDNS bits; both halves are [u16]. *)
Definition Message_rcode (m : Message) : Z :=
  let ext := match Message_opt m with
             | Some o => wrap 16 (Z.land (Z.shiftr (r_ttl o) 24) 255)
             | None => 0
             end in
  Z.lor (wrap 16 (Z.shiftl ext 4)) (h_rcode (header m)).

(** The four counts; the first that does not fit ends the encoding. *)
Fixpoint write_counts (ns : list nat) (out : list Z) : result Error (list Z) :=
  match ns with
  | [] => Ok out
  | n :: ns' =>
      if 65535 <? Z.of_nat n then Err TooLarge
      else write_counts ns' (push_u16 out (wrap 16 (Z.of_nat n)))
  end.

Definition Question_write (out : list Z) (q : Question) : list Z :=
  push_u16 (push_u16 (Name_write (q_name q) out) (q_rtype q)) (q_class q).

Definition Message_encode (m : Message) : result Error (list Z) :=
  let out := push_u16 (push_u16 [] (h_id (header m))) (Header_flags (header m)) in
  let? out := write_counts [length (questions m); length (answers m);
                            length (authority m); length (additional m)] out in
  let out := foldl Question_write out (questions m) in
  let out := foldl (fun out r => Record_write r out) out
                   (answers m ++ authority m ++ additional m) in
  if MAX_MESSAGE_SIZE <? Z.of_nat (length out) then Err TooLarge else Ok out.

Definition set_truncated (h : Header) : Header :=
  mkHeader (h_id h) (response h) (opcode h) (authoritative h) true (recursion_desired h)
    (recursion_available h) (authentic_data h) (checking_disabled h) (h_rcode h).

Definition truncate_message (m : Message) : Message :=
  mkMessage (set_truncated (header m)) (questions m) [] []
    (match Message_opt m with Some opt => [opt] | None => [] end).

Definition encode_udp (m : Message) (limit : Z) : result Error (list Z) :=
  let? full := Message_encode m in
  if Z.of_nat (length full) <=? limit then Ok full
  else Message_encode (truncate_message m).

Fixpoint read_questions (count : nat) (msg : list Z) (p : nat) (acc : list Question)
  : result Error (list Question * nat) :=
  match count with
  | O => Ok (acc, p)
  | S count =>
      let? (name, next) := Name_read msg p in
      let? b := ok_or (slice_get msg next (next + 4)) Truncated in
      read_questions count msg (next + 4)
        (acc ++ [mkQuestion name (u16_of b 0) (u16_of b 2)])
  end.

Fixpoint read_section (count : nat) (msg : list Z) (p : nat) (acc : list Record_)
  : result Error (list Record_ * nat) :=
  match count with
  | O => Ok (acc, p)
  | S count =>
      let? (name, next) := Name_read msg p in
      let? b := ok_or (slice_get msg next (next + 10)) Truncated in
      let rt := u16_of b 0 in
      let class := u16_of b 2 in
      let ttl := u32_of b 4 in
      let len := Z.to_nat (u16_of b 8) in
      let start := (next + 10)%nat in
      let? rdata := read_rdata msg rt start len in
      read_section count msg (start + len) (acc ++ [mkRecord name rt class ttl rdata])
  end.

Definition Message_decode (msg : list Z) : result Error Message :=
  if (length msg <? 12)%nat then Err Truncated
  else
    let header := Header_from_flags (u16_of msg 0) (u16_of msg 2) in
    let count := fun i => Z.to_nat (u16_of msg (4 + 2 * i)) in
    let? (questions, p) := read_questions (count 0%nat) msg 12 [] in
    let? (answers, p) := read_section (count 1%nat) msg p [] in
    let? (authority, p) := read_section (count 2%nat) msg p [] in
    let? (additional, p) := read_section (count 3%nat) msg p [] in
    Ok (mkMessage header questions answers authority additional).

(** The single question, when there is exactly one. *)
Definition Message_question (m : Message) : option Question :=
  match questions m with
  | [q] => Some q
  | _ => None
  end.
