(* ===== verification/MessageProofs.v ===== *)
(** * The message codec round trip and the decoder's type invariant

    [Message_wf] is the type invariant of decoded messages: every field fits
    its width, every name is well-formed, and the data of a record is of the
    variant its type calls for.  [decode_message_wf] shows that the decoder
    establishes it on any input, [encode_decode] that an encoded well-formed
    message decodes to itself. *)

From S2P Require Import Prelude Net Names Message.

Local Open Scope Z_scope.

(** ** Well-formed messages *)

Definition txt_ok (s : list Z) : Prop := (length s <= 255)%nat /\ bytes_ok s.

Definition typed_rtypes : list Z :=
  [rtype.A; rtype.AAAA; rtype.CNAME; rtype.PTR; rtype.NS; rtype.SOA; rtype.MX; rtype.SRV;
   rtype.TXT; rtype.OPT].

Definition rdata_wf (rt : Z) (rd : RData) : Prop :=
  match rd with
  | RA a => rt = rtype.A /\ is_u32 a
  | RAaaa a => rt = rtype.AAAA /\ is_u128 a
  | RCname n => rt = rtype.CNAME /\ Name_wf n
  | RPtr n => rt = rtype.PTR /\ Name_wf n
  | RNs n => rt = rtype.NS /\ Name_wf n
  | RSoa mname rname serial refresh retry expire minimum =>
      rt = rtype.SOA /\ Name_wf mname /\ Name_wf rname /\
      Forall is_u32 [serial; refresh; retry; expire; minimum]
  | RMx preference exchange => rt = rtype.MX /\ is_u16 preference /\ Name_wf exchange
  | RSrv priority weight port target =>
      rt = rtype.SRV /\ Forall is_u16 [priority; weight; port] /\ Name_wf target
  | RTxt strings => rt = rtype.TXT /\ Forall txt_ok strings
  | ROpt b => rt = rtype.OPT /\ bytes_ok b
  | RUnknown b => (rt ∉ typed_rtypes) /\ bytes_ok b
  end.

Definition Question_wf (q : Question) : Prop :=
  Name_wf (q_name q) /\ is_u16 (q_rtype q) /\ is_u16 (q_class q).

Definition Record_wf (r : Record_) : Prop :=
  Name_wf (r_name r) /\ is_u16 (r_rtype r) /\ is_u16 (r_class r) /\ is_u32 (r_ttl r) /\
  rdata_wf (r_rtype r) (r_rdata r).

Definition Header_wf (h : Header) : Prop :=
  is_u16 (h_id h) /\ 0 <= opcode h < 16 /\ 0 <= h_rcode h < 16.

Definition Message_wf (m : Message) : Prop :=
  Header_wf (header m) /\ Forall Question_wf (questions m) /\
  Forall Record_wf (answers m) /\ Forall Record_wf (authority m) /\
  Forall Record_wf (additional m).

#[export] Instance rdata_wf_dec rt rd : Decision (rdata_wf rt rd).
Proof. destruct rd; simpl; unfold txt_ok; apply _. Defined.
#[export] Instance Message_wf_dec m : Decision (Message_wf m).
Proof. unfold Message_wf, Header_wf, Question_wf, Record_wf. apply _. Defined.

(** ** Header bits *)

Definition all_bools (P : bool -> bool) : bool := P true && P false.

Lemma all_bools_spec P : all_bools P = true -> forall b, P b = true.
Proof. unfold all_bools. intros [??]%andb_true_iff []; done. Qed.

(** A check of every header with a given opcode and response code. *)
Definition all_headers (Q : Header -> bool) (op rc : Z) : bool :=
  all_bools (fun r => all_bools (fun aa => all_bools (fun tc => all_bools (fun rd =>
  all_bools (fun ra => all_bools (fun ad => all_bools (fun cd =>
    Q (mkHeader 0 r op aa tc rd ra ad cd rc)))))))).

Lemma all_headers_spec Q h :
  all_headers Q (opcode h) (h_rcode h) = true -> h_id h = 0 -> Q h = true.
Proof.
  destruct h as [id r op aa tc rd ra ad cd rc]; cbn [h_id opcode h_rcode]. intros H ->.
  unfold all_headers in H.
  apply all_bools_spec with (b := r) in H. apply all_bools_spec with (b := aa) in H.
  apply all_bools_spec with (b := tc) in H. apply all_bools_spec with (b := rd) in H.
  apply all_bools_spec with (b := ra) in H. apply all_bools_spec with (b := ad) in H.
  by apply all_bools_spec with (b := cd) in H.
Qed.

Definition flags_ok (h : Header) : bool :=
  bool_decide (Header_from_flags 0 (Header_flags h) = h /\ is_u16 (Header_flags h)).

Lemma flags_ok_spec h :
  flags_ok h = true -> Header_from_flags 0 (Header_flags h) = h /\ is_u16 (Header_flags h).
Proof. unfold flags_ok. by rewrite bool_decide_eq_true. Qed.

Lemma flags_check_all op rc : 0 <= op < 16 -> 0 <= rc < 16 -> all_headers flags_ok op rc = true.
Proof.
  intros Hop Hrc. revert op Hop.
  apply (range_forall (fun op => all_headers flags_ok op rc = true) 16).
  revert rc Hrc.
  apply (range_forall (fun rc => forallb (fun k =>
    bool_decide (all_headers flags_ok (Z.of_nat k) rc = true)) (seq 0 16) = true) 16).
  vm_compute. reflexivity.
Qed.

Definition set_id (id : Z) (h : Header) : Header :=
  mkHeader id (response h) (opcode h) (authoritative h) (truncated h) (recursion_desired h)
    (recursion_available h) (authentic_data h) (checking_disabled h) (h_rcode h).

Lemma from_flags_set_id id f : Header_from_flags id f = set_id id (Header_from_flags 0 f).
Proof. reflexivity. Qed.

Lemma flags_set_id id h : Header_flags (set_id id h) = Header_flags h.
Proof. reflexivity. Qed.

Lemma flags_roundtrip_id0 h :
  0 <= opcode h < 16 -> 0 <= h_rcode h < 16 -> h_id h = 0 ->
  Header_from_flags 0 (Header_flags h) = h /\ is_u16 (Header_flags h).
Proof.
  intros Hop Hrc Hid. apply flags_ok_spec.
  apply all_headers_spec; [by apply flags_check_all|done].
Qed.

Lemma header_flags_roundtrip h :
  Header_wf h ->
  Header_from_flags (h_id h) (Header_flags h) = h /\ is_u16 (Header_flags h).
Proof.
  intros (_ & Hop & Hrc).
  destruct (flags_roundtrip_id0 (set_id 0 h) Hop Hrc eq_refl) as [H1 H2].
  rewrite flags_set_id in H1, H2. split; [|done].
  rewrite from_flags_set_id, H1. by destruct h.
Qed.

(** ** Wire forms *)

Definition txt_wire (s : list Z) : list Z := Z.of_nat (length s) :: s.

Definition rdata_wire (rd : RData) : list Z :=
  match rd with
  | RA a => octets_v4 a
  | RAaaa a => octets_v6 a
  | RCname n | RPtr n | RNs n => name_wire n
  | RSoa mname rname serial refresh retry expire minimum =>
      name_wire mname ++ name_wire rname ++ be_bytes 4 serial ++ be_bytes 4 refresh ++
      be_bytes 4 retry ++ be_bytes 4 expire ++ be_bytes 4 minimum
  | RMx preference exchange => be_bytes 2 preference ++ name_wire exchange
  | RSrv priority weight port target =>
      be_bytes 2 priority ++ be_bytes 2 weight ++ be_bytes 2 port ++ name_wire target
  | RTxt strings => concat (map txt_wire strings)
  | ROpt b | RUnknown b => b
  end.

Definition record_wire (r : Record_) : list Z :=
  name_wire (r_name r) ++
  (be_bytes 2 (r_rtype r) ++ be_bytes 2 (r_class r) ++ be_bytes 4 (r_ttl r) ++
   be_bytes 2 (wrap 16 (Z.of_nat (length (rdata_wire (r_rdata r)))))) ++
  rdata_wire (r_rdata r).

Definition question_wire (q : Question) : list Z :=
  name_wire (q_name q) ++ (be_bytes 2 (q_rtype q) ++ be_bytes 2 (q_class q)).

Lemma write_txt_wire out s : txt_ok s -> write_txt out s = out ++ txt_wire s.
Proof.
  intros [Hl _]. unfold write_txt, txt_wire. rewrite Nat.min_l by done.
  rewrite wrap_small by (unfold in_width; lia). by rewrite take_ge.
Qed.

Lemma foldl_write_txt out ss :
  Forall txt_ok ss -> foldl write_txt out ss = out ++ concat (map txt_wire ss).
Proof.
  intros H. revert out. induction H as [|s ss Hs Hss IH]; intros out; simpl; [by rewrite app_nil_r|].
  by rewrite IH, write_txt_wire, <- app_assoc.
Qed.

(** Writing the data of a record appends its wire form. *)
Lemma write_rdata_wire rt rd out :
  rdata_wf rt rd -> write_rdata out rd = out ++ rdata_wire rd.
Proof.
  destruct rd; simpl write_rdata; simpl rdata_wire; unfold push_u16, push_u32; intros Hwf;
    simpl in Hwf; destruct_and?; simpl foldl; rewrite ?Name_write_wire by done;
    rewrite <- ?app_assoc; try done.
  by rewrite !foldl_write_txt.
Qed.

Lemma Record_write_wire r out : Record_wf r -> Record_write r out = out ++ record_wire r.
Proof.
  intros (Hn & _ & _ & _ & Hrd). unfold Record_write, record_wire, push_u16, push_u32.
  rewrite Name_write_wire, (write_rdata_wire _ _ _ Hrd) by done.
  set (pre := ((((out ++ name_wire (r_name r)) ++ _) ++ _) ++ _)).
  replace (length ((pre ++ [0%Z; 0%Z]) ++ rdata_wire (r_rdata r)) - length pre - 2)%nat
    with (length (rdata_wire (r_rdata r))) by (rewrite !length_app; simpl; lia).
  rewrite <- app_assoc at 1. rewrite take_app_length.
  rewrite (app_assoc pre), drop_app_length' by (rewrite length_app; done).
  unfold pre. by rewrite <- !app_assoc.
Qed.

Lemma Question_write_wire q out : Question_wf q -> Question_write out q = out ++ question_wire q.
Proof.
  intros (Hn & _). unfold Question_write, question_wire, push_u16.
  by rewrite Name_write_wire, <- !app_assoc.
Qed.

Lemma foldl_question_wire qs out :
  Forall Question_wf qs -> foldl Question_write out qs = out ++ concat (map question_wire qs).
Proof.
  intros H. revert out. induction H as [|q qs Hq Hqs IH]; intros out; simpl; [by rewrite app_nil_r|].
  by rewrite IH, Question_write_wire, <- app_assoc.
Qed.

Lemma foldl_record_wire rs out :
  Forall Record_wf rs ->
  foldl (fun out r => Record_write r out) out rs = out ++ concat (map record_wire rs).
Proof.
  intros H. revert out. induction H as [|q qs Hq Hqs IH]; intros out; simpl; [by rewrite app_nil_r|].
  by rewrite IH, Record_write_wire, <- app_assoc.
Qed.

Definition header_wire (m : Message) : list Z :=
  be_bytes 2 (h_id (header m)) ++ be_bytes 2 (Header_flags (header m)) ++
  be_bytes 2 (Z.of_nat (length (questions m))) ++ be_bytes 2 (Z.of_nat (length (answers m))) ++
  be_bytes 2 (Z.of_nat (length (authority m))) ++ be_bytes 2 (Z.of_nat (length (additional m))).

Definition message_wire (m : Message) : list Z :=
  header_wire m ++ concat (map question_wire (questions m)) ++
  concat (map record_wire (answers m)) ++ concat (map record_wire (authority m)) ++
  concat (map record_wire (additional m)).

Definition counts_ok (m : Message) : Prop :=
  Forall (fun n => Z.of_nat n <= 65535)
    [length (questions m); length (answers m); length (authority m); length (additional m)].

Lemma write_counts_ok ns out :
  write_counts ns out =
  if forallb (fun n => Z.of_nat n <=? 65535) ns
  then Ok (out ++ concat (map (fun n => be_bytes 2 (Z.of_nat n)) ns)) else Err TooLarge.
Proof.
  revert out. induction ns as [|n ns IH]; intros out; cbn [write_counts]; [by simpl; rewrite app_nil_r|].
  rewrite Z.ltb_antisym. cbn [forallb]. destruct (Z.leb_spec (Z.of_nat n) 65535); simpl; [|done].
  rewrite IH, wrap_small by (unfold in_width; lia). case_match; [|done].
  unfold push_u16. by rewrite <- app_assoc.
Qed.

Lemma encode_body m :
  Message_wf m ->
  foldl (fun out r => Record_write r out)
    (foldl Question_write (header_wire m) (questions m))
    (answers m ++ authority m ++ additional m) = message_wire m.
Proof.
  intros (_ & Hq & Ha & Hu & Hd).
  rewrite foldl_question_wire, foldl_record_wire by (rewrite ?Forall_app; done).
  rewrite !map_app, !concat_app. unfold message_wire. by rewrite <- ?app_assoc.
Qed.

Lemma counts_ok_forallb m :
  counts_ok m <->
  forallb (fun n => Z.of_nat n <=? 65535)
    [length (questions m); length (answers m); length (authority m); length (additional m)] = true.
Proof.
  unfold counts_ok. rewrite !Forall_cons. cbn [forallb].
  rewrite !andb_true_iff, !Z.leb_le. intuition.
Qed.

(** [encode] produces the wire form exactly when the counts and the total fit. *)
Lemma encode_wire m :
  Message_wf m ->
  Message_encode m =
  if bool_decide (counts_ok m /\ Z.of_nat (length (message_wire m)) <= MAX_MESSAGE_SIZE)
  then Ok (message_wire m) else Err TooLarge.
Proof.
  intros Hwf. unfold Message_encode. rewrite write_counts_ok.
  destruct (forallb _ _) eqn:Hc.
  - apply counts_ok_forallb in Hc. cbn [result_bind]. cbv zeta.
    change (push_u16 (push_u16 [] (h_id (header m))) (Header_flags (header m)) ++ _)
      with (header_wire m).
    rewrite encode_body by done. rewrite Z.ltb_antisym.
    case_bool_decide as Hok.
    + destruct Hok as [_ Hok]. apply Z.leb_le in Hok. by rewrite Hok.
    + destruct (Z.leb_spec (Z.of_nat (length (message_wire m))) MAX_MESSAGE_SIZE); [|done].
      by destruct Hok.
  - rewrite bool_decide_false; [done|]. intros [Hok _]. apply counts_ok_forallb in Hok. congruence.
Qed.

(** ** Reading wire forms back *)

Lemma name_at_wire msg pre n post end_ pos :
  Name_wf n -> msg = pre ++ name_wire n ++ post -> pos = length pre ->
  (pos + wire_len n <= end_)%nat ->
  name_at msg end_ pos = Ok (n, (pos + wire_len n)%nat).
Proof.
  intros Hn -> -> He. unfold name_at. rewrite Name_read_write by done. simpl.
  by destruct (Nat.ltb_spec end_ (length pre + wire_len n)); [lia|].
Qed.

Lemma u32_at_wire msg pre v post pos :
  is_u32 v -> msg = pre ++ be_bytes 4 v ++ post -> pos = length pre -> u32_at msg pos = Ok v.
Proof.
  intros Hv -> ->. unfold u32_at. rewrite slice_get_mid by (rewrite ?length_be_bytes; done).
  cbn [ok_or result_bind]. change (u32_of (be_bytes 4 v) 0) with (from_be (be_bytes 4 v)).
  by rewrite be_roundtrip.
Qed.

Lemma u16_at_wire msg pre v post pos :
  is_u16 v -> msg = pre ++ be_bytes 2 v ++ post -> pos = length pre -> u16_at msg pos = Ok v.
Proof.
  intros Hv -> ->. unfold u16_at. rewrite slice_get_mid by (rewrite ?length_be_bytes; done).
  cbn [ok_or result_bind]. change (u16_of (be_bytes 2 v) 0) with (from_be (be_bytes 2 v)).
  by rewrite be_roundtrip.
Qed.

Lemma read_txt_wire ss : forall fuel pre acc,
  Forall txt_ok ss -> (length ss <= fuel)%nat ->
  read_txt fuel (pre ++ concat (map txt_wire ss)) (length pre) acc = Some (Ok (acc ++ ss)).
Proof.
  induction ss as [|s ss IH]; intros fuel pre acc Hok Hf.
  - simpl. rewrite !app_nil_r.
    destruct fuel; simpl; rewrite Nat.ltb_irrefl; done.
  - apply Forall_cons in Hok as [[Hl Hb] Hok]. destruct fuel as [|fuel]; [simpl in Hf; lia|].
    cbn [read_txt map concat].
    destruct (Nat.ltb_spec (length pre)
      (length (pre ++ txt_wire s ++ concat (map txt_wire ss)))) as [_|Hc];
      [|rewrite !length_app in Hc; simpl in Hc; lia].
    assert (octet (pre ++ txt_wire s ++ concat (map txt_wire ss)) (length pre)
            = Z.of_nat (length s)) as ->.
    { unfold octet, txt_wire. simpl. by rewrite lookup_mid. }
    rewrite Nat2Z.id.
    assert (pre ++ txt_wire s ++ concat (map txt_wire ss) =
            (pre ++ [Z.of_nat (length s)]) ++ s ++ concat (map txt_wire ss)) as Heq.
    { unfold txt_wire; simpl. by rewrite <- !app_assoc. }
    rewrite Heq, slice_get_mid by (rewrite length_app; simpl; lia). rewrite <- Heq.
    rewrite app_assoc.
    replace (length pre + (1 + length s))%nat with (length (pre ++ txt_wire s))
      by (rewrite length_app; simpl; lia).
    rewrite IH by (done || simpl in Hf; lia). by rewrite <- app_assoc.
Qed.

(** Decide the tests of a concrete record type. *)
Ltac eval_rtype :=
  cbv beta iota zeta delta [rtype.A rtype.AAAA rtype.CNAME rtype.PTR rtype.NS rtype.SOA
    rtype.MX rtype.SRV rtype.TXT rtype.OPT Z.eqb Pos.eqb orb].

Ltac wire_assoc := rewrite <- ?app_assoc; reflexivity.
Ltac wire_len_solve := rewrite ?length_app, ?length_be_bytes, ?length_name_wire; simpl; lia.

(** The position a name ended at is the end of the data. *)
Ltac pos_eq tac :=
  match goal with
  | |- context [Nat.eqb ?x ?y] =>
      destruct (Nat.eqb_spec x y) as [_|Hne];
      [cbn [negb] | exfalso; apply Hne; tac; wire_len_solve]
  end.

Lemma wire_len_pos n : (1 <= wire_len n)%nat.
Proof. unfold wire_len. lia. Qed.

Lemma length_txt_wire ss : (length ss <= length (concat (map txt_wire ss)))%nat.
Proof. induction ss; simpl; [lia|]. rewrite length_app. lia. Qed.

Lemma read_soa_wire pre post m r a b c d e :
  rdata_wf rtype.SOA (RSoa m r a b c d e) ->
  read_rdata (pre ++ rdata_wire (RSoa m r a b c d e) ++ post) rtype.SOA (length pre)
    (length (rdata_wire (RSoa m r a b c d e))) = Ok (RSoa m r a b c d e).
Proof.
  intros (_ & Hm & Hr & Hu). rewrite !Forall_cons in Hu. destruct_and!.
  unfold read_rdata. rewrite slice_get_mid by done. cbn [ok_or result_bind]. eval_rtype.
  cbn [rdata_wire].
  pose (tl := be_bytes 4 a ++ be_bytes 4 b ++ be_bytes 4 c ++ be_bytes 4 d ++ be_bytes 4 e ++ post).
  rewrite (name_at_wire _ pre m (name_wire r ++ tl));
    [|done|subst tl; wire_assoc|done|wire_len_solve].
  cbn [result_bind].
  rewrite (name_at_wire _ (pre ++ name_wire m) r tl);
    [|done|subst tl; wire_assoc|wire_len_solve|wire_len_solve].
  cbn [result_bind].
  set (p := (length pre + wire_len m + wire_len r)%nat).
  pos_eq ltac:(subst p).
  pose (q := pre ++ name_wire m ++ name_wire r).
  rewrite (u32_at_wire _ q a (be_bytes 4 b ++ be_bytes 4 c ++ be_bytes 4 d ++ be_bytes 4 e ++ post));
    [|done|subst q; wire_assoc|subst p q; wire_len_solve].
  rewrite (u32_at_wire _ (q ++ be_bytes 4 a) b (be_bytes 4 c ++ be_bytes 4 d ++ be_bytes 4 e ++ post));
    [|done|subst q; wire_assoc|subst p q; wire_len_solve].
  rewrite (u32_at_wire _ (q ++ be_bytes 4 a ++ be_bytes 4 b) c (be_bytes 4 d ++ be_bytes 4 e ++ post));
    [|done|subst q; wire_assoc|subst p q; wire_len_solve].
  rewrite (u32_at_wire _ (q ++ be_bytes 4 a ++ be_bytes 4 b ++ be_bytes 4 c) d (be_bytes 4 e ++ post));
    [|done|subst q; wire_assoc|subst p q; wire_len_solve].
  rewrite (u32_at_wire _ (q ++ be_bytes 4 a ++ be_bytes 4 b ++ be_bytes 4 c ++ be_bytes 4 d) e post);
    [|done|subst q; wire_assoc|subst p q; wire_len_solve].
  done.
Qed.

Lemma read_srv_wire pre post a b c n :
  rdata_wf rtype.SRV (RSrv a b c n) ->
  read_rdata (pre ++ rdata_wire (RSrv a b c n) ++ post) rtype.SRV (length pre)
    (length (rdata_wire (RSrv a b c n))) = Ok (RSrv a b c n).
Proof.
  intros (_ & Hu & Hn). rewrite !Forall_cons in Hu. destruct_and!.
  unfold read_rdata. rewrite slice_get_mid by done. cbn [ok_or result_bind]. eval_rtype.
  cbn [rdata_wire].
  destruct (Nat.ltb_spec (length (be_bytes 2 a ++ be_bytes 2 b ++ be_bytes 2 c ++ name_wire n)) 7)
    as [Hc|_]; [pose proof (wire_len_pos n); exfalso; revert Hc; wire_len_solve|].
  rewrite (name_at_wire _ (pre ++ be_bytes 2 a ++ be_bytes 2 b ++ be_bytes 2 c) n post);
    [|done|wire_assoc|wire_len_solve|wire_len_solve].
  cbn [result_bind].
  pos_eq idtac.
  rewrite (u16_at_wire _ pre a (be_bytes 2 b ++ be_bytes 2 c ++ name_wire n ++ post));
    [|done|wire_assoc|done].
  rewrite (u16_at_wire _ (pre ++ be_bytes 2 a) b (be_bytes 2 c ++ name_wire n ++ post));
    [|done|wire_assoc|wire_len_solve].
  rewrite (u16_at_wire _ (pre ++ be_bytes 2 a ++ be_bytes 2 b) c (name_wire n ++ post));
    [|done|wire_assoc|wire_len_solve].
  done.
Qed.

Lemma read_mx_wire pre post a n :
  rdata_wf rtype.MX (RMx a n) ->
  read_rdata (pre ++ rdata_wire (RMx a n) ++ post) rtype.MX (length pre)
    (length (rdata_wire (RMx a n))) = Ok (RMx a n).
Proof.
  intros (_ & Hu & Hn).
  unfold read_rdata. rewrite slice_get_mid by done. cbn [ok_or result_bind]. eval_rtype.
  cbn [rdata_wire].
  destruct (Nat.ltb_spec (length (be_bytes 2 a ++ name_wire n)) 3)
    as [Hc|_]; [pose proof (wire_len_pos n); exfalso; revert Hc; wire_len_solve|].
  rewrite (name_at_wire _ (pre ++ be_bytes 2 a) n post);
    [|done|wire_assoc|wire_len_solve|wire_len_solve].
  cbn [result_bind]. pos_eq idtac.
  by rewrite (u16_at_wire _ pre a (name_wire n ++ post)); [|done|wire_assoc|done].
Qed.

Lemma read_name_wire pre post n rt :
  Name_wf n -> rt = rtype.CNAME \/ rt = rtype.PTR \/ rt = rtype.NS ->
  read_rdata (pre ++ name_wire n ++ post) rt (length pre) (length (name_wire n)) =
  Ok (if rt =? rtype.CNAME then RCname n else if rt =? rtype.PTR then RPtr n else RNs n).
Proof.
  intros Hn Hrt. unfold read_rdata. rewrite slice_get_mid by done. cbn [ok_or result_bind].
  destruct Hrt as [->|[->| ->]]; eval_rtype;
    (rewrite (name_at_wire _ pre n post); [|done|wire_assoc|done|wire_len_solve]);
    cbn [result_bind]; pos_eq idtac; done.
Qed.

Lemma read_unknown rt msg start len data :
  rt ∉ typed_rtypes -> slice_get msg start (start + len) = Some data ->
  read_rdata msg rt start len = Ok (RUnknown data).
Proof.
  intros Hrt Hs. unfold read_rdata. rewrite Hs. cbn [ok_or result_bind].
  unfold typed_rtypes in Hrt. rewrite !not_elem_of_cons in Hrt. destruct_and?.
  repeat match goal with H : rt <> ?x |- _ => apply Z.eqb_neq in H; rewrite H; clear H end.
  done.
Qed.

(** The data of a record is read back from its wire form. *)
Lemma read_rdata_wire pre post rt rd :
  rdata_wf rt rd ->
  read_rdata (pre ++ rdata_wire rd ++ post) rt (length pre) (length (rdata_wire rd)) = Ok rd.
Proof.
  intros Hwf. destruct rd.
  - destruct Hwf as [-> Ha]. unfold read_rdata. rewrite slice_get_mid by done.
    cbn [ok_or result_bind rdata_wire]. eval_rtype. unfold octets_v4. rewrite length_be_bytes.
    cbn [Nat.eqb negb]. by rewrite be_roundtrip.
  - destruct Hwf as [-> Ha]. unfold read_rdata. rewrite slice_get_mid by done.
    cbn [ok_or result_bind rdata_wire]. eval_rtype. unfold octets_v6. rewrite length_be_bytes.
    cbn [Nat.eqb negb]. by rewrite be_roundtrip.
  - destruct Hwf as [-> Hn]. cbn [rdata_wire]. rewrite read_name_wire by (done || auto). done.
  - destruct Hwf as [-> Hn]. cbn [rdata_wire]. rewrite read_name_wire by (done || auto). done.
  - destruct Hwf as [-> Hn]. cbn [rdata_wire]. rewrite read_name_wire by (done || auto). done.
  - pose proof Hwf as (-> & _). by apply read_soa_wire.
  - pose proof Hwf as (-> & _). by apply read_mx_wire.
  - pose proof Hwf as (-> & _). by apply read_srv_wire.
  - destruct Hwf as [-> Hs]. unfold read_rdata. rewrite slice_get_mid by done.
    cbn [ok_or result_bind rdata_wire]. eval_rtype.
    pose proof (read_txt_wire strings (length (concat (map txt_wire strings))) [] [] Hs
      (length_txt_wire strings)) as Ht. simpl app in Ht. simpl (length []) in Ht.
    by rewrite Ht.
  - destruct Hwf as [-> Hb]. unfold read_rdata. rewrite slice_get_mid by done. done.
  - destruct Hwf as [Hrt Hb]. apply read_unknown; [done|]. by apply slice_get_mid.
Qed.

(** ** Sections *)

Lemma read_questions_wire qs : forall pre post acc,
  Forall Question_wf qs ->
  read_questions (length qs) (pre ++ concat (map question_wire qs) ++ post) (length pre) acc
  = Ok (acc ++ qs, length (pre ++ concat (map question_wire qs))).
Proof.
  induction qs as [|q qs IH]; intros pre post acc Hwf.
  { simpl. by rewrite !app_nil_r. }
  apply Forall_cons in Hwf as [(Hn & Ht & Hc) Hwf]. cbn [length read_questions map concat].
  set (rest := concat (map question_wire qs)).
  assert (pre ++ (question_wire q ++ rest) ++ post =
    pre ++ name_wire (q_name q) ++ (be_bytes 2 (q_rtype q) ++ be_bytes 2 (q_class q)) ++ rest ++ post)
    as Heq by (unfold question_wire; wire_assoc).
  rewrite Heq at 1. rewrite Name_read_write by done. cbn [result_bind].
  rewrite Heq at 1. rewrite (app_assoc pre), slice_get_mid by wire_len_solve.
  cbn [ok_or result_bind].
  change (u16_of (be_bytes 2 (q_rtype q) ++ be_bytes 2 (q_class q)) 0)
    with (from_be (be_bytes 2 (q_rtype q))).
  change (u16_of (be_bytes 2 (q_rtype q) ++ be_bytes 2 (q_class q)) 2)
    with (from_be (be_bytes 2 (q_class q))).
  rewrite !be_roundtrip by done.
  replace (pre ++ (question_wire q ++ rest) ++ post) with ((pre ++ question_wire q) ++ rest ++ post)
    by wire_assoc.
  replace (length pre + wire_len (q_name q) + 4)%nat with (length (pre ++ question_wire q))
    by (unfold question_wire; wire_len_solve).
  unfold rest. rewrite IH by done. rewrite <- !app_assoc. by destruct q.
Qed.

Definition rdata_fits (r : Record_) : Prop := Z.of_nat (length (rdata_wire (r_rdata r))) <= 65535.

Lemma read_section_wire rs : forall pre post acc,
  Forall Record_wf rs -> Forall rdata_fits rs ->
  read_section (length rs) (pre ++ concat (map record_wire rs) ++ post) (length pre) acc
  = Ok (acc ++ rs, length (pre ++ concat (map record_wire rs))).
Proof.
  induction rs as [|r rs IH]; intros pre post acc Hwf Hfit.
  { simpl. by rewrite !app_nil_r. }
  apply Forall_cons in Hwf as [(Hn & Ht & Hc & Hl & Hrd) Hwf].
  apply Forall_cons in Hfit as [Hf Hfit]. unfold rdata_fits in Hf.
  cbn [length read_section map concat].
  set (rest := concat (map record_wire rs)).
  set (rw := rdata_wire (r_rdata r)) in *.
  assert (wrap 16 (Z.of_nat (length rw)) = Z.of_nat (length rw)) as Hw
    by (apply wrap_small; unfold in_width; lia).
  set (fixed := be_bytes 2 (r_rtype r) ++ be_bytes 2 (r_class r) ++ be_bytes 4 (r_ttl r) ++
    be_bytes 2 (Z.of_nat (length rw))).
  assert (record_wire r = name_wire (r_name r) ++ fixed ++ rw) as Hrw
    by (unfold record_wire; fold rw; rewrite Hw; reflexivity).
  assert (length fixed = 10%nat) as Hfl by reflexivity.
  rewrite Hrw.
  assert (pre ++ ((name_wire (r_name r) ++ fixed ++ rw) ++ rest) ++ post =
    pre ++ name_wire (r_name r) ++ fixed ++ rw ++ rest ++ post) as Heq by wire_assoc.
  rewrite Heq. rewrite Name_read_write by done. cbn [result_bind].
  rewrite (app_assoc pre), slice_get_mid
    by (rewrite ?Hfl, ?length_app, ?length_name_wire; lia).
  cbn [ok_or result_bind].
  change (u16_of fixed 0) with (from_be (be_bytes 2 (r_rtype r))).
  change (u16_of fixed 2) with (from_be (be_bytes 2 (r_class r))).
  change (u32_of fixed 4) with (from_be (be_bytes 4 (r_ttl r))).
  change (u16_of fixed 8) with (from_be (be_bytes 2 (Z.of_nat (length rw)))).
  rewrite !be_roundtrip by (done || unfold in_width; lia). rewrite Nat2Z.id.
  assert ((pre ++ name_wire (r_name r)) ++ fixed ++ rw ++ rest ++ post =
    (pre ++ name_wire (r_name r) ++ fixed) ++ rw ++ rest ++ post) as Heq2 by wire_assoc.
  rewrite Heq2.
  replace (length pre + wire_len (r_name r) + 10)%nat
    with (length (pre ++ name_wire (r_name r) ++ fixed))
    by (rewrite !length_app, length_name_wire, Hfl; lia).
  pose proof (read_rdata_wire (pre ++ name_wire (r_name r) ++ fixed) (rest ++ post) _ _ Hrd) as Hrr.
  fold rw in Hrr. rewrite Hrr. cbn [result_bind].
  replace ((pre ++ name_wire (r_name r) ++ fixed) ++ rw ++ rest ++ post)
    with ((pre ++ record_wire r) ++ rest ++ post) by (rewrite Hrw; wire_assoc).
  replace (length (pre ++ name_wire (r_name r) ++ fixed) + length rw)%nat
    with (length (pre ++ record_wire r)) by (rewrite Hrw, !length_app; lia).
  unfold rest. rewrite IH by done. rewrite Hrw, <- !app_assoc. by destruct r.
Qed.

(** Every record of an encoded message is short enough for its length field. *)
Lemma section_fits rs n :
  Z.of_nat (length (concat (map record_wire rs))) <= n -> n <= 65535 -> Forall rdata_fits rs.
Proof.
  revert n. induction rs as [|r rs IH]; intros n Hn Hmax; constructor; simpl in Hn;
    rewrite length_app in Hn.
  - unfold rdata_fits, record_wire in *. rewrite !length_app in Hn. lia.
  - apply (IH n); lia.
Qed.

Lemma decode_wire m :
  Message_wf m -> counts_ok m -> Z.of_nat (length (message_wire m)) <= MAX_MESSAGE_SIZE ->
  Message_decode (message_wire m) = Ok m.
Proof.
  intros Hwf Hc Hl. pose proof Hwf as (Hh & Hq & Ha & Hu & Hd).
  pose proof (header_flags_roundtrip _ Hh) as [Hfl Hfr].
  unfold MAX_MESSAGE_SIZE in Hl. unfold counts_ok in Hc. rewrite !Forall_cons in Hc.
  destruct Hc as (Hc0 & Hc1 & Hc2 & Hc3 & _).
  unfold message_wire in Hl. rewrite !length_app in Hl.
  unfold Message_decode, message_wire.
  destruct (Nat.ltb_spec (length (header_wire m ++ concat (map question_wire (questions m)) ++
    concat (map record_wire (answers m)) ++ concat (map record_wire (authority m)) ++
    concat (map record_wire (additional m)))) 12) as [Hlt|_];
    [rewrite length_app in Hlt; change (length (header_wire m)) with 12%nat in Hlt; lia|].
  set (rest := concat (map question_wire (questions m)) ++ _).
  change (u16_of (header_wire m ++ rest) 0) with (from_be (be_bytes 2 (h_id (header m)))).
  change (u16_of (header_wire m ++ rest) 2) with (from_be (be_bytes 2 (Header_flags (header m)))).
  change (u16_of (header_wire m ++ rest) (4 + 2 * 0))
    with (from_be (be_bytes 2 (Z.of_nat (length (questions m))))).
  change (u16_of (header_wire m ++ rest) (4 + 2 * 1))
    with (from_be (be_bytes 2 (Z.of_nat (length (answers m))))).
  change (u16_of (header_wire m ++ rest) (4 + 2 * 2))
    with (from_be (be_bytes 2 (Z.of_nat (length (authority m))))).
  change (u16_of (header_wire m ++ rest) (4 + 2 * 3))
    with (from_be (be_bytes 2 (Z.of_nat (length (additional m))))).
  destruct Hh as (Hid & _).
  rewrite !be_roundtrip by (done || unfold in_width; lia). rewrite !Nat2Z.id.
  change 12%nat with (length (header_wire m)). unfold rest.
  rewrite read_questions_wire by done. cbn [result_bind].
  rewrite (app_assoc (header_wire m)).
  rewrite read_section_wire by first [done | eapply section_fits; [apply Z.le_refl|lia]].
  cbn [result_bind]. rewrite (app_assoc (header_wire m ++ _)).
  rewrite read_section_wire by first [done | eapply section_fits; [apply Z.le_refl|lia]].
  cbn [result_bind]. rewrite (app_assoc ((header_wire m ++ _) ++ _)).
  rewrite <- (app_nil_r (concat (map record_wire (additional m)))).
  rewrite read_section_wire by first [done | eapply section_fits; [apply Z.le_refl|lia]].
  cbn [result_bind]. rewrite Hfl. by destruct m.
Qed.

(** An encoded well-formed message decodes to itself. *)
Lemma encode_decode m bytes :
  Message_wf m -> Message_encode m = Ok bytes -> Message_decode bytes = Ok m.
Proof.
  intros Hwf He. rewrite encode_wire in He by done. case_bool_decide as Hok; [|done].
  simplify_eq. destruct Hok. by apply decode_wire.
Qed.

(** ** The decoder's type invariant *)

Lemma read_txt_fuel fuel : forall data p acc,
  (length data - p <= fuel)%nat -> read_txt fuel data p acc <> None.
Proof.
  induction fuel as [|fuel IH]; intros data p acc Hf; cbn [read_txt];
    destruct (Nat.ltb_spec p (length data)); try done; [lia|].
  case_step; [|done]. apply IH. lia.
Qed.

Lemma read_txt_done data :
  read_txt (length data) data 0 [] =
  Some (default (Err BadRData) (read_txt (length data) data 0 [])).
Proof.
  destruct (read_txt (length data) data 0 []) eqn:E; [done|].
  by apply read_txt_fuel in E; [|lia].
Qed.

Lemma read_txt_ok fuel : forall data p acc ss,
  bytes_ok data -> Forall txt_ok acc ->
  read_txt fuel data p acc = Some (Ok ss) -> Forall txt_ok ss.
Proof.
  induction fuel as [|fuel IH]; intros data p acc ss Hd Hacc Hr; cbn [read_txt] in Hr;
    destruct (p <? length data)%nat; simplify_eq; [done| |done].
  case_step_in Hr. revert Hr. apply IH; [done|].
  apply Forall_app; split; [done|]. apply Forall_singleton. split.
  - apply slice_get_length in E.
    pose proof (octet_u8 data p Hd) as Ho%is_u8_le. lia.
  - by apply (slice_get_forall _ _ _ _ _ Hd E).
Qed.

Lemma u16_of_u16 b i : bytes_ok b -> is_u16 (u16_of b i).
Proof.
  intros Hb. apply from_be_u16; [|done]. unfold u16_of. by forall_list; apply octet_u8.
Qed.

Lemma u32_of_u32 b i : bytes_ok b -> is_u32 (u32_of b i).
Proof.
  intros Hb. apply from_be_u32; [|done]. unfold u32_of. by forall_list; apply octet_u8.
Qed.

Lemma u16_at_u16 msg pos v : bytes_ok msg -> u16_at msg pos = Ok v -> is_u16 v.
Proof.
  intros Hm H. unfold u16_at in H. inv_ok H. simplify_eq.
  apply u16_of_u16. by eapply slice_get_forall.
Qed.

Lemma u32_at_u32 msg pos v : bytes_ok msg -> u32_at msg pos = Ok v -> is_u32 v.
Proof.
  intros Hm H. unfold u32_at in H. inv_ok H. simplify_eq.
  apply u32_of_u32. by eapply slice_get_forall.
Qed.

Lemma name_at_wf msg end_ pos n next :
  bytes_ok msg -> name_at msg end_ pos = Ok (n, next) -> Name_wf n.
Proof.
  intros Hm. unfold name_at. generalize (Name_read_inv msg pos).
  destruct (Name_read msg pos) as [[n' next']|e]; cbn [result_bind]; [|discriminate].
  intros Hinv. destruct (end_ <? next')%nat; [discriminate|]. intros [= <- <-].
  by apply (Hinv n' next').
Qed.

#[local] Strategy expand [orb].
#[local] Strategy 1000 [name_at Name_read u16_at u32_at slice_get from_be].

Ltac rtype_case H rt x :=
  let E := fresh "Ert" in
  destruct (rt =? x) eqn:E; cbn [orb] in H; [apply Z.eqb_eq in E|].

Lemma untyped_rtype rt :
  (rt =? rtype.A) = false -> (rt =? rtype.AAAA) = false -> (rt =? rtype.CNAME) = false ->
  (rt =? rtype.PTR) = false -> (rt =? rtype.NS) = false -> (rt =? rtype.SOA) = false ->
  (rt =? rtype.MX) = false -> (rt =? rtype.SRV) = false -> (rt =? rtype.TXT) = false ->
  (rt =? rtype.OPT) = false -> rt ∉ typed_rtypes.
Proof.
  intros. bool_simpl. unfold typed_rtypes. rewrite !not_elem_of_cons.
  repeat split; try done. apply not_elem_of_nil.
Qed.

Lemma read_rdata_wf msg rt start len rd :
  bytes_ok msg -> read_rdata msg rt start len = Ok rd -> rdata_wf rt rd.
Proof.
  intros Hm H. unfold read_rdata in H. inv_ok H. rename a into data.
  pose proof (slice_get_forall _ _ _ _ _ Hm E) as Hd.
  pose proof (slice_get_length _ _ _ _ E) as Hlen.
  rtype_case H rt rtype.A.
  { case_all_in H. bool_simpl. subst. split; [done|]. apply from_be_u32; [done|lia]. }
  rtype_case H rt rtype.AAAA.
  { case_all_in H. bool_simpl. subst. split; [done|].
    apply from_be_u128; [done|lia]. }
  rtype_case H rt rtype.CNAME.
  { inv_ok H. destruct a as [nm next]. apply name_at_wf in E0; [|done].
    destruct (negb _); [discriminate H|]. injection H as <-. by split. }
  rtype_case H rt rtype.PTR.
  { inv_ok H. destruct a as [nm next]. apply name_at_wf in E0; [|done].
    destruct (negb _); [discriminate H|]. injection H as <-. by split. }
  rtype_case H rt rtype.NS.
  { inv_ok H. destruct a as [nm next]. apply name_at_wf in E0; [|done].
    destruct (negb _); [discriminate H|]. injection H as <-. by split. }
  rtype_case H rt rtype.SOA.
  { inv_ok H. destruct a as [mname p]. inv_ok H. destruct a as [rname p'].
    apply name_at_wf in E0, E1; try done. case_step_in H. inv_ok H. simplify_eq.
    split; [done|]. split; [done|]. split; [done|]. forall_list; (eapply (u32_at_u32 msg); [done|eassumption]). }
  rtype_case H rt rtype.MX.
  { case_step_in H. inv_ok H. destruct a as [exchange p].
    lazymatch goal with E : name_at _ _ _ = _ |- _ => apply name_at_wf in E; [|done] end.
    case_step_in H. inv_ok H. simplify_eq.
    split; [done|]. split; [eapply (u16_at_u16 msg); [done|eassumption]|done]. }
  rtype_case H rt rtype.SRV.
  { case_step_in H. inv_ok H. destruct a as [target p].
    lazymatch goal with E : name_at _ _ _ = _ |- _ => apply name_at_wf in E; [|done] end.
    case_step_in H. inv_ok H. simplify_eq.
    split; [done|]. split; [forall_list; (eapply (u16_at_u16 msg); [done|eassumption])|done]. }
  rtype_case H rt rtype.TXT.
  { inv_ok H. simplify_eq. split; [done|].
    pose proof (read_txt_done data) as Ht. rewrite E0 in Ht.
    by apply (read_txt_ok _ _ _ _ _ Hd (Forall_nil_2 _) Ht). }
  rtype_case H rt rtype.OPT.
  { simplify_eq. done. }
  injection H as <-. split; [|exact Hd]. by apply untyped_rtype.
Qed.

Lemma read_questions_wf count : forall msg p acc qs next,
  bytes_ok msg -> Forall Question_wf acc ->
  read_questions count msg p acc = Ok (qs, next) -> Forall Question_wf qs.
Proof.
  induction count as [|count IH]; intros msg p acc qs next Hm Hacc H; cbn [read_questions] in H.
  { by simplify_eq. }
  inv_ok H. destruct a as [name nx]. inv_ok H. revert H. apply IH; [done|].
  apply Forall_app; split; [done|]. apply Forall_singleton.
  apply Name_read_inv in E as [? _]; [|done].
  pose proof (slice_get_forall _ _ _ _ _ Hm E0).
  split; [done|]. split; by apply u16_of_u16.
Qed.

Lemma read_section_wf count : forall msg p acc rs next,
  bytes_ok msg -> Forall Record_wf acc ->
  read_section count msg p acc = Ok (rs, next) -> Forall Record_wf rs.
Proof.
  induction count as [|count IH]; intros msg p acc rs next Hm Hacc H; cbn [read_section] in H.
  { by simplify_eq. }
  inv_ok H. destruct a as [name nx]. inv_ok H. revert H. apply IH; [done|].
  apply Forall_app; split; [done|]. apply Forall_singleton.
  apply Name_read_inv in E as [? _]; [|done].
  pose proof (slice_get_forall _ _ _ _ _ Hm E0).
  split; [done|]. split; [by apply u16_of_u16|]. split; [by apply u16_of_u16|].
  split; [by apply u32_of_u32|]. by apply (read_rdata_wf msg _ _ _ _ Hm E1).
Qed.

Lemma from_flags_wf id f : is_u16 id -> Header_wf (Header_from_flags id f).
Proof.
  intros Hid. split; [done|]. simpl.
  assert (forall x, 0 <= Z.land x 15 < 16) as Hl.
  { intros x. change 15 with (Z.ones 4). rewrite Z.land_ones by lia.
    change (2 ^ 4) with 16. apply Z.mod_pos_bound. lia. }
  pose proof (Hl (Z.shiftr f 11)). pose proof (Hl f).
  rewrite !wrap_small by (unfold in_width; lia). done.
Qed.

Lemma decode_message_wf msg m :
  bytes_ok msg -> Message_decode msg = Ok m -> Message_wf m.
Proof.
  intros Hm H. unfold Message_decode in H. case_step_in H.
  inv_ok H. destruct a as [qs p1]. inv_ok H. destruct a as [an p2]. inv_ok H.
  destruct a as [au p3]. inv_ok H. destruct a as [ad p4]. simplify_eq.
  split; [by apply from_flags_wf, u16_of_u16|].
  split; [by apply (read_questions_wf _ _ _ _ _ _ Hm (Forall_nil_2 _) E0)|].
  split; [by apply (read_section_wf _ _ _ _ _ _ Hm (Forall_nil_2 _) E1)|].
  split; [by apply (read_section_wf _ _ _ _ _ _ Hm (Forall_nil_2 _) E2)|].
  by apply (read_section_wf _ _ _ _ _ _ Hm (Forall_nil_2 _) E3).
Qed.

(** ** A query always encodes *)

Lemma Record_opt_wf size do_bit : is_u16 size -> Record_wf (Record_opt size do_bit).
Proof.
  intros Hs. unfold Record_wf, Record_opt. simpl. split; [apply Name_root_wf|].
  split; [by_decide|]. split; [done|]. split; [destruct do_bit; by_decide|]. split; [done|constructor].
Qed.

Lemma query_wf id q : is_u16 id -> Question_wf q -> Message_wf (Message_query id q).
Proof.
  intros Hid Hq. split; [split; [done|by_decide]|].
  split; [by apply Forall_singleton|]. split; [constructor|]. split; [constructor|].
  apply Forall_singleton, Record_opt_wf. by_decide.
Qed.

Lemma length_question_wire q :
  Name_wf (q_name q) -> (length (question_wire q) <= MAX_NAME_LEN + 4)%nat.
Proof.
  intros [_ Hw]. unfold question_wire. rewrite !length_app, length_name_wire, !length_be_bytes. lia.
Qed.

Lemma query_encodes id q :
  is_u16 id -> Question_wf q ->
  Message_encode (Message_query id q) = Ok (message_wire (Message_query id q)) /\
  (length (message_wire (Message_query id q)) <= 282)%nat.
Proof.
  intros Hid Hq.
  assert (length (message_wire (Message_query id q)) <= 282)%nat as Hlen.
  { destruct Hq as (Hn & _). pose proof (length_question_wire q Hn) as Hl.
    unfold message_wire, header_wire. cbn [questions answers authority additional Message_query map concat].
    rewrite !length_app. simpl (length (record_wire _)). cbn [length app].
    rewrite !length_be_bytes. unfold MAX_NAME_LEN in Hl. simpl. lia. }
  split; [|done]. rewrite encode_wire by (by apply query_wf).
  rewrite bool_decide_eq_true_2; [done|]. split; [|unfold MAX_MESSAGE_SIZE; lia].
  unfold counts_ok. cbn [questions answers authority additional Message_query length]. by_decide.
Qed.

(** ** Sizes

    How long the wire form of any message is, by counting; whether it encodes
    is a matter of that size alone. *)

Definition rdata_size (rd : RData) : nat :=
  match rd with
  | RA _ => 4
  | RAaaa _ => 16
  | RCname n | RPtr n | RNs n => wire_len n
  | RSoa mname rname _ _ _ _ _ => wire_len mname + wire_len rname + 20
  | RMx _ exchange => 2 + wire_len exchange
  | RSrv _ _ _ target => 6 + wire_len target
  | RTxt ss => sum_list (map (fun s => 1 + Nat.min (length s) 255) ss)
  | ROpt b | RUnknown b => length b
  end%nat.

Definition record_size (r : Record_) : nat := (wire_len (r_name r) + 10 + rdata_size (r_rdata r))%nat.
Definition question_size (q : Question) : nat := (wire_len (q_name q) + 4)%nat.

Definition message_size (m : Message) : Z :=
  Z.of_nat (12 + sum_list (map question_size (questions m)) +
            sum_list (map record_size (answers m ++ authority m ++ additional m))).

Lemma length_Name_write n out : length (Name_write n out) = (length out + wire_len n)%nat.
Proof.
  unfold Name_write, wire_len. rewrite length_app. cbn [length]. revert out.
  induction (labels n) as [|l ls IH]; intros out; cbn [foldl map sum_list sum_list_with id]; [lia|].
  specialize (IH (out ++ [wrap 8 (Z.of_nat (length l))] ++ l)). rewrite !length_app in IH. cbn [length] in IH. lia.
Qed.

Lemma length_push_u16 out v : length (push_u16 out v) = (length out + 2)%nat.
Proof. unfold push_u16. by rewrite length_app, length_be_bytes. Qed.

Lemma length_push_u32 out v : length (push_u32 out v) = (length out + 4)%nat.
Proof. unfold push_u32. by rewrite length_app, length_be_bytes. Qed.

Lemma length_write_rdata out rd : length (write_rdata out rd) = (length out + rdata_size rd)%nat.
Proof.
  destruct rd as [a|a|n|n|n|mn rn s1 s2 s3 s4 s5|p n|p w o n|ss|b|b]; cbn [write_rdata rdata_size foldl];
    rewrite ?length_push_u32, ?length_Name_write, ?length_push_u16; try lia.
  - unfold octets_v4. by rewrite length_app, length_be_bytes.
  - unfold octets_v6. by rewrite length_app, length_be_bytes.
  - revert out. induction ss as [|s ss IH]; intros out; cbn [foldl map sum_list sum_list_with id]; [lia|].
    rewrite IH. unfold write_txt. rewrite !length_app, length_take. cbn [length]. lia.
  - by rewrite length_app.
  - by rewrite length_app.
Qed.

Lemma length_Record_write r out : length (Record_write r out) = (length out + record_size r)%nat.
Proof.
  unfold Record_write, record_size. rewrite !length_app, length_be_bytes, length_take, length_drop.
  rewrite length_write_rdata, length_app. cbn [length].
  rewrite length_push_u32, !length_push_u16, length_Name_write. lia.
Qed.

Lemma length_foldl_write {A} (write : list Z -> A -> list Z) (size : A -> nat) xs :
  (forall out x, length (write out x) = (length out + size x)%nat) ->
  forall out, length (foldl write out xs) = (length out + sum_list (map size xs))%nat.
Proof.
  intros Hw. induction xs as [|x xs IH]; intros out; cbn [foldl map sum_list sum_list_with id]; [lia|]. rewrite IH, Hw. lia.
Qed.

Lemma length_le_sizes {A} (size : A -> nat) xs :
  (forall x, (1 <= size x)%nat) -> (length xs <= sum_list (map size xs))%nat.
Proof. intros Hs. induction xs as [|x xs IH]; cbn [length map sum_list sum_list_with id]; [lia|]. specialize (Hs x). lia. Qed.

(** A message encodes exactly when it is no larger than a message can be. *)
Lemma encode_by_size m :
  if message_size m <=? 65535
  then exists bytes, Message_encode m = Ok bytes /\ Z.of_nat (length bytes) = message_size m
  else Message_encode m = Err TooLarge.
Proof.
  unfold Message_encode. rewrite write_counts_ok.
  set (head := push_u16 (push_u16 [] (h_id (header m))) (Header_flags (header m)) ++ _).
  assert (length head = 12%nat) as Hh.
  { unfold head. rewrite length_app, !length_push_u16. cbn [map concat length]. rewrite !length_app, !length_be_bytes. done. }
  set (body := foldl (fun out r => Record_write r out) (foldl Question_write head (questions m))
                 (answers m ++ authority m ++ additional m)).
  assert (Z.of_nat (length body) = message_size m) as Hb.
  { unfold body, message_size.
    rewrite (length_foldl_write _ record_size) by (intros; apply length_Record_write).
    rewrite (length_foldl_write _ question_size); [by rewrite Hh|].
    intros out q. unfold Question_write, question_size. rewrite !length_push_u16, length_Name_write. lia. }
  destruct (forallb _ _) eqn:Hc.
  - cbn [result_bind]. cbv zeta. fold head. fold body. unfold MAX_MESSAGE_SIZE. rewrite Hb, Z.ltb_antisym.
    destruct (message_size m <=? 65535); [by exists body|done].
  - destruct (Z.leb_spec (message_size m) 65535) as [Hle|]; [|done]. exfalso.
    enough (counts_ok m) as Hok by (apply counts_ok_forallb in Hok; congruence).
    pose proof (length_le_sizes question_size (questions m) ltac:(unfold question_size; lia)) as Hq.
    pose proof (length_le_sizes record_size (answers m ++ authority m ++ additional m) ltac:(unfold record_size; lia)) as Hr.
    rewrite !length_app in Hr. unfold message_size in Hle. unfold counts_ok.
    rewrite !Forall_cons, Forall_nil. split_and!; try done; lia.
Qed.

Lemma sum_list_elem {A} (size : A -> nat) x xs : In x xs -> (size x <= sum_list (map size xs))%nat.
Proof.
  induction xs as [|y xs IH]; cbn [In map sum_list sum_list_with id]; [done|].
  intros [->|Hx]; [lia|]. specialize (IH Hx). lia.
Qed.

Lemma truncate_size m : message_size (truncate_message m) <= message_size m.
Proof.
  unfold message_size, truncate_message. cbn [questions answers authority additional app].
  rewrite !map_app, !sum_list_app. enough (sum_list (map record_size
    match Message_opt m with Some opt => [opt] | None => [] end) <= sum_list (map record_size (additional m)))%nat by lia.
  unfold Message_opt. destruct (List.find _ _) as [opt|] eqn:E; cbn [map sum_list sum_list_with id]; [|lia].
  apply List.find_some in E as [Hin _]. pose proof (sum_list_elem record_size opt _ Hin). lia.
Qed.

Lemma encode_udp_by_size m limit :
  if message_size m <=? 65535
  then exists bytes, encode_udp m limit = Ok bytes /\
    Message_encode (if message_size m <=? limit then m else truncate_message m) = Ok bytes
  else encode_udp m limit = Err TooLarge.
Proof.
  unfold encode_udp. pose proof (encode_by_size m) as Hm. destruct (Z.leb_spec (message_size m) 65535) as [Hle|].
  - destruct Hm as (bytes & He & Hs). rewrite He. cbn [result_bind]. rewrite Hs. destruct (_ <=? limit); [by exists bytes|].
    pose proof (encode_by_size (truncate_message m)) as Ht. pose proof (truncate_size m).
    rewrite (proj2 (Z.leb_le _ _)) in Ht by lia. destruct Ht as (short & -> & _). by exists short.
  - by rewrite Hm.
Qed.
