(* ===== verification/Cache.v ===== *)
(** * The answer cache (resolvd/src/cache.rs)

    The cache as a map from (lower-cased name, type, scope) to entries, with
    its four state changes, and the [Outcome] of resolvd-core that it stores.
    Instants are nanoseconds. *)

From S2P Require Import Prelude Net Names Message MessageProofs.
Local Open Scope Z_scope.

(** How a question ended (resolvd-core/src/lib.rs). *)
Inductive Outcome : Type := Found | NotFound | Unavailable.

Definition Outcome_default : Outcome := Unavailable.

Definition Outcome_as_str (o : Outcome) : list Z :=
  match o with
  | Found => bytes_of "found"
  | NotFound => bytes_of "notfound"
  | Unavailable => bytes_of "unavailable"
  end.

Definition Outcome_parse (s : list Z) : option Outcome :=
  if bool_decide (s = bytes_of "found") then Some Found
  else if bool_decide (s = bytes_of "notfound") then Some NotFound
  else if bool_decide (s = bytes_of "unavailable") then Some Unavailable
  else None.

#[export] Instance Outcome_eq_dec : EqDecision Outcome.
Proof. solve_decision. Defined.

(** Nanoseconds per second; [as_secs] of a duration. *)
Definition NANOS : Z := 1000000000.
Definition as_secs (d : Z) : Z := d / NANOS.
Definition from_secs (s : Z) : Z := s * NANOS.
Definition saturating_duration_since (a b : Z) : Z := Z.max 0 (a - b).

Definition MAX_ENTRIES : nat := Z.to_nat 8192.

Record CacheKey : Type := mkCacheKey {
  ck_name : Name;
  ck_rtype : Z;
  ck_scope : list Z;
}.

Definition CacheKey_new (name : Name) (rtype : Z) (scope : list Z) : CacheKey :=
  mkCacheKey (to_lowercase name) rtype scope.

Record Entry : Type := mkEntry {
  e_outcome : Outcome;
  e_records : list Record_;
  e_rcode : Z;
  e_server : IpAddr;
  e_expires : Z;
}.

#[export] Instance CacheKey_eq_dec : EqDecision CacheKey.
Proof. solve_decision. Defined.
#[export] Instance Entry_eq_dec : EqDecision Entry.
Proof. solve_decision. Defined.
#[export] Program Instance CacheKey_countable : Countable CacheKey :=
  inj_countable (fun k => (ck_name k, ck_rtype k, ck_scope k))
                (fun '(n, t, s) => Some (mkCacheKey n t s)) _.
Next Obligation. by intros []. Qed.

Abbreviation Cache := (gmap CacheKey Entry).

Definition Cache_new : Cache := ∅.

Definition Cache_len (c : Cache) : nat := size c.

Definition min_ttl (remaining : Z) (r : Record_) : Record_ :=
  mkRecord (r_name r) (r_rtype r) (r_class r) (Z.min (r_ttl r) remaining) (r_rdata r).

(** A live entry with its TTLs reduced; an expired one is removed. *)
Definition Cache_get (c : Cache) (key : CacheKey) (now : Z) : Cache * option Entry :=
  match c !! key with
  | None => (c, None)
  | Some e =>
      if e_expires e <=? now then (delete key c, None)
      else
        let remaining := wrap 32 (as_secs (saturating_duration_since (e_expires e) now)) in
        (c, Some (mkEntry (e_outcome e) (map (min_ttl remaining) (e_records e))
                          (e_rcode e) (e_server e) (e_expires e)))
  end.

Definition retain_live (now : Z) (c : Cache) : Cache :=
  filter (fun ke => now < e_expires ke.2) c.

Definition victim `{MapOrder} (c : Cache) : option CacheKey :=
  fst <$> min_by_key (fun ke => e_expires ke.2) (map_iter c).

Definition make_room `{MapOrder} (c : Cache) (key : CacheKey) (now : Z) : Cache :=
  if ((MAX_ENTRIES <=? size c)%nat && negb (bool_decide (is_Some (c !! key))))%bool then
    let c := retain_live now c in
    if (MAX_ENTRIES <=? size c)%nat then
      match victim c with Some v => delete v c | None => c end
    else c
  else c.

Definition Cache_insert `{MapOrder} (c : Cache) (key : CacheKey) (entry : Entry) (now : Z) : Cache :=
  <[key := entry]> (make_room c key now).

Definition flush_scope (c : Cache) (scope : list Z) : Cache :=
  filter (fun ke => ck_scope ke.1 <> scope) c.

Definition Cache_clear (c : Cache) : Cache := ∅.

(** ** Keys *)

(** Rust compares cache keys with [Name]'s case-insensitive equality; on keys
    built by [CacheKey::new] that is Leibniz equality. *)
Lemma CacheKey_new_eq n1 n2 t s :
  CacheKey_new n1 t s = CacheKey_new n2 t s <-> n1 ≃ n2.
Proof.
  unfold CacheKey_new. split.
  - intros [= H]. done.
  - intros H. f_equal. unfold to_lowercase. f_equal. apply H.
Qed.

#[export] Instance CacheKey_new_proper : Proper (Name_equiv ==> eq ==> eq ==> eq) CacheKey_new.
Proof. intros a b H ? ? -> ? ? ->. by apply CacheKey_new_eq. Qed.

(** ** Lookup *)

Section get.
Context (c : Cache) (key : CacheKey) (now : Z).

Lemma Cache_get_miss : c !! key = None -> Cache_get c key now = (c, None).
Proof. unfold Cache_get. by intros ->. Qed.

Lemma Cache_get_expired e :
  c !! key = Some e -> e_expires e <= now -> Cache_get c key now = (delete key c, None).
Proof. unfold Cache_get. intros -> H. by rewrite (proj2 (Z.leb_le _ _) H). Qed.

Lemma Cache_get_Some c' out :
  Cache_get c key now = (c', Some out) ->
  exists e, c !! key = Some e /\ c' = c /\ now < e_expires e /\
    out = mkEntry (e_outcome e)
      (map (min_ttl (wrap 32 (as_secs (e_expires e - now)))) (e_records e))
      (e_rcode e) (e_server e) (e_expires e).
Proof.
  unfold Cache_get. intros H. destruct (c !! key) as [e|]; [|done].
  destruct (e_expires e <=? now) eqn:E; [done|]. bool_simpl. exists e.
  unfold saturating_duration_since in H. rewrite Z.max_r in H by lia. by simplify_eq.
Qed.

Lemma Cache_get_subseteq : (Cache_get c key now).1 ⊆ c.
Proof.
  unfold Cache_get. destruct (c !! key); [case_match|]; simpl; try done. apply delete_subseteq.
Qed.
End get.

(** ** Insertion *)

Section insert.
Context `{MapOrder}.

Lemma retain_live_subseteq now c : retain_live now c ⊆ c.
Proof. apply map_filter_subseteq. Qed.

Lemma victim_is_Some c : (0 < size c)%nat -> is_Some (victim c).
Proof.
  intros Hs. unfold victim. destruct (min_by_key _ _) eqn:E; [done|].
  apply min_by_key_None, map_iter_nil in E as ->. rewrite map_size_empty in Hs. lia.
Qed.

(** The victim expires no later than anything else in the cache. *)
Lemma victim_soonest c v :
  victim c = Some v ->
  exists e, c !! v = Some e /\ forall k e', c !! k = Some e' -> e_expires e <= e_expires e'.
Proof.
  unfold victim. intros [[v' e] [Hm ->]]%fmap_Some.
  apply min_by_key_Some in Hm as [Hin Hle]. exists e.
  split; [by apply map_iter_elem|]. intros k e' Hk. by apply (Hle (k, e')), map_iter_elem.
Qed.

Lemma make_room_subseteq c key now : make_room c key now ⊆ c.
Proof.
  unfold make_room. case_match; [|done]. pose proof (retain_live_subseteq now c).
  case_match; [|done]. destruct (victim _); [|done].
  etrans; [apply delete_subseteq|done].
Qed.

Lemma make_room_size c key now :
  (size c <= MAX_ENTRIES)%nat -> c !! key = None ->
  (size (make_room c key now) < MAX_ENTRIES)%nat.
Proof.
  intros Hs Hk. unfold make_room.
  rewrite (bool_decide_eq_false_2 (is_Some (c !! key))) by (rewrite Hk; by intros [??]).
  rewrite andb_true_r. destruct (MAX_ENTRIES <=? size c)%nat eqn:E; bool_simpl; [|done].
  destruct (MAX_ENTRIES <=? size (retain_live now c))%nat eqn:E2; bool_simpl; [|done].
  destruct (victim_is_Some (retain_live now c)) as [v Hv].
  { unfold MAX_ENTRIES in *. lia. }
  rewrite Hv. destruct (victim_soonest _ _ Hv) as (e & Hin & _).
  pose proof (map_subseteq_size _ _ (retain_live_subseteq now c)).
  rewrite map_size_delete_Some by done. unfold MAX_ENTRIES in *. lia.
Qed.

(** The size bound is an invariant of insertion. *)
Lemma Cache_insert_size c key entry now :
  (size c <= MAX_ENTRIES)%nat -> (size (Cache_insert c key entry now) <= MAX_ENTRIES)%nat.
Proof.
  intros Hs. unfold Cache_insert. destruct (c !! key) as [old|] eqn:Hk.
  - unfold make_room. rewrite (bool_decide_eq_true_2 (is_Some (c !! key))) by (by rewrite Hk).
    rewrite andb_false_r. by rewrite map_size_insert_Some.
  - pose proof (make_room_size c key now Hs Hk).
    rewrite map_size_insert. case_match; simpl; lia.
Qed.

Lemma Cache_insert_lookup c key entry now : Cache_insert c key entry now !! key = Some entry.
Proof. apply lookup_insert_eq. Qed.

(** Insertion invents nothing: any other key holds what it held, or is gone. *)
Lemma Cache_insert_other c key entry now k e :
  k <> key -> Cache_insert c key entry now !! k = Some e -> c !! k = Some e.
Proof.
  intros Hne. unfold Cache_insert. rewrite lookup_insert_ne by done.
  intros Hl. exact (lookup_weaken _ _ _ _ Hl (make_room_subseteq c key now)).
Qed.

(** A live entry is lost only when the cache is full of live entries, and
    then it is one that expires soonest. *)
Lemma make_room_lost c key now k e :
  c !! k = Some e -> now < e_expires e -> make_room c key now !! k = None ->
  (MAX_ENTRIES <= size (retain_live now c))%nat /\
  forall k' e', c !! k' = Some e' -> now < e_expires e' -> e_expires e <= e_expires e'.
Proof.
  intros Hk Hlive. assert (retain_live now c !! k = Some e) as Hr by (by apply map_lookup_filter_Some).
  unfold make_room. case_match; [|by rewrite Hk].
  destruct (MAX_ENTRIES <=? size (retain_live now c))%nat eqn:E2; bool_simpl; [|by rewrite Hr].
  destruct (victim _) as [v|] eqn:Hv; [|by rewrite Hr].
  intros [->|Hd]%lookup_delete_None; [|by rewrite Hr in Hd].
  destruct (victim_soonest _ _ Hv) as (e1 & He1 & Hle). rewrite Hr in He1. simplify_eq.
  split; [done|]. intros k' e' Hk' Hl'. apply (Hle k'). by apply map_lookup_filter_Some.
Qed.
End insert.

(** ** The cache's invariant

    At most [MAX_ENTRIES] entries, none of them an [Unavailable] outcome. *)

Record Cache_ok (c : Cache) : Prop := mkCache_ok {
  cache_bounded : (size c <= MAX_ENTRIES)%nat;
  cache_outcomes : map_Forall (fun _ e => e_outcome e <> Unavailable) c;
}.

Lemma Cache_ok_subseteq c c' : c' ⊆ c -> Cache_ok c -> Cache_ok c'.
Proof.
  intros Hsub [Hb Ho]. split.
  - pose proof (map_subseteq_size _ _ Hsub). lia.
  - intros k e Hk. by apply (Ho k e), (lookup_weaken _ _ _ _ Hk Hsub).
Qed.

Lemma Cache_new_ok : Cache_ok Cache_new.
Proof. split; [vm_compute; lia|apply map_Forall_empty]. Qed.

Lemma Cache_get_ok c key now : Cache_ok c -> Cache_ok (Cache_get c key now).1.
Proof. apply Cache_ok_subseteq, Cache_get_subseteq. Qed.

Lemma Cache_insert_ok `{MapOrder} c key entry now :
  e_outcome entry <> Unavailable -> Cache_ok c -> Cache_ok (Cache_insert c key entry now).
Proof.
  intros He [Hb Ho]. split; [by apply Cache_insert_size|].
  intros k e. unfold Cache_insert. rewrite lookup_insert_Some.
  intros [[_ <-]|[Hne Hk]]; [done|].
  apply (Ho k e), (lookup_weaken _ _ _ _ Hk (make_room_subseteq c key now)).
Qed.

Lemma flush_scope_subseteq c s : flush_scope c s ⊆ c.
Proof. apply map_filter_subseteq. Qed.

Lemma flush_scope_ok c s : Cache_ok c -> Cache_ok (flush_scope c s).
Proof. apply Cache_ok_subseteq, flush_scope_subseteq. Qed.

Lemma flush_scope_spec c s k :
  flush_scope c s !! k = if decide (ck_scope k = s) then None else c !! k.
Proof.
  unfold flush_scope. case_decide as Hs.
  - apply map_lookup_filter_None. right. by intros e _ Hne.
  - destruct (c !! k) as [e|] eqn:E.
    + by apply map_lookup_filter_Some.
    + apply map_lookup_filter_None. by left.
Qed.

#[export] Hint Resolve Cache_get_ok Cache_insert_ok flush_scope_ok Cache_new_ok : resolvd.
