(* ===== verification/EngineState.v ===== *)
(** * The engine's data (resolvd/src/engine.rs)

    Scopes, answers, actions, tasks, transactions and the engine's state as
    records, with the field updates the operations use.  Transaction, task
    and question ids are the integers the engine counts up from one; at one
    id a nanosecond a [u64] lasts five centuries, so they do not wrap here.
    Interface and scope names are their bytes. *)

From S2P Require Import Prelude Net Names Message MessageProofs Cache.
Local Open Scope Z_scope.

Abbreviation Qid := Z.
Abbreviation Txid := Z.
Abbreviation TaskId := Z.
Abbreviation Str := (list Z).

(** netd's interface levels, in their order. *)
Inductive Level : Type := Absent | Link | Addressed | Routed.

Definition Level_rank (l : Level) : Z :=
  match l with Absent => 0 | Link => 1 | Addressed => 2 | Routed => 3 end.

Definition Level_ge (a b : Level) : bool := Level_rank b <=? Level_rank a.

Definition Level_as_str (l : Level) : Str :=
  match l with
  | Absent => bytes_of "absent"
  | Link => bytes_of "link"
  | Addressed => bytes_of "addressed"
  | Routed => bytes_of "routed"
  end.

Definition Level_parse (s : Str) : option Level :=
  if bool_decide (s = bytes_of "absent") then Some Absent
  else if bool_decide (s = bytes_of "link") then Some Link
  else if bool_decide (s = bytes_of "addressed") then Some Addressed
  else if bool_decide (s = bytes_of "routed") then Some Routed
  else None.

(** ** Bounds of the engine; durations are nanoseconds *)

Definition SERVER_TIMEOUT : Z := from_secs 2.
Definition MAX_ATTEMPTS : nat := 3.
Definition DEMOTION : Z := from_secs 30.
Definition MAX_POSITIVE_TTL : Z := 86400.
Definition MAX_NEGATIVE_TTL : Z := 300.
Definition MAX_IN_FLIGHT : nat := Z.to_nat 4096.
Definition U32_MAX : Z := 4294967295.

Record Scope : Type := mkScope {
  s_id : Str;
  s_interface : Str;
  s_servers : list IpAddr;
  s_domains : list Name;
  s_addresses : list (IpAddr * Z);
  s_default_route : bool;
  s_exclusive : bool;
  s_metric : Z;
  s_level : Level;
}.

Definition FALLBACK_SCOPE : Str := bytes_of "fallback".

(** ** Answers *)

Inductive Source : Type := SrcLocal | Synthetic | Hosts | FromCache | Dns.

Definition Source_as_str (s : Source) : Str :=
  match s with
  | SrcLocal => bytes_of "local"
  | Synthetic => bytes_of "synthetic"
  | Hosts => bytes_of "hosts"
  | FromCache => bytes_of "cache"
  | Dns => bytes_of "dns"
  end.

Record Answer : Type := mkAnswer {
  a_outcome : Outcome;
  a_records : list Record_;
  a_source : Source;
  a_server : option IpAddr;
  a_interface : option Str;
  a_rcode : Z;
  a_resolved_name : option Name;
  a_negative_ttl : Z;
}.

(** [Answer { outcome, interface, ..Default::default() }]. *)
Definition bare_answer (o : Outcome) (interface : option Str) : Answer :=
  mkAnswer o [] SrcLocal None interface 0 None 0.

Record Addresses : Type := mkAddresses {
  ad_outcome : Outcome;
  ad_canonical : Name;
  ad_addresses : list (IpAddr * Z);
  ad_source : Source;
}.

Inductive Completion : Type :=
| CAnswer (a : Answer)
| CAddresses (a : Addresses).

Inductive Action : Type :=
| Send (tx : Txid) (server : IpAddr) (interface : option Str) (tcp : bool) (payload : list Z)
| Cancel (tx : Txid)
| Done (qid : Qid) (completion : Completion).

Inductive Family : Type := FAny | FV4 | FV6.

Record Counters : Type := mkCounters {
  c_queries : Z;
  c_synthetic : Z;
  c_cache_hits : Z;
  c_upstream_sent : Z;
  c_upstream_answered : Z;
  c_upstream_failed : Z;
  c_refused : Z;
}.

Definition Counters_default : Counters := mkCounters 0 0 0 0 0 0 0.

Definition add_queries (c : Counters) : Counters :=
  mkCounters (c_queries c + 1) (c_synthetic c) (c_cache_hits c) (c_upstream_sent c)
    (c_upstream_answered c) (c_upstream_failed c) (c_refused c).
Definition add_synthetic (c : Counters) : Counters :=
  mkCounters (c_queries c) (c_synthetic c + 1) (c_cache_hits c) (c_upstream_sent c)
    (c_upstream_answered c) (c_upstream_failed c) (c_refused c).
Definition add_cache_hits (c : Counters) : Counters :=
  mkCounters (c_queries c) (c_synthetic c) (c_cache_hits c + 1) (c_upstream_sent c)
    (c_upstream_answered c) (c_upstream_failed c) (c_refused c).
Definition add_sent (c : Counters) : Counters :=
  mkCounters (c_queries c) (c_synthetic c) (c_cache_hits c) (c_upstream_sent c + 1)
    (c_upstream_answered c) (c_upstream_failed c) (c_refused c).
Definition add_answered (c : Counters) : Counters :=
  mkCounters (c_queries c) (c_synthetic c) (c_cache_hits c) (c_upstream_sent c)
    (c_upstream_answered c + 1) (c_upstream_failed c) (c_refused c).
Definition add_failed (c : Counters) : Counters :=
  mkCounters (c_queries c) (c_synthetic c) (c_cache_hits c) (c_upstream_sent c)
    (c_upstream_answered c) (c_upstream_failed c + 1) (c_refused c).
Definition add_refused (c : Counters) : Counters :=
  mkCounters (c_queries c) (c_synthetic c) (c_cache_hits c) (c_upstream_sent c)
    (c_upstream_answered c) (c_upstream_failed c) (c_refused c + 1).

(** ** Tasks, transactions, lookups *)

Inductive Owner : Type := OResolve (q : Qid) | OLookup (q : Qid).

Definition Owner_qid (o : Owner) : Qid := match o with OResolve q | OLookup q => q end.

Record Task : Type := mkTask {
  t_owner : Owner;
  t_original : Name;
  t_rtype : Z;
  t_no_cache : bool;
  t_cache_invalidated : bool;
  t_candidates : list Name;
  t_current : option Name;
  t_scope : option Str;
  t_attempt : nat;
  t_tried : list IpAddr;
  t_tx : option Txid;
}.

Record Tx : Type := mkTx {
  x_task : TaskId;
  x_dns_id : Z;
  x_question : Question;
  x_server : IpAddr;
  x_tcp : bool;
  x_deadline : Z;
}.

Record Lookup_ : Type := mkLookup {
  l_name : Name;
  l_pending : list TaskId;
  l_results : list (Z * Answer);
}.

#[export] Instance Source_eq_dec : EqDecision Source.
Proof. solve_decision. Defined.
#[export] Instance Level_eq_dec : EqDecision Level.
Proof. solve_decision. Defined.
#[export] Instance Answer_eq_dec : EqDecision Answer.
Proof. solve_decision. Defined.
#[export] Instance Addresses_eq_dec : EqDecision Addresses.
Proof. solve_decision. Defined.
#[export] Instance Completion_eq_dec : EqDecision Completion.
Proof. solve_decision. Defined.
#[export] Instance Action_eq_dec : EqDecision Action.
Proof. solve_decision. Defined.
#[export] Instance Owner_eq_dec : EqDecision Owner.
Proof. solve_decision. Defined.
#[export] Instance Family_eq_dec : EqDecision Family.
Proof. solve_decision. Defined.

(** ** The engine

    [entropy k] is what the caller's source returns on its [k]-th call: 34
    bytes, or an error.  [drawn] counts the calls.  [hosts] is a [HashMap]
    whose keys compare without case, so it is a map from the lower-cased
    name to the key as given and its addresses. *)

Record Engine : Type := mkEngine {
  scopes : list Scope;
  fallback_servers : list IpAddr;
  fallback_domains : list Name;
  hostname : option Name;
  hosts : gmap Name (Name * list IpAddr);
  cache : Cache;
  demoted : gmap (IpAddr * Str) Z;
  tasks : gmap TaskId Task;
  txs : gmap Txid Tx;
  lookups : gmap Qid Lookup_;
  next_id : Z;
  entropy : nat -> option (list Z);
  drawn : nat;
  counters : Counters;
}.

Definition with_entropy (entropy : nat -> option (list Z)) : Engine :=
  mkEngine [] [] [] None ∅ Cache_new ∅ ∅ ∅ ∅ 1 entropy 0 Counters_default.

(** Field updates. *)
Definition put_scopes (x : list Scope) (e : Engine) : Engine :=
  mkEngine x (fallback_servers e) (fallback_domains e) (hostname e) (hosts e) (cache e)
    (demoted e) (tasks e) (txs e) (lookups e) (next_id e) (entropy e) (drawn e) (counters e).
Definition put_fallback (ss : list IpAddr) (ds : list Name) (e : Engine) : Engine :=
  mkEngine (scopes e) ss ds (hostname e) (hosts e) (cache e)
    (demoted e) (tasks e) (txs e) (lookups e) (next_id e) (entropy e) (drawn e) (counters e).
Definition put_hostname (x : option Name) (e : Engine) : Engine :=
  mkEngine (scopes e) (fallback_servers e) (fallback_domains e) x (hosts e) (cache e)
    (demoted e) (tasks e) (txs e) (lookups e) (next_id e) (entropy e) (drawn e) (counters e).
Definition put_hosts (x : gmap Name (Name * list IpAddr)) (e : Engine) : Engine :=
  mkEngine (scopes e) (fallback_servers e) (fallback_domains e) (hostname e) x (cache e)
    (demoted e) (tasks e) (txs e) (lookups e) (next_id e) (entropy e) (drawn e) (counters e).
Definition put_cache (x : Cache) (e : Engine) : Engine :=
  mkEngine (scopes e) (fallback_servers e) (fallback_domains e) (hostname e) (hosts e) x
    (demoted e) (tasks e) (txs e) (lookups e) (next_id e) (entropy e) (drawn e) (counters e).
Definition put_demoted (x : gmap (IpAddr * Str) Z) (e : Engine) : Engine :=
  mkEngine (scopes e) (fallback_servers e) (fallback_domains e) (hostname e) (hosts e) (cache e)
    x (tasks e) (txs e) (lookups e) (next_id e) (entropy e) (drawn e) (counters e).
Definition put_tasks (x : gmap TaskId Task) (e : Engine) : Engine :=
  mkEngine (scopes e) (fallback_servers e) (fallback_domains e) (hostname e) (hosts e) (cache e)
    (demoted e) x (txs e) (lookups e) (next_id e) (entropy e) (drawn e) (counters e).
Definition put_txs (x : gmap Txid Tx) (e : Engine) : Engine :=
  mkEngine (scopes e) (fallback_servers e) (fallback_domains e) (hostname e) (hosts e) (cache e)
    (demoted e) (tasks e) x (lookups e) (next_id e) (entropy e) (drawn e) (counters e).
Definition put_lookups (x : gmap Qid Lookup_) (e : Engine) : Engine :=
  mkEngine (scopes e) (fallback_servers e) (fallback_domains e) (hostname e) (hosts e) (cache e)
    (demoted e) (tasks e) (txs e) x (next_id e) (entropy e) (drawn e) (counters e).
Definition put_next_id (x : Z) (e : Engine) : Engine :=
  mkEngine (scopes e) (fallback_servers e) (fallback_domains e) (hostname e) (hosts e) (cache e)
    (demoted e) (tasks e) (txs e) (lookups e) x (entropy e) (drawn e) (counters e).
Definition put_drawn (x : nat) (e : Engine) : Engine :=
  mkEngine (scopes e) (fallback_servers e) (fallback_domains e) (hostname e) (hosts e) (cache e)
    (demoted e) (tasks e) (txs e) (lookups e) (next_id e) (entropy e) x (counters e).
Definition count (f : Counters -> Counters) (e : Engine) : Engine :=
  mkEngine (scopes e) (fallback_servers e) (fallback_domains e) (hostname e) (hosts e) (cache e)
    (demoted e) (tasks e) (txs e) (lookups e) (next_id e) (entropy e) (drawn e) (f (counters e)).

(** [if let Some(task) = self.tasks.get_mut(&id) { ... }]. *)
Definition update_task (id : TaskId) (f : Task -> Task) (e : Engine) : Engine :=
  put_tasks (alter f id (tasks e)) e.

Definition set_invalidated (t : Task) : Task :=
  mkTask (t_owner t) (t_original t) (t_rtype t) (t_no_cache t) true (t_candidates t)
    (t_current t) (t_scope t) (t_attempt t) (t_tried t) (t_tx t).
Definition set_candidates (x : list Name) (t : Task) : Task :=
  mkTask (t_owner t) (t_original t) (t_rtype t) (t_no_cache t) (t_cache_invalidated t) x
    (t_current t) (t_scope t) (t_attempt t) (t_tried t) (t_tx t).
Definition set_scope (x : option Str) (t : Task) : Task :=
  mkTask (t_owner t) (t_original t) (t_rtype t) (t_no_cache t) (t_cache_invalidated t)
    (t_candidates t) (t_current t) x (t_attempt t) (t_tried t) (t_tx t).
Definition set_attempt (x : nat) (t : Task) : Task :=
  mkTask (t_owner t) (t_original t) (t_rtype t) (t_no_cache t) (t_cache_invalidated t)
    (t_candidates t) (t_current t) (t_scope t) x (t_tried t) (t_tx t).
Definition set_tried (x : list IpAddr) (t : Task) : Task :=
  mkTask (t_owner t) (t_original t) (t_rtype t) (t_no_cache t) (t_cache_invalidated t)
    (t_candidates t) (t_current t) (t_scope t) (t_attempt t) x (t_tx t).
Definition set_tx (x : option Txid) (t : Task) : Task :=
  mkTask (t_owner t) (t_original t) (t_rtype t) (t_no_cache t) (t_cache_invalidated t)
    (t_candidates t) (t_current t) (t_scope t) (t_attempt t) (t_tried t) x.

(** [pop_front] of the candidate, which becomes the current one. *)
Definition take_candidate (c : Name) (rest : list Name) (t : Task) : Task :=
  mkTask (t_owner t) (t_original t) (t_rtype t) (t_no_cache t) (t_cache_invalidated t) rest
    (Some c) (t_scope t) (t_attempt t) [] (t_tx t).
