(* ===== verification/Records.v ===== *)
(** * From a reply's records to an answer (resolvd/src/engine.rs)

    The pure functions of the engine: which records of a reply belong to the
    answer ([relevant_records]), how long an absence may be cached
    ([negative_ttl]), and how a lookup's per-type answers become addresses
    ([chase], [combine]). *)

From S2P Require Import Prelude Net Names Message MessageProofs Cache EngineState.
Local Open Scope Z_scope.

(** Byte-exact name equality: the reply must echo our case pattern. *)
Definition same_case (a b : Name) : bool := bool_decide (labels a = labels b).

Fixpoint find_map {A B} (f : A -> option B) (l : list A) : option B :=
  match l with
  | [] => None
  | x :: l' => match f x with Some y => Some y | None => find_map f l' end
  end.

Definition soa_ttl (r : Record_) : option Z :=
  match r_rdata r with
  | RSoa _ _ _ _ _ _ minimum => Some (Z.min minimum (r_ttl r))
  | _ => None
  end.

Definition negative_ttl (authority : list Record_) (name : Name) : Z :=
  Z.min (default 0 (find_map soa_ttl
    (List.filter (fun r => (r_class r =? class_IN) && ends_with name (r_name r)) authority)))
    MAX_NEGATIVE_TTL.

(** ** [relevant_records] *)

Definition terminal_match (name : Name) (qtype : Z) (r : Record_) : bool :=
  (r_class r =? class_IN) && Name_eqb (r_name r) name &&
  ((r_rtype r =? qtype) || (qtype =? rtype.ANY)).

(** The inner loop: mark the matching records, and report whether one did. *)
Definition mark (p : Record_ -> bool) (records : list Record_) (keep : list bool) : list bool :=
  zip_with (fun r k => p r || k) records keep.

(** The first IN-class CNAME at [name], with its index. *)
Fixpoint find_cname (index : nat) (records : list Record_) (name : Name) : option (nat * Name) :=
  match records with
  | [] => None
  | r :: rs =>
      match r_rdata r with
      | RCname target =>
          if (r_class r =? class_IN) && Name_eqb (r_name r) name then Some (index, target)
          else find_cname (S index) rs name
      | _ => find_cname (S index) rs name
      end
  end.

(** [for depth in 0..=16]; [togo] is [16 - depth]. *)
Fixpoint relevant_loop (togo : nat) (records : list Record_) (qtype : Z) (keep : list bool)
    (name : Name) (seen : list Name) : list bool * Name :=
  let keep := mark (terminal_match name qtype) records keep in
  let terminal := existsb (terminal_match name qtype) records in
  if terminal || (togo =? 0)%nat || existsb (fun n => Name_eqb n name) seen then (keep, name)
  else
    let seen := seen ++ [name] in
    match find_cname 0 records name, togo with
    | Some (index, target), S togo =>
        relevant_loop togo records qtype (<[index := true]> keep) target seen
    | _, _ => (keep, name)
    end.

Fixpoint keep_marked (records : list Record_) (keep : list bool) : list Record_ :=
  match records, keep with
  | r :: rs, k :: ks => if k then r :: keep_marked rs ks else keep_marked rs ks
  | _, _ => []
  end.

Definition relevant_records (records : list Record_) (candidate : Name) (qtype : Z)
  : list Record_ * Name :=
  let '(keep, name) :=
    relevant_loop 16 records qtype (replicate (length records) false) candidate [] in
  (keep_marked records keep, name).

(** ** [chase] and [combine] *)

Definition cname_target (r : Record_) : option Name :=
  match r_rdata r with RCname t => Some t | _ => None end.

Fixpoint chase_loop (n : nat) (records : list Record_) (rt : Z) (name : Name) : Name :=
  match n with
  | O => name
  | S n =>
      match List.find (fun r => Name_eqb (r_name r) name) records ≫= cname_target with
      | Some t =>
          if negb (existsb (fun r => Name_eqb (r_name r) name && (r_rtype r =? rt)) records)
          then chase_loop n records rt t
          else name
      | None => name
      end
  end.

Definition address_of (rt : Z) (r : Record_) : option (IpAddr * Z) :=
  match r_rdata r with
  | RA a => if rt =? rtype.A then Some (V4 a, r_ttl r) else None
  | RAaaa a => if rt =? rtype.AAAA then Some (V6 a, r_ttl r) else None
  | _ => None
  end.

Definition chase (records : list Record_) (start : Name) (rt : Z) : Name * list (IpAddr * Z) :=
  let name := chase_loop 16 records rt start in
  (name, omap (address_of rt) (List.filter (fun r => Name_eqb (r_name r) name) records)).

(** [(bool, u16)] compares lexicographically, [false] first. *)
Definition rank_lt (a b : bool * Z) : bool :=
  match a.1, b.1 with
  | false, true => true
  | true, false => false
  | _, _ => a.2 <? b.2
  end.

Record Combining : Type := mkCombining {
  cb_out : Addresses;
  cb_found : bool;
  cb_unavailable : bool;
  cb_rank : option (bool * Z);
}.

Definition combine_one (name : Name) (s : Combining) (res : Z * Answer) : Combining :=
  let '(rt, answer) := res in
  let out := cb_out s in
  match a_outcome answer with
  | Found =>
      let start := default name (a_resolved_name answer) in
      let '(canonical, addrs) := chase (a_records answer) start rt in
      let rank := (bool_decide (addrs = []), rt) in
      let better := match cb_rank s with None => true | Some best => rank_lt rank best end in
      mkCombining
        (mkAddresses (ad_outcome out)
           (if better then canonical else ad_canonical out)
           (ad_addresses out ++ addrs)
           (if better then a_source answer else ad_source out))
        true (cb_unavailable s) (if better then Some rank else cb_rank s)
  | Unavailable => mkCombining out (cb_found s) true (cb_rank s)
  | NotFound => s
  end.

Definition combine (l : Lookup_) : Addresses :=
  let init := mkCombining (mkAddresses Outcome_default (l_name l) [] SrcLocal) false false None in
  let s := foldl (combine_one (l_name l)) init (l_results l) in
  let out := cb_out s in
  mkAddresses
    (if cb_found s then Found else if cb_unavailable s then Unavailable else NotFound)
    (ad_canonical out) (ad_addresses out) (ad_source out).

(** ** What a reply's records may contribute

    [alias_path records a b]: following IN-class CNAME records of the reply
    leads from [a] to [b]. *)

Inductive alias_path (records : list Record_) (a : Name) : Name -> Prop :=
| path_here : alias_path records a a
| path_step b r target :
    alias_path records a b -> r ∈ records -> r_class r = class_IN ->
    r_name r ≃ b -> r_rdata r = RCname target -> alias_path records a target.

Lemma find_cname_Some i records name index target :
  find_cname i records name = Some (index, target) ->
  exists j r, index = (i + j)%nat /\ records !! j = Some r /\ r_class r = class_IN /\
    r_name r ≃ name /\ r_rdata r = RCname target.
Proof.
  revert i. induction records as [|r rs IH]; intros i H; [done|]. cbn [find_cname] in H.
  assert (find_cname (S i) rs name = Some (index, target) ->
    exists j r0, index = (i + j)%nat /\ (r :: rs) !! j = Some r0 /\ r_class r0 = class_IN /\
    r_name r0 ≃ name /\ r_rdata r0 = RCname target) as Hskip.
  { intros (j & r0 & -> & ?)%IH. exists (S j), r0. split; [lia|done]. }
  destruct (r_rdata r) eqn:Er; try by apply Hskip.
  destruct ((r_class r =? class_IN) && Name_eqb (r_name r) name) eqn:E; [|by apply Hskip].
  bool_simpl. simplify_eq. exists 0%nat, r. split; [lia|]. split; [done|].
  split; [done|]. split; [by apply Name_eqb_spec|done].
Qed.

Lemma keep_marked_lookup records keep :
  forall r, r ∈ keep_marked records keep <->
    exists i, records !! i = Some r /\ keep !! i = Some true.
Proof.
  revert keep. induction records as [|x rs IH]; intros [|k ks] r; cbn [keep_marked];
    try (split; [by intros ?%elem_of_nil|intros ([|i] & ? & ?); done]).
  destruct k.
  - rewrite elem_of_cons, IH. split.
    + intros [->|(i & ? & ?)]; [by exists 0%nat|by exists (S i)].
    + intros ([|i] & ? & ?); simplify_eq/=; [by left|right; eauto].
  - rewrite IH. split; [intros (i & ? & ?); by exists (S i)|].
    intros ([|i] & ? & ?); simplify_eq/=; eauto.
Qed.

Lemma keep_marked_sublist records keep : keep_marked records keep `sublist_of` records.
Proof.
  revert keep. induction records as [|x rs IH]; intros [|[] ks]; cbn [keep_marked];
    try apply sublist_nil_l; try by constructor.
Qed.

Lemma mark_lookup p records keep i :
  mark p records keep !! i = Some true ->
  keep !! i = Some true \/ exists r, records !! i = Some r /\ p r = true.
Proof.
  unfold mark. rewrite lookup_zip_with_Some. intros (r & k & E & Hr & Hk).
  symmetry in E. apply orb_true_iff in E as [E| ->]; eauto.
Qed.

(** What may be kept of a reply to [candidate]: an IN-class record on the
    alias path from the candidate, of the type asked for or an alias. *)
Definition justified (records : list Record_) (candidate : Name) (qtype : Z) (r : Record_) : Prop :=
  r ∈ records /\ r_class r = class_IN /\
  exists n, alias_path records candidate n /\ r_name r ≃ n /\
    (r_rtype r = qtype \/ qtype = rtype.ANY \/ exists t, r_rdata r = RCname t).

Lemma terminal_match_spec name qtype r :
  terminal_match name qtype r = true <->
  r_class r = class_IN /\ r_name r ≃ name /\ (r_rtype r = qtype \/ qtype = rtype.ANY).
Proof.
  unfold terminal_match. rewrite !andb_true_iff, orb_true_iff, !Z.eqb_eq, Name_eqb_spec. tauto.
Qed.

Section relevant.
Context (records : list Record_) (candidate : Name) (qtype : Z).

(** Every mark of [keep] is justified. *)
Definition marks_justified (keep : list bool) : Prop :=
  forall i r, records !! i = Some r -> keep !! i = Some true -> justified records candidate qtype r.

Lemma mark_justified name keep :
  alias_path records candidate name -> marks_justified keep ->
  marks_justified (mark (terminal_match name qtype) records keep).
Proof.
  intros Hp Hk i r Hr Hm. apply mark_lookup in Hm as [Hm|(r' & Hr' & Ht)]; [by eapply Hk|].
  simplify_eq. apply terminal_match_spec in Ht as (Hc & Hn & Ht).
  split; [by eapply list_elem_of_lookup_2|]. split; [done|]. exists name. naive_solver.
Qed.

Lemma relevant_loop_sound togo : forall keep name seen,
  alias_path records candidate name -> marks_justified keep ->
  let '(keep', name') := relevant_loop togo records qtype keep name seen in
  marks_justified keep' /\ alias_path records candidate name'.
Proof.
  induction togo as [|togo IH]; intros keep name seen Hp Hk; cbn [relevant_loop];
    pose proof (mark_justified _ _ Hp Hk) as Hm.
  { rewrite orb_true_r. done. }
  destruct (_ || _); [done|]. destruct (find_cname 0 records name) as [[index target]|] eqn:Hf; [|done].
  apply find_cname_Some in Hf as (j & r & -> & Hr & Hc & Hn & Hd).
  apply IH.
  - eapply path_step; [done|by eapply list_elem_of_lookup_2|done..].
  - intros i r' Hr' Hi. apply list_lookup_insert_Some in Hi as [(<- & _ & _)|[_ Hi]]; [|by eapply Hm].
    simpl in Hr'. simplify_eq. split; [by eapply list_elem_of_lookup_2|]. split; [done|].
    exists name. eauto 6.
Qed.

Lemma relevant_records_sound kept name :
  relevant_records records candidate qtype = (kept, name) ->
  kept `sublist_of` records /\ Forall (justified records candidate qtype) kept /\
  alias_path records candidate name.
Proof.
  unfold relevant_records.
  pose proof (relevant_loop_sound 16 (replicate (length records) false) candidate []
    (path_here _ _)) as Hs.
  destruct (relevant_loop _ _ _ _ _ _) as [keep nm]. intros [= <- <-].
  destruct Hs as [Hk Hp].
  { intros i r _ Hi. apply lookup_replicate in Hi as [? _]. done. }
  split; [apply keep_marked_sublist|]. split; [|done].
  apply Forall_forall. intros r (i & Hr & Hki)%keep_marked_lookup. by eapply Hk.
Qed.

Lemma mark_keeps p keep i : 
  (i < length records)%nat -> keep !! i = Some true -> mark p records keep !! i = Some true.
Proof.
  intros Hi Hk. apply lookup_lt_is_Some in Hi as [r Hr]. unfold mark.
  apply lookup_zip_with_Some. exists r, true. by rewrite orb_true_r.
Qed.

Lemma mark_new p keep i r : length keep = length records ->
  records !! i = Some r -> p r = true -> mark p records keep !! i = Some true.
Proof.
  intros Hl Hr Hp. apply lookup_lt_Some in Hr as Hi. rewrite <- Hl in Hi.
  apply lookup_lt_is_Some in Hi as [k Hk]. unfold mark.
  apply lookup_zip_with_Some. exists r, k. by rewrite Hp.
Qed.

Lemma length_mark p keep : length keep = length records ->
  length (mark p records keep) = length records.
Proof. intros Hl. unfold mark. rewrite length_zip_with. lia. Qed.

(** The records of the type asked for at the effective name are all kept. *)
Lemma relevant_loop_complete togo : forall keep name seen,
  length keep = length records ->
  let '(keep', name') := relevant_loop togo records qtype keep name seen in
  forall i r, records !! i = Some r -> terminal_match name' qtype r = true ->
    keep' !! i = Some true.
Proof.
  induction togo as [|togo IH]; intros keep name seen Hl; cbn [relevant_loop].
  { rewrite orb_true_r. intros i r Hr Ht. by eapply mark_new. }
  destruct (_ || _); [intros i r Hr Ht; by eapply mark_new|].
  destruct (find_cname 0 records name) as [[index target]|]; [|intros i r Hr Ht; by eapply mark_new].
  apply IH. rewrite length_insert. by apply length_mark.
Qed.

Lemma relevant_records_complete kept name r :
  relevant_records records candidate qtype = (kept, name) ->
  r ∈ records -> terminal_match name qtype r = true -> r ∈ kept.
Proof.
  unfold relevant_records.
  pose proof (relevant_loop_complete 16 (replicate (length records) false) candidate []
    (length_replicate _ _)) as Hs.
  destruct (relevant_loop _ _ _ _ _ _) as [keep nm]. intros [= <- <-] [i Hr]%list_elem_of_lookup Ht.
  apply keep_marked_lookup. eauto.
Qed.

(** With an answer at the candidate itself no alias is followed. *)
Lemma relevant_records_direct r :
  r ∈ records -> terminal_match candidate qtype r = true ->
  (relevant_records records candidate qtype).2 = candidate.
Proof.
  intros Hr Ht. unfold relevant_records.
  assert (existsb (terminal_match candidate qtype) records = true) as He.
  { apply existsb_exists. exists r. split; [by apply list_elem_of_In|done]. }
  cbn [relevant_loop]. by rewrite He.
Qed.
End relevant.

(** ** Negative TTLs *)

Lemma find_map_Some {A B} (f : A -> option B) l y :
  find_map f l = Some y -> exists x, x ∈ l /\ f x = Some y.
Proof.
  induction l as [|x l IH]; simpl; [done|]. destruct (f x) eqn:E.
  - intros [= <-]. exists x. split; [by left|done].
  - intros (z & ? & ?)%IH. exists z. split; [by right|done].
Qed.

Lemma negative_ttl_le authority name : negative_ttl authority name <= MAX_NEGATIVE_TTL.
Proof. unfold negative_ttl. lia. Qed.

Lemma negative_ttl_nonneg authority name :
  Forall Record_wf authority -> 0 <= negative_ttl authority name.
Proof.
  intros Hwf. unfold negative_ttl, MAX_NEGATIVE_TTL.
  destruct (find_map _ _) as [t|] eqn:E; simpl; [|lia].
  apply find_map_Some in E as (r & Hin & Hs).
  apply list_elem_of_In, filter_In in Hin as [Hin _]. apply list_elem_of_In in Hin.
  rewrite Forall_forall in Hwf. specialize (Hwf r Hin) as (_ & _ & _ & [Httl _] & Hrd).
  unfold soa_ttl in Hs. destruct (r_rdata r); simplify_eq. destruct Hrd as (_ & _ & _ & Hm).
  apply Forall_forall with (x := minimum) in Hm; [|set_solver]. destruct Hm. lia.
Qed.

(** An absence is cacheable only on the word of an SOA of an enclosing zone. *)
Lemma negative_ttl_pos authority name :
  0 < negative_ttl authority name ->
  exists r t, r ∈ authority /\ r_class r = class_IN /\ ends_with name (r_name r) = true /\
    soa_ttl r = Some t /\ negative_ttl authority name = Z.min t MAX_NEGATIVE_TTL.
Proof.
  unfold negative_ttl at 1. destruct (find_map _ _) as [t|] eqn:E; simpl; [|unfold MAX_NEGATIVE_TTL; lia].
  intros _. unfold negative_ttl. rewrite E. simpl.
  apply find_map_Some in E as (r & Hin & Hs). exists r, t.
  apply list_elem_of_In, filter_In in Hin as [Hin Hb]. bool_simpl. split; [by apply list_elem_of_In|].
  done.
Qed.

(** ** Lookups *)

Lemma chase_addresses records start rt a ttl :
  (a, ttl) ∈ (chase records start rt).2 <->
  exists r, r ∈ records /\ r_name r ≃ (chase records start rt).1 /\
    address_of rt r = Some (a, ttl).
Proof.
  unfold chase. simpl. rewrite list_elem_of_omap. split.
  - intros (r & Hin & Ha). apply list_elem_of_In, filter_In in Hin as [Hin Hn].
    exists r. split; [by apply list_elem_of_In|]. split; [by apply Name_eqb_spec|done].
  - intros (r & Hin & Hn & Ha). exists r. split; [|done]. apply list_elem_of_In, filter_In.
    split; [by apply list_elem_of_In|by apply Name_eqb_spec].
Qed.

(** The answers a lookup found, and what each contributes. *)
Definition is_found (res : Z * Answer) : bool := bool_decide (a_outcome res.2 = Found).

Definition contribution (name : Name) (res : Z * Answer) : Name * list (IpAddr * Z) :=
  chase (a_records res.2) (default name (a_resolved_name res.2)) res.1.

Definition metadata_rank (name : Name) (res : Z * Answer) : bool * Z :=
  (bool_decide ((contribution name res).2 = []), res.1).

#[local] Opaque chase.

(** The reference: the found answers' addresses in order of arrival, the
    metadata of the first of the best-ranked found answers, and an outcome
    that is an absence only when every type said so. *)
Definition combine_spec (l : Lookup_) : Addresses :=
  let found := List.filter is_found (l_results l) in
  let best := min_by (fun x y => rank_lt (metadata_rank (l_name l) x) (metadata_rank (l_name l) y))
                     found in
  mkAddresses
    (match found with
     | _ :: _ => Found
     | [] => if existsb (fun res => bool_decide (a_outcome res.2 = Unavailable)) (l_results l)
             then Unavailable else NotFound
     end)
    (match best with Some res => (contribution (l_name l) res).1 | None => l_name l end)
    (mjoin (map (fun res => (contribution (l_name l) res).2) found))
    (match best with Some res => a_source res.2 | None => SrcLocal end).

Lemma min_by_snoc {A} (lt : A -> A -> bool) l x :
  min_by lt (l ++ [x]) =
  Some (match min_by lt l with None => x | Some m => if lt x m then x else m end).
Proof. destruct l as [|y l]; [done|]. simpl. by rewrite fold_left_app. Qed.

Section combine.
Context (name : Name).

Let lt x y := rank_lt (metadata_rank name x) (metadata_rank name y).

(** The loop state after a prefix of the results. *)
Definition combining_spec (done_ : list (Z * Answer)) : Combining :=
  let found := List.filter is_found done_ in
  let best := min_by lt found in
  mkCombining
    (mkAddresses Outcome_default
       (match best with Some res => (contribution name res).1 | None => name end)
       (mjoin (map (fun res => (contribution name res).2) found))
       (match best with Some res => a_source res.2 | None => SrcLocal end))
    (match found with [] => false | _ => true end)
    (existsb (fun res => bool_decide (a_outcome res.2 = Unavailable)) done_)
    (metadata_rank name <$> best).

Lemma filter_found_snoc done_ res :
  List.filter is_found (done_ ++ [res]) =
  List.filter is_found done_ ++ (if decide (a_outcome res.2 = Found) then [res] else []).
Proof.
  rewrite List.filter_app. f_equal. simpl. unfold is_found. by case_bool_decide; case_decide.
Qed.

Lemma combine_one_step done_ res :
  combine_one name (combining_spec done_) res = combining_spec (done_ ++ [res]).
Proof.
  destruct res as [rt answer]. unfold combining_spec.
  rewrite filter_found_snoc, existsb_app. unfold combine_one. cbn [snd existsb].
  destruct (a_outcome answer) eqn:Eo.
  - rewrite decide_True, min_by_snoc, map_app, join_app by done.
    rewrite bool_decide_eq_false_2 by done. set (found := List.filter is_found done_).
    change (chase (a_records answer) (default name (a_resolved_name answer)) rt)
      with (contribution name (rt, answer)).
    destruct (contribution name (rt, answer)) as [canonical addrs] eqn:Ec.
    assert (metadata_rank name (rt, answer) = (bool_decide (addrs = []), rt)) as Hr
      by (unfold metadata_rank; by rewrite Ec).
    rewrite <- Hr. simpl. rewrite ?app_nil_r, !orb_false_r.
    destruct (min_by lt found) as [m|]; unfold lt; simpl.
    + destruct (rank_lt _ _); simpl; rewrite ?Ec; by destruct found.
    + rewrite Ec. by destruct found.
  - rewrite decide_False, bool_decide_eq_false_2, app_nil_r, !orb_false_r by done. done.
  - rewrite decide_False, bool_decide_eq_true_2, app_nil_r, !orb_true_r by done. done.
Qed.

Lemma combine_fold done_ res :
  foldl (combine_one name) (combining_spec done_) res = combining_spec (done_ ++ res).
Proof.
  revert done_. induction res as [|r res IH]; intros done_; simpl; [by rewrite app_nil_r|].
  rewrite combine_one_step, IH. by rewrite <- app_assoc.
Qed.
End combine.

Lemma combine_refines l : combine l = combine_spec l.
Proof.
  unfold combine. change (mkCombining _ false false None) with (combining_spec (l_name l) []).
  rewrite combine_fold. unfold combining_spec, combine_spec. simpl.
  by destruct (List.filter is_found (l_results l)).
Qed.
