(* ===== verification/Routing.v ===== *)
(** * Routing and synthetic answers (resolvd/src/engine.rs)

    The engine's read-only questions to its own state: which scope a name
    goes to, which servers and which search candidates that means, and the
    answers given before any network. *)

From S2P Require Import Prelude Net Names Message MessageProofs Cache EngineState.
Local Open Scope Z_scope.

(** [u32::MAX << (32 - prefix.min(32))] and its 128-bit sibling. *)
Definition mask_of (width prefix : Z) : Z :=
  if prefix =? 0 then 0
  else wrap width (Z.shiftl (2 ^ width - 1) (width - Z.min prefix width)).

Definition same_subnet (a : IpAddr) (prefix : Z) (b : IpAddr) : bool :=
  match a, b with
  | V4 a, V4 b => Z.land a (mask_of 32 prefix) =? Z.land b (mask_of 32 prefix)
  | V6 a, V6 b => Z.land a (mask_of 128 prefix) =? Z.land b (mask_of 128 prefix)
  | _, _ => false
  end.

Definition Scope_contains (s : Scope) (addr : IpAddr) : bool :=
  existsb (fun '(a, prefix) => same_subnet a prefix addr) (s_addresses s).

Definition server_key (server : IpAddr) (scope : Str) : IpAddr * Str :=
  let local := match server with V6 ip => is_unicast_link_local ip | V4 _ => false end in
  (server, if local then scope else []).

Definition interface_of (e : Engine) (scope : Str) : option Str :=
  s_interface <$> List.find (fun s => bool_decide (s_id s = scope)) (scopes e).

Definition is_demoted (e : Engine) (server : IpAddr) (scope : Str) (now : Z) : bool :=
  match demoted e !! server_key server scope with
  | Some until => now <? until
  | None => false
  end.

(** ** Routing *)

Definition up_scopes (e : Engine) : list Scope :=
  List.filter (fun s => Level_ge (s_level s) Link) (scopes e).

Definition exclusive (e : Engine) : option Scope :=
  min_by_key s_metric
    (List.filter (fun s => s_exclusive s && Level_ge (s_level s) Addressed) (up_scopes e)).

(** The two nested loops over the scopes' domains, and the update of [best]. *)
Definition scope_domains (ss : list Scope) : list (Scope * Name) :=
  flat_map (fun s => map (fun d => (s, d)) (s_domains s)) ss.

Definition consider (name : Name) (best : option (nat * Z * Scope)) (sd : Scope * Name)
  : option (nat * Z * Scope) :=
  let '(s, d) := sd in
  if ends_with name d then
    let key := (label_count d, s_metric s) in
    match best with
    | None => Some (key, s)
    | Some (l, m, _) =>
        if (l <? key.1)%nat || ((key.1 =? l)%nat && (key.2 <? m)) then Some (key, s) else best
    end
  else best.

Definition longest_domain (e : Engine) (name : Name) : option Scope :=
  snd <$> foldl (consider name) None (scope_domains (up_scopes e)).

Definition reverse_scope (e : Engine) (name : Name) : option Scope :=
  match reverse_address name with
  | Some addr => min_by_key s_metric (List.filter (fun s => Scope_contains s addr) (up_scopes e))
  | None => None
  end.

Definition default_scope (e : Engine) : option Scope :=
  min_by_key s_metric (List.filter s_default_route (up_scopes e)).

Definition serving_scope (e : Engine) : option Scope :=
  min_by_key s_metric (List.filter (fun s => negb (bool_decide (s_servers s = []))) (up_scopes e)).

Definition route (e : Engine) (name : Name) : option Str :=
  match exclusive e with
  | Some x => Some (s_id x)
  | None =>
  match longest_domain e name with
  | Some s => Some (s_id s)
  | None =>
  match reverse_scope e name with
  | Some s => Some (s_id s)
  | None =>
  match default_scope e with
  | Some s => Some (s_id s)
  | None =>
  match serving_scope e with
  | Some s => Some (s_id s)
  | None => if bool_decide (fallback_servers e = []) then None else Some FALLBACK_SCOPE
  end end end end end.

(** The servers to try, healthy ones first. *)
Definition scope_servers (e : Engine) (scope : Str) : list IpAddr :=
  if bool_decide (scope = FALLBACK_SCOPE) then fallback_servers e
  else default [] (s_servers <$> List.find (fun s => bool_decide (s_id s = scope)) (scopes e)).

Definition servers_of (e : Engine) (scope : Str) (now : Z) : list IpAddr :=
  let servers := scope_servers e scope in
  List.filter (fun s => negb (is_demoted e s scope now)) servers ++
  List.filter (fun s => is_demoted e s scope now) servers.

(** ** Search candidates *)

Definition search_domains (e : Engine) : list Name :=
  match exclusive e with
  | Some x => s_domains x
  | None => flat_map s_domains (sort_by_key s_metric (up_scopes e)) ++ fallback_domains e
  end.

Definition expand (name : Name) (out : list Name) (d : Name) : list Name :=
  match Name_join name d with
  | Ok full => if negb (existsb (fun n => Name_eqb n full) out) then out ++ [full] else out
  | Err _ => out
  end.

Definition candidates (e : Engine) (name : Name) : list Name :=
  if negb (label_count name =? 1)%nat then [name]
  else foldl (expand name) [] (search_domains e).

(** ** Synthetic answers *)

Definition own_addresses (e : Engine) : list IpAddr :=
  dedup (List.filter (fun a => negb (is_loopback a))
    (flat_map (fun s => map fst (s_addresses s))
      (List.filter (fun s => Level_ge (s_level s) Addressed) (scopes e)))).

(** The order of byte strings. *)
Fixpoint bytes_lt (a b : list Z) : bool :=
  match a, b with
  | [], [] => false
  | [], _ :: _ => true
  | _ :: _, [] => false
  | x :: a', y :: b' => (x <? y) || ((x =? y) && bytes_lt a' b')
  end.

Definition localhost : Name := expect Name_root (Name_parse (bytes_of "localhost")).
Definition local_ : Name := expect Name_root (Name_parse (bytes_of "local")).

Definition found_answer (name : Name) (records : list Record_) (source : Source) : Answer :=
  mkAnswer Found records source None None 0 (Some name) 0.

Definition address_record (name : Name) (rt : Z) (a : IpAddr) : option Record_ :=
  match a with
  | V4 v4 => if (rt =? rtype.A) || (rt =? rtype.ANY) then Some (Record_new name 0 (RA v4)) else None
  | V6 v6 => if (rt =? rtype.AAAA) || (rt =? rtype.ANY) then Some (Record_new name 0 (RAaaa v6)) else None
  end.

Definition addresses_answer (name : Name) (rt : Z) (addrs : list IpAddr) (source : Source) : Answer :=
  found_answer name (omap (address_record name rt) addrs) source.

Definition ptr_answer (name target : Name) (source : Source) : Answer :=
  found_answer name [Record_new name 0 (RPtr target)] source.

(** The static host to name [addr] by: the least by its lower-cased text. *)
Definition reverse_host `{MapOrder} (e : Engine) (addr : IpAddr) : option Name :=
  (fun kv => kv.2.1) <$>
  min_by (fun x y => bytes_lt (Name_to_string (to_lowercase x.2.1))
                              (Name_to_string (to_lowercase y.2.1)))
    (List.filter (fun kv : Name * (Name * list IpAddr) => bool_decide (addr ∈ kv.2.2))
                 (map_iter (hosts e))).

Definition LOOPBACKS : list IpAddr := [LOCALHOST_V4; LOCALHOST_V6].

Definition synthetic_reverse `{MapOrder} (e : Engine) (name : Name) (addr : IpAddr) : option Answer :=
  if is_loopback addr then Some (ptr_answer name localhost Synthetic)
  else
    match reverse_host e addr with
    | Some host => Some (ptr_answer name host Hosts)
    | None =>
        match hostname e with
        | Some h =>
            if bool_decide (addr ∈ own_addresses e) then Some (ptr_answer name h Synthetic) else None
        | None => None
        end
    end.

Definition is_hostname (e : Engine) (name : Name) : bool :=
  match hostname e with Some h => Name_eqb h name | None => false end.

Definition synthetic `{MapOrder} (e : Engine) (name : Name) (rt : Z) : option Answer :=
  if Name_eqb name localhost || ends_with name localhost then
    Some (addresses_answer name rt LOOPBACKS Synthetic)
  else
    match hosts e !! to_lowercase name with
    | Some (_, addrs) => Some (addresses_answer name rt addrs Hosts)
    | None =>
        if is_hostname e name then
          let own := own_addresses e in
          Some (addresses_answer name rt (if bool_decide (own = []) then LOOPBACKS else own) Synthetic)
        else if ends_with name local_ then
          Some (mkAnswer NotFound [] Synthetic None None 0 None 0)
        else
          match reverse_address name with
          | Some addr =>
              if negb (rt =? rtype.PTR) && negb (rt =? rtype.ANY) then None
              else synthetic_reverse e name addr
          | None => None
          end
    end.

(** ** The routing rule

    The six ordered steps of the module's documentation.  A step selects
    among the scopes it applies to by lowest metric; a later step applies only
    when no earlier one does. *)

Definition up (e : Engine) (s : Scope) : Prop := s ∈ scopes e /\ Level_ge (s_level s) Link = true.

Definition lowest_metric (P : Scope -> Prop) (s : Scope) : Prop :=
  P s /\ forall s', P s' -> s_metric s <= s_metric s'.

Definition takes_everything (e : Engine) (s : Scope) : Prop :=
  up e s /\ s_exclusive s = true /\ Level_ge (s_level s) Addressed = true.

Definition claims_domain (e : Engine) (name : Name) (s : Scope) (d : Name) : Prop :=
  up e s /\ d ∈ s_domains s /\ ends_with name d = true.

Definition holds_address (e : Engine) (name : Name) (s : Scope) : Prop :=
  up e s /\ exists a, reverse_address name = Some a /\ Scope_contains s a = true.

Definition claims_default (e : Engine) (s : Scope) : Prop := up e s /\ s_default_route s = true.

Definition serves (e : Engine) (s : Scope) : Prop := up e s /\ s_servers s <> [].

Inductive routed (e : Engine) (name : Name) : option Str -> Prop :=
| routed_exclusive s :
    lowest_metric (takes_everything e) s -> routed e name (Some (s_id s))
| routed_domain s d :
    (forall s', ~ takes_everything e s') ->
    claims_domain e name s d ->
    (forall s' d', claims_domain e name s' d' ->
       (label_count d' < label_count d)%nat \/
       (label_count d' = label_count d /\ s_metric s <= s_metric s')) ->
    routed e name (Some (s_id s))
| routed_reverse s :
    (forall s', ~ takes_everything e s') -> (forall s' d', ~ claims_domain e name s' d') ->
    lowest_metric (holds_address e name) s -> routed e name (Some (s_id s))
| routed_default s :
    (forall s', ~ takes_everything e s') -> (forall s' d', ~ claims_domain e name s' d') ->
    (forall s', ~ holds_address e name s') ->
    lowest_metric (claims_default e) s -> routed e name (Some (s_id s))
| routed_serving s :
    (forall s', ~ takes_everything e s') -> (forall s' d', ~ claims_domain e name s' d') ->
    (forall s', ~ holds_address e name s') -> (forall s', ~ claims_default e s') ->
    lowest_metric (serves e) s -> routed e name (Some (s_id s))
| routed_fallback :
    (forall s', ~ takes_everything e s') -> (forall s' d', ~ claims_domain e name s' d') ->
    (forall s', ~ holds_address e name s') -> (forall s', ~ claims_default e s') ->
    (forall s', ~ serves e s') -> fallback_servers e <> [] ->
    routed e name (Some FALLBACK_SCOPE)
| routed_nowhere :
    (forall s', ~ takes_everything e s') -> (forall s' d', ~ claims_domain e name s' d') ->
    (forall s', ~ holds_address e name s') -> (forall s', ~ claims_default e s') ->
    (forall s', ~ serves e s') -> fallback_servers e = [] ->
    routed e name None.

Lemma elem_of_filter_b {A} (p : A -> bool) l x : x ∈ List.filter p l <-> x ∈ l /\ p x = true.
Proof. by rewrite !list_elem_of_In, filter_In. Qed.

Lemma elem_of_up e s : s ∈ up_scopes e <-> up e s.
Proof. unfold up_scopes. by rewrite elem_of_filter_b. Qed.

Lemma min_metric_filter e (p : Scope -> bool) (P : Scope -> Prop) :
  (forall s, P s <-> up e s /\ p s = true) ->
  match min_by_key s_metric (List.filter p (up_scopes e)) with
  | Some s => lowest_metric P s
  | None => forall s, ~ P s
  end.
Proof.
  intros HP. assert (forall s, s ∈ List.filter p (up_scopes e) <-> P s) as Hin.
  { intros s. by rewrite elem_of_filter_b, elem_of_up, HP. }
  destruct (min_by_key _ _) as [s|] eqn:E.
  - apply min_by_key_Some in E as [Hs Hle]. split; [by apply Hin|].
    intros s' Hs'. by apply Hle, Hin.
  - apply min_by_key_None in E. intros s Hs%Hin. rewrite E in Hs. by apply elem_of_nil in Hs.
Qed.

Lemma exclusive_spec e :
  match exclusive e with
  | Some s => lowest_metric (takes_everything e) s
  | None => forall s, ~ takes_everything e s
  end.
Proof. apply min_metric_filter. intros s. by rewrite andb_true_iff. Qed.

Lemma elem_of_scope_domains ss s d : (s, d) ∈ scope_domains ss <-> s ∈ ss /\ d ∈ s_domains s.
Proof.
  unfold scope_domains. rewrite list_elem_of_In, in_flat_map. setoid_rewrite in_map_iff.
  setoid_rewrite <- list_elem_of_In. split.
  - intros (s' & ? & d' & [= -> ->] & ?). done.
  - intros [??]. eauto.
Qed.

(** The best pair after a prefix of the pairs. *)
Definition best_of (name : Name) (seen : list (Scope * Name)) (best : option (nat * Z * Scope)) : Prop :=
  match best with
  | None => forall s d, (s, d) ∈ seen -> ends_with name d = false
  | Some (l, m, s) =>
      (exists d, (s, d) ∈ seen /\ ends_with name d = true /\ l = label_count d /\ m = s_metric s) /\
      forall s' d', (s', d') ∈ seen -> ends_with name d' = true ->
        (label_count d' < l)%nat \/ (label_count d' = l /\ m <= s_metric s')
  end.

Lemma consider_best name seen best sd :
  best_of name seen best -> best_of name (seen ++ [sd]) (consider name best sd).
Proof.
  destruct sd as [s d]. intros Hb. cbn [consider].
  destruct (ends_with name d) eqn:Hd.
  2:{ destruct best as [[[l m] s0]|]; simpl in *.
      - destruct Hb as [(d0 & ? & ?) Hmax]. split; [exists d0; set_solver|].
        intros s' d' [?|[= -> ->]%list_elem_of_singleton]%elem_of_app; [by apply Hmax|congruence].
      - intros s' d' [?|[= -> ->]%list_elem_of_singleton]%elem_of_app; [by eapply Hb|done]. }
  destruct best as [[[l m] s0]|]; simpl in *.
  - destruct Hb as [(d0 & Hin0 & Hd0 & -> & ->) Hmax].
    destruct (_ || _) eqn:Ho; simpl.
    + assert ((label_count d0 < label_count d)%nat \/
              (label_count d = label_count d0 /\ s_metric s < s_metric s0)) as Hlt.
      { apply orb_true_iff in Ho as [Ho|Ho]; bool_simpl; lia. }
      split; [exists d; set_solver|].
      intros s' d' [Hin|[= -> ->]%list_elem_of_singleton]%elem_of_app Hd'; [|lia].
      destruct (Hmax s' d' Hin Hd'); lia.
    + apply orb_false_iff in Ho as [Ho1 Ho2]. apply andb_false_iff in Ho2.
      split; [exists d0; set_solver|].
      intros s' d' [Hin|[= -> ->]%list_elem_of_singleton]%elem_of_app Hd'; [by apply Hmax|].
      destruct Ho2; bool_simpl; lia.
  - split; [exists d; set_solver|].
    intros s' d' [Hin|[= -> ->]%list_elem_of_singleton]%elem_of_app Hd'; [|lia].
    by rewrite (Hb _ _ Hin) in Hd'.
Qed.

Lemma consider_fold name todo : forall seen best,
  best_of name seen best -> best_of name (seen ++ todo) (foldl (consider name) best todo).
Proof.
  induction todo as [|sd todo IH]; intros seen best Hb; simpl; [by rewrite app_nil_r|].
  rewrite (cons_middle sd), app_assoc. by apply IH, consider_best.
Qed.

Lemma longest_domain_spec e name :
  match longest_domain e name with
  | Some s => exists d, claims_domain e name s d /\
      forall s' d', claims_domain e name s' d' ->
       (label_count d' < label_count d)%nat \/
       (label_count d' = label_count d /\ s_metric s <= s_metric s')
  | None => forall s d, ~ claims_domain e name s d
  end.
Proof.
  pose proof (consider_fold name (scope_domains (up_scopes e)) [] None) as H.
  unfold longest_domain. simpl in H. specialize (H ltac:(intros s d Hn; by apply elem_of_nil in Hn)).
  assert (forall s d, claims_domain e name s d <->
    (s, d) ∈ scope_domains (up_scopes e) /\ ends_with name d = true) as Hc.
  { intros s d. rewrite elem_of_scope_domains, elem_of_up. unfold claims_domain. tauto. }
  destruct (foldl _ _ _) as [[[l m] s]|]; simpl in *.
  - destruct H as [(d & ? & ? & -> & ->) Hmax]. exists d. split; [by apply Hc|].
    intros s' d' [? ?]%Hc. by apply Hmax.
  - intros s d [Hin Hd]%Hc. by rewrite (H _ _ Hin) in Hd.
Qed.

Lemma reverse_scope_spec e name :
  match reverse_scope e name with
  | Some s => lowest_metric (holds_address e name) s
  | None => forall s, ~ holds_address e name s
  end.
Proof.
  unfold reverse_scope. destruct (reverse_address name) as [a|] eqn:Ha.
  - apply min_metric_filter. intros s. unfold holds_address. rewrite Ha.
    split; [intros (? & ? & [= ->] & ?); done|intros [? ?]; eauto].
  - intros s (_ & a & H & _). congruence.
Qed.

Lemma default_scope_spec e :
  match default_scope e with
  | Some s => lowest_metric (claims_default e) s
  | None => forall s, ~ claims_default e s
  end.
Proof. by apply min_metric_filter. Qed.

Lemma serving_scope_spec e :
  match serving_scope e with
  | Some s => lowest_metric (serves e) s
  | None => forall s, ~ serves e s
  end.
Proof.
  apply min_metric_filter. intros s. unfold serves. by rewrite negb_true_iff, bool_decide_eq_false.
Qed.

Lemma route_routed e name : routed e name (route e name).
Proof.
  unfold route. pose proof (exclusive_spec e) as H1. destruct (exclusive e); [by apply routed_exclusive|].
  pose proof (longest_domain_spec e name) as H2. destruct (longest_domain e name).
  { destruct H2 as (d & ? & ?). by eapply routed_domain. }
  pose proof (reverse_scope_spec e name) as H3. destruct (reverse_scope e name); [by apply routed_reverse|].
  pose proof (default_scope_spec e) as H4. destruct (default_scope e); [by apply routed_default|].
  pose proof (serving_scope_spec e) as H5. destruct (serving_scope e); [by apply routed_serving|].
  case_bool_decide; [by apply routed_nowhere|by apply routed_fallback].
Qed.

(** ** Subnets *)

Lemma mask_bits w p i : 0 < p <= w -> 0 <= i < w ->
  Z.testbit (mask_of w p) i = (w - p <=? i).
Proof.
  intros Hp Hi. unfold mask_of. destruct (Z.eqb_spec p 0); [lia|]. rewrite Z.min_l by lia.
  unfold wrap. rewrite Z.mod_pow2_bits_low by lia. rewrite Z.shiftl_spec by lia.
  rewrite Z.sub_1_r, <- Z.ones_equiv. destruct (w - p <=? i) eqn:E; bool_simpl.
  - apply Z.ones_spec_low. lia.
  - apply Z.testbit_neg_r. lia.
Qed.

(** Masking compares exactly the first [p] of [w] bits. *)
Lemma mask_equal w p a b : 0 < p <= w -> in_width w a -> in_width w b ->
  Z.land a (mask_of w p) = Z.land b (mask_of w p) <-> Z.shiftr a (w - p) = Z.shiftr b (w - p).
Proof.
  intros Hp [Ha0 Ha] [Hb0 Hb].
  assert (forall x i, 0 <= x < 2 ^ w -> w <= i -> Z.testbit x i = false) as Hhigh.
  { intros x i Hx Hi. rewrite <- (Z.mod_small x (2 ^ w)) by done.
    apply Z.mod_pow2_bits_high. lia. }
  split; intros E; apply Z.bits_inj'; intros i Hi.
  - rewrite !Z.shiftr_spec by lia. destruct (Z_lt_le_dec (i + (w - p)) w) as [Hlt|Hge].
    + apply (f_equal (fun z => Z.testbit z (i + (w - p)))) in E.
      rewrite !Z.land_spec, mask_bits in E by lia.
      replace (w - p <=? i + (w - p)) with true in E by (symmetry; apply Z.leb_le; lia).
      by rewrite !andb_true_r in E.
    + by rewrite !Hhigh by (done || lia).
  - rewrite !Z.land_spec. destruct (Z_lt_le_dec i w) as [Hlt|Hge]; [|by rewrite (Hhigh a), (Hhigh b) by (done || lia)].
    rewrite mask_bits by lia. destruct (w - p <=? i) eqn:Ei; bool_simpl; [|by rewrite !andb_false_r].
    apply (f_equal (fun z => Z.testbit z (i - (w - p)))) in E.
    rewrite !Z.shiftr_spec in E by lia. replace (i - (w - p) + (w - p)) with i in E by lia. by rewrite E.
Qed.

(** ** Servers *)

Lemma servers_of_perm e scope now : servers_of e scope now ≡ₚ scope_servers e scope.
Proof.
  unfold servers_of. generalize (scope_servers e scope). intros l.
  induction l as [|s l IH]; simpl; [done|]. destruct (is_demoted e s scope now); simpl.
  - rewrite <- Permutation_middle. by rewrite IH.
  - by rewrite IH.
Qed.

Lemma servers_of_healthy_first e scope now i j s t :
  servers_of e scope now !! i = Some s -> servers_of e scope now !! j = Some t ->
  (i < j)%nat -> is_demoted e s scope now = true -> is_demoted e t scope now = true.
Proof.
  unfold servers_of. intros Hs Ht Hij Hd.
  apply lookup_app_Some in Hs as [Hs|[Hi _]].
  { apply list_elem_of_lookup_2, elem_of_filter_b in Hs as [_ Hs]. by rewrite Hd in Hs. }
  apply lookup_app_Some in Ht as [Ht|[_ Ht]].
  { apply lookup_lt_Some in Ht. lia. }
  by apply list_elem_of_lookup_2, elem_of_filter_b in Ht as [_ Ht].
Qed.

(** ** Search candidates *)

Definition domains_ok (e : Engine) : Prop :=
  Forall (fun d => Name_wf d /\ is_root d = false) (fallback_domains e) /\
  Forall (fun s => Forall (fun d => Name_wf d /\ is_root d = false) (s_domains s)) (scopes e).

Lemma search_domains_ok e :
  domains_ok e -> Forall (fun d => Name_wf d /\ is_root d = false) (search_domains e).
Proof.
  intros [Hf Hs]. rewrite Forall_forall in Hs.
  assert (forall s, s ∈ up_scopes e -> Forall (fun d => Name_wf d /\ is_root d = false) (s_domains s)) as Hup.
  { intros s [Hin _]%elem_of_up. by apply Hs. }
  unfold search_domains. pose proof (exclusive_spec e) as Hx. destruct (exclusive e) as [x|].
  - destruct Hx as [[Hx _] _]. by apply Hup, elem_of_up.
  - apply Forall_app; split; [|done]. apply Forall_forall. intros d Hd.
    apply list_elem_of_In, in_flat_map in Hd as (s & Hin & Hd).
    apply list_elem_of_In in Hin, Hd. rewrite sort_by_key_perm in Hin.
    specialize (Hup s Hin). rewrite Forall_forall in Hup. by apply Hup.
Qed.

(** What the search has collected: expansions by some domain, all different. *)
Definition expansions (name : Name) (ds out : list Name) : Prop :=
  Forall (fun c => exists d, d ∈ ds /\ Name_join name d = Ok c) out /\
  (forall i j a b, out !! i = Some a -> out !! j = Some b -> a ≃ b -> i = j) /\
  (forall d c, d ∈ ds -> Name_join name d = Ok c -> exists c', c' ∈ out /\ c' ≃ c).

Lemma existsb_equiv (l : list Name) (full : Name) :
  existsb (fun n => Name_eqb n full) l = true <-> exists n, n ∈ l /\ n ≃ full.
Proof.
  rewrite existsb_exists. setoid_rewrite <- list_elem_of_In. by setoid_rewrite Name_eqb_spec.
Qed.

Lemma expand_step name ds out d :
  expansions name ds out -> expansions name (ds ++ [d]) (expand name out d).
Proof.
  intros (Hf & Hd & Hc). unfold expand.
  assert (Forall (fun c => exists d0, d0 ∈ ds ++ [d] /\ Name_join name d0 = Ok c) out) as Hf'.
  { apply (Forall_impl _ _ _ Hf). intros c (d0 & ? & ?). exists d0. set_solver. }
  destruct (Name_join name d) as [full|err] eqn:Ej.
  2:{ split; [done|]. split; [done|]. intros d0 c [?|E%list_elem_of_singleton]%elem_of_app Hj; [by eapply Hc|].
      congruence. }
  destruct (existsb _ out) eqn:Ex; simpl.
  - split; [done|]. split; [done|].
    intros d0 c [?|E%list_elem_of_singleton]%elem_of_app Hj; [by eapply Hc|].
    subst. rewrite Ej in Hj. simplify_eq. by apply existsb_equiv in Ex.
  - apply not_true_iff_false in Ex. rewrite existsb_equiv in Ex. split; [|split].
    + apply Forall_app; split; [done|]. apply Forall_singleton. exists d. set_solver.
    + intros i j a b Hi Hj Hab.
      apply lookup_app_Some in Hi as [Hi|[Hi Hi']], Hj as [Hj|[Hj Hj']].
      * by eapply Hd.
      * exfalso. apply list_lookup_singleton_Some in Hj' as [_ ->]. apply Ex. exists a.
        split; [by eapply list_elem_of_lookup_2|done].
      * exfalso. apply list_lookup_singleton_Some in Hi' as [_ ->]. apply Ex. exists b.
        split; [by eapply list_elem_of_lookup_2|by symmetry].
      * apply list_lookup_singleton_Some in Hi' as [? _], Hj' as [? _]. lia.
    + intros d0 c [?|E%list_elem_of_singleton]%elem_of_app Hj.
      * destruct (Hc d0 c) as (c' & ? & ?); [done..|]. exists c'. set_solver.
      * subst. rewrite Ej in Hj. simplify_eq. exists c. split; [set_solver|done].
Qed.

Lemma expand_fold name todo : forall ds out,
  expansions name ds out -> expansions name (ds ++ todo) (foldl (expand name) out todo).
Proof.
  induction todo as [|d todo IH]; intros ds out H; simpl; [by rewrite app_nil_r|].
  rewrite (cons_middle d), app_assoc. by apply IH, expand_step.
Qed.

Lemma candidates_single e name :
  label_count name = 1%nat -> expansions name (search_domains e) (candidates e name).
Proof.
  intros Hl. unfold candidates. rewrite Hl. simpl.
  apply (expand_fold name (search_domains e) [] []). split; [constructor|].
  split; [done|]. intros d c Hd. by apply elem_of_nil in Hd.
Qed.

Lemma candidates_other e name : label_count name <> 1%nat -> candidates e name = [name].
Proof. intros Hl. unfold candidates. by rewrite (proj2 (Nat.eqb_neq _ _) Hl). Qed.

Lemma Name_join_labels a b n : Name_join a b = Ok n -> labels n = labels a ++ labels b.
Proof. intros H%Name_from_labels_ok. by destruct H as [-> _]. Qed.

(** No candidate is a single label: a bare name is never sent. *)
Lemma candidates_not_bare e name c :
  domains_ok e -> c ∈ candidates e name -> label_count c <> 1%nat.
Proof.
  intros Hok Hc. destruct (decide (label_count name = 1%nat)) as [Hl|Hl].
  - destruct (candidates_single e name Hl) as (Hf & _). rewrite Forall_forall in Hf.
    destruct (Hf c Hc) as (d & Hd & Hj%Name_join_labels).
    pose proof (search_domains_ok e Hok) as Hs. rewrite Forall_forall in Hs.
    destruct (Hs d Hd) as [_ Hr]. unfold label_count, is_root in *. rewrite Hj, length_app.
    bool_simpl. destruct (labels d); simpl in *; [done|lia].
  - rewrite candidates_other in Hc by done. by apply list_elem_of_singleton in Hc as ->.
Qed.

Lemma candidates_wf e name :
  domains_ok e -> Name_wf name -> Forall Name_wf (candidates e name).
Proof.
  intros Hok Hn. destruct (decide (label_count name = 1%nat)) as [Hl|Hl].
  - destruct (candidates_single e name Hl) as (Hf & _).
    pose proof (search_domains_ok e Hok) as Hs. rewrite Forall_forall in Hs.
    apply (Forall_impl _ _ _ Hf). intros c (d & Hd & Hj). eapply Name_join_wf; [done| |done].
    by apply Hs.
  - rewrite candidates_other by done. by apply Forall_singleton.
Qed.

(** ** Synthetic answers *)

Section min_by.
Context {A : Type} (lt : A -> A -> bool).
Hypothesis lt_irrefl : forall x, lt x x = false.
Hypothesis lt_trans : forall x y z, lt x y = true -> lt y z = true -> lt x z = true.

Lemma min_by_least l m : min_by lt l = Some m -> m ∈ l /\ forall y, y ∈ l -> lt y m = false.
Proof using lt_irrefl lt_trans.
  revert m. induction l as [|y l IH] using rev_ind; intros m; [done|].
  rewrite elem_of_app, list_elem_of_singleton. setoid_rewrite elem_of_app.
  setoid_rewrite list_elem_of_singleton.
  assert (min_by lt (l ++ [y]) =
    Some (match min_by lt l with None => y | Some m => if lt y m then y else m end)) as ->.
  { destruct l; [done|]. simpl. by rewrite fold_left_app. }
  intros [= <-]. destruct (min_by lt l) as [m|] eqn:E.
  - destruct (IH m eq_refl) as [Hm Hle]. destruct (lt y m) eqn:Ey.
    + split; [by right|]. intros z [Hz| ->]; [|done].
      destruct (lt z y) eqn:Ez; [|done]. by rewrite <- (Hle z Hz), (lt_trans z y m).
    + split; [by left|]. intros z [Hz| ->]; [by apply Hle|done].
  - destruct l; [|done]. split; [by right|]. intros z [Hz| ->]; [by apply elem_of_nil in Hz|done].
Qed.

(** With a total order on the elements the least one does not depend on
    the order they come in. *)
Lemma min_by_perm l l' :
  (forall x y, x ∈ l -> y ∈ l -> lt x y = false -> lt y x = false -> x = y) ->
  l ≡ₚ l' -> min_by lt l = min_by lt l'.
Proof using lt_irrefl lt_trans.
  intros Htot Hp. destruct (min_by lt l) as [m|] eqn:E, (min_by lt l') as [m'|] eqn:E'.
  - apply min_by_least in E as [Hm Hle], E' as [Hm' Hle']. f_equal.
    rewrite <- Hp in Hm'. apply Htot; [done|done| |by apply Hle].
    apply Hle'. by rewrite <- Hp.
  - destruct l'; [|done]. by apply Permutation_nil_r in Hp as ->.
  - destruct l; [|done]. by apply Permutation_nil_l in Hp as <-.
  - done.
Qed.
End min_by.

Lemma bytes_lt_irrefl a : bytes_lt a a = false.
Proof. induction a as [|x a IH]; simpl; [done|]. by rewrite Z.ltb_irrefl, IH, andb_false_r. Qed.

Lemma bytes_lt_trans a b c : bytes_lt a b = true -> bytes_lt b c = true -> bytes_lt a c = true.
Proof.
  revert b c. induction a as [|x a IH]; intros [|y b] [|z c]; simpl; try done.
  rewrite !orb_true_iff, !andb_true_iff, !Z.ltb_lt, !Z.eqb_eq.
  intros [?|[? Hab]] [?|[? Hbc]]; try (left; lia). right. split; [lia|by eapply IH].
Qed.

Lemma bytes_lt_total a b : bytes_lt a b = false -> bytes_lt b a = false -> a = b.
Proof.
  revert b. induction a as [|x a IH]; intros [|y b]; simpl; try done.
  rewrite !orb_false_iff, !andb_false_iff, !Z.ltb_ge, !Z.eqb_neq.
  intros [? Hab] [? Hba]. assert (x = y) as -> by lia.
  f_equal. destruct Hab, Hba; try lia. by apply IH.
Qed.

(** The static hosts are keyed by their lower-cased names. *)
Definition hosts_ok (e : Engine) : Prop :=
  map_Forall (fun k v => k = to_lowercase v.1 /\ Name_wf v.1) (hosts e).

Lemma filter_perm {A} (p : A -> bool) l l' : l ≡ₚ l' -> List.filter p l ≡ₚ List.filter p l'.
Proof.
  induction 1; simpl; repeat case_match; try done; [by constructor|by constructor|by etrans].
Qed.

Lemma reverse_host_order (o1 o2 : MapOrder) e addr :
  hosts_ok e -> @reverse_host o1 e addr = @reverse_host o2 e addr.
Proof.
  intros Hok. unfold reverse_host. f_equal. apply min_by_perm.
  - intros x. apply bytes_lt_irrefl.
  - intros x y z. apply bytes_lt_trans.
  - intros [k [n a]] [k' [n' a']] Hx Hy H1 H2. simpl in *.
    pose proof (bytes_lt_total _ _ H1 H2) as E.
    apply elem_of_filter_b in Hx as [Hx _], Hy as [Hy _]. apply map_iter_elem in Hx, Hy.
    destruct (Hok _ _ Hx) as [Hk Hw], (Hok _ _ Hy) as [Hk' Hw']. simpl in *.
    apply Name_to_string_inj in E; [|by apply to_lowercase_wf..].
    rewrite <- Hk, <- Hk' in E. subst k'. rewrite Hx in Hy. by simplify_eq.
  - apply filter_perm. by rewrite !map_iter_perm.
Qed.

Lemma synthetic_order (o1 o2 : MapOrder) e name rt :
  hosts_ok e -> @synthetic o1 e name rt = @synthetic o2 e name rt.
Proof.
  intros Hok. unfold synthetic, synthetic_reverse. repeat (case_match; try done).
  all: pose proof (reverse_host_order o1 o2 e i Hok); congruence.
Qed.

Lemma localhost_eq : localhost = mkName [bytes_of "localhost"].
Proof. vm_compute. reflexivity. Qed.

Lemma local_eq : local_ = mkName [bytes_of "local"].
Proof. vm_compute. reflexivity. Qed.

Section synthetic.
Context `{MapOrder} (e : Engine) (name : Name) (rt : Z).

(** Loopback, static, own and [.local] names are always answered here. *)
Lemma synthetic_local_names :
  ends_with name localhost = true \/ ends_with name local_ = true \/
  is_Some (hosts e !! to_lowercase name) \/ is_hostname e name = true ->
  is_Some (synthetic e name rt).
Proof.
  unfold synthetic. intros Hn. destruct (_ || _) eqn:E1; [done|].
  apply orb_false_iff in E1 as [_ E1].
  destruct (hosts e !! to_lowercase name) as [[? ?]|]; [done|].
  destruct (is_hostname e name); [done|]. destruct (ends_with name local_); [done|].
  destruct Hn as [?|[?|[[? ?]|?]]]; congruence.
Qed.

(** A synthetic answer never says [Unavailable], costs no TTL and names no
    server. *)
Lemma synthetic_shape a :
  synthetic e name rt = Some a ->
  a_outcome a <> Unavailable /\ Forall (fun r => r_ttl r = 0 /\ r_name r = name) (a_records a) /\
  a_server a = None /\ a_negative_ttl a = 0.
Proof.
  assert (forall addrs src, let a := addresses_answer name rt addrs src in
    a_outcome a <> Unavailable /\ Forall (fun r => r_ttl r = 0 /\ r_name r = name) (a_records a) /\
    a_server a = None /\ a_negative_ttl a = 0) as Ha.
  { intros addrs src. simpl. split; [done|]. split; [|done].
    apply Forall_forall. intros r (x & _ & Hx)%list_elem_of_omap.
    unfold address_record in Hx. by destruct x; case_all_in Hx. }
  assert (forall target src, let a := ptr_answer name target src in
    a_outcome a <> Unavailable /\ Forall (fun r => r_ttl r = 0 /\ r_name r = name) (a_records a) /\
    a_server a = None /\ a_negative_ttl a = 0) as Hp.
  { intros target src. simpl. split; [done|]. split; [by apply Forall_singleton|done]. }
  unfold synthetic, synthetic_reverse.
  repeat case_match; intros [= <-]; try apply Ha; try apply Hp. simpl.
  split; [done|]. split; [constructor|done].
Qed.
End synthetic.
