(* ===== verification/Engine.v ===== *)
(** * The resolution engine's operations (resolvd/src/engine.rs)

    Every public operation of [Engine] as a function from state to state and
    actions, with the internal steps it is composed of.  The engine has no
    clock and no socket: [now] and the entropy come from the caller. *)

From S2P Require Import Prelude Net Names Message MessageProofs Cache EngineState Records Routing.
Local Open Scope Z_scope.

(** ** Configuration *)

Definition invalidate_scope_cache (scope : Str) (e : Engine) : Engine :=
  let e := put_cache (flush_scope (cache e) scope) e in
  put_tasks ((fun t => if bool_decide (t_scope t = Some scope) then set_invalidated t else t)
             <$> tasks e) e.

Definition find_scope (ss : list Scope) (id : Str) : option Scope :=
  List.find (fun s => bool_decide (s_id s = id)) ss.

(** Scopes that are new or changed servers, then scopes that are gone. *)
Definition invalidated_scopes (old new : list Scope) : list Str :=
  map s_id (List.filter (fun s =>
    match find_scope old (s_id s) with
    | None => true
    | Some o => negb (bool_decide (s_servers o = s_servers s))
    end) new) ++
  map s_id (List.filter (fun o =>
    negb (existsb (fun s => bool_decide (s_id s = s_id o)) new)) old).

Definition set_scopes (ss : list Scope) (e : Engine) : Engine :=
  put_scopes ss
    (foldl (fun e id => invalidate_scope_cache id e) e (invalidated_scopes (scopes e) ss)).

Definition set_fallback (servers : list IpAddr) (domains : list Name) (e : Engine) : Engine :=
  put_fallback servers domains
    (if bool_decide (servers = fallback_servers e) then e
     else invalidate_scope_cache FALLBACK_SCOPE e).

Definition set_hostname (h : option Str) (e : Engine) : Engine :=
  put_hostname
    (match h with
     | Some h =>
         match ok (Name_parse h) with
         | Some n => if negb (is_root n) then Some n else None
         | None => None
         end
     | None => None
     end) e.

Definition set_hosts (h : gmap Name (Name * list IpAddr)) (e : Engine) : Engine := put_hosts h e.

Definition flush (e : Engine) : Engine :=
  put_tasks (set_invalidated <$> tasks e) (put_cache (Cache_clear (cache e)) e).

Definition cache_entries (e : Engine) : nat := Cache_len (cache e).

Definition demoted_servers `{MapOrder} (e : Engine) (now : Z) : list IpAddr :=
  map (fun kv => kv.1.1) (List.filter (fun kv => now <? kv.2) (map_iter (demoted e))).

Definition next_deadline `{MapOrder} (e : Engine) : option Z :=
  list_min (map (fun kv => x_deadline kv.2) (map_iter (txs e))).

Definition in_flight (e : Engine) : nat := size (txs e).

(** ** Internals *)

Definition fresh_id (e : Engine) : Engine * Z := (put_next_id (next_id e + 1) e, next_id e).

Definition demote (server : IpAddr) (scope : Str) (now : Z) (e : Engine) : Engine :=
  put_demoted (<[server_key server scope := now + DEMOTION]> (demoted e)) e.

Definition start_task (owner : Owner) (name : Name) (rt : Z) (no_cache : bool) (e : Engine)
  : Engine * TaskId :=
  let '(e, id) := fresh_id e in
  (put_tasks (<[id := mkTask owner name rt no_cache false [] None None 0 [] None]> (tasks e)) e, id).

(** The task is over: hand the answer to its owner. *)
Definition settle (e : Engine) (id : TaskId) (answer : Answer) : Engine * list Action :=
  match tasks e !! id with
  | None => (e, [])
  | Some task =>
      let e := put_tasks (delete id (tasks e)) e in
      let e := match t_tx task with
               | Some tx => put_txs (delete tx (txs e)) e
               | None => e
               end in
      match t_owner task with
      | OResolve qid => (e, [Done qid (CAnswer answer)])
      | OLookup qid =>
          match lookups e !! qid with
          | None => (e, [])
          | Some l =>
              let l := mkLookup (l_name l)
                         (List.filter (fun t => negb (t =? id)) (l_pending l))
                         (l_results l ++ [(t_rtype task, answer)]) in
              if negb (bool_decide (l_pending l = [])) then
                (put_lookups (<[qid := l]> (lookups e)) e, [])
              else
                (put_lookups (delete qid (lookups e)) e, [Done qid (CAddresses (combine l))])
          end
      end
  end.

(** The case bits of a send: two bytes of the draw are the id, the rest bits. *)
Definition case_bits (random : list Z) (n : nat) : bool :=
  negb (Z.land (octet random (2 + n / 8)) (Z.shiftl 1 (Z.of_nat (n mod 8))) =? 0).

Definition scope_or_default (t : Task) : Str := default [] (t_scope t).
Definition current_or_original (t : Task) : Name := default (t_original t) (t_current t).

Definition send (e : Engine) (id : TaskId) (server : IpAddr) (tcp : bool) (now : Z)
  : Engine * list Action :=
  match tasks e !! id with
  | None => (e, [])
  | Some task =>
      if (MAX_ATTEMPTS <=? t_attempt task)%nat then
        settle e id (bare_answer Unavailable (interface_of e (scope_or_default task)))
      else if (MAX_IN_FLIGHT <=? size (txs e))%nat then
        settle (count add_refused e) id (bare_answer Unavailable None)
      else
        let candidate := current_or_original task in
        let interface := t_scope task ≫= interface_of e in
        let draw := entropy e (drawn e) in
        let e := put_drawn (S (drawn e)) e in
        match draw with
        | None => settle (count add_refused e) id (bare_answer Unavailable None)
        | Some random =>
            let dns_id := from_le [octet random 0; octet random 1] in
            let name := randomise_case (case_bits random) candidate in
            let question := Question_new name (t_rtype task) in
            let payload := expect [] (Message_encode (Message_query dns_id question)) in
            let '(e, tx) := fresh_id e in
            let e := put_txs (<[tx := mkTx id dns_id question server tcp (now + SERVER_TIMEOUT)]>
                                (txs e)) e in
            let e := update_task id (fun t => set_tx (Some tx) (set_attempt (t_attempt t + 1) t)) e in
            let e := count add_sent e in
            (e, [Send tx server interface tcp payload])
        end
  end.

(** Send the current candidate to the next server, or give up. *)
Definition next_attempt (e : Engine) (id : TaskId) (now : Z) : Engine * list Action :=
  match tasks e !! id with
  | None => (e, [])
  | Some task =>
      let scope_id := scope_or_default task in
      if (MAX_ATTEMPTS <=? t_attempt task)%nat then
        settle e id (bare_answer Unavailable (interface_of e scope_id))
      else
        match servers_of e scope_id now with
        | [] => settle e id (bare_answer Unavailable None)
        | (first :: _) as servers =>
            let server :=
              match List.find (fun s => negb (bool_decide (s ∈ t_tried task))) servers with
              | Some s => s
              | None => default first (servers !! (length (t_tried task) mod length servers)%nat)
              end in
            let e := update_task id (fun t => set_tried (t_tried t ++ [server]) t) e in
            send e id server false now
        end
  end.

(** [next_candidate] calls itself after a cached absence; it pops a candidate
    each time, so it is structural on the task's candidates. *)
Fixpoint next_candidate_from (cs : list Name) (e : Engine) (id : TaskId) (now : Z)
  : Engine * list Action :=
  match tasks e !! id with
  | None => (e, [])
  | Some task =>
      match cs with
      | [] => settle e id (bare_answer NotFound None)
      | candidate :: rest =>
          let e := update_task id (take_candidate candidate rest) e in
          match route e candidate with
          | None => settle e id (bare_answer Unavailable None)
          | Some scope =>
              let e := update_task id (set_scope (Some scope)) e in
              if t_no_cache task then next_attempt e id now
              else
                let '(c, hit) := Cache_get (cache e) (CacheKey_new candidate (t_rtype task) scope) now in
                let e := put_cache c e in
                match hit with
                | None => next_attempt e id now
                | Some entry =>
                    let e := count add_cache_hits e in
                    if bool_decide (e_outcome entry = NotFound) && negb (bool_decide (rest = [])) then
                      next_candidate_from rest e id now
                    else
                      settle e id (mkAnswer (e_outcome entry) (e_records entry) FromCache
                        (Some (e_server entry)) (interface_of e scope) (e_rcode entry) (Some candidate)
                        (if bool_decide (e_records entry = [])
                         then wrap 32 (as_secs (saturating_duration_since (e_expires entry) now))
                         else 0))
                end
          end
      end
  end.

Definition next_candidate (e : Engine) (id : TaskId) (now : Z) : Engine * list Action :=
  match tasks e !! id with
  | None => (e, [])
  | Some task => next_candidate_from (t_candidates task) e id now
  end.

(** Decide what a fresh task does: answer locally, or build its candidates. *)
Definition advance `{MapOrder} (e : Engine) (id : TaskId) (now : Z) : Engine * list Action :=
  match tasks e !! id with
  | None => (e, [])
  | Some task =>
      let name := t_original task in
      if bool_decide (t_current task = None) && bool_decide (t_candidates task = []) &&
         (t_attempt task =? 0)%nat then
        match synthetic e name (t_rtype task) with
        | Some answer => settle (count add_synthetic e) id answer
        | None =>
            let cs := candidates e name in
            if bool_decide (cs = []) then settle e id (bare_answer NotFound None)
            else next_candidate (update_task id (set_candidates cs) e) id now
        end
      else next_candidate e id now
  end.

(** ** Questions *)

Definition resolve_name `{MapOrder} (e : Engine) (qid : Qid) (name : Name) (rt : Z) (no_cache : bool)
    (now : Z) : Engine * list Action :=
  let '(e, id) := start_task (OResolve qid) name rt no_cache e in
  advance e id now.

Definition resolve `{MapOrder} (e : Engine) (qid : Qid) (name : Str) (rt : Z) (no_cache : bool)
    (now : Z) : Engine * list Action :=
  let e := count add_queries e in
  match ok (Name_parse name) with
  | None => (e, [Done qid (CAnswer (bare_answer NotFound None))])
  | Some name => resolve_name e qid name rt no_cache now
  end.

Definition resolve_question `{MapOrder} (e : Engine) (qid : Qid) (q : Question) (now : Z)
  : Engine * list Action :=
  resolve_name (count add_queries e) qid (q_name q) (q_rtype q) false now.

Definition family_types (f : Family) : list Z :=
  match f with
  | FAny => [rtype.A; rtype.AAAA]
  | FV4 => [rtype.A]
  | FV6 => [rtype.AAAA]
  end.

Fixpoint start_tasks (owner : Owner) (name : Name) (types : list Z) (e : Engine)
  : Engine * list TaskId :=
  match types with
  | [] => (e, [])
  | t :: ts =>
      let '(e, id) := start_task owner name t false e in
      let '(e, ids) := start_tasks owner name ts e in
      (e, id :: ids)
  end.

(** A loop that extends the actions with one operation per id. *)
Fixpoint for_each (step : Engine -> Z -> Engine * list Action) (ids : list Z) (e : Engine)
  : Engine * list Action :=
  match ids with
  | [] => (e, [])
  | id :: ids' =>
      let '(e, acts) := step e id in
      let '(e, acts') := for_each step ids' e in
      (e, acts ++ acts')
  end.

Definition lookup_ `{MapOrder} (e : Engine) (qid : Qid) (name : Str) (family : Family) (now : Z)
  : Engine * list Action :=
  let e := count add_queries e in
  match ok (Name_parse name) with
  | None => (e, [Done qid (CAddresses (mkAddresses NotFound Name_root [] SrcLocal))])
  | Some name =>
      let '(e, pending) := start_tasks (OLookup qid) name (family_types family) e in
      let e := put_lookups (<[qid := mkLookup name pending []]> (lookups e)) e in
      for_each (fun e id => advance e id now) pending e
  end.

Definition reverse_name (address : IpAddr) : Name :=
  match address with
  | V4 a => reverse_v4 a
  | V6 a => reverse_v6 a
  end.

Definition reverse `{MapOrder} (e : Engine) (qid : Qid) (address : IpAddr) (now : Z)
  : Engine * list Action :=
  resolve e qid (Name_to_string (reverse_name address)) rtype.PTR false now.

Definition abandon_task (e : Engine) (id : TaskId) : Engine * list Action :=
  match tasks e !! id with
  | None => (e, [])
  | Some task =>
      let e := put_tasks (delete id (tasks e)) e in
      match t_tx task with
      | Some tx => (put_txs (delete tx (txs e)) e, [Cancel tx])
      | None => (e, [])
      end
  end.

Definition tasks_of `{MapOrder} (e : Engine) (qid : Qid) : list TaskId :=
  map fst (List.filter (fun kv => Owner_qid (t_owner kv.2) =? qid) (map_iter (tasks e))).

Definition abandon `{MapOrder} (e : Engine) (qid : Qid) : Engine * list Action :=
  let '(e, acts) := for_each abandon_task (tasks_of e qid) e in
  (put_lookups (delete qid (lookups e)) e, acts).

(** ** Inputs *)

Definition matching_response (e : Engine) (tx : Txid) (bytes : list Z) : option Message :=
  match txs e !! tx with
  | None => None
  | Some t =>
      match ok (Message_decode bytes) with
      | None => None
      | Some message =>
          if negb (h_id (header message) =? x_dns_id t) || negb (response (header message)) then None
          else
            match Message_question message with
            | None => None
            | Some q =>
                if negb (q_rtype q =? q_rtype (x_question t)) ||
                   negb (q_class q =? q_class (x_question t)) ||
                   negb (same_case (q_name q) (q_name (x_question t))) then None
                else Some message
            end
      end
  end.

Definition response_matches (e : Engine) (tx : Txid) (bytes : list Z) : bool :=
  match matching_response e tx bytes with Some _ => true | None => false end.

Definition is_cname (r : Record_) : bool := r_rtype r =? rtype.CNAME.

Definition recase (candidate : Name) (r : Record_) : Record_ :=
  if Name_eqb (r_name r) candidate
  then mkRecord candidate (r_rtype r) (r_class r) (r_ttl r) (r_rdata r) else r.

(** What a NOERROR or NXDOMAIN reply says about the candidate: the outcome,
    the records it contributes and how long it may be cached. *)
Definition reply_outcome (code : Z) : Outcome :=
  if wrap 8 code =? rcode.NXDOMAIN then NotFound else Found.

Definition reply_records (message : Message) (candidate : Name) (rt code : Z) : list Record_ :=
  let '(relevant, _) := relevant_records (answers message) candidate rt in
  map (recase candidate)
    (List.filter (fun _ => bool_decide (reply_outcome code = Found)) relevant).

Definition reply_ttl (message : Message) (candidate : Name) (rt code : Z) : Z :=
  let '(relevant, effective_name) := relevant_records (answers message) candidate rt in
  let alias_ttl := default U32_MAX (list_min (map r_ttl (List.filter is_cname relevant))) in
  let records := reply_records message candidate rt code in
  if bool_decide (reply_outcome code = Found) && negb (bool_decide (records = [])) then
    Z.min (default 0 (list_min (map r_ttl records))) MAX_POSITIVE_TTL
  else Z.min (negative_ttl (authority message) effective_name) alias_ttl.

Definition received_answer `{MapOrder} (e : Engine) (id : TaskId) (task : Task) (server : IpAddr)
    (message : Message) (code : Z) (now : Z) : Engine * list Action :=
  let e := put_demoted (delete (server_key server (scope_or_default task)) (demoted e)) e in
  let candidate := current_or_original task in
  let scope := scope_or_default task in
  let outcome := reply_outcome code in
  let records := reply_records message candidate (t_rtype task) code in
  let ttl := reply_ttl message candidate (t_rtype task) code in
  let entry := mkEntry outcome records code server (now + from_secs ttl) in
  let more := negb (bool_decide (t_candidates task = [])) in
  let e :=
    if (0 <? ttl) && negb (t_cache_invalidated task) then
      put_cache (Cache_insert (cache e) (CacheKey_new candidate (t_rtype task) scope) entry now) e
    else e in
  if bool_decide (outcome = NotFound) && more then
    next_candidate (update_task id (fun t => set_attempt (t_attempt t - 1) t) e) id now
  else
    settle e id (mkAnswer outcome records Dns (Some server) (interface_of e scope) code
      (Some candidate) (if bool_decide (records = []) then ttl else 0)).

Definition received `{MapOrder} (e : Engine) (tx : Txid) (bytes : list Z) (now : Z)
  : Engine * list Action :=
  match txs e !! tx, matching_response e tx bytes with
  | Some t, Some message =>
      let id := x_task t in
      let e := put_txs (delete tx (txs e)) e in
      match tasks e !! id with
      | None => (e, [])
      | Some task =>
          let e := update_task id (set_tx None) e in
          let task := set_tx None task in
          let e := count add_answered e in
          if truncated (header message) && negb (x_tcp t) then
            send e id (x_server t) true now
          else
            let code := Message_rcode message in
            if ((wrap 8 code =? rcode.NOERROR) || (wrap 8 code =? rcode.NXDOMAIN)) && (code <? 16) then
              received_answer e id task (x_server t) message code now
            else
              let e := count add_failed e in
              next_attempt (demote (x_server t) (scope_or_default task) now e) id now
      end
  | _, _ => (e, [])
  end.

Definition failed (e : Engine) (tx : Txid) (now : Z) : Engine * list Action :=
  match txs e !! tx with
  | None => (e, [])
  | Some t =>
      let e := put_txs (delete tx (txs e)) e in
      let e := count add_failed e in
      let scope := default [] (tasks e !! x_task t ≫= t_scope) in
      let e := demote (x_server t) scope now e in
      let e := update_task (x_task t) (set_tx None) e in
      next_attempt e (x_task t) now
  end.

Definition local_failed (e : Engine) (tx : Txid) (now : Z) : Engine * list Action :=
  match txs e !! tx with
  | None => (e, [])
  | Some t =>
      let e := put_txs (delete tx (txs e)) e in
      let e := count add_failed e in
      let e := update_task (x_task t) (set_tx None) e in
      next_attempt e (x_task t) now
  end.

Definition expired `{MapOrder} (e : Engine) (now : Z) : list Txid :=
  map fst (List.filter (fun kv => x_deadline kv.2 <=? now) (map_iter (txs e))).

Definition expire_one (now : Z) (e : Engine) (tx : Txid) : Engine * list Action :=
  let '(e, acts) := failed e tx now in (e, Cancel tx :: acts).

Definition tick `{MapOrder} (e : Engine) (now : Z) : Engine * list Action :=
  for_each (expire_one now) (expired e now) e.
