(* ===== verification/EngineInv.v ===== *)
(** * The engine's invariant

    The structural invariant that links tasks, transactions and lookups, and
    the two ways any internal step on a task ends: a query is sent, or the
    task is settled.  [EngineStep] builds the theorems about the public
    operations on it. *)

From S2P Require Import Prelude Net Names Message MessageProofs Cache EngineState Records Routing Engine.
Local Open Scope Z_scope.

(** A name the engine may put on the wire. *)
Definition sendable (n : Name) : Prop := Name_wf n /\ label_count n <> 1%nat.

Record task_ok (t : Task) : Prop := mk_task_ok {
  tk_original : Name_wf (t_original t);
  tk_rtype : is_u16 (t_rtype t);
  tk_candidates : Forall sendable (t_candidates t);
  tk_current : forall c, t_current t = Some c -> sendable c;
  tk_attempt : (t_attempt t <= MAX_ATTEMPTS)%nat;
}.

Record tx_ok (x : Tx) : Prop := mk_tx_ok {
  xk_question : Question_wf (x_question x);
  xk_sendable : sendable (q_name (x_question x));
  xk_class : q_class (x_question x) = class_IN;
  xk_id : is_u16 (x_dns_id x);
}.

(** [tx] asks what its task currently wants to know. *)
Definition asks (t : Task) (x : Tx) : Prop :=
  exists c, t_current t = Some c /\ q_name (x_question x) ≃ c /\ q_rtype (x_question x) = t_rtype t.

(** [idle] is the set of tasks without a transaction; it is empty between
    operations. *)
Record Core (idle : gset TaskId) (ts : gmap TaskId Task) (xs : gmap Txid Tx)
    (ls : gmap Qid Lookup_) (n : Z) : Prop := mkCore {
  co_tx : forall tx x, xs !! tx = Some x ->
    exists t, ts !! x_task x = Some t /\ t_tx t = Some tx /\ asks t x;
  co_task : forall id t tx, ts !! id = Some t -> t_tx t = Some tx ->
    exists x, xs !! tx = Some x /\ x_task x = id;
  co_idle : forall id t, ts !! id = Some t -> t_tx t = None -> id ∈ idle;
  co_idle_live : forall id, id ∈ idle -> exists t, ts !! id = Some t /\ t_tx t = None;
  co_task_id : forall id, is_Some (ts !! id) -> id < n;
  co_tx_id : forall tx, is_Some (xs !! tx) -> tx < n;
  co_flight : (size xs <= MAX_IN_FLIGHT)%nat;
  co_tasks : map_Forall (fun _ => task_ok) ts;
  co_txs : map_Forall (fun _ => tx_ok) xs;
  co_lookup : forall id t q, ts !! id = Some t -> t_owner t = OLookup q ->
    exists l, ls !! q = Some l /\ id ∈ l_pending l;
  co_pending : forall q l, ls !! q = Some l ->
    l_pending l <> [] /\
    forall id, id ∈ l_pending l -> exists t, ts !! id = Some t /\ t_owner t = OLookup q;
  co_resolve : forall id t id' t' q, ts !! id = Some t -> ts !! id' = Some t' ->
    t_owner t = OResolve q -> Owner_qid (t_owner t') = q -> id' = id;
}.

(** What the caller configures: usable search domains, hosts keyed by
    lower-cased name, and an entropy source that fills the whole buffer. *)
Record Config_inv (e : Engine) : Prop := mkConfig {
  cf_domains : domains_ok e;
  cf_hosts : hosts_ok e;
  cf_entropy : forall k r, entropy e k = Some r -> length r = 34%nat /\ bytes_ok r;
}.

Record Inv (idle : gset TaskId) (e : Engine) : Prop := mkInv {
  inv_core : Core idle (tasks e) (txs e) (lookups e) (next_id e);
  inv_cache : Cache_ok (cache e);
  inv_config : Config_inv e;
}.

(** Configuration that no question or reply changes. *)
Record same_config (e e' : Engine) : Prop := mk_same_config {
  sc_scopes : scopes e' = scopes e;
  sc_servers : fallback_servers e' = fallback_servers e;
  sc_domains : fallback_domains e' = fallback_domains e;
  sc_hostname : hostname e' = hostname e;
  sc_hosts : hosts e' = hosts e;
  sc_entropy : entropy e' = entropy e;
}.

#[export] Instance same_config_preorder : PreOrder same_config.
Proof. split; [done|]. intros a b c [] []. split; congruence. Qed.

Lemma Config_same e e' : same_config e e' -> Config_inv e -> Config_inv e'.
Proof.
  intros [] []. split.
  - unfold domains_ok in *. by rewrite sc_scopes0, sc_domains0.
  - unfold hosts_ok in *. by rewrite sc_hosts0.
  - by rewrite sc_entropy0.
Qed.

Lemma alter_insert_Some `{Countable K} {A} (f : A -> A) (m : gmap K A) i x :
  m !! i = Some x -> alter f i m = <[i := f x]> m.
Proof.
  intros Hm. apply map_eq. intros j. rewrite lookup_alter, lookup_insert.
  destruct (decide (i = j)) as [<-|]; [by rewrite Hm|done].
Qed.

(** ** The two ways a step on a task ends *)

(** What [settle] does to the lookups, and the completion it emits. *)
Definition delivers (ls : gmap Qid Lookup_) (owner : Owner) (rt : Z) (id : TaskId) (answer : Answer)
  : gmap Qid Lookup_ * list Action :=
  match owner with
  | OResolve qid => (ls, [Done qid (CAnswer answer)])
  | OLookup qid =>
      match ls !! qid with
      | None => (ls, [])
      | Some l =>
          let l := mkLookup (l_name l)
                     (List.filter (fun t => negb (t =? id)) (l_pending l))
                     (l_results l ++ [(rt, answer)]) in
          if negb (bool_decide (l_pending l = [])) then (<[qid := l]> ls, [])
          else (delete qid ls, [Done qid (CAddresses (combine l))])
      end
  end.

(** Upstream work a task may still cause: every event on it costs some. *)
Definition work (t : Task) : nat := 4 * length (t_candidates t) + (4 - t_attempt t).

(** The parts of a task that never change. *)
Record same_task (t t' : Task) : Prop := mk_same_task {
  st_owner : t_owner t' = t_owner t;
  st_original : t_original t' = t_original t;
  st_rtype : t_rtype t' = t_rtype t;
  st_no_cache : t_no_cache t' = t_no_cache t;
  st_invalidated : t_cache_invalidated t' = t_cache_invalidated t;
}.

#[export] Instance same_task_preorder : PreOrder same_task.
Proof. split; [done|]. intros a b c [] []. split; congruence. Qed.

Inductive outcome_of (id : TaskId) (e e' : Engine) : list Action -> Prop :=
| sent t t' x server interface tcp payload :
    tasks e !! id = Some t -> same_task t t' -> task_ok t' -> tx_ok x ->
    t_tx t' = Some (next_id e) -> asks t' x -> x_task x = id ->
    tasks e' = <[id := t']> (tasks e) ->
    txs e' = <[next_id e := x]> (txs e) -> (size (txs e) < MAX_IN_FLIGHT)%nat ->
    lookups e' = lookups e -> next_id e' = next_id e + 1 ->
    x_server x = server -> x_tcp x = tcp ->
    payload = message_wire (Message_query (x_dns_id x) (x_question x)) ->
    outcome_of id e e' [Send (next_id e) server interface tcp payload]
| settled t answer acts :
    tasks e !! id = Some t ->
    tasks e' = delete id (tasks e) -> txs e' = txs e -> next_id e' = next_id e ->
    (lookups e', acts) = delivers (lookups e) (t_owner t) (t_rtype t) id answer ->
    outcome_of id e e' acts.

(** [e0] differs from [e] in the task [id], and outside the core. *)
Record touched (id : TaskId) (e e0 : Engine) : Prop := mk_touched {
  to_tasks : exists t t0, tasks e !! id = Some t /\ same_task t t0 /\
    tasks e0 = <[id := t0]> (tasks e);
  to_txs : txs e0 = txs e;
  to_lookups : lookups e0 = lookups e;
  to_next : next_id e0 = next_id e;
}.

Lemma outcome_touched id e e0 e' acts :
  touched id e e0 -> outcome_of id e0 e' acts -> outcome_of id e e' acts.
Proof.
  intros [(t1 & t0 & Ht & Hs & Hts) Hxs Hls Hn] Ho. destruct Ho.
  - rewrite Hts, lookup_insert_eq in *. simplify_eq. rewrite Hn.
    eapply sent with (t := t1) (t' := t'); try (done || congruence).
    + by etrans.
    + by rewrite H6, insert_insert_eq.
  - rewrite Hts, lookup_insert_eq in *. simplify_eq.
    eapply settled with (t := t1); try (done || congruence).
    + by rewrite H0, delete_insert_eq.
    + rewrite H3, Hls. by destruct Hs as [-> _ -> _ _].
Qed.

(** The whole effect of a step on task [id]; a task that survives it has less
    than [k] work left. *)
Record step_ok (k : nat) (id : TaskId) (e : Engine) (r : Engine * list Action) : Prop := mk_step_ok {
  so_outcome : outcome_of id e r.1 r.2;
  so_config : same_config e r.1;
  so_cache : Cache_ok (cache e) -> Cache_ok (cache r.1);
  so_work : forall t', tasks r.1 !! id = Some t' -> (work t' < k)%nat;
}.

Lemma step_weaken k k' id e r : (k <= k')%nat -> step_ok k id e r -> step_ok k' id e r.
Proof. intros Hk [? ? ? Hw]. split; try done. intros t' Ht. specialize (Hw t' Ht). lia. Qed.

(** Steps compose with changes outside the core. *)
Lemma step_touched k id e e0 r :
  touched id e e0 -> same_config e e0 -> (Cache_ok (cache e) -> Cache_ok (cache e0)) ->
  step_ok k id e0 r -> step_ok k id e r.
Proof.
  intros Ht Hc Hk [Ho Hs Hca Hw]. split; [by eapply outcome_touched|by etrans|auto|done].
Qed.

(** The task a step works on. *)
Record focus (id : TaskId) (t : Task) (e : Engine) : Prop := mk_focus {
  fo_task : tasks e !! id = Some t;
  fo_tx : t_tx t = None;
  fo_ok : task_ok t;
  fo_config : Config_inv e;
}.

Lemma touched_core id e e0 t :
  tasks e !! id = Some t -> tasks e0 = tasks e -> txs e0 = txs e -> lookups e0 = lookups e ->
  next_id e0 = next_id e -> touched id e e0.
Proof.
  intros Ht Hts ? ? ?. split; [|done..]. exists t, t. split; [done|]. split; [done|].
  by rewrite Hts, insert_id.
Qed.

Lemma touched_update id e t f :
  tasks e !! id = Some t -> same_task t (f t) -> touched id e (update_task id f e).
Proof.
  intros Ht Hs. split; [|done..]. exists t, (f t). split; [done|]. split; [done|].
  by apply alter_insert_Some.
Qed.

Lemma touched_trans id e e1 e2 : touched id e e1 -> touched id e1 e2 -> touched id e e2.
Proof.
  intros [(t & t1 & Ht & Hs & Hts) ? ? ?] [(t1' & t2 & Ht1 & Hs' & Hts') ? ? ?].
  rewrite Hts, lookup_insert_eq in Ht1. simplify_eq. split; try congruence.
  exists t, t2. split; [done|]. split; [by etrans|]. by rewrite Hts', Hts, insert_insert_eq.
Qed.

Lemma focus_update id t e f :
  focus id t e -> same_task t (f t) -> t_tx (f t) = None -> task_ok (f t) ->
  focus id (f t) (update_task id f e).
Proof.
  intros [Ht Hx Hok Hc] Hs Hx' Hok'. split; try done.
  - unfold update_task. simpl. by rewrite lookup_alter_eq, Ht.
  - by apply (Config_same e).
Qed.

Lemma focus_core id t e e0 :
  focus id t e -> tasks e0 = tasks e -> same_config e e0 -> focus id t e0.
Proof. intros [? ? ? Hc] Hts Hs. split; [by rewrite Hts|done..|by apply (Config_same e)]. Qed.

(** ** Settling *)

Lemma settle_step k id e t answer :
  tasks e !! id = Some t -> t_tx t = None -> step_ok k id e (settle e id answer).
Proof.
  intros Ht Hx. unfold settle. rewrite Ht, Hx.
  assert (forall e1 acts, tasks e1 = delete id (tasks e) -> txs e1 = txs e ->
    next_id e1 = next_id e -> same_config e e1 -> cache e1 = cache e ->
    (lookups e1, acts) = delivers (lookups e) (t_owner t) (t_rtype t) id answer ->
    step_ok k id e (e1, acts)) as Hmk.
  { intros e1 acts H1 H2 H3 H4 H5 H6. split; [by eapply settled|done|by rewrite <- H5|].
    intros t'. simpl. by rewrite H1, lookup_delete_eq. }
  unfold delivers in Hmk. destruct (t_owner t) as [q|q]; [by apply Hmk|].
  destruct (lookups e !! q) as [l|] eqn:El; cbn [lookups put_tasks]; rewrite El in *;
    [|apply Hmk; try done; by simpl]. 
  case_match; by apply Hmk.
Qed.

Lemma settle_touched k id e e0 t answer :
  touched id e e0 -> same_config e e0 -> (Cache_ok (cache e) -> Cache_ok (cache e0)) ->
  tasks e0 !! id = Some t -> t_tx t = None -> step_ok k id e (settle e0 id answer).
Proof. intros. eapply step_touched; [done..|]. by eapply settle_step. Qed.

(** ** Sending *)

Lemma octet_ok r i : bytes_ok r -> is_u8 (octet r i).
Proof. apply octet_u8. Qed.

Lemma from_le_u16 a b : is_u8 a -> is_u8 b -> is_u16 (from_le [a; b]).
Proof. intros Ha Hb. unfold from_le. simpl. apply from_be_u16; [by forall_list|done]. Qed.

(** The transaction of a send is well-formed, so its query encodes. *)
Lemma sent_tx_ok id t c r server tcp deadline :
  task_ok t -> t_current t = Some c -> bytes_ok r ->
  tx_ok (mkTx id (from_le [octet r 0; octet r 1])
           (Question_new (randomise_case (case_bits r) c) (t_rtype t)) server tcp deadline).
Proof.
  intros Hok Hcur Hr. destruct (tk_current t Hok c Hcur) as [Hwf Hcnt]. split; simpl.
  - split; [by apply randomise_case_wf|]. split; [by apply tk_rtype|by_decide].
  - split; [by apply randomise_case_wf|]. by rewrite (randomise_case_equiv (case_bits r) c).
  - done.
  - apply from_le_u16; by apply octet_ok.
Qed.

Lemma send_step id e t server tcp now c :
  focus id t e -> t_current t = Some c -> step_ok (work t) id e (send e id server tcp now).
Proof.
  intros [Ht Hx Hok Hc] Hcur. unfold send. rewrite Ht.
  destruct (MAX_ATTEMPTS <=? t_attempt t)%nat eqn:Ha; [by eapply settle_step|].
  destruct (MAX_IN_FLIGHT <=? size (txs e))%nat eqn:Hf.
  { eapply settle_touched; [by apply (touched_core _ _ _ t)|done..]. }
  bool_simpl. unfold current_or_original. rewrite Hcur. simpl default.
  destruct (entropy e (drawn e)) as [r|] eqn:He.
  2:{ eapply settle_touched; [by apply (touched_core _ _ _ t)|done..]. }
  apply (cf_entropy e Hc) in He as [_ Hr].
  pose proof (sent_tx_ok id t c r server tcp (now + SERVER_TIMEOUT) Hok Hcur Hr) as Hxok.
  set (x := mkTx _ _ _ _ _ _) in Hxok.
  pose proof (query_encodes _ _ (xk_id _ Hxok) (xk_question _ Hxok)) as [Henc _].
  cbv zeta. cbn [fresh_id]. cbn [x_dns_id x_question x] in Henc. rewrite Henc.
  set (f := fun t => set_tx (Some (next_id e)) (set_attempt (t_attempt t + 1) t)).
  change (next_id (put_drawn (S (drawn e)) e)) with (next_id e). cbn [expect].
  split; cbn [fst snd].
  - eapply sent with (t := t) (t' := f t) (x := x); try done.
    + destruct Hok. split; try done. simpl. unfold MAX_ATTEMPTS in *. lia.
    + exists c. split; [done|]. split; [apply randomise_case_equiv|done].
    + exact (alter_insert_Some f (tasks e) id t Ht).
  - done.
  - done.
  - intros t' Ht'. change (alter f id (tasks e) !! id = Some t') in Ht'.
    rewrite lookup_alter_eq, Ht in Ht'. injection Ht' as <-. unfold work, f. simpl. unfold MAX_ATTEMPTS in *. lia.
Qed.

(** ** Attempts and candidates *)

Lemma next_attempt_step id e t now c :
  focus id t e -> t_current t = Some c -> step_ok (work t) id e (next_attempt e id now).
Proof.
  intros Hf Hcur. pose proof Hf as [Ht Hx Hok Hc]. unfold next_attempt. rewrite Ht.
  destruct (MAX_ATTEMPTS <=? t_attempt t)%nat eqn:Ha; [by eapply settle_step|].
  destruct (servers_of e (scope_or_default t) now) as [|first rest]; [by eapply settle_step|].
  set (server := match List.find _ _ with Some s => s | None => _ end).
  set (f := fun t => set_tried (t_tried t ++ [server]) t).
  assert (same_task t (f t)) as Hs by done.
  eapply step_touched; [by eapply touched_update| |done|]; [done|].
  apply (send_step id _ (f t) server false now c); [|done].
  apply focus_update; try done. by destruct Hok; split.
Qed.

Lemma Config_update id f e : Config_inv e -> Config_inv (update_task id f e).
Proof. by apply Config_same. Qed.

Lemma next_candidate_from_step cs : forall e id t now,
  focus id t e -> t_candidates t = cs -> step_ok (work t - 4) id e (next_candidate_from cs e id now).
Proof.
  induction cs as [|c rest IH]; intros e id t now Hf Hcs; pose proof Hf as [Ht Hx Hok Hc];
    cbn [next_candidate_from]; rewrite Ht; [by eapply settle_step|].
  pose proof (tk_candidates t Hok) as Hcand. rewrite Hcs in Hcand.
  apply Forall_cons in Hcand as [Hcs1 Hrest].
  set (f := take_candidate c rest). set (e1 := update_task id f e).
  assert (touched id e e1) as Ht1 by (by eapply touched_update).
  assert (focus id (f t) e1) as Hf1.
  { apply focus_update; try done. destruct Hok. split; try done. by intros ? [= <-]. }
  assert (work (f t) <= work t - 4)%nat as Hw1 by (unfold work; rewrite Hcs; simpl; lia).
  destruct (route e1 c) as [scope|]; [|by eapply settle_touched, fo_tx, Hf1; [..|apply Hf1]].
  set (g := set_scope (Some scope)). set (e2 := update_task id g e1).
  assert (touched id e e2) as Ht2.
  { eapply touched_trans; [done|]. eapply touched_update; [apply Hf1|done]. }
  assert (focus id (g (f t)) e2) as Hf2.
  { apply focus_update; try done. destruct Hok. split; try done. by intros ? [= <-]. }
  destruct (t_no_cache t).
  { eapply step_touched; [done..|]. apply (step_weaken _ _ _ _ _ Hw1).
    by apply (next_attempt_step _ _ (g (f t)) _ c). }
  pose proof (Cache_get_ok (cache e2) (CacheKey_new c (t_rtype t) scope) now) as Hget.
  destruct (Cache_get _ _ _) as [cc [entry|]]; simpl in Hget.
  2:{ eapply (step_touched _ _ _ (put_cache cc e2)); [by destruct Ht2|done..|].
      apply (step_weaken _ _ _ _ _ Hw1). apply (next_attempt_step _ _ (g (f t)) _ c); [|done].
      by apply (focus_core _ _ e2). }
  set (e3 := count add_cache_hits (put_cache cc e2)).
  assert (touched id e e3) as Ht3 by (by destruct Ht2).
  assert (focus id (g (f t)) e3) as Hf3 by (by apply (focus_core _ _ e2)).
  case_match.
  - eapply (step_touched _ _ _ e3); [done..|]. eapply step_weaken; [|by apply (IH e3 id (g (f t)) now)].
    etrans; [|exact Hw1]. apply Nat.le_sub_l.
  - eapply (settle_touched _ _ _ e3); [done..|apply Hf3|apply Hf3].
Qed.

Lemma next_candidate_step id e t now :
  focus id t e -> step_ok (work t - 4) id e (next_candidate e id now).
Proof.
  intros Hf. unfold next_candidate. rewrite (fo_task _ _ _ Hf).
  by apply next_candidate_from_step.
Qed.

Lemma candidates_sendable e name :
  domains_ok e -> Name_wf name -> Forall sendable (candidates e name).
Proof.
  intros Hd Hn. pose proof (candidates_wf e name Hd Hn) as Hw. rewrite Forall_forall in Hw.
  apply Forall_forall. intros c Hc. split; [by apply Hw|by eapply candidates_not_bare].
Qed.

Lemma advance_step `{MapOrder} id e t now :
  focus id t e -> t_current t = None -> t_candidates t = [] -> t_attempt t = 0%nat ->
  step_ok (4 * length (candidates e (t_original t)) + 4) id e (advance e id now).
Proof.
  intros Hf Hcur Hcs Ha. pose proof Hf as [Ht Hx Hok Hc]. unfold advance.
  rewrite Ht, Hcur, Hcs, Ha. simpl (_ && _ && _).
  destruct (synthetic e (t_original t) (t_rtype t)) as [a|].
  { eapply settle_touched; [by apply (touched_core _ _ _ t)|done..]. }
  case_bool_decide; [by eapply settle_step|].
  set (cs := candidates e (t_original t)). set (f := set_candidates cs).
  eapply (step_touched _ _ _ (update_task id f e)); [by eapply touched_update|done|done|].
  eapply step_weaken; [|apply (next_candidate_step _ _ (f t))].
  - unfold work. simpl. lia.
  - apply focus_update; try done. destruct Hok. split; try done. simpl.
    apply candidates_sendable; [apply Hc|done].
Qed.
