(* ===== verification/EngineStep.v ===== *)
(** * Every operation keeps the engine's invariant

    The invariant through each public operation, the accounting of questions
    against completions, and the work each event costs.  The properties of
    the engine are stated in [EngineProps]. *)

From S2P Require Import Prelude Net Names Message MessageProofs Cache EngineState Records Routing Engine EngineInv.
Local Open Scope Z_scope.

(** A question is live while a task is owned by it. *)
Definition live (e : Engine) (q : Qid) : Prop :=
  exists id t, tasks e !! id = Some t /\ Owner_qid (t_owner t) = q.

(** The questions a list of actions completes. *)
Definition done_qid (a : Action) : option Qid :=
  match a with Done q _ => Some q | _ => None end.
Definition dones (acts : list Action) : list Qid := omap done_qid acts.

Lemma dones_app a b : dones (a ++ b) = dones a ++ dones b.
Proof. apply omap_app. Qed.

(** Every live question is still live or completed once, not both, and no
    other question is touched. *)
Record balanced (e e' : Engine) (acts : list Action) : Prop := mk_balanced {
  ba_nodup : NoDup (dones acts);
  ba_split : forall q, live e q <-> live e' q \/ q ∈ dones acts;
  ba_once : forall q, live e' q -> q ∉ dones acts;
}.

Lemma balanced_nil e e' : tasks e' = tasks e -> balanced e e' [].
Proof.
  intros Ht. split; [constructor| |set_solver]. intros q. unfold live. rewrite Ht. set_solver.
Qed.

Lemma balanced_app e e1 e2 a b :
  balanced e e1 a -> balanced e1 e2 b -> balanced e e2 (a ++ b).
Proof.
  intros [Hn1 Hs1 Ho1] [Hn2 Hs2 Ho2].
  assert (forall q, q ∈ dones b -> live e1 q) as Hb by (intros q ?; apply Hs2; by right).
  assert (forall q, live e2 q -> live e1 q) as Hl by (intros q ?; apply Hs2; by left).
  split; rewrite ?dones_app.
  - apply NoDup_app. split; [done|]. split; [|done]. intros q Hq Hq'. by apply (Ho1 q (Hb q Hq')).
  - intros q. rewrite Hs1, Hs2, elem_of_app. tauto.
  - intros q Hq. rewrite elem_of_app. intros [?|?]; [by apply (Ho1 q (Hl q Hq))|by apply (Ho2 q)].
Qed.

(** ** One step on one task *)

Section outcome.
Context (idle : gset TaskId) (id : TaskId) (e e' : Engine).
Hypothesis HC : Core idle (tasks e) (txs e) (lookups e) (next_id e).
Hypothesis Hid : id ∈ idle.

Lemma core_sent t t' x :
  tasks e !! id = Some t -> same_task t t' -> task_ok t' -> tx_ok x ->
  t_tx t' = Some (next_id e) -> asks t' x -> x_task x = id ->
  (size (txs e) < MAX_IN_FLIGHT)%nat ->
  Core (idle ∖ {[id]}) (<[id := t']> (tasks e)) (<[next_id e := x]> (txs e))
    (lookups e) (next_id e + 1).
Proof using HC Hid.
  intros Ht Hs Hok Hxok Htx Hask Hxid Hsz. pose proof HC as [Ctx Ctask Cidle Clive Cid Cxid Cflight Ctasks Ctxs Clookup Cpend Cres].
  assert (t_tx t = None) as Hnone.
  { destruct (Clive id Hid) as (t0 & ? & ?). congruence. }
  assert (txs e !! next_id e = None) as Hfresh.
  { destruct (txs e !! next_id e) eqn:E; [|done].
    specialize (Cxid _ (mk_is_Some _ _ E)). lia. }
  split.
  - intros tx y. rewrite lookup_insert_Some. intros [[<- <-]|[Hne Hy]].
    + exists t'. by rewrite Hxid, lookup_insert_eq.
    + destruct (Ctx _ _ Hy) as (t0 & Ht0 & ? & ?). exists t0.
      rewrite lookup_insert_ne; [done|]. intros ->. congruence.
  - intros j t0 tx. rewrite lookup_insert_Some. intros [[<- <-]|[Hne Hj]] Hx.
    + exists x. rewrite Htx in Hx. simplify_eq. by rewrite lookup_insert_eq.
    + destruct (Ctask _ _ _ Hj Hx) as (y & Hy & ?). exists y.
      rewrite lookup_insert_ne; [done|]. intros <-. congruence.
  - intros j t0. rewrite lookup_insert_Some. intros [[<- <-]|[Hne Hj]] Hx; [congruence|].
    specialize (Cidle _ _ Hj Hx). set_solver.
  - intros j [Hj Hne]%elem_of_difference. destruct (Clive j Hj) as (t0 & ? & ?).
    exists t0. rewrite lookup_insert_ne by set_solver. done.
  - intros j. rewrite lookup_insert_is_Some'. intros [<-|Hj]; [|specialize (Cid j Hj); lia].
    specialize (Cid id (mk_is_Some _ _ Ht)). lia.
  - intros tx. rewrite lookup_insert_is_Some'. intros [<-|Hj]; [lia|].
    specialize (Cxid tx Hj). lia.
  - rewrite map_size_insert_None by done. lia.
  - by apply map_Forall_insert_2.
  - by apply map_Forall_insert_2.
  - intros j t0 q. rewrite lookup_insert_Some. intros [[<- <-]|[Hne Hj]] Ho; [|by eapply Clookup].
    apply (Clookup id t); [done|]. by rewrite <- (st_owner _ _ Hs).
  - intros q l Hl. destruct (Cpend q l Hl) as [? Hp]. split; [done|].
    intros j Hj. destruct (Hp j Hj) as (t0 & Ht0 & Ho). rewrite lookup_insert.
    case_decide; [|by exists t0]. subst j. exists t'. split; [done|].
    rewrite (st_owner _ _ Hs). congruence.
  - assert (forall j t0, <[id := t']> (tasks e) !! j = Some t0 ->
      exists t1, tasks e !! j = Some t1 /\ t_owner t0 = t_owner t1) as Hback.
    { intros j t0. rewrite lookup_insert_Some. intros [[<- <-]|[Hne Hj]]; [|by exists t0].
      exists t. split; [done|apply Hs]. }
    intros i ti j tj q (ti' & Hi & ->)%Hback (tj' & Hj & ->)%Hback. by eapply Cres.
Qed.

Lemma core_removed t ls' :
  tasks e !! id = Some t ->
  (forall q l, ls' !! q = Some l -> l_pending l <> [] /\
     exists l0, lookups e !! q = Some l0 /\ forall j, j ∈ l_pending l <-> j ∈ l_pending l0 /\ j <> id) ->
  (forall q l0 j, lookups e !! q = Some l0 -> j ∈ l_pending l0 -> j <> id -> is_Some (ls' !! q)) ->
  Core (idle ∖ {[id]}) (delete id (tasks e)) (txs e) ls' (next_id e).
Proof using HC Hid.
  intros Ht Hback Hfwd. pose proof HC as [Ctx Ctask Cidle Clive Cid Cxid Cflight Ctasks Ctxs Clookup Cpend Cres].
  assert (t_tx t = None) as Hnone.
  { destruct (Clive id Hid) as (t0 & ? & ?). congruence. }
  split; try done.
  - intros tx x Hx. destruct (Ctx _ _ Hx) as (t0 & Ht0 & ? & ?). exists t0.
    rewrite lookup_delete_ne; [done|]. intros ->. congruence.
  - intros j t0 tx [_ Hj]%lookup_delete_Some. by apply Ctask.
  - intros j t0 [Hne Hj]%lookup_delete_Some Hx. specialize (Cidle _ _ Hj Hx). set_solver.
  - intros j [Hj Hne]%elem_of_difference. destruct (Clive j Hj) as (t0 & ? & ?).
    exists t0. rewrite lookup_delete_ne by set_solver. done.
  - intros j [t0 [_ Hj]%lookup_delete_Some]. by apply Cid.
  - by apply map_Forall_delete.
  - intros j t0 q [Hne Hj]%lookup_delete_Some Ho.
    destruct (Clookup _ _ _ Hj Ho) as (l0 & Hl0 & Hin).
    destruct (Hfwd q l0 j Hl0 Hin) as [l Hl]; [done|]. exists l. split; [done|].
    destruct (Hback q l Hl) as (_ & l0' & Hl0' & Hp). apply Hp. by simplify_eq.
  - intros q l Hl. destruct (Hback q l Hl) as (Hne & l0 & Hl0 & Hp). split; [done|].
    intros j [Hj Hji]%Hp. destruct (Cpend q l0 Hl0) as [_ Hpend].
    destruct (Hpend j Hj) as (t0 & ? & ?). exists t0. by rewrite lookup_delete_ne.
  - intros i ti j tj q [_ Hi]%lookup_delete_Some [_ Hj]%lookup_delete_Some. by eapply Cres.
Qed.
End outcome.

Lemma elem_of_pending_filter (id j : TaskId) (l : list TaskId) :
  j ∈ List.filter (fun t => negb (t =? id)) l <-> j ∈ l /\ j <> id.
Proof. by rewrite elem_of_filter_b, negb_true_iff, Z.eqb_neq. Qed.

(** What [delivers] leaves of the lookups and which question it completes. *)
Lemma deliver_spec idle id e t answer ls' acts :
  Core idle (tasks e) (txs e) (lookups e) (next_id e) -> tasks e !! id = Some t ->
  (ls', acts) = delivers (lookups e) (t_owner t) (t_rtype t) id answer ->
  (forall q l, ls' !! q = Some l -> l_pending l <> [] /\
     exists l0, lookups e !! q = Some l0 /\ forall j, j ∈ l_pending l <-> j ∈ l_pending l0 /\ j <> id) /\
  (forall q l0 j, lookups e !! q = Some l0 -> j ∈ l_pending l0 -> j <> id -> is_Some (ls' !! q)) /\
  ((dones acts = [Owner_qid (t_owner t)] /\
    forall j t', tasks e !! j = Some t' -> Owner_qid (t_owner t') = Owner_qid (t_owner t) -> j = id) \/
   (dones acts = [] /\ exists j t', j <> id /\ tasks e !! j = Some t' /\
      Owner_qid (t_owner t') = Owner_qid (t_owner t))).
Proof.
  intros HC Ht. pose proof (co_pending _ _ _ _ _ HC) as Hpend. unfold delivers.
  assert (forall q l, lookups e !! q = Some l -> q <> Owner_qid (t_owner t) -> id ∉ l_pending l) as Hout.
  { intros q l Hl Hq Hin. destruct (Hpend q l Hl) as [_ Hp]. destruct (Hp id Hin) as (t0 & Ht0 & Ho).
    simplify_eq. by rewrite Ho in Hq. }
  destruct (t_owner t) as [q|q] eqn:Eo.
  { intros [= -> ->]. split_and!.
    - intros q' l Hl. split; [by eapply Hpend|]. exists l. split; [done|]. intros j.
      split; [|by intros [? _]]. intros Hj. split; [done|]. intros ->.
      destruct (Hpend q' l Hl) as [_ Hp]. destruct (Hp id Hj) as (t0 & ? & ?). congruence.
    - intros q' l0 j Hl _ _. by rewrite Hl.
    - left. split; [done|]. intros j t' Hj Hq. by eapply (co_resolve _ _ _ _ _ HC id t). }
  destruct (co_lookup _ _ _ _ _ HC id t q Ht Eo) as (l & Hl & Hin). rewrite Hl.
  cbn [l_pending Owner_qid] in *.
  set (p' := List.filter (fun t0 => negb (t0 =? id)) (l_pending l)).
  assert (forall j, j ∈ p' <-> j ∈ l_pending l /\ j <> id) as Hp' by (intros; apply elem_of_pending_filter).
  assert (forall q' l', lookups e !! q' = Some l' -> q' <> q -> l_pending l' <> [] /\
     exists l0, lookups e !! q' = Some l0 /\ forall j, j ∈ l_pending l' <-> j ∈ l_pending l0 /\ j <> id) as Hother.
  { intros q' l' Hl' Hne. split; [by eapply Hpend|]. exists l'. split; [done|]. intros j.
    specialize (Hout q' l' Hl' Hne). split; [|by intros [? _]]. intros Hj. split; [done|congruence]. }
  case_bool_decide as Hnil; simpl; intros [= -> ->]; split_and!.
  - intros q' l' [Hne Hl']%lookup_delete_Some. by apply Hother.
  - intros q' l0 j Hl0 Hj Hne. rewrite lookup_delete_ne; [done|]. intros <-. rewrite Hl in Hl0. injection Hl0 as <-.
    assert (j ∈ p') as Hbad by (by apply Hp'). rewrite Hnil in Hbad. by apply elem_of_nil in Hbad.
  - left. split; [done|]. intros j t' Hj Hq. destruct (t_owner t') as [q'|q'] eqn:Eo'; simpl in Hq; subst q'.
    + symmetry. eapply (co_resolve _ _ _ _ _ HC j t' id t); [done..|]. by rewrite Eo.
    + destruct (co_lookup _ _ _ _ _ HC j t' q Hj Eo') as (l1 & Hl1 & Hj1).
      rewrite Hl in Hl1. injection Hl1 as <-.
      destruct (decide (j = id)); [done|].
      assert (j ∈ p') as Hbad by (by apply Hp'). rewrite Hnil in Hbad. by apply elem_of_nil in Hbad.
  - intros q' l'. rewrite lookup_insert_Some. intros [[<- <-]|[Hne Hl']]; [|by apply Hother].
    split; [done|]. exists l. done.
  - intros q' l0 j Hl0 Hj Hne. rewrite lookup_insert_is_Some'. right. by rewrite Hl0.
  - right. split; [done|]. destruct p' as [|j p'']; [done|].
    assert (j ∈ l_pending l /\ j <> id) as [Hj Hne] by (apply Hp'; by left).
    destruct (Hpend q l Hl) as [_ Hp]. destruct (Hp j Hj) as (t' & ? & Ho).
    exists j, t'. by rewrite Ho.
Qed.

Lemma core_outcome idle id e e' acts :
  Core idle (tasks e) (txs e) (lookups e) (next_id e) -> id ∈ idle -> outcome_of id e e' acts ->
  Core (idle ∖ {[id]}) (tasks e') (txs e') (lookups e') (next_id e').
Proof.
  intros HC Hid [t t' x server itf tcp payload Ht Hs Hok Hx Htx Ha Hxt -> -> Hsz -> -> _ _ _
                |t answer acts' Ht -> -> -> Hd].
  - by eapply core_sent.
  - destruct (deliver_spec _ _ _ _ _ _ _ HC Ht Hd) as (H1 & H2 & _).
    by eapply core_removed.
Qed.

Lemma balanced_outcome idle id e e' acts :
  Core idle (tasks e) (txs e) (lookups e) (next_id e) -> outcome_of id e e' acts ->
  balanced e e' acts.
Proof.
  intros HC [t t' x server itf tcp payload Ht Hs _ _ _ _ _ Hts _ _ _ _ _ _ _
            |t answer acts' Ht Hts _ _ Hd].
  - split; [constructor| |set_solver]. intros q. unfold live. rewrite Hts. split.
    + intros (j & t0 & Hj & Hq). left. destruct (decide (j = id)) as [->|Hne].
      * exists id, t'. rewrite lookup_insert_eq. split; [done|].
        rewrite (st_owner _ _ Hs). congruence.
      * exists j, t0. by rewrite lookup_insert_ne.
    + intros [(j & t0 & Hj & Hq)|Hn]; [|by apply elem_of_nil in Hn].
      apply lookup_insert_Some in Hj as [[<- <-]|[Hne Hj]]; [|by exists j, t0].
      exists id, t. split; [done|]. by rewrite <- (st_owner _ _ Hs).
  - destruct (deliver_spec _ _ _ _ _ _ _ HC Ht Hd) as (_ & _ & Hdone). clear Hd.
    assert (forall q, live e' q <-> exists j t', j <> id /\ tasks e !! j = Some t' /\
      Owner_qid (t_owner t') = q) as Hlive.
    { intros q. unfold live. rewrite Hts. setoid_rewrite lookup_delete_Some. naive_solver. }
    destruct Hdone as [[Hd Honly]|[Hd (j & t' & Hne & Hj & Hq)]]; rewrite ?Hd; split; rewrite ?Hd.
    + apply NoDup_singleton.
    + intros q. rewrite ?Hd, Hlive, list_elem_of_singleton. split.
      * intros (j & t0 & Hj & Hq). destruct (decide (j = id)) as [->|]; [|eauto 6].
        right. congruence.
      * intros [(j & t0 & _ & Hj & Hq)| ->]; [by exists j, t0|by exists id, t].
    + intros q (j & t0 & Hne & Hj & Hq)%Hlive. rewrite ?Hd, list_elem_of_singleton. intros ->.
      apply Hne. by eapply Honly.
    + constructor.
    + intros q. rewrite ?Hd, Hlive. split; [|intros [(i & t0 & _ & Hi & ?)|Hn]; [by exists i, t0|by apply elem_of_nil in Hn]].
      intros (i & t0 & Hi & Hqi). left. destruct (decide (i = id)) as [->|]; [|eauto].
      exists j, t'. split_and!; [done..|]. congruence.
    + intros q _. rewrite ?Hd. apply not_elem_of_nil.
Qed.

(** The two together, with the rest of the invariant. *)
Lemma Inv_step k idle id e r :
  Inv idle e -> id ∈ idle -> step_ok k id e r -> Inv (idle ∖ {[id]}) r.1 /\ balanced e r.1 r.2.
Proof.
  intros [HC Hca Hcf] Hid [Ho Hs Hc _]. split; [split|].
  - by eapply core_outcome.
  - by apply Hc.
  - by apply (Config_same e).
  - by eapply balanced_outcome.
Qed.

(** ** Transactions that end *)

Lemma core_drop idle ts xs ls n tx x :
  Core idle ts xs ls n -> xs !! tx = Some x ->
  exists t, ts !! x_task x = Some t /\ t_tx t = Some tx /\ asks t x /\ x_task x ∉ idle /\
    Core ({[x_task x]} ∪ idle) (<[x_task x := set_tx None t]> ts) (delete tx xs) ls n.
Proof.
  intros HC Hx. pose proof HC as [Ctx Ctask Cidle Clive Cid Cxid Cflight Ctasks Ctxs Clookup Cpend Cres].
  destruct (Ctx _ _ Hx) as (t & Ht & Htx & Ha). exists t. split; [done|]. split; [done|]. split; [done|].
  assert (x_task x ∉ idle) as Hni.
  { intros Hin. destruct (Clive _ Hin) as (t0 & ? & ?). congruence. }
  split; [done|]. set (id := x_task x) in *. split.
  - intros tx' y [Hne Hy]%lookup_delete_Some. destruct (Ctx _ _ Hy) as (t0 & ? & Htx0 & ?).
    exists t0. rewrite lookup_insert_ne; [done|]. congruence.
  - intros j t0 tx'. rewrite lookup_insert_Some. intros [[<- <-]|[Hne Hj]] Htx'; [done|].
    destruct (Ctask _ _ _ Hj Htx') as (y & Hy & Hyt). exists y. split; [|done].
    apply lookup_delete_Some. split; [|done]. intros <-. rewrite Hx in Hy. by simplify_eq.
  - intros j t0. rewrite lookup_insert_Some. intros [[<- <-]|[Hne Hj]] Hx0; [set_solver|].
    specialize (Cidle _ _ Hj Hx0). set_solver.
  - intros j [->%elem_of_singleton|Hj]%elem_of_union.
    + exists (set_tx None t). by rewrite lookup_insert_eq.
    + destruct (Clive j Hj) as (t0 & ? & ?). exists t0. rewrite lookup_insert_ne; [done|].
      intros <-. done.
  - intros j. rewrite lookup_insert_is_Some'. intros [<-|Hj]; apply Cid; [by rewrite Ht|done].
  - intros tx' [y [_ Hy]%lookup_delete_Some]. apply Cxid. by rewrite Hy.
  - etrans; [|exact Cflight]. apply map_subseteq_size, delete_subseteq.
  - apply map_Forall_insert_2; [|done]. by destruct (Ctasks _ _ Ht); split.
  - by apply map_Forall_delete.
  - intros j t0 q. rewrite lookup_insert_Some. intros [[<- <-]|[Hne Hj]] Ho; by eapply Clookup.
  - intros q l Hl. destruct (Cpend q l Hl) as [? Hp]. split; [done|]. intros j Hj.
    destruct (Hp j Hj) as (t0 & Ht0 & Ho). rewrite lookup_insert. case_decide; [|by exists t0].
    subst j. simplify_eq. eexists. split; [done|]. done.
  - assert (forall j t0, <[id := set_tx None t]> ts !! j = Some t0 ->
      exists t1, ts !! j = Some t1 /\ t_owner t0 = t_owner t1) as Hback.
    { intros j t0. rewrite lookup_insert_Some. intros [[<- <-]|[Hne Hj]]; [|by exists t0]. by exists t. }
    intros i ti j tj q (ti' & Hi & ->)%Hback (tj' & Hj & ->)%Hback. by eapply Cres.
Qed.

(** An event that ends transaction [tx]: the invariant, the accounting, and
    what it leaves of the task. *)
Record event_ok (x : Tx) (e : Engine) (r : Engine * list Action) : Prop := mk_event_ok {
  ev_inv : Inv ∅ r.1;
  ev_balanced : balanced e r.1 r.2;
  ev_work : forall t t', tasks e !! x_task x = Some t -> tasks r.1 !! x_task x = Some t' ->
    (work t' < work t)%nat;
  ev_others : forall j, j <> x_task x -> tasks r.1 !! j = tasks e !! j;
  ev_outcome : forall tx, txs e !! tx = Some x -> exists e1 t,
    tasks e !! x_task x = Some t /\ tasks e1 = <[x_task x := set_tx None t]> (tasks e) /\
    txs e1 = delete tx (txs e) /\ next_id e1 = next_id e /\
    Core {[x_task x]} (tasks e1) (txs e1) (lookups e1) (next_id e1) /\
    outcome_of (x_task x) e1 r.1 r.2;
}.

Lemma outcome_others id e e' acts j :
  outcome_of id e e' acts -> j <> id -> tasks e' !! j = tasks e !! j.
Proof.
  intros [? ? ? ? ? ? ? ? ? ? ? ? ? ? Hts|? ? ? ? Hts] Hj; rewrite Hts.
  - by rewrite lookup_insert_ne.
  - by rewrite lookup_delete_ne.
Qed.

Lemma event_step e e1 tx x t r :
  Inv ∅ e -> txs e !! tx = Some x -> tasks e !! x_task x = Some t ->
  tasks e1 = <[x_task x := set_tx None t]> (tasks e) -> txs e1 = delete tx (txs e) ->
  lookups e1 = lookups e -> next_id e1 = next_id e -> cache e1 = cache e -> same_config e e1 ->
  (forall c, focus (x_task x) (set_tx None t) e1 -> t_current t = Some c -> asks t x ->
    step_ok (work t) (x_task x) e1 r) ->
  event_ok x e r.
Proof.
  intros [HC Hca Hcf] Hx Ht Hts Hxs Hls Hn Hcache Hsc Hstep.
  destruct (core_drop _ _ _ _ _ _ _ HC Hx) as (t0 & Ht0 & Htx & Hask & _ & HC1). simplify_eq.
  pose proof Hask as (c & Hcur & _ & _).
  assert (Inv {[x_task x]} e1) as HI1.
  { split; [|by rewrite Hcache|by apply (Config_same e)].
    rewrite Hts, Hxs, Hls, Hn. by rewrite union_empty_r_L in HC1. }
  assert (focus (x_task x) (set_tx None t) e1) as Hf.
  { split; [by rewrite Hts, lookup_insert_eq|done| |by destruct HI1].
    pose proof (co_tasks _ _ _ _ _ HC _ _ Ht) as Hok. by destruct Hok; split. }
  specialize (Hstep c Hf Hcur Hask).
  destruct (Inv_step _ _ _ _ _ HI1 (elem_of_singleton_2 _ _ eq_refl) Hstep) as [HI Hb].
  rewrite difference_diag_L in HI. split; [done| | | |].
  - assert (forall q, live e1 q <-> live e q) as Hlive.
    { intros q. unfold live. rewrite Hts. split; intros (j & t1 & Hj & Hq).
      - apply lookup_insert_Some in Hj as [[<- <-]|[_ Hj]]; [by exists (x_task x), t|by exists j, t1].
      - destruct (decide (j = x_task x)) as [->|Hne].
        + exists (x_task x), (set_tx None t). rewrite lookup_insert_eq. by simplify_eq.
        + exists j, t1. by rewrite lookup_insert_ne. }
    destruct Hb as [? Hs ?]. split; [done| |done]. intros q. by rewrite <- Hlive, Hs.
  - intros t1 t' Ht1 Ht'. simplify_eq. by apply Hstep.
  - intros j Hj. rewrite (outcome_others _ _ _ _ j (so_outcome _ _ _ _ Hstep) Hj), Hts.
    by rewrite lookup_insert_ne.
  - intros tx' Hx'. destruct (co_tx _ _ _ _ _ HC _ _ Hx') as (t' & ? & ? & _). simplify_eq.
    exists e1, t. split_and!; try done; [apply HI1|apply Hstep].
Qed.

Lemma failed_event e tx x now : Inv ∅ e -> txs e !! tx = Some x -> event_ok x e (failed e tx now).
Proof.
  intros HI Hx. destruct (core_drop _ _ _ _ _ _ _ (inv_core _ _ HI) Hx) as (t & Ht & _).
  unfold failed. rewrite Hx.
  match goal with |- event_ok _ _ (next_attempt ?e1 _ _) =>
    apply (event_step e e1 tx x t); try done end.
  - exact (alter_insert_Some (set_tx None) (tasks e) _ _ Ht).
  - intros c Hf Hcur _. by apply (next_attempt_step _ _ (set_tx None t) _ c).
Qed.

Lemma local_failed_event e tx x now :
  Inv ∅ e -> txs e !! tx = Some x -> event_ok x e (local_failed e tx now).
Proof.
  intros HI Hx. destruct (core_drop _ _ _ _ _ _ _ (inv_core _ _ HI) Hx) as (t & Ht & _).
  unfold local_failed. rewrite Hx.
  match goal with |- event_ok _ _ (next_attempt ?e1 _ _) =>
    apply (event_step e e1 tx x t); try done end.
  - exact (alter_insert_Some (set_tx None) (tasks e) _ _ Ht).
  - intros c Hf Hcur _. by apply (next_attempt_step _ _ (set_tx None t) _ c).
Qed.

Lemma received_answer_step `{MapOrder} id e t server message code now k :
  focus id t e -> (work t <= k)%nat -> Cache_ok (cache e) ->
  step_ok k id e (received_answer e id t server message code now).
Proof.
  intros Hf Hk Hca. pose proof Hf as [Ht Hx Hok Hc]. unfold received_answer.
  set (key := CacheKey_new _ _ _). set (entry := mkEntry _ _ _ _ _).
  set (ttl := reply_ttl _ _ _ _).
  set (e1 := if (0 <? ttl) && _ then _ else _).
  assert (touched id e e1) as Ht1.
  { unfold e1. case_match; by apply (touched_core _ _ _ t). }
  assert (same_config e e1) as Hs1 by (unfold e1; by case_match).
  assert (Cache_ok (cache e) -> Cache_ok (cache e1)) as Hc1.
  { intros _. unfold e1. case_match; [|done]. simpl. apply Cache_insert_ok; [|done].
    simpl. unfold reply_outcome. by case_match. }
  assert (focus id t e1) as Hf1.
  { apply (focus_core _ _ e); [done| |done]. unfold e1. by case_match. }
  clearbody e1. case_match.
  - set (g := fun t => set_attempt (t_attempt t - 1) t).
    eapply (step_touched _ _ _ (update_task id g e1)).
    + eapply touched_trans; [done|]. eapply touched_update; [apply Hf1|done].
    + by etrans.
    + exact Hc1.
    + eapply step_weaken; [|apply (next_candidate_step _ _ (g t))].
      * unfold work. simpl. unfold work in Hk. lia.
      * apply focus_update; try done. destruct Hok. split; try done. simpl. lia.
  - eapply settle_touched; [done..|apply Hf1|done].
Qed.

Lemma received_event `{MapOrder} e tx x bytes now :
  Inv ∅ e -> txs e !! tx = Some x -> response_matches e tx bytes = true ->
  event_ok x e (received e tx bytes now).
Proof.
  intros HI Hx Hm. destruct (core_drop _ _ _ _ _ _ _ (inv_core _ _ HI) Hx) as (t & Ht & _).
  unfold received, response_matches in *. rewrite Hx.
  destruct (matching_response e tx bytes) as [message|]; [|done].
  cbn [tasks put_txs]. rewrite Ht.
  set (e1 := count add_answered (update_task (x_task x) (set_tx None) (put_txs (delete tx (txs e)) e))).
  assert (tasks e1 = <[x_task x := set_tx None t]> (tasks e)) as Hts
    by exact (alter_insert_Some (set_tx None) (tasks e) _ _ Ht).
  destruct (_ && negb (x_tcp x)).
  { apply (event_step e e1 tx x t); try done.
    intros c Hf Hcur _. by apply (send_step _ _ (set_tx None t) _ _ _ c). }
  destruct (_ && (Message_rcode message <? 16)).
  { apply (event_step e e1 tx x t); try done.
    intros c Hf Hcur _. apply received_answer_step; [done|done|apply HI]. }
  match goal with |- event_ok _ _ (next_attempt ?e2 _ _) =>
    apply (event_step e e2 tx x t); try done end.
  intros c Hf Hcur _. by apply (next_attempt_step _ _ (set_tx None t) _ c).
Qed.

(** A reply that does not match, or an event for no transaction, changes
    nothing. *)
Lemma received_ignored `{MapOrder} e tx bytes now :
  response_matches e tx bytes = false -> received e tx bytes now = (e, []).
Proof.
  unfold response_matches, received. destruct (txs e !! tx); [|done].
  by destruct (matching_response e tx bytes).
Qed.

Lemma response_matches_live e tx bytes :
  response_matches e tx bytes = true -> exists x, txs e !! tx = Some x.
Proof. unfold response_matches, matching_response. destruct (txs e !! tx); [eauto|done]. Qed.
