(* ===== verification/EngineRun.v ===== *)
(** * Runs of the engine

    The remaining operations (questions, abandonment, ticks, configuration),
    the engine as a state machine over its inputs, and the accounting over
    whole runs. *)

From S2P Require Import Prelude Net Names Message MessageProofs Cache EngineState Records Routing Engine EngineInv EngineStep.
Local Open Scope Z_scope.

(** ** Loops *)

Lemma for_each_balanced (step : Engine -> Z -> Engine * list Action) ids :
  (forall e id, Inv ∅ e -> Inv ∅ (step e id).1 /\ balanced e (step e id).1 (step e id).2) ->
  forall e, Inv ∅ e ->
  Inv ∅ (for_each step ids e).1 /\ balanced e (for_each step ids e).1 (for_each step ids e).2.
Proof.
  intros Hstep. induction ids as [|id ids IH]; intros e HI; simpl; [split; [done|by apply balanced_nil]|].
  specialize (Hstep e id HI). destruct (step e id) as [e1 a1]. destruct Hstep as [HI1 Hb1].
  specialize (IH e1 HI1). destruct (for_each step ids e1) as [e2 a2]. destruct IH as [HI2 Hb2].
  split; [done|]. by eapply balanced_app.
Qed.

Lemma failed_absent e tx now : txs e !! tx = None -> failed e tx now = (e, []).
Proof. intros Hx. unfold failed. by rewrite Hx. Qed.

Lemma local_failed_absent e tx now : txs e !! tx = None -> local_failed e tx now = (e, []).
Proof. intros Hx. unfold local_failed. by rewrite Hx. Qed.

Definition keeps (e : Engine) (r : Engine * list Action) : Prop :=
  Inv ∅ r.1 /\ balanced e r.1 r.2.

Lemma keeps_nothing e : Inv ∅ e -> keeps e (e, []).
Proof. intros HI. split; [done|by apply balanced_nil]. Qed.

(** Without tasks there are no transactions and every live question is done. *)
Lemma keeps_drained e r : keeps e r -> tasks r.1 = ∅ ->
  txs r.1 = ∅ /\ NoDup (dones r.2) /\ forall q, live e q <-> q ∈ dones r.2.
Proof.
  intros [HI [Hn Hs _]] Ht. split_and!; [|done|].
  - apply map_empty. intros tx. destruct (txs r.1 !! tx) as [x|] eqn:Hx; [|done].
    destruct (co_tx _ _ _ _ _ (inv_core _ _ HI) _ _ Hx) as (t & Ht' & _).
    by rewrite Ht, lookup_empty in Ht'.
  - intros q. rewrite Hs. split; [|tauto]. intros [(id & t & Ht' & _)|?]; [|done].
    by rewrite Ht, lookup_empty in Ht'.
Qed.

Lemma keeps_event e x r : event_ok x e r -> keeps e r.
Proof. intros []. by split. Qed.

Lemma failed_keeps e tx now : Inv ∅ e -> keeps e (failed e tx now).
Proof.
  intros HI. destruct (txs e !! tx) as [x|] eqn:Hx.
  - by eapply keeps_event, failed_event.
  - rewrite failed_absent by done. by apply keeps_nothing.
Qed.

Lemma local_failed_keeps e tx now : Inv ∅ e -> keeps e (local_failed e tx now).
Proof.
  intros HI. destruct (txs e !! tx) as [x|] eqn:Hx.
  - by eapply keeps_event, local_failed_event.
  - rewrite local_failed_absent by done. by apply keeps_nothing.
Qed.

Section operations.
Context `{MapOrder}.

Lemma received_keeps e tx bytes now : Inv ∅ e -> keeps e (received e tx bytes now).
Proof.
  intros HI. destruct (response_matches e tx bytes) eqn:Hm.
  - destruct (response_matches_live _ _ _ Hm) as [x Hx]. by eapply keeps_event, received_event.
  - rewrite received_ignored by done. by apply keeps_nothing.
Qed.

Lemma expire_one_keeps e tx now : Inv ∅ e -> keeps e (expire_one now e tx).
Proof.
  intros HI. unfold expire_one. pose proof (failed_keeps e tx now HI) as [HI' Hb].
  destruct (failed e tx now) as [e' acts]. split; [done|].
  apply (balanced_app e e e' [Cancel tx] acts); [|done]. split; [constructor| |set_solver].
  intros q. simpl. set_solver.
Qed.

Lemma tick_keeps e now : Inv ∅ e -> keeps e (tick e now).
Proof. apply for_each_balanced. intros. by apply expire_one_keeps. Qed.
End operations.

(** ** Starting tasks *)

Definition fresh_task (owner : Owner) (name : Name) (rt : Z) (no_cache : bool) : Task :=
  mkTask owner name rt no_cache false [] None None 0 [] None.

Lemma fresh_task_ok owner name rt nc : Name_wf name -> is_u16 rt -> task_ok (fresh_task owner name rt nc).
Proof. intros. split; simpl; [done|done|apply Forall_nil_2|done|unfold MAX_ATTEMPTS; lia]. Qed.

(** A lookup's record while its tasks are being started. *)
Definition with_pending (q : Qid) (name : Name) (p : list TaskId) (ls : gmap Qid Lookup_) : gmap Qid Lookup_ :=
  match p with [] => ls | _ => <[q := mkLookup name p []]> ls end.

Section start.
Context (idle : gset TaskId) (ts : gmap TaskId Task) (xs : gmap Txid Tx) (n : Z).

Lemma fresh_not_live ls : Core idle ts xs ls n -> ts !! n = None.
Proof using Type.
  intros HC. destruct (ts !! n) eqn:E; [|done].
  pose proof (co_task_id _ _ _ _ _ HC n (mk_is_Some _ _ E)). lia.
Qed.

(** Everything of the invariant but the ownership is the same for both
    kinds of task. *)
Lemma core_add ls ls' t :
  Core idle ts xs ls n -> t_tx t = None -> task_ok t ->
  (forall id t' q, <[n := t]> ts !! id = Some t' -> t_owner t' = OLookup q ->
    exists l, ls' !! q = Some l /\ id ∈ l_pending l) ->
  (forall q l, ls' !! q = Some l -> l_pending l <> [] /\
    forall id, id ∈ l_pending l -> exists t', <[n := t]> ts !! id = Some t' /\ t_owner t' = OLookup q) ->
  (forall id t' q, ts !! id = Some t' -> t_owner t = OResolve q -> Owner_qid (t_owner t') <> q) ->
  (forall id t' q, ts !! id = Some t' -> t_owner t' = OResolve q -> Owner_qid (t_owner t) <> q) ->
  Core ({[n]} ∪ idle) (<[n := t]> ts) xs ls' (n + 1).
Proof using Type.
  intros HC Hx Hok Hl Hp Hr1 Hr2. pose proof (fresh_not_live _ HC) as Hn.
  destruct HC as [Ctx Ctask Cidle Clive Cid Cxid Cflight Ctasks Ctxs Clookup Cpend Cres].
  split; try done.
  - intros tx x Hxx. destruct (Ctx _ _ Hxx) as (t0 & Ht0 & ?). exists t0.
    rewrite lookup_insert_ne by congruence. done.
  - intros id t0 tx. rewrite lookup_insert_Some. intros [[<- <-]|[_ Hj]]; [congruence|by apply Ctask].
  - intros id t0. rewrite lookup_insert_Some. intros [[<- <-]|[_ Hj]] Ht0; [set_solver|].
    specialize (Cidle _ _ Hj Ht0). set_solver.
  - intros id [->%elem_of_singleton|Hj]%elem_of_union; [exists t; by rewrite lookup_insert_eq|].
    destruct (Clive _ Hj) as (t0 & ? & ?). exists t0. rewrite lookup_insert_ne by congruence. done.
  - intros id. rewrite lookup_insert_is_Some'. intros [<-|Hj]; [lia|]. specialize (Cid _ Hj). lia.
  - intros tx Htx. specialize (Cxid _ Htx). lia.
  - by apply map_Forall_insert_2.
  - intros i ti j tj q. rewrite !lookup_insert_Some.
    intros [[<- <-]|[Hi0 Hi]] [[<- <-]|[Hj0 Hj]] Ho Hq; [done| | |by eapply Cres].
    + exfalso. by eapply Hr1.
    + exfalso. by eapply Hr2.
Qed.

Lemma core_add_resolve ls q name rt nc :
  Core idle ts xs ls n -> Name_wf name -> is_u16 rt ->
  (forall id t, ts !! id = Some t -> Owner_qid (t_owner t) <> q) ->
  Core ({[n]} ∪ idle) (<[n := fresh_task (OResolve q) name rt nc]> ts) xs ls (n + 1).
Proof using Type.
  intros HC Hn Hrt Hq. pose proof (fresh_not_live _ HC) as Hfr.
  apply (core_add ls); [done|done|by apply fresh_task_ok| | | |].
  - intros id t' q'. rewrite lookup_insert_Some. intros [[<- <-]|[_ Hj]]; [done|].
    by apply (co_lookup _ _ _ _ _ HC).
  - intros q' l Hl. destruct (co_pending _ _ _ _ _ HC q' l Hl) as [? Hp]. split; [done|].
    intros id Hid. destruct (Hp id Hid) as (t' & ? & ?). exists t'.
    rewrite lookup_insert_ne by congruence. done.
  - intros id t' q' Hj [= <-]. by eapply Hq.
  - intros id t' q' Hj Ho. simpl. intros <-. apply (Hq id t' Hj). by rewrite Ho.
Qed.

Lemma core_add_lookup ls q name rt p :
  Core idle ts xs (with_pending q name p ls) n -> Name_wf name -> is_u16 rt ->
  ls !! q = None -> (forall id t, ts !! id = Some t -> t_owner t <> OResolve q) ->
  Core ({[n]} ∪ idle) (<[n := fresh_task (OLookup q) name rt false]> ts) xs
    (with_pending q name (p ++ [n]) ls) (n + 1).
Proof using Type.
  intros HC Hn Hrt Hq Hno. pose proof (fresh_not_live _ HC) as Hfr.
  assert (with_pending q name (p ++ [n]) ls = <[q := mkLookup name (p ++ [n]) []]> ls) as ->
    by (by destruct p).
  assert (forall q', q' <> q -> with_pending q name p ls !! q' = ls !! q') as Hother.
  { intros q' Hne. destruct p; simpl; [done|]. by rewrite lookup_insert_ne. }
  assert (forall id t', ts !! id = Some t' -> t_owner t' = OLookup q -> id ∈ p) as Hin.
  { intros id t' Hj Ho. destruct (co_lookup _ _ _ _ _ HC id t' q Hj Ho) as (l & Hl & Hid).
    destruct p; simpl in Hl; [congruence|]. rewrite lookup_insert_eq in Hl. by simplify_eq. }
  assert (forall id, id ∈ p -> exists t', ts !! id = Some t' /\ t_owner t' = OLookup q) as Hout.
  { intros id Hid. destruct (co_pending _ _ _ _ _ HC q (mkLookup name p [])) as [_ Hp].
    - destruct p; [by apply elem_of_nil in Hid|]. apply lookup_insert_eq.
    - by apply Hp. }
  apply (core_add (with_pending q name p ls)); [done|done|by apply fresh_task_ok| | | |].
  - intros id t' q'. rewrite lookup_insert_Some. intros [[<- <-]|[_ Hj]] Ho.
    + simpl in Ho. injection Ho as <-. rewrite lookup_insert_eq. eexists. split; [done|]. set_solver.
    + destruct (decide (q' = q)) as [->|Hne].
      * rewrite lookup_insert_eq. eexists. split; [done|]. simpl. specialize (Hin _ _ Hj Ho). set_solver.
      * rewrite lookup_insert_ne by done. rewrite <- Hother by done.
        by eapply (co_lookup _ _ _ _ _ HC).
  - intros q' l. rewrite lookup_insert_Some. intros [[<- <-]|[Hne Hl]].
    + split; [by destruct p|]. simpl. intros id [Hid| ->%list_elem_of_singleton]%elem_of_app.
      * destruct (Hout id Hid) as (t' & ? & ?). exists t'. rewrite lookup_insert_ne by congruence. done.
      * eexists. by rewrite lookup_insert_eq.
    + rewrite <- Hother in Hl by done. destruct (co_pending _ _ _ _ _ HC q' l Hl) as [? Hp].
      split; [done|]. intros id Hid. destruct (Hp id Hid) as (t' & ? & ?). exists t'.
      rewrite lookup_insert_ne by congruence. done.
  - done.
  - intros id t' q' Hj Ho. simpl. intros <-. by apply (Hno id t' Hj).
Qed.
End start.

(** ** Questions *)

(** Like [balanced], for an operation that opens question [q]. *)
Record asked (q : Qid) (e e' : Engine) (acts : list Action) : Prop := mk_asked {
  ak_nodup : NoDup (dones acts);
  ak_split : forall q', live e q' \/ q' = q <-> live e' q' \/ q' ∈ dones acts;
  ak_once : forall q', live e' q' -> q' ∉ dones acts;
}.

Definition opens (q : Qid) (e : Engine) (r : Engine * list Action) : Prop :=
  Inv ∅ r.1 /\ asked q e r.1 r.2.

Lemma asked_balanced q e e1 e2 acts :
  (forall q', live e1 q' <-> live e q' \/ q' = q) -> balanced e1 e2 acts -> asked q e e2 acts.
Proof. intros Hl [? Hs ?]. split; try done. intros q'. by rewrite <- Hl, Hs. Qed.

Lemma opens_refused q e e' c :
  Inv ∅ e' -> tasks e' = tasks e -> ~ live e q -> opens q e (e', [Done q c]).
Proof.
  intros HI Hts Hq. split; [done|]. assert (forall q', live e' q' <-> live e q') as Hl.
  { intros q'. unfold live. by rewrite Hts. }
  split; simpl.
  - apply NoDup_singleton.
  - intros q'. rewrite Hl, list_elem_of_singleton. tauto.
  - intros q' Hq'%Hl. rewrite list_elem_of_singleton. by intros ->.
Qed.

Lemma live_add e e1 n t :
  tasks e1 = <[n := t]> (tasks e) -> tasks e !! n = None ->
  forall q, live e1 q <-> live e q \/ q = Owner_qid (t_owner t).
Proof.
  intros Hts Hn q. unfold live. rewrite Hts. split.
  - intros (j & t0 & Hj & Hq). apply lookup_insert_Some in Hj as [[<- <-]|[_ Hj]]; [by right|left; eauto].
  - intros [(j & t0 & Hj & Hq)| ->].
    + exists j, t0. rewrite lookup_insert_ne by congruence. done.
    + exists n, t. by rewrite lookup_insert_eq.
Qed.

Lemma Inv_frame idle e e' :
  Inv idle e -> tasks e' = tasks e -> txs e' = txs e -> lookups e' = lookups e ->
  next_id e' = next_id e -> cache e' = cache e -> same_config e e' -> Inv idle e'.
Proof.
  intros [? ? ?] Ht Hx Hl Hn Hc Hs.
  split; [by rewrite Ht, Hx, Hl, Hn|by rewrite Hc|by apply (Config_same e)].
Qed.

Lemma opens_frame q e e0 r : tasks e0 = tasks e -> opens q e0 r -> opens q e r.
Proof.
  intros Hts [HI [Hn Hs Ho]]. split; [done|]. split; try done. intros q'. rewrite <- Hs.
  unfold live. by rewrite Hts.
Qed.

Section ask.
Context `{MapOrder}.

(** Advancing fresh tasks one after another. *)
Definition is_fresh (e : Engine) (id : TaskId) : Prop :=
  exists t, tasks e !! id = Some t /\ t_current t = None /\ t_candidates t = [] /\ t_attempt t = 0%nat.

Lemma advance_keeps idle id e now :
  Inv idle e -> id ∈ idle -> is_fresh e id ->
  Inv (idle ∖ {[id]}) (advance e id now).1 /\
  balanced e (advance e id now).1 (advance e id now).2 /\
  forall j, j <> id -> tasks (advance e id now).1 !! j = tasks e !! j.
Proof.
  intros HI Hid (t & Ht & Hcur & Hcs & Ha).
  assert (focus id t e) as Hf.
  { destruct (co_idle_live _ _ _ _ _ (inv_core _ _ HI) id Hid) as (t0 & ? & ?). simplify_eq.
    split; [done|done|by apply (co_tasks _ _ _ _ _ (inv_core _ _ HI) id)|apply HI]. }
  pose proof (advance_step id e t now Hf Hcur Hcs Ha) as Hs.
  destruct (Inv_step _ _ _ _ _ HI Hid Hs) as [HI' Hb]. split_and!; [done|done|].
  intros j Hj. by apply (outcome_others id e _ _ _ (so_outcome _ _ _ _ Hs)).
Qed.

(** The tasks that are still to be advanced after the first one is. *)
Lemma advance_fresh_rest id ids e now :
  Inv (list_to_set (id :: ids)) e -> id ∉ ids -> is_fresh e id -> Forall (is_fresh e) ids ->
  Inv (list_to_set ids) (advance e id now).1 /\ Forall (is_fresh (advance e id now).1) ids.
Proof.
  intros HI Hni Hf Hfr.
  destruct (advance_keeps (list_to_set (id :: ids)) id e now HI) as (HI1 & _ & Ho1); [set_solver|done|].
  split.
  - replace (list_to_set ids : gset TaskId) with ((list_to_set (id :: ids)) ∖ {[id]} : gset TaskId)
      by set_solver. done.
  - rewrite Forall_forall in *. intros j Hj. destruct (Hfr j Hj) as (t & ? & ?). exists t.
    rewrite Ho1; [done|]. by intros ->.
Qed.

Lemma advance_all ids now : forall e,
  NoDup ids -> Inv (list_to_set ids) e -> Forall (is_fresh e) ids ->
  keeps e (for_each (fun e id => advance e id now) ids e).
Proof.
  induction ids as [|id ids IH]; intros e Hnd HI Hfr; cbn [for_each].
  { split; [done|by apply balanced_nil]. }
  apply NoDup_cons in Hnd as [Hni Hnd]. apply Forall_cons in Hfr as [Hf Hfr].
  destruct (advance_keeps (list_to_set (id :: ids)) id e now HI) as (_ & Hb1 & _); [set_solver|done|].
  destruct (advance_fresh_rest id ids e now HI Hni Hf Hfr) as [HI1 Hfr1].
  destruct (advance e id now) as [e1 a1]. cbn [fst snd] in *.
  destruct (IH e1 Hnd HI1 Hfr1) as [HI2 Hb2]. destruct (for_each _ ids e1) as [e2 a2].
  split; [done|]. by eapply balanced_app.
Qed.

Lemma resolve_name_opens e q name rt nc now :
  Inv ∅ e -> ~ live e q -> Name_wf name -> is_u16 rt ->
  opens q e (resolve_name e q name rt nc now).
Proof.
  intros HI Hq Hn Hrt. unfold resolve_name, start_task. cbn [fresh_id].
  set (id := next_id e). set (t := fresh_task (OResolve q) name rt nc).
  set (e1 := put_tasks _ _).
  pose proof (fresh_not_live _ _ _ _ _ (inv_core _ _ HI)) as Hfr.
  assert (tasks e1 = <[id := t]> (tasks e)) as Hts by done.
  assert (Inv {[id]} e1) as HI1.
  { destruct HI as [HC Hca Hcf]. split; [|done|by apply (Config_same e)].
    apply (core_add_resolve _ _ _ _ _ q name rt nc) in HC; [|done..|].
    - by rewrite union_empty_r_L in HC.
    - intros j t' Hj Ho. apply Hq. by exists j, t'. }
  destruct (advance_keeps _ id e1 now HI1) as (HI2 & Hb & _); [set_solver| |].
  { exists t. by rewrite Hts, lookup_insert_eq. }
  rewrite difference_diag_L in HI2. destruct (advance e1 id now) as [e2 acts]. split; [done|].
  eapply asked_balanced; [|done]. by apply (live_add e e1 id t).
Qed.

Lemma resolve_opens e q name rt nc now :
  Inv ∅ e -> ~ live e q -> bytes_ok name -> is_u16 rt ->
  opens q e (resolve e q name rt nc now).
Proof.
  intros HI Hq Hn Hrt. unfold resolve.
  assert (Inv ∅ (count add_queries e)) as HI0 by (by apply (Inv_frame _ e)).
  destruct (Name_parse name) as [n|] eqn:Hp; simpl.
  - apply Name_parse_wf in Hp; [|done].
    apply (opens_frame _ _ (count add_queries e)); [done|]. by apply resolve_name_opens.
  - by apply opens_refused.
Qed.

Lemma resolve_question_opens e q question now :
  Inv ∅ e -> ~ live e q -> Question_wf question ->
  opens q e (resolve_question e q question now).
Proof.
  intros HI Hq (Hn & Hrt & _). unfold resolve_question.
  assert (Inv ∅ (count add_queries e)) as HI0 by (by apply (Inv_frame _ e)).
  apply (opens_frame _ _ (count add_queries e)); [done|]. by apply resolve_name_opens.
Qed.
End ask.

Section lookup.
Context `{MapOrder}.

Lemma start_tasks_spec q name types : forall idle ls p e,
  Core idle (tasks e) (txs e) (with_pending q name p ls) (next_id e) ->
  Name_wf name -> Forall is_u16 types -> ls !! q = None ->
  (forall id t, tasks e !! id = Some t -> t_owner t <> OResolve q) ->
  let '(e1, ids) := start_tasks (OLookup q) name types e in
  Core (list_to_set ids ∪ idle) (tasks e1) (txs e1) (with_pending q name (p ++ ids) ls) (next_id e1) /\
  NoDup ids /\ Forall (fun id => next_id e <= id) ids /\ Forall (is_fresh e1) ids /\
  length ids = length types /\
  (forall j, tasks e !! j <> None -> tasks e1 !! j = tasks e !! j) /\
  (forall j t, tasks e1 !! j = Some t -> tasks e !! j = Some t \/ (j ∈ ids /\ t_owner t = OLookup q)) /\
  lookups e1 = lookups e /\ cache e1 = cache e /\ same_config e e1.
Proof.
  induction types as [|rt types IH]; intros idle ls p e HC Hn Hrt Hq Hno; simpl.
  { rewrite union_empty_l_L, app_nil_r. split_and!; try done; try by apply NoDup_nil_2; try by apply Forall_nil_2.
    intros j t Hj. by left. }
  apply Forall_cons in Hrt as [Hrt Hrts].
  set (n := next_id e). set (t := mkTask _ _ _ _ _ _ _ _ _ _ _).
  set (e0 := put_tasks _ _).
  assert (tasks e0 = <[n := t]> (tasks e)) as Hts by done.
  pose proof (fresh_not_live _ _ _ _ _ HC) as Hfr.
  apply (core_add_lookup _ _ _ _ _ q name rt) in HC; [|done..].
  specialize (IH ({[n]} ∪ idle) ls (p ++ [n]) e0 HC Hn Hrts Hq).
  destruct (start_tasks (OLookup q) name types e0) as [e1 ids].
  destruct IH as (HC1 & Hnd & Hge & Hfs & Hlen & Hsame & Hback & Hl1 & Hc1 & Hs1).
  { intros j t'. rewrite Hts, lookup_insert_Some. intros [[<- <-]|[_ Hj]]; [done|by apply (Hno j)]. }
  change (next_id e0) with (n + 1) in Hge. rewrite Forall_forall in Hge.
  split_and!; try done.
  - by rewrite <- app_assoc, union_assoc_L, (union_comm_L (list_to_set ids) {[n]}) in HC1.
  - apply NoDup_cons. split; [|done]. intros Hin. specialize (Hge n Hin). lia.
  - constructor; [done|]. apply Forall_forall. intros j Hj. specialize (Hge j Hj). lia.
  - constructor; [|done]. exists t. rewrite Hsame by (by rewrite Hts, lookup_insert_eq).
    by rewrite Hts, lookup_insert_eq.
  - simpl. lia.
  - intros j Hj. assert (j <> n) as Hne by (intros ->; exact (Hj Hfr)).
    rewrite Hsame by (rewrite Hts, lookup_insert_ne; done). by rewrite Hts, lookup_insert_ne.
  - intros j t' Hj. apply Hback in Hj as [Hj|[Hj ?]]; [|right; set_solver].
    rewrite Hts, lookup_insert_Some in Hj. destruct Hj as [[<- <-]|[_ Hj]]; [right|by left].
    split; [by left|done].
  - etrans; [|exact Hs1]. done.
Qed.

Lemma family_types_u16 f : Forall is_u16 (family_types f).
Proof. destruct f; by_decide. Qed.

Lemma start_tasks_frame owner name types : forall e,
  txs (start_tasks owner name types e).1 = txs e /\ next_id e <= next_id (start_tasks owner name types e).1.
Proof.
  induction types as [|t ts IH]; intros e; [simpl; split; [done|lia]|]. cbn [start_tasks start_task fresh_id].
  set (e0 := put_tasks _ _). specialize (IH e0). destruct (start_tasks owner name ts e0) as [e1 ids]. simpl in *.
  destruct IH as [-> Hn]. split; [done|]. simpl in Hn. lia.
Qed.

(** The state in which a lookup's tasks are first advanced. *)
Record started (q : Qid) (name : Name) (types : list Z) (ids : list TaskId) (e e2 : Engine) : Prop := mk_started {
  sr_inv : Inv (list_to_set ids) e2;
  sr_nodup : NoDup ids;
  sr_fresh : Forall (is_fresh e2) ids;
  sr_length : length ids = length types;
  sr_new : Forall (fun id => next_id e <= id) ids;
  sr_same : forall j, tasks e !! j <> None -> tasks e2 !! j = tasks e !! j;
  sr_back : forall j t, tasks e2 !! j = Some t -> tasks e !! j = Some t \/ (j ∈ ids /\ t_owner t = OLookup q);
  sr_lookups : lookups e2 = <[q := mkLookup name ids []]> (lookups e);
  sr_cache : cache e2 = cache e;
  sr_config : same_config e e2;
  sr_txs : txs e2 = txs e;
  sr_next : next_id e <= next_id e2;
}.

Lemma not_live_lookup e q : Inv ∅ e -> ~ live e q -> lookups e !! q = None.
Proof.
  intros HI Hq. destruct (lookups e !! q) as [l|] eqn:El; [|done]. exfalso.
  destruct (co_pending _ _ _ _ _ (inv_core _ _ HI) q l El) as [Hne Hpd].
  destruct (l_pending l) as [|j p]; [done|]. destruct (Hpd j) as (t & ? & Ho); [by left|].
  apply Hq. exists j, t. by rewrite Ho.
Qed.

Lemma lookup_started e q n types :
  Inv ∅ e -> ~ live e q -> Name_wf n -> Forall is_u16 types -> types <> [] ->
  let '(e1, ids) := start_tasks (OLookup q) n types e in
  started q n types ids e (put_lookups (<[q := mkLookup n ids []]> (lookups e1)) e1).
Proof.
  intros HI Hq Hn Hty Hne. pose proof (not_live_lookup e q HI Hq) as Hlq.
  pose proof (start_tasks_spec q n types ∅ (lookups e) [] e (inv_core _ _ HI) Hn Hty Hlq) as Hst.
  destruct (start_tasks_frame (OLookup q) n types e) as [Hx Hnx].
  destruct (start_tasks _ _ _ _) as [e1 ids].
  destruct Hst as (HC1 & Hnd & Hge & Hfr & Hlen & Hsame & Hback & Hl1 & Hc1 & Hs1).
  { intros j t Hj Ho. apply Hq. exists j, t. by rewrite Ho. }
  split; try done; [|by rewrite <- Hl1|by destruct Hs1].
  split; [|cbn; rewrite Hc1; apply HI|apply (Config_same e); [by destruct Hs1|apply HI]].
  rewrite union_empty_r_L in HC1. simpl in HC1. cbn [tasks txs next_id lookups put_lookups]. rewrite Hl1.
  destruct ids; [by destruct types|done].
Qed.

Lemma family_types_ne f : family_types f <> [].
Proof. by destruct f. Qed.

Lemma lookup_opens e q name family now :
  Inv ∅ e -> ~ live e q -> bytes_ok name -> opens q e (lookup_ e q name family now).
Proof.
  intros HI Hq Hn. unfold lookup_.
  assert (Inv ∅ (count add_queries e)) as HI0 by (by apply (Inv_frame _ e)).
  destruct (Name_parse name) as [n|] eqn:Hp; cbn [ok]; [|by apply opens_refused].
  apply Name_parse_wf in Hp; [|done].
  pose proof (lookup_started (count add_queries e) q n (family_types family) HI0 Hq Hp
    (family_types_u16 family) (family_types_ne family)) as Hst.
  destruct (start_tasks _ _ _ _) as [e1 ids].
  destruct Hst as [HI2 Hnd Hfr Hlen Hge Hsame Hback _ _ _ _ _]. set (e2 := put_lookups _ e1) in *.
  destruct (advance_all ids now e2 Hnd HI2 Hfr) as [HI3 Hb].
  split; [done|]. eapply asked_balanced; [|done].
  intros q'. split.
  - intros (j & t & Hj & Hqj). apply Hback in Hj as [Hj|[_ Ho]]; [left; by exists j, t|].
    right. by rewrite Ho in Hqj.
  - intros [(j & t & Hj & Hqj)| ->].
    + exists j, t. split; [|done]. rewrite Hsame; [done|]. simpl. congruence.
    + destruct ids as [|i0 ids']; [destruct family; simpl in Hlen; lia|].
      apply Forall_cons in Hfr as [(t & Ht & ?) _]. exists i0, t. split; [done|].
      destruct (Hback i0 t Ht) as [Hold|[_ Ho]]; [|by rewrite Ho]. exfalso.
      apply Forall_cons in Hge as [Hge _].
      pose proof (co_task_id _ _ _ _ _ (inv_core _ _ HI0) i0 (mk_is_Some _ _ Hold)). lia.
Qed.
End lookup.

(** ** Abandonment *)

Record links (ts : gmap TaskId Task) (xs : gmap Txid Tx) : Prop := mk_links {
  lk_tx : forall tx x, xs !! tx = Some x -> exists t, ts !! x_task x = Some t /\ t_tx t = Some tx;
  lk_task : forall id t tx, ts !! id = Some t -> t_tx t = Some tx ->
    exists x, xs !! tx = Some x /\ x_task x = id;
}.

(** [e1] is [e] without the tasks [ids] and their transactions. *)
Record without (ids : list TaskId) (e e1 : Engine) (acts : list Action) : Prop := mk_without {
  wo_tasks : forall j, tasks e1 !! j = if decide (j ∈ ids) then None else tasks e !! j;
  wo_txs : forall tx x, txs e1 !! tx = Some x <-> txs e !! tx = Some x /\ x_task x ∉ ids;
  wo_lookups : lookups e1 = lookups e;
  wo_next : next_id e1 = next_id e;
  wo_cache : cache e1 = cache e;
  wo_config : same_config e e1;
  wo_acts : forall a, a ∈ acts <->
    exists tx x, a = Cancel tx /\ txs e !! tx = Some x /\ x_task x ∈ ids;
}.

Lemma abandon_task_without e id :
  links (tasks e) (txs e) -> without [id] e (abandon_task e id).1 (abandon_task e id).2.
Proof.
  intros [Hx Ht]. unfold abandon_task. destruct (tasks e !! id) as [t|] eqn:Et.
  - assert (forall j, delete id (tasks e) !! j = if decide (j ∈ [id]) then None else tasks e !! j) as Hd.
    { intros j. rewrite lookup_delete. destruct (decide (j ∈ [id])) as [Hj|Hj];
        rewrite list_elem_of_singleton in Hj; by case_decide; subst. }
    destruct (t_tx t) as [tx|] eqn:Etx; split; try done; cbn [txs tasks put_txs put_tasks fst snd].
    + intros tx' x. rewrite lookup_delete_Some, list_elem_of_singleton. split; intros [Hne Hx'].
      * split; [done|]. intros Hid. destruct (Hx _ _ Hx') as (t0 & ? & ?). congruence.
      * split; [|done]. intros <-. destruct (Ht _ _ _ Et Etx) as (y & ? & ?). congruence.
    + intros a. rewrite list_elem_of_singleton. setoid_rewrite list_elem_of_singleton. split.
      * intros ->. destruct (Ht _ _ _ Et Etx) as (y & ? & ?). eauto.
      * intros (tx' & x & -> & Hx' & Hid). destruct (Hx _ _ Hx') as (t0 & ? & ?). congruence.
    + intros tx' x. rewrite list_elem_of_singleton. split; [|by intros [? _]]. intros Hx'. split; [done|].
      intros Hid. destruct (Hx _ _ Hx') as (t0 & ? & ?). congruence.
    + intros a. setoid_rewrite list_elem_of_singleton. split; [by intros ?%elem_of_nil|].
      intros (tx' & x & -> & Hx' & Hid). destruct (Hx _ _ Hx') as (t0 & ? & ?). congruence.
  - split; try done; cbn [fst snd].
    + intros j. case_decide as Hj; rewrite list_elem_of_singleton in Hj; congruence.
    + intros tx' x. rewrite list_elem_of_singleton. split; [|by intros [? _]]. intros Hx'. split; [done|].
      intros Hid. destruct (Hx _ _ Hx') as (t0 & ? & ?). congruence.
    + intros a. setoid_rewrite list_elem_of_singleton. split; [by intros ?%elem_of_nil|].
      intros (tx' & x & -> & Hx' & Hid). destruct (Hx _ _ Hx') as (t0 & ? & ?). congruence.
Qed.

Lemma links_without ids e e1 acts :
  without ids e e1 acts -> links (tasks e) (txs e) -> links (tasks e1) (txs e1).
Proof.
  intros [Hts Hxs _ _ _ _ _] [Hx Ht]. split.
  - intros tx x [Hx' Hni]%Hxs. destruct (Hx _ _ Hx') as (t & ? & ?). exists t. rewrite Hts.
    by case_decide.
  - intros id t tx. rewrite Hts. case_decide; [done|]. intros Hj Htx.
    destruct (Ht _ _ _ Hj Htx) as (x & ? & ?). exists x. split; [|done]. apply Hxs. by subst.
Qed.

Lemma abandon_fold ids : forall e, links (tasks e) (txs e) ->
  without ids e (for_each abandon_task ids e).1 (for_each abandon_task ids e).2.
Proof.
  induction ids as [|id ids IH]; intros e Hl; simpl.
  { split; try done; cbn [fst snd].
    - intros tx x. split; [intros ?; split; [done|apply not_elem_of_nil]|by intros [? _]].
    - intros a. split; [by intros ?%elem_of_nil|]. by intros (? & ? & _ & _ & ?%elem_of_nil). }
  pose proof (abandon_task_without e id Hl) as Hw. destruct (abandon_task e id) as [e1 a1]. simpl in Hw.
  specialize (IH e1 (links_without _ _ _ _ Hw Hl)). destruct (for_each abandon_task ids e1) as [e2 a2].
  destruct Hw as [T1 X1 L1 N1 C1 S1 A1], IH as [T2 X2 L2 N2 C2 S2 A2]. cbn [fst snd] in *.
  split; try congruence; [| |by etrans|].
  - intros j. rewrite T2, T1. repeat case_decide; set_solver.
  - intros tx x. rewrite X2, X1, list_elem_of_singleton, not_elem_of_cons. tauto.
  - intros a. rewrite elem_of_app, A1, A2. setoid_rewrite X1. split.
    + intros [(tx & x & ? & ? & ?)|(tx & x & ? & [? ?] & ?)]; exists tx, x; set_solver.
    + intros (tx & x & -> & Hx & Hin). destruct (decide (x_task x = id)); [left|right];
        exists tx, x; set_solver.
Qed.

Lemma elem_of_tasks_of `{MapOrder} e q id :
  id ∈ tasks_of e q <-> exists t, tasks e !! id = Some t /\ Owner_qid (t_owner t) = q.
Proof.
  unfold tasks_of. rewrite list_elem_of_In, in_map_iff. setoid_rewrite filter_In.
  setoid_rewrite Z.eqb_eq. setoid_rewrite <- list_elem_of_In. split.
  - intros ([id' t] & <- & Hin%map_iter_elem & Hq). by exists t.
  - intros (t & Ht%map_iter_elem & Hq). by exists (id, t).
Qed.

Lemma links_core idle ts xs ls n : Core idle ts xs ls n -> links ts xs.
Proof.
  intros HC. split; [|apply (co_task _ _ _ _ _ HC)].
  intros tx x Hx. destruct (co_tx _ _ _ _ _ HC _ _ Hx) as (t & ? & ? & _). eauto.
Qed.

Lemma abandon_without `{MapOrder} e q :
  Inv ∅ e -> exists e1, without (tasks_of e q) e e1 (abandon e q).2 /\
    (abandon e q).1 = put_lookups (delete q (lookups e)) e1.
Proof.
  intros HI. unfold abandon.
  pose proof (abandon_fold (tasks_of e q) e (links_core _ _ _ _ _ (inv_core _ _ HI))) as Hw.
  destruct (for_each _ _ _) as [e1 acts]. exists e1. split; [done|]. destruct Hw. simpl in *. congruence.
Qed.

Lemma abandon_live `{MapOrder} e q q' :
  Inv ∅ e -> live (abandon e q).1 q' <-> live e q' /\ q' <> q.
Proof.
  intros HI. destruct (abandon_without e q HI) as (e1 & Hw & ->). unfold live. simpl.
  setoid_rewrite (wo_tasks _ _ _ _ Hw). split.
  - intros (j & t & Hj & Hq). destruct (decide (j ∈ tasks_of e q)) as [|Hni]; [done|].
    split; [eauto|]. intros ->. apply Hni, elem_of_tasks_of. eauto.
  - intros [(j & t & Hj & Hq) Hne]. exists j, t. split; [|done].
    rewrite decide_False; [done|]. intros (t' & ? & ?)%elem_of_tasks_of. congruence.
Qed.

Lemma abandon_inv `{MapOrder} e q : Inv ∅ e -> Inv ∅ (abandon e q).1.
Proof.
  intros HI. destruct (abandon_without e q HI) as (e1 & [Hts Hxs Hls Hn Hc Hs _] & ->).
  destruct HI as [HC Hca Hcf]. split; simpl; [|by rewrite Hc|by apply (Config_same e); destruct Hs].
  rewrite Hn. pose proof HC as [Ctx Ctask Cidle Clive Cid Cxid Cflight Ctasks Ctxs Clookup Cpend Cres].
  assert (forall j t, tasks e1 !! j = Some t <-> tasks e !! j = Some t /\ Owner_qid (t_owner t) <> q) as HT.
  { intros j t. rewrite Hts. case_decide as Hin; rewrite elem_of_tasks_of in Hin.
    - split; [done|]. intros [Hj Hq]. destruct Hin as (t' & ? & ?). congruence.
    - split; [|by intros [? _]]. intros Hj. split; [done|]. intros Hq. eauto. }
  assert (forall id, id ∉ tasks_of e q <->
    forall t, tasks e !! id = Some t -> Owner_qid (t_owner t) <> q) as HN.
  { intros id. rewrite elem_of_tasks_of. naive_solver. }
  split.
  - intros tx x [Hx Hni]%Hxs. destruct (Ctx _ _ Hx) as (t & Ht & ? & ?). exists t.
    rewrite HT. split; [|done]. split; [done|]. by apply (proj1 (HN _) Hni).
  - intros id t tx [Hj Hq]%HT Htx. destruct (Ctask _ _ _ Hj Htx) as (x & Hx & Hid). exists x.
    split; [|done]. apply Hxs. split; [done|]. apply HN. intros t' Ht'. subst id. congruence.
  - intros id t [Hj _]%HT. by apply Cidle.
  - set_solver.
  - intros id [t [Hj _]%HT]. apply Cid. by rewrite Hj.
  - intros tx [x [Hx _]%Hxs]. apply Cxid. by rewrite Hx.
  - etrans; [|exact Cflight]. apply map_subseteq_size, map_subseteq_spec. by intros tx x [? _]%Hxs.
  - intros id t [Hj _]%HT. by apply (Ctasks id).
  - intros tx x [Hx _]%Hxs. by apply (Ctxs tx).
  - intros id t q' [Hj Hq]%HT Ho. rewrite Ho in Hq. simpl in Hq.
    rewrite lookup_delete_ne by done. by apply (Clookup id t).
  - intros q' l [Hne Hl]%lookup_delete_Some. destruct (Cpend q' l Hl) as [? Hp]. split; [done|].
    intros id Hid. destruct (Hp id Hid) as (t & ? & Ho). exists t. split; [|done]. apply HT.
    split; [done|]. by rewrite Ho.
  - intros i ti j tj q' [Hi _]%HT [Hj _]%HT. by eapply Cres.
Qed.

(** ** Configuration *)

Lemma core_fmap (f : Task -> Task) idle ts xs ls n :
  (forall t, t_owner (f t) = t_owner t /\ t_tx (f t) = t_tx t /\ t_current (f t) = t_current t /\
     t_rtype (f t) = t_rtype t /\ (task_ok t -> task_ok (f t))) ->
  Core idle ts xs ls n -> Core idle (f <$> ts) xs ls n.
Proof.
  intros Hf [Ctx Ctask Cidle Clive Cid Cxid Cflight Ctasks Ctxs Clookup Cpend Cres].
  assert (forall j t, (f <$> ts) !! j = Some t -> exists t0, ts !! j = Some t0 /\ t = f t0) as Hb.
  { intros j t. rewrite lookup_fmap. intros (t0 & ? & ?)%fmap_Some. eauto. }
  split; try done.
  - intros tx x Hx. destruct (Ctx _ _ Hx) as (t & Ht & ? & c & ? & ? & ?). exists (f t).
    destruct (Hf t) as (Ho & Htx & Hc & Hr & _).
    rewrite lookup_fmap, Ht, Htx. split; [done|]. split; [done|]. exists c. by rewrite Hc, Hr.
  - intros id t tx (t0 & Ht & ->)%Hb. destruct (Hf t0) as (_ & -> & _). by apply Ctask.
  - intros id t (t0 & Ht & ->)%Hb. destruct (Hf t0) as (_ & -> & _). by apply Cidle.
  - intros id Hid. destruct (Clive _ Hid) as (t & Ht & ?). exists (f t). rewrite lookup_fmap, Ht.
    destruct (Hf t) as (_ & -> & _). done.
  - intros id [t (t0 & Ht & _)%Hb]. apply Cid. by rewrite Ht.
  - intros id t (t0 & Ht & ->)%Hb. by apply Hf, (Ctasks id).
  - intros id t q (t0 & Ht & ->)%Hb. destruct (Hf t0) as (-> & _). by apply Clookup.
  - intros q l Hl. destruct (Cpend q l Hl) as [? Hp]. split; [done|]. intros id Hid.
    destruct (Hp id Hid) as (t & Ht & Ho). exists (f t). rewrite lookup_fmap, Ht.
    destruct (Hf t) as (-> & _). done.
  - intros i ti j tj q (ti' & Hi & ->)%Hb (tj' & Hj & ->)%Hb.
    destruct (Hf ti') as (-> & _), (Hf tj') as (-> & _). by eapply Cres.
Qed.

Lemma live_fmap (f : Task -> Task) e e' :
  (forall t, t_owner (f t) = t_owner t) -> tasks e' = f <$> tasks e ->
  forall q, live e' q <-> live e q.
Proof.
  intros Hf Hts q. unfold live. rewrite Hts. split; intros (j & t & Hj & Hq).
  - rewrite lookup_fmap in Hj. apply fmap_Some in Hj as (t0 & Hj & ->).
    exists j, t0. by rewrite <- Hf.
  - exists j, (f t). rewrite lookup_fmap, Hj. split; [done|]. by rewrite Hf.
Qed.

(** A change of configuration: the questions stay as they are. *)
Definition reconfigures (e e' : Engine) : Prop :=
  Inv ∅ e' /\ forall q, live e' q <-> live e q.

Lemma invalidate_keeps scope e : Inv ∅ e -> reconfigures e (invalidate_scope_cache scope e).
Proof.
  intros [HC Hca Hcf].
  set (f := fun t => if bool_decide (t_scope t = Some scope) then set_invalidated t else t).
  assert (forall t, t_owner (f t) = t_owner t) as Ho by (intros t; unfold f; by case_bool_decide).
  split; [|by apply (live_fmap f)]. split; simpl.
  - apply (core_fmap f); [|done]. intros t. unfold f. case_bool_decide; [|done].
    split_and!; try done. by intros []; split.
  - by apply flush_scope_ok.
  - by apply (Config_same e).
Qed.

Lemma invalidate_config scope e : same_config e (invalidate_scope_cache scope e).
Proof. done. Qed.

Lemma invalidate_all ids : forall e, Inv ∅ e ->
  let e' := foldl (fun e id => invalidate_scope_cache id e) e ids in
  reconfigures e e' /\ same_config e e'.
Proof.
  induction ids as [|id ids IH]; intros e HI; simpl; [split; [by split|done]|].
  destruct (invalidate_keeps id e HI) as [HI1 Hl1]. destruct (IH _ HI1) as [[HI2 Hl2] Hs2].
  split; [split; [done|]|etrans; [|exact Hs2]; done]. intros q. by rewrite Hl2, Hl1.
Qed.

Definition scopes_ok (ss : list Scope) : Prop :=
  Forall (fun s => Forall (fun d => Name_wf d /\ is_root d = false) (s_domains s)) ss.

Lemma set_scopes_keeps ss e : Inv ∅ e -> scopes_ok ss -> reconfigures e (set_scopes ss e).
Proof.
  intros HI Hss. destruct (invalidate_all (invalidated_scopes (scopes e) ss) e HI) as [[[HC Hca Hcf] Hl] _].
  split; [|done]. split; [done|done|]. destruct Hcf as [[Hf _] Hh He]. by split.
Qed.

Lemma set_fallback_keeps servers domains e :
  Inv ∅ e -> Forall (fun d => Name_wf d /\ is_root d = false) domains ->
  reconfigures e (set_fallback servers domains e).
Proof.
  intros HI Hd. unfold set_fallback.
  assert (reconfigures e (if bool_decide (servers = fallback_servers e) then e
    else invalidate_scope_cache FALLBACK_SCOPE e)) as [[HC Hca [[Hf Hs] Hh He]] Hl].
  { case_bool_decide; [by split|by apply invalidate_keeps]. }
  split; [|done]. by split.
Qed.

Lemma set_hostname_keeps h e : Inv ∅ e -> reconfigures e (set_hostname h e).
Proof. intros [HC Hca [? ? ?]]. split; [|done]. by split. Qed.

Lemma set_hosts_keeps h e :
  Inv ∅ e -> map_Forall (fun k v => k = to_lowercase v.1 /\ Name_wf v.1) h ->
  reconfigures e (set_hosts h e).
Proof. intros [HC Hca [? ? ?]] Hh. split; [|done]. by split. Qed.

Lemma flush_keeps e : Inv ∅ e -> reconfigures e (flush e).
Proof.
  intros [HC Hca Hcf]. split; [|by apply (live_fmap set_invalidated)]. split; simpl.
  - apply (core_fmap set_invalidated); [|done]. intros t. split_and!; try done. by intros []; split.
  - apply Cache_new_ok.
  - by apply (Config_same e).
Qed.
