(* ===== verification/EngineMachine.v ===== *)
(** * The engine as a state machine

    Its inputs as a type, one step per input, runs, and what holds of every
    run: the invariant, one completion per question, and progress. *)

From S2P Require Import Prelude Net Names Message MessageProofs Cache EngineState Records Routing Engine EngineInv EngineStep EngineRun.
Local Open Scope Z_scope.

Inductive Input : Type :=
| IResolve (q : Qid) (name : Str) (rt : Z) (no_cache : bool) (now : Z)
| IQuestion (q : Qid) (question : Question) (now : Z)
| ILookup (q : Qid) (name : Str) (family : Family) (now : Z)
| IReverse (q : Qid) (address : IpAddr) (now : Z)
| IAbandon (q : Qid)
| IReceived (tx : Txid) (bytes : list Z) (now : Z)
| IFailed (tx : Txid) (now : Z)
| ILocalFailed (tx : Txid) (now : Z)
| ITick (now : Z)
| ISetScopes (ss : list Scope)
| ISetFallback (servers : list IpAddr) (domains : list Name)
| ISetHostname (h : option Str)
| ISetHosts (h : gmap Name (Name * list IpAddr))
| IFlush.

Definition step `{MapOrder} (e : Engine) (i : Input) : Engine * list Action :=
  match i with
  | IResolve q name rt nc now => resolve e q name rt nc now
  | IQuestion q question now => resolve_question e q question now
  | ILookup q name family now => lookup_ e q name family now
  | IReverse q address now => reverse e q address now
  | IAbandon q => abandon e q
  | IReceived tx bytes now => received e tx bytes now
  | IFailed tx now => failed e tx now
  | ILocalFailed tx now => local_failed e tx now
  | ITick now => tick e now
  | ISetScopes ss => (set_scopes ss e, [])
  | ISetFallback servers domains => (set_fallback servers domains e, [])
  | ISetHostname h => (set_hostname h e, [])
  | ISetHosts h => (set_hosts h e, [])
  | IFlush => (flush e, [])
  end.

(** The types of the arguments, and what the callers check first. *)
Definition input_wf (i : Input) : Prop :=
  match i with
  | IResolve _ name rt _ _ => bytes_ok name /\ is_u16 rt
  | IQuestion _ question _ => Question_wf question
  | ILookup _ name _ _ => bytes_ok name
  | IReverse _ address _ => IpAddr_wf address
  | ISetScopes ss => scopes_ok ss
  | ISetFallback _ domains => Forall (fun d => Name_wf d /\ is_root d = false) domains
  | ISetHosts h => map_Forall (fun k v => k = to_lowercase v.1 /\ Name_wf v.1) h
  | _ => True
  end.

Definition opened (i : Input) : option Qid :=
  match i with
  | IResolve q _ _ _ _ | IQuestion q _ _ | ILookup q _ _ _ | IReverse q _ _ => Some q
  | _ => None
  end.

Definition abandoned (i : Input) : option Qid :=
  match i with IAbandon q => Some q | _ => None end.

(** ** One step *)

Lemma fmt_label_byte_ok b : is_u8 b -> bytes_ok (fmt_label_byte b).
Proof. intros Hb%is_u8_le. pattern b. by_range (256%nat). Qed.

Lemma join_with_ok c ws : is_u8 c -> Forall bytes_ok ws -> bytes_ok (join_with c ws).
Proof.
  intros Hc. induction ws as [|w [|w' ws] IH]; intros Hws; [constructor|by inversion Hws|].
  apply Forall_cons in Hws as [Hw Hws].
  change (join_with c (w :: w' :: ws)) with (w ++ c :: join_with c (w' :: ws)).
  apply bytes_ok_app. split; [done|]. apply bytes_ok_cons. split; [done|by apply IH].
Qed.

Lemma Name_to_string_ok n : Name_wf n -> bytes_ok (Name_to_string n).
Proof.
  intros Hwf%Name_wf_bytes. unfold Name_to_string. case_bool_decide; [by_decide|].
  apply join_with_ok; [by_decide|]. apply Forall_map. apply (Forall_impl _ _ _ Hwf).
  intros l Hl. simpl. induction Hl as [|b l Hb Hl IH]; simpl; [constructor|].
  apply bytes_ok_app. split; [by apply fmt_label_byte_ok|done].
Qed.

Lemma fmt_dec_text_ok b : is_u8 b -> bytes_ok (fmt_dec b).
Proof. intros Hb. by apply fmt_u8_label. Qed.

Lemma reverse_name_wf a : Name_wf (reverse_name a).
Proof.
  destruct a as [a|a]; simpl.
  - unfold reverse_v4. rewrite reverse_v4_fits. cbn [expect].
    apply (Name_parse_wf (reverse_v4_text a)); [|apply reverse_v4_fits].
    unfold reverse_v4_text. apply join_with_ok; [by_decide|].
    assert (bytes_ok (octets_v4 a)) as Ho by apply be_bytes_ok.
    repeat (apply Forall_cons; split; [first [apply bytes_of_ok|by apply fmt_dec_text_ok, octet_ok]|]).
    apply Forall_nil_2.
  - unfold reverse_v6. rewrite reverse_v6_fits. cbn [expect].
    apply (Name_parse_wf (reverse_v6_text a)); [|apply reverse_v6_fits].
    unfold reverse_v6_text. apply bytes_ok_app. split; [|apply bytes_of_ok].
    assert (bytes_ok (rev (octets_v6 a))) as Ho.
    { apply Forall_rev. apply be_bytes_ok. }
    induction Ho as [|b l Hb Hl IH]; simpl; [constructor|].
    assert (is_u8 (fmt_nibble (Z.land b 15)) /\ is_u8 (fmt_nibble (Z.shiftr b 4))) as [H1 H2].
    { apply is_u8_le in Hb. pattern b. by_range (256%nat). }
    repeat (apply bytes_ok_cons; split; [try done; by_decide|]). done.
Qed.

Section machine.
Context `{MapOrder}.

Lemma reverse_opens e q address now :
  Inv ∅ e -> ~ live e q -> opens q e (reverse e q address now).
Proof.
  intros HI Hq. apply resolve_opens; [done|done| |by_decide].
  apply Name_to_string_ok, reverse_name_wf.
Qed.

(** What a step does to the questions: those it opens, answers and drops. *)
Record accounted (i : Input) (e : Engine) (r : Engine * list Action) : Prop := mk_accounted {
  ac_inv : Inv ∅ r.1;
  ac_nodup : NoDup (dones r.2);
  ac_from : forall q, live r.1 q \/ q ∈ dones r.2 -> live e q \/ opened i = Some q;
  ac_to : forall q, live e q \/ opened i = Some q ->
    live r.1 q \/ q ∈ dones r.2 \/ abandoned i = Some q;
  ac_once : forall q, live r.1 q -> q ∉ dones r.2;
}.

Lemma opens_accounted i q e r : opened i = Some q -> opens q e r -> accounted i e r.
Proof using Type.
  intros Hq [HI [Hn Hs Ho]]. split; try done; rewrite Hq.
  - intros q' [?| ?]%Hs; [by left|right; congruence].
  - intros q' Hq'. assert (live r.1 q' \/ q' ∈ dones r.2) as Hor; [|tauto].
    apply Hs. destruct Hq' as [?|[= ->]]; tauto.
Qed.

Lemma keeps_accounted i e r : opened i = None -> keeps e r -> accounted i e r.
Proof using Type.
  intros Hq [HI [Hn Hs Ho]]. split; try done; rewrite Hq.
  - intros q' ?%Hs. by left.
  - intros q' [Hl%Hs|?]; [tauto|done].
Qed.

Lemma reconfigures_accounted i e e' :
  opened i = None -> reconfigures e e' -> accounted i e (e', []).
Proof using Type.
  intros Hq [HI Hl]. split; try done; rewrite ?Hq; simpl.
  - constructor.
  - intros q' [?%Hl|?%elem_of_nil]; [by left|done].
  - intros q' [?|?]; [left; by apply Hl|done].
  - intros q' _. apply not_elem_of_nil.
Qed.

Lemma abandon_accounted e q : Inv ∅ e -> accounted (IAbandon q) e (abandon e q).
Proof using Type.
  intros HI. assert (dones (abandon e q).2 = []) as Hd.
  { destruct (abandon_without e q HI) as (e1 & Hw & _). pose proof (wo_acts _ _ _ _ Hw) as Ha.
    assert (forall a, a ∈ (abandon e q).2 -> done_qid a = None) as Hc.
    { intros a (tx & x & -> & _)%Ha. done. }
    clear Ha Hw. induction (abandon e q).2 as [|a acts IH]; [done|]. unfold dones. simpl.
    rewrite (Hc a) by (by left). apply IH. intros b Hb. apply Hc. by right. }
  split; rewrite ?Hd; simpl.
  - by apply abandon_inv.
  - constructor.
  - intros q'. rewrite abandon_live by done. intros [[? _]|?%elem_of_nil]; [by left|done].
  - intros q' [Hl|?]; [|done]. rewrite abandon_live by done.
    destruct (decide (q' = q)) as [->|]; [by right; right|by left].
  - intros q' _. apply not_elem_of_nil.
Qed.

Lemma step_accounted e i :
  Inv ∅ e -> input_wf i -> (forall q, opened i = Some q -> ~ live e q) -> accounted i e (step e i).
Proof using Type.
  intros HI Hwf Hfr.
  destruct i as [q ? ? ? ?|q ? ?|q ? ? ?|q ? ?| | | | | | | | | |]; cbn [input_wf] in Hwf;
    try specialize (Hfr q eq_refl).
  - destruct Hwf. by apply (opens_accounted _ q), resolve_opens.
  - by apply (opens_accounted _ q), resolve_question_opens.
  - by apply (opens_accounted _ q), lookup_opens.
  - by apply (opens_accounted _ q), reverse_opens.
  - by apply abandon_accounted.
  - by apply keeps_accounted, received_keeps.
  - by apply keeps_accounted, failed_keeps.
  - by apply keeps_accounted, local_failed_keeps.
  - by apply keeps_accounted, tick_keeps.
  - apply reconfigures_accounted; [done|by apply set_scopes_keeps].
  - apply reconfigures_accounted; [done|by apply set_fallback_keeps].
  - apply reconfigures_accounted; [done|by apply set_hostname_keeps].
  - apply reconfigures_accounted; [done|by apply set_hosts_keeps].
  - apply reconfigures_accounted; [done|by apply flush_keeps].
Qed.
End machine.

(** ** Runs *)

Fixpoint run `{MapOrder} (e : Engine) (ins : list Input) : Engine * list Action :=
  match ins with
  | [] => (e, [])
  | i :: ins' =>
      let '(e1, a1) := step e i in
      let '(e2, a2) := run e1 ins' in
      (e2, a1 ++ a2)
  end.

(** The caller uses a new question id for every question it asks. *)
Definition run_wf (e : Engine) (ins : list Input) : Prop :=
  Forall input_wf ins /\ NoDup (omap opened ins) /\ forall q, q ∈ omap opened ins -> ~ live e q.

Section runs.
Context `{MapOrder}.

Record run_accounted (ins : list Input) (e : Engine) (r : Engine * list Action) : Prop := mk_run_accounted {
  ra_inv : Inv ∅ r.1;
  ra_nodup : NoDup (dones r.2);
  ra_from : forall q, live r.1 q \/ q ∈ dones r.2 -> live e q \/ q ∈ omap opened ins;
  ra_to : forall q, live e q \/ q ∈ omap opened ins ->
    live r.1 q \/ q ∈ dones r.2 \/ q ∈ omap abandoned ins;
  ra_once : forall q, live r.1 q -> q ∉ dones r.2;
}.

Lemma elem_of_omap_cons {A B} (f : A -> option B) x l y :
  y ∈ omap f (x :: l) <-> f x = Some y \/ y ∈ omap f l.
Proof using Type.
  simpl. destruct (f x) as [z|]; [rewrite elem_of_cons|]; naive_solver.
Qed.

Lemma run_all ins : forall e, Inv ∅ e -> run_wf e ins -> run_accounted ins e (run e ins).
Proof using Type.
  induction ins as [|i ins IH]; intros e HI (Hwf & Hnd & Hfr).
  { simpl. split; simpl; try done; [constructor|..]; set_solver. }
  apply Forall_cons in Hwf as [Hi Hwf].
  assert (NoDup (omap opened ins) /\ forall q, opened i = Some q -> q ∉ omap opened ins) as [Hnd' Hne].
  { revert Hnd. simpl. destruct (opened i) as [q|]; [|done].
    rewrite NoDup_cons. intros [? ?]. split; [done|]. by intros q' [= <-]. }
  setoid_rewrite elem_of_omap_cons in Hfr.
  pose proof (step_accounted e i HI Hi (fun q Hq => Hfr q (or_introl Hq))) as [HI1 Hn1 Hf1 Ht1 Ho1].
  cbn [run]. destruct (step e i) as [e1 a1]. cbn [fst snd] in *.
  assert (forall q, q ∈ omap opened ins -> ~ live e1 q) as Hfr1.
  { intros q Hq Hl. destruct (Hf1 q (or_introl Hl)) as [Hl'|Hop].
    - by apply (Hfr q); [right|].
    - by apply (Hne q). }
  destruct (IH e1 HI1 (conj Hwf (conj Hnd' Hfr1))) as [HI2 Hn2 Hf2 Ht2 Ho2].
  destruct (run e1 ins) as [e2 a2]. cbn [fst snd] in *.
  assert (forall q, q ∈ dones a1 -> q ∈ dones a2 -> False) as Hdisj.
  { intros q H1 H2. destruct (Hf2 q (or_intror H2)) as [Hl|Hop]; [by apply (Ho1 q)|].
    destruct (Hf1 q (or_intror H1)) as [Hl|Ho]; [|by apply (Hne q)]. by apply (Hfr q); [right|]. }
  split; cbn [fst snd]; rewrite ?dones_app; try done.
  - apply NoDup_app. split_and!; [done| |done]. intros q H1 H2. by eapply Hdisj.
  - intros q. rewrite ?elem_of_app, elem_of_omap_cons. intros [Hl|[Hd|Hd]].
    + destruct (Hf2 q (or_introl Hl)) as [Hl1|?]; [|tauto]. destruct (Hf1 q (or_introl Hl1)); tauto.
    + destruct (Hf1 q (or_intror Hd)); tauto.
    + destruct (Hf2 q (or_intror Hd)) as [Hl1|?]; [|tauto]. destruct (Hf1 q (or_introl Hl1)); tauto.
  - intros q. rewrite ?elem_of_app, !elem_of_omap_cons. intros Hq.
    assert ((live e q \/ opened i = Some q) \/ q ∈ omap opened ins) as [Hq'|Hq'] by tauto.
    + destruct (Ht1 q Hq') as [Hl|[?|?]]; [|tauto..]. destruct (Ht2 q (or_introl Hl)) as [?|[?|?]]; tauto.
    + destruct (Ht2 q (or_intror Hq')) as [?|[?|?]]; tauto.
  - intros q Hl. rewrite elem_of_app. intros [Hd|Hd]; [|by apply (Ho2 q)].
    destruct (Hf2 q (or_introl Hl)) as [Hl1|Hop]; [by apply (Ho1 q)|].
    destruct (Hf1 q (or_intror Hd)) as [Hl0|Ho]; [|by apply (Hne q)]. by apply (Hfr q); [right|].
Qed.
End runs.

Lemma with_entropy_inv entropy :
  (forall k r, entropy k = Some r -> length r = 34%nat /\ bytes_ok r) -> Inv ∅ (with_entropy entropy).
Proof.
  intros He. split; simpl.
  - split; try (intros *; rewrite lookup_empty; done).
    + rewrite map_size_empty. apply Nat.le_0_l.
    + apply map_Forall_empty.
    + apply map_Forall_empty.
  - apply Cache_new_ok.
  - split; [split; constructor|apply map_Forall_empty|done].
Qed.

Lemma with_entropy_live entropy q : ~ live (with_entropy entropy) q.
Proof. intros (id & t & Hl & _). simpl in Hl. by rewrite lookup_empty in Hl. Qed.

(** ** Progress *)

Definition total_work (ts : gmap TaskId Task) : nat :=
  sum_list (map (fun kv => work kv.2) (map_to_list ts)).

Lemma total_work_delete ts id t :
  ts !! id = Some t -> total_work ts = (work t + total_work (delete id ts))%nat.
Proof.
  intros Ht. unfold total_work. rewrite <- (map_to_list_delete ts id t Ht). done.
Qed.

Lemma work_pos t : task_ok t -> (1 <= work t)%nat.
Proof. intros Hok. pose proof (tk_attempt t Hok). unfold work, MAX_ATTEMPTS in *. lia. Qed.

(** Every event that ends a transaction uses up work. *)
Lemma event_work x e r tx :
  Inv ∅ e -> txs e !! tx = Some x -> event_ok x e r ->
  (total_work (tasks r.1) < total_work (tasks e))%nat.
Proof.
  intros HI Hx [_ _ Hw Ho _]. destruct (co_tx _ _ _ _ _ (inv_core _ _ HI) _ _ Hx) as (t & Ht & _).
  pose proof (work_pos t (co_tasks _ _ _ _ _ (inv_core _ _ HI) _ _ Ht)) as Hpos.
  assert (delete (x_task x) (tasks r.1) = delete (x_task x) (tasks e)) as Hd.
  { apply map_eq. intros j. rewrite !lookup_delete. case_decide; [done|]. by apply Ho. }
  rewrite (total_work_delete (tasks e) _ _ Ht), <- Hd.
  destruct (tasks r.1 !! x_task x) as [t'|] eqn:Ht'.
  - rewrite (total_work_delete _ _ _ Ht'). specialize (Hw t t' Ht eq_refl). lia.
  - rewrite delete_id by done. lia.
Qed.

Section progress.
Context `{MapOrder}.

Lemma expire_work e tx now :
  Inv ∅ e -> (total_work (tasks (expire_one now e tx).1) <= total_work (tasks e))%nat /\
  (is_Some (txs e !! tx) -> (total_work (tasks (expire_one now e tx).1) < total_work (tasks e))%nat).
Proof.
  intros HI. unfold expire_one. destruct (txs e !! tx) as [x|] eqn:Hx.
  - pose proof (event_work x e _ tx HI Hx (failed_event e tx x now HI Hx)) as Hlt.
    destruct (failed e tx now) as [e' acts]. simpl in *. split; [lia|done].
  - rewrite failed_absent by done. simpl. split; [done|]. by intros [? ?].
Qed.

Lemma expire_all_work ids now : forall e, Inv ∅ e ->
  (total_work (tasks (for_each (expire_one now) ids e).1) <= total_work (tasks e))%nat.
Proof.
  induction ids as [|tx ids IH]; intros e HI; simpl; [done|].
  pose proof (expire_work e tx now HI) as [Hle _]. pose proof (expire_one_keeps e tx now HI) as [HI1 _].
  destruct (expire_one now e tx) as [e1 a1]. specialize (IH e1 HI1).
  destruct (for_each _ ids e1) as [e2 a2]. simpl in *. lia.
Qed.

Lemma elem_of_expired e now tx :
  tx ∈ expired e now <-> exists x, txs e !! tx = Some x /\ x_deadline x <= now.
Proof.
  unfold expired. rewrite list_elem_of_In, in_map_iff. setoid_rewrite filter_In.
  setoid_rewrite Z.leb_le. setoid_rewrite <- list_elem_of_In. split.
  - intros ([tx' x] & <- & Hin%map_iter_elem & Hq). by exists x.
  - intros (x & Hx%map_iter_elem & Hq). by exists (tx, x).
Qed.

(** A tick at or after a deadline uses up work. *)
Lemma tick_work e now tx x :
  Inv ∅ e -> txs e !! tx = Some x -> x_deadline x <= now ->
  (total_work (tasks (tick e now).1) < total_work (tasks e))%nat.
Proof.
  intros HI Hx Hd. unfold tick. assert (tx ∈ expired e now) as Hin by (apply elem_of_expired; eauto).
  pose proof (elem_of_expired e now) as Hexp.
  destruct (expired e now) as [|tx0 ids]; [by apply elem_of_nil in Hin|].
  destruct (proj1 (Hexp tx0) (list_elem_of_here _ _)) as (x0 & Hx0 & _). simpl.
  pose proof (expire_work e tx0 now HI) as [_ Hlt]. specialize (Hlt (mk_is_Some _ _ Hx0)).
  pose proof (expire_one_keeps e tx0 now HI) as [HI1 _].
  destruct (expire_one now e tx0) as [e1 a1]. pose proof (expire_all_work ids now e1 HI1).
  destruct (for_each _ ids e1) as [e2 a2]. simpl in *. lia.
Qed.

Lemma next_deadline_spec e d :
  next_deadline e = Some d ->
  (exists tx x, txs e !! tx = Some x /\ x_deadline x = d) /\
  forall tx x, txs e !! tx = Some x -> d <= x_deadline x.
Proof.
  unfold next_deadline. intros [Hin Hle]%list_min_Some. split.
  - apply list_elem_of_In, in_map_iff in Hin as ([tx x] & Hd & Hin%list_elem_of_In%map_iter_elem).
    by exists tx, x.
  - intros tx x Hx. apply Hle. apply list_elem_of_In, in_map_iff. exists (tx, x).
    split; [done|]. by apply list_elem_of_In, map_iter_elem.
Qed.

Lemma next_deadline_None e : next_deadline e = None <-> txs e = ∅.
Proof.
  unfold next_deadline. rewrite list_min_None, <- map_iter_nil. split; [apply map_eq_nil|by intros ->].
Qed.

(** The daemon's loop with a silent network: sleep to the next deadline,
    tick. *)
Fixpoint run_silent (n : nat) (e : Engine) : Engine * list Action :=
  match n with
  | O => (e, [])
  | S n =>
      match next_deadline e with
      | None => (e, [])
      | Some d =>
          let '(e1, a1) := tick e d in
          let '(e2, a2) := run_silent n e1 in
          (e2, a1 ++ a2)
      end
  end.

Lemma drained e : Inv ∅ e -> txs e = ∅ -> tasks e = ∅.
Proof.
  intros HI Hx. apply map_empty. intros id. destruct (tasks e !! id) as [t|] eqn:Ht; [|done]. exfalso.
  destruct (t_tx t) as [tx|] eqn:Htx.
  - destruct (co_task _ _ _ _ _ (inv_core _ _ HI) _ _ _ Ht Htx) as (x & Hxx & _).
    by rewrite Hx, lookup_empty in Hxx.
  - by apply (co_idle _ _ _ _ _ (inv_core _ _ HI) _ _ Ht), elem_of_empty in Htx.
Qed.

Lemma total_work_zero e : Inv ∅ e -> total_work (tasks e) = 0%nat -> tasks e = ∅.
Proof.
  intros HI Hw. apply map_empty. intros id. destruct (tasks e !! id) as [t|] eqn:Ht; [|done]. exfalso.
  pose proof (work_pos t (co_tasks _ _ _ _ _ (inv_core _ _ HI) _ _ Ht)).
  rewrite (total_work_delete _ _ _ Ht) in Hw. lia.
Qed.

Lemma drain_all n : forall e, Inv ∅ e -> (total_work (tasks e) <= n)%nat ->
  keeps e (run_silent n e) /\ tasks (run_silent n e).1 = ∅.
Proof.
  induction n as [|n IH]; intros e HI Hw; simpl.
  { split; [by apply keeps_nothing|]. apply total_work_zero; [done|]. lia. }
  destruct (next_deadline e) as [d|] eqn:Hd.
  2:{ split; [by apply keeps_nothing|]. apply drained; [done|]. by apply next_deadline_None. }
  destruct (next_deadline_spec e d Hd) as [(tx & x & Hx & Hdx) _].
  pose proof (tick_work e d tx x HI Hx) as Hlt. specialize (Hlt ltac:(lia)).
  pose proof (tick_keeps e d HI) as [HI1 Hb1]. destruct (tick e d) as [e1 a1]. simpl in *.
  destruct (IH e1 HI1 ltac:(lia)) as [[HI2 Hb2] Hts]. destruct (run_silent n e1) as [e2 a2].
  split; [split; [done|by eapply balanced_app]|done].
Qed.
End progress.
