(* ===== verification/EngineFlow.v ===== *)
(** * What an engine step asks of its caller

    The transactions an operation opens and ends against the [Send]s and
    [Cancel]s it emits, and the kind of completion each question gets.  The
    daemon's bookkeeping of sockets and of waiting clients rests on it. *)

From S2P Require Import Prelude Net Names Message MessageProofs Cache EngineState Records Routing Engine EngineInv EngineStep EngineRun EngineMachine.
Local Open Scope Z_scope.

Definition sent_tx (a : Action) : option Txid := match a with Send tx _ _ _ _ => Some tx | _ => None end.
Definition sends (acts : list Action) : list Txid := omap sent_tx acts.

Definition cancelled_tx (a : Action) : option Txid := match a with Cancel tx => Some tx | _ => None end.
Definition cancels (acts : list Action) : list Txid := omap cancelled_tx acts.

Lemma sends_app a b : sends (a ++ b) = sends a ++ sends b.
Proof. apply omap_app. Qed.
Lemma cancels_app a b : cancels (a ++ b) = cancels a ++ cancels b.
Proof. apply omap_app. Qed.

(** A question that only single-type tasks work on. *)
Definition plain (e : Engine) (q : Qid) : Prop :=
  forall id t, tasks e !! id = Some t -> Owner_qid (t_owner t) = q -> t_owner t = OResolve q.

(** Its completions are answers, not address lists. *)
Definition answers_only (q : Qid) (acts : list Action) : Prop :=
  forall c, Done q c ∈ acts -> exists a, c = CAnswer a.

Lemma answers_only_app q a b : answers_only q a -> answers_only q b -> answers_only q (a ++ b).
Proof. intros Ha Hb c [Hc|Hc]%elem_of_app; [by apply Ha|by apply Hb]. Qed.

(** [gone] are the transactions that end without their socket being asked
    for, or with a [Cancel]; [P] are the questions that stay plain. *)
Record flows (gone : Txid -> Prop) (P : Qid -> Prop) (e e' : Engine) (acts : list Action) : Prop := mk_flows {
  fl_txs : forall tx, is_Some (txs e' !! tx) <-> (is_Some (txs e !! tx) /\ ~ gone tx) \/ tx ∈ sends acts;
  fl_fresh : forall tx, tx ∈ sends acts -> next_id e <= tx < next_id e';
  fl_nodup : NoDup (sends acts);
  fl_next : next_id e <= next_id e';
  fl_cancels : forall tx, tx ∈ cancels acts -> gone tx;
  fl_plain : forall q, P q -> plain e q -> plain e' q /\ answers_only q acts;
}.

Lemma flows_nothing P e : flows (fun _ => False) P e e [].
Proof.
  split; try done.
  - intros tx. simpl. set_solver.
  - intros tx Hx. by apply elem_of_nil in Hx.
  - constructor.
  - intros tx Hx. by apply elem_of_nil in Hx.
  - intros q _ Hp. split; [done|]. intros c Hc. by apply elem_of_nil in Hc.
Qed.

Lemma flows_app g1 g2 P e e1 e2 a b :
  (forall tx, g2 tx -> tx < next_id e) -> flows g1 P e e1 a -> flows g2 P e1 e2 b ->
  flows (fun tx => g1 tx \/ g2 tx) P e e2 (a ++ b).
Proof.
  intros Hold [T1 F1 N1 M1 C1 P1] [T2 F2 N2 M2 C2 P2]. split; rewrite ?sends_app, ?cancels_app.
  - intros tx. rewrite T2, T1, elem_of_app. specialize (F1 tx). specialize (Hold tx). split; [tauto|].
    intros [?|[Hs|?]]; [tauto| |tauto]. left. split; [tauto|]. intros Hg. specialize (F1 Hs). specialize (Hold Hg). lia.
  - intros tx [Hx|Hx]%elem_of_app; [apply F1 in Hx|apply F2 in Hx]; lia.
  - apply NoDup_app. split_and!; [done| |done]. intros tx H1%F1 H2%F2. lia.
  - lia.
  - intros tx [Hx%C1|Hx%C2]%elem_of_app; tauto.
  - intros q HP Hp. destruct (P1 q HP Hp) as [Hp1 Ha1]. destruct (P2 q HP Hp1) as [Hp2 Ha2].
    split; [done|by apply answers_only_app].
Qed.

Lemma flows_gone g g' P e e' acts : (forall tx, g tx <-> g' tx) -> flows g P e e' acts -> flows g' P e e' acts.
Proof. intros Hg [T F N M C Pl]. split; try done; intros tx; [by rewrite T, Hg|]. by rewrite <- Hg; apply C. Qed.

(** A change that touches neither transactions nor owners. *)
Lemma flows_frame g P e e0 e' acts :
  txs e0 = txs e -> next_id e <= next_id e0 -> (forall q, P q -> plain e q -> plain e0 q) ->
  flows g P e0 e' acts -> flows g P e e' acts.
Proof.
  intros Hx Hn Hp [T F N M C Pl]. split; try done.
  - intros tx. by rewrite T, Hx.
  - intros tx Htx. specialize (F tx Htx). lia.
  - lia.
  - intros q HP Hq. apply Pl; [done|by apply Hp].
Qed.

(** ** One step on one task *)

Lemma deliver_kind ls owner rt id answer ls' acts q :
  (ls', acts) = delivers ls owner rt id answer -> (Owner_qid owner = q -> owner = OResolve q) -> answers_only q acts.
Proof.
  unfold delivers. intros Hd Ho c Hc. destruct owner as [q'|q'].
  - injection Hd as _ ->. apply list_elem_of_singleton in Hc as [= <- ->]. eauto.
  - destruct (ls !! q') as [l|]; [|injection Hd as _ ->; by apply elem_of_nil in Hc].
    case_match; injection Hd as _ ->; [by apply elem_of_nil in Hc|].
    apply list_elem_of_singleton in Hc as [= <- _]. by specialize (Ho eq_refl).
Qed.

Lemma deliver_sends ls owner rt id answer ls' acts :
  (ls', acts) = delivers ls owner rt id answer -> sends acts = [] /\ cancels acts = [].
Proof.
  unfold delivers. destruct owner as [q'|q']; [by intros [= _ ->]|].
  destruct (ls !! q') as [l|]; [|by intros [= _ ->]]. case_match; by intros [= _ ->].
Qed.

Lemma flows_outcome idle id P e e' acts :
  Core idle (tasks e) (txs e) (lookups e) (next_id e) -> outcome_of id e e' acts ->
  flows (fun _ => False) P e e' acts.
Proof.
  intros HC [t t' x server itf tcp payload Ht Hs _ _ _ _ _ Hts Hxs _ _ Hn _ _ _
            |t answer acts' Ht Hts Hxs Hn Hd].
  - split; simpl.
    + intros tx. rewrite Hxs, lookup_insert_is_Some', list_elem_of_singleton. naive_solver.
    + intros tx ->%list_elem_of_singleton. lia.
    + apply NoDup_singleton.
    + lia.
    + intros tx Hx. by apply elem_of_nil in Hx.
    + intros q _ Hp. split; [|intros c Hc; by apply list_elem_of_singleton in Hc].
      intros j t0. rewrite Hts, lookup_insert_Some. intros [[<- <-]|[_ Hj]]; [|exact (Hp _ _ Hj)].
      rewrite (st_owner _ _ Hs). exact (Hp _ _ Ht).
  - destruct (deliver_sends _ _ _ _ _ _ _ Hd) as [Hse Hca]. split; rewrite ?Hse, ?Hca.
    + intros tx. rewrite Hxs. set_solver.
    + intros tx Hx. by apply elem_of_nil in Hx.
    + constructor.
    + lia.
    + intros tx Hx. by apply elem_of_nil in Hx.
    + intros q _ Hp. split.
      * intros j t0. rewrite Hts. intros [_ Hj]%lookup_delete_Some. exact (Hp _ _ Hj).
      * eapply deliver_kind; [exact Hd|]. exact (Hp _ _ Ht).
Qed.

(** ** Events *)

Lemma flows_event P e tx x r :
  txs e !! tx = Some x -> event_ok x e r -> flows (fun y => y = tx) P e r.1 r.2.
Proof.
  intros Hx Hev. destruct (ev_outcome _ _ _ Hev tx Hx) as (e1 & t & Ht & Hts & Hxs & Hn & HC & Ho).
  destruct (flows_outcome _ _ P _ _ _ HC Ho) as [T F N M C Pl].
  split; try done.
  - intros y. rewrite T, Hxs. rewrite lookup_delete_is_Some. naive_solver.
  - intros y Hy. specialize (F y Hy). lia.
  - lia.
  - intros y Hy. by specialize (C y Hy).
  - intros q HP Hp. apply Pl; [done|]. intros j t0. rewrite Hts, lookup_insert_Some.
    intros [[<- <-]|[_ Hj]]; [exact (Hp _ _ Ht)|exact (Hp _ _ Hj)].
Qed.

Lemma event_no_cancel e x r : event_ok x e r -> (exists tx, txs e !! tx = Some x) -> cancels r.2 = [].
Proof.
  intros Hev [tx Hx]. destruct (ev_outcome _ _ _ Hev tx Hx) as (e1 & t & _ & _ & _ & _ & _ & Ho).
  destruct Ho as [|? ? ? ? ? ? ? Hd]; [done|]. by destruct (deliver_sends _ _ _ _ _ _ _ Hd).
Qed.

Lemma flows_absent P e tx : txs e !! tx = None -> flows (fun y => y = tx) P e e [].
Proof.
  intros Hx. destruct (flows_nothing P e) as [_ F N M _ Pl]. split; try done.
  - intros y. simpl. split; [|intros [[? _]|?%elem_of_nil]; done]. intros Hy. left. split; [done|].
    intros ->. rewrite Hx in Hy. by destruct Hy.
  - intros y Hy. by apply elem_of_nil in Hy.
Qed.

Lemma failed_flows P e tx now :
  Inv ∅ e -> flows (fun y => y = tx) P e (failed e tx now).1 (failed e tx now).2 /\ cancels (failed e tx now).2 = [].
Proof.
  intros HI. destruct (txs e !! tx) as [x|] eqn:Hx.
  - split; [by eapply flows_event, failed_event|]. eapply event_no_cancel; [by eapply failed_event|eauto].
  - rewrite failed_absent by done. split; [by apply flows_absent|done].
Qed.

Lemma local_failed_flows P e tx now :
  Inv ∅ e -> flows (fun y => y = tx) P e (local_failed e tx now).1 (local_failed e tx now).2 /\
    cancels (local_failed e tx now).2 = [].
Proof.
  intros HI. destruct (txs e !! tx) as [x|] eqn:Hx.
  - split; [by eapply flows_event, local_failed_event|]. eapply event_no_cancel; [by eapply local_failed_event|eauto].
  - rewrite local_failed_absent by done. split; [by apply flows_absent|done].
Qed.

Section flows.
Context `{MapOrder}.

Lemma received_flows P e tx bytes now :
  Inv ∅ e -> response_matches e tx bytes = true ->
  flows (fun y => y = tx) P e (received e tx bytes now).1 (received e tx bytes now).2.
Proof.
  intros HI Hm. destruct (response_matches_live _ _ _ Hm) as [x Hx]. by eapply flows_event, received_event.
Qed.

Lemma expire_one_flows P e tx now :
  Inv ∅ e -> flows (fun y => y = tx) P e (expire_one now e tx).1 (expire_one now e tx).2.
Proof.
  intros HI. unfold expire_one. destruct (failed_flows P e tx now HI) as [[T F N M C Pl] _].
  destruct (failed e tx now) as [e' acts]. split; try done; simpl in *.
  - intros y [->|Hy]%elem_of_cons; [done|by apply C].
  - intros q HP Hp. destruct (Pl q HP Hp) as [? Ha]. split; [done|].
    intros c [?|Hc]%elem_of_cons; [done|by apply Ha].
Qed.

Lemma expire_all_flows P now ids : forall e, Inv ∅ e -> Forall (fun tx => tx < next_id e) ids ->
  flows (fun y => y ∈ ids) P e (for_each (expire_one now) ids e).1 (for_each (expire_one now) ids e).2.
Proof.
  induction ids as [|tx ids IH]; intros e HI Hids; simpl.
  { eapply flows_gone; [|apply flows_nothing]. intros y. split; [done|by intros ?%elem_of_nil]. }
  apply Forall_cons in Hids as [Htx Hids].
  pose proof (expire_one_flows P e tx now HI) as Hf. pose proof (expire_one_keeps e tx now HI) as [HI1 _].
  destruct (expire_one now e tx) as [e1 a1]. simpl in Hf, HI1.
  assert (Forall (fun tx => tx < next_id e1) ids) as Hids1.
  { apply (Forall_impl _ _ _ Hids). intros y Hy. pose proof (fl_next _ _ _ _ _ Hf). lia. }
  specialize (IH e1 HI1 Hids1). destruct (for_each _ ids e1) as [e2 a2].
  eapply flows_gone; [|eapply flows_app; [|exact Hf|exact IH]].
  - intros y. by rewrite elem_of_cons.
  - intros y Hy. rewrite Forall_forall in Hids. by apply Hids.
Qed.

Lemma tick_flows P e now :
  Inv ∅ e -> flows (fun y => y ∈ expired e now) P e (tick e now).1 (tick e now).2.
Proof.
  intros HI. apply expire_all_flows; [done|]. apply Forall_forall. intros tx (x & Hx & _)%elem_of_expired.
  apply (co_tx_id _ _ _ _ _ (inv_core _ _ HI)). by rewrite Hx.
Qed.

Lemma abandon_flows P e q :
  Inv ∅ e -> flows (fun tx => tx ∈ cancels (abandon e q).2) P e (abandon e q).1 (abandon e q).2 /\
    forall tx, tx ∈ cancels (abandon e q).2 -> is_Some (txs e !! tx).
Proof.
  intros HI. destruct (abandon_without e q HI) as (e1 & [Hts Hxs _ Hn _ _ Ha] & ->).
  assert (forall a, a ∈ (abandon e q).2 -> exists tx x, a = Cancel tx /\ txs e !! tx = Some x) as Hc.
  { intros a (tx & x & ? & ? & _)%Ha. eauto. }
  assert (sends (abandon e q).2 = []) as Hs.
  { clear Ha Hxs. induction (abandon e q).2 as [|a l IH]; [done|]. unfold sends in *. simpl.
    destruct (Hc a) as (tx & x & -> & _); [by left|]. apply IH. intros b Hb. apply Hc. by right. }
  assert (forall tx, tx ∈ cancels (abandon e q).2 <-> Cancel tx ∈ (abandon e q).2) as Hcan.
  { intros tx. unfold cancels. rewrite list_elem_of_omap. split; [|intros ?; by exists (Cancel tx)].
    intros (a & Hin & Hq). destruct a; simplify_eq/=. done. }
  split.
  - split; rewrite ?Hs; simpl.
    + intros tx. rewrite Hcan, Ha. split.
      * intros [x [Hx Hni]%Hxs]. left. split; [by rewrite Hx|]. intros (tx' & x' & [= <-] & Hx' & Hin).
        rewrite Hx in Hx'. by simplify_eq.
      * intros [[[x Hx] Hno]|Hn']; [|by apply elem_of_nil in Hn']. exists x. apply Hxs. split; [done|].
        intros Hin. apply Hno. eauto.
    + intros tx Hx. by apply elem_of_nil in Hx.
    + constructor.
    + lia.
    + done.
    + intros q' _ Hp. split.
      * intros j t. simpl. rewrite Hts. case_decide; [done|]. apply Hp.
      * intros c Hin. by destruct (Hc _ Hin) as (? & ? & ? & _).
  - intros tx (tx' & x & [= <-] & Hx & _)%Hcan%Ha. by rewrite Hx.
Qed.

Lemma abandon_dones e q : Inv ∅ e -> dones (abandon e q).2 = [].
Proof.
  intros HI. destruct (abandon_without e q HI) as (e1 & [_ _ _ _ _ _ Ha] & _).
  assert (forall a, a ∈ (abandon e q).2 -> done_qid a = None) as Hc by (by intros a (tx & x & -> & _)%Ha).
  clear Ha. induction (abandon e q).2 as [|a acts IH]; [done|]. unfold dones. simpl.
  rewrite (Hc a) by (by left). apply IH. intros b Hb. apply Hc. by right.
Qed.

Lemma received_no_cancel e tx bytes now :
  Inv ∅ e -> response_matches e tx bytes = true -> cancels (received e tx bytes now).2 = [].
Proof.
  intros HI Hm. destruct (response_matches_live _ _ _ Hm) as [x Hx].
  eapply event_no_cancel; [by eapply received_event|eauto].
Qed.

(** Every transaction that expires is cancelled. *)
Lemma expire_all_cancels now ids : forall e, Forall (fun tx => tx ∈ cancels (for_each (expire_one now) ids e).2) ids.
Proof.
  induction ids as [|tx ids IH]; intros e; [constructor|]. cbn [for_each].
  assert (tx ∈ cancels (expire_one now e tx).2) as Htx.
  { unfold expire_one. destruct (failed e tx now). simpl. by left. }
  destruct (expire_one now e tx) as [e1 a1]. specialize (IH e1). destruct (for_each _ ids e1) as [e2 a2].
  simpl in *. constructor; [rewrite cancels_app; apply elem_of_app; by left|].
  apply (Forall_impl _ _ _ IH). intros y Hy. rewrite cancels_app. apply elem_of_app. by right.
Qed.

Lemma tick_cancels e now tx : tx ∈ expired e now -> tx ∈ cancels (tick e now).2.
Proof. intros Htx. pose proof (expire_all_cancels now (expired e now) e) as Hf. rewrite Forall_forall in Hf. by apply Hf. Qed.

(** ** Questions *)

Lemma advance_flows P idle id e now :
  Inv idle e -> id ∈ idle -> is_fresh e id ->
  flows (fun _ => False) P e (advance e id now).1 (advance e id now).2.
Proof.
  intros HI Hid (t & Ht & Hcur & Hcs & Ha).
  destruct (co_idle_live _ _ _ _ _ (inv_core _ _ HI) id Hid) as (t0 & ? & ?). simplify_eq.
  assert (focus id t e) as Hf.
  { split; [done|done|by apply (co_tasks _ _ _ _ _ (inv_core _ _ HI) id)|apply HI]. }
  eapply flows_outcome; [apply HI|]. exact (so_outcome _ _ _ _ (advance_step id e t now Hf Hcur Hcs Ha)).
Qed.

Lemma advance_all_flows P ids now : forall e,
  NoDup ids -> Inv (list_to_set ids) e -> Forall (is_fresh e) ids ->
  flows (fun _ => False) P e (for_each (fun e id => advance e id now) ids e).1
    (for_each (fun e id => advance e id now) ids e).2.
Proof.
  induction ids as [|id ids IH]; intros e Hnd HI Hfr; cbn [for_each]; [apply flows_nothing|].
  apply NoDup_cons in Hnd as [Hni Hnd]. apply Forall_cons in Hfr as [Hf Hfr].
  pose proof (advance_flows P (list_to_set (id :: ids)) id e now HI ltac:(set_solver) Hf) as Hfl.
  destruct (advance_fresh_rest id ids e now HI Hni Hf Hfr) as [HI1 Hfr1].
  destruct (advance e id now) as [e1 a1]. cbn [fst snd] in *.
  specialize (IH e1 Hnd HI1 Hfr1). destruct (for_each _ ids e1) as [e2 a2].
  eapply flows_gone; [|eapply flows_app; [|exact Hfl|exact IH]]; [tauto|done].
Qed.

Lemma resolve_name_flows P e q name rt nc now :
  Inv ∅ e -> ~ live e q -> Name_wf name -> is_u16 rt ->
  flows (fun _ => False) P e (resolve_name e q name rt nc now).1 (resolve_name e q name rt nc now).2.
Proof.
  intros HI Hq Hn Hrt. unfold resolve_name, start_task. cbn [Engine.fresh_id].
  set (id := next_id e). set (t := fresh_task (OResolve q) name rt nc). set (e1 := put_tasks _ _).
  assert (tasks e1 = <[id := t]> (tasks e)) as Hts by done.
  assert (Inv {[id]} e1) as HI1.
  { destruct HI as [HC Hca Hcf]. split; [|done|by apply (Config_same e)].
    apply (core_add_resolve _ _ _ _ _ q name rt nc) in HC; [|done..|].
    - by rewrite union_empty_r_L in HC.
    - intros j t' Hj Ho. apply Hq. by exists j, t'. }
  apply (flows_frame _ _ _ e1); [done|simpl; lia| |].
  - intros q' _ Hp j t'. rewrite Hts, lookup_insert_Some. intros [[<- <-]|[_ Hj]]; [by intros <-|exact (Hp _ _ Hj)].
  - eapply advance_flows; [done|set_solver|]. exists t. by rewrite Hts, lookup_insert_eq.
Qed.

Lemma flows_refused P e e' q c :
  txs e' = txs e -> next_id e' = next_id e -> tasks e' = tasks e -> (P q -> exists a, c = CAnswer a) ->
  flows (fun _ => False) P e e' [Done q c].
Proof.
  intros Hx Hn Ht Hc. split; simpl.
  - intros tx. rewrite Hx. set_solver.
  - intros tx ?%elem_of_nil. done.
  - constructor.
  - lia.
  - intros tx ?%elem_of_nil. done.
  - intros q' HP Hp. split; [intros j t; rewrite Ht; apply Hp|].
    intros c' [= -> ->]%list_elem_of_singleton. by apply Hc.
Qed.

Lemma resolve_flows P e q name rt nc now :
  Inv ∅ e -> ~ live e q -> bytes_ok name -> is_u16 rt ->
  flows (fun _ => False) P e (resolve e q name rt nc now).1 (resolve e q name rt nc now).2.
Proof.
  intros HI Hq Hn Hrt. unfold resolve.
  assert (Inv ∅ (count add_queries e)) as HI0 by (by apply (Inv_frame _ e)).
  destruct (Name_parse name) as [n|] eqn:Hp; cbn [ok].
  - apply Name_parse_wf in Hp; [|done].
    apply (flows_frame _ _ _ (count add_queries e)); [done|done|by intros|]. by apply resolve_name_flows.
  - apply flows_refused; eauto.
Qed.

Lemma resolve_question_flows P e q question now :
  Inv ∅ e -> ~ live e q -> Question_wf question ->
  flows (fun _ => False) P e (resolve_question e q question now).1 (resolve_question e q question now).2.
Proof.
  intros HI Hq (Hn & Hrt & _). unfold resolve_question.
  assert (Inv ∅ (count add_queries e)) as HI0 by (by apply (Inv_frame _ e)).
  apply (flows_frame _ _ _ (count add_queries e)); [done|done|by intros|]. by apply resolve_name_flows.
Qed.

Lemma reverse_flows P e q address now :
  Inv ∅ e -> ~ live e q ->
  flows (fun _ => False) P e (reverse e q address now).1 (reverse e q address now).2.
Proof.
  intros HI Hq. apply resolve_flows; [done|done| |by_decide]. apply Name_to_string_ok, reverse_name_wf.
Qed.

(** A host lookup: the other questions stay as they are. *)
Lemma lookup_flows e q name family now :
  Inv ∅ e -> ~ live e q -> bytes_ok name ->
  flows (fun _ => False) (fun q' => q' <> q) e (lookup_ e q name family now).1 (lookup_ e q name family now).2.
Proof.
  intros HI Hq Hn. unfold lookup_.
  assert (Inv ∅ (count add_queries e)) as HI0 by (by apply (Inv_frame _ e)).
  destruct (Name_parse name) as [n|] eqn:Hp; cbn [ok]; [|by apply flows_refused].
  apply Name_parse_wf in Hp; [|done].
  pose proof (lookup_started (count add_queries e) q n (family_types family) HI0 Hq Hp
    (family_types_u16 family) (family_types_ne family)) as Hst.
  destruct (start_tasks _ _ _ _) as [e1 ids].
  destruct Hst as [HI2 Hnd Hfr _ _ _ Hback _ _ _ Hx Hnx]. set (e2 := put_lookups _ e1) in *.
  apply (flows_frame _ _ _ e2); [done|done| |by apply advance_all_flows].
  intros q' Hne Hpl j t Hj Ho. apply Hback in Hj as [Hj|[_ Hj]]; [exact (Hpl _ _ Hj Ho)|].
  rewrite Hj in Ho. simpl in Ho. congruence.
Qed.
End flows.

(** ** Configuration *)

(** What the daemon sees of a reconfigured engine. *)
Record quiet (e e' : Engine) : Prop := mk_quiet {
  qu_live : forall q, live e' q <-> live e q;
  qu_txs : txs e' = txs e;
  qu_next : next_id e' = next_id e;
  qu_plain : forall q, plain e q -> plain e' q;
}.

#[export] Instance quiet_preorder : PreOrder quiet.
Proof.
  split.
  - intros e. split; try done.
  - intros a b c [L1 X1 N1 P1] [L2 X2 N2 P2]. split; [|congruence|congruence|auto].
    intros q. by rewrite L2, L1.
Qed.

Lemma quiet_fmap (f : Task -> Task) e e' :
  (forall t, t_owner (f t) = t_owner t) -> tasks e' = f <$> tasks e -> txs e' = txs e -> next_id e' = next_id e ->
  quiet e e'.
Proof.
  intros Hf Ht Hx Hn. split; [by apply (live_fmap f)|done|done|].
  intros q Hp j t. rewrite Ht, lookup_fmap. intros (t0 & Hj & ->)%fmap_Some. rewrite Hf. exact (Hp _ _ Hj).
Qed.

Lemma quiet_same e e' : tasks e' = tasks e -> txs e' = txs e -> next_id e' = next_id e -> quiet e e'.
Proof. intros Ht. apply (quiet_fmap id); [done|]. by rewrite map_fmap_id. Qed.

Lemma invalidate_quiet scope e : quiet e (invalidate_scope_cache scope e).
Proof.
  apply (quiet_fmap (fun t => if bool_decide (t_scope t = Some scope) then set_invalidated t else t)); try done.
  intros t. by case_bool_decide.
Qed.

Lemma set_scopes_quiet ss e : quiet e (set_scopes ss e).
Proof.
  unfold set_scopes. set (ids := invalidated_scopes (scopes e) ss). clearbody ids.
  assert (quiet e (foldl (fun e id => invalidate_scope_cache id e) e ids)) as Hq.
  { revert e. induction ids as [|i ids IH]; intros e; [done|]. simpl. etrans; [apply invalidate_quiet|apply IH]. }
  etrans; [exact Hq|]. by apply quiet_same.
Qed.

Lemma set_fallback_quiet servers domains e : quiet e (set_fallback servers domains e).
Proof.
  unfold set_fallback. case_bool_decide; [by apply quiet_same|].
  etrans; [apply invalidate_quiet|by apply quiet_same].
Qed.

Lemma flush_quiet e : quiet e (flush e).
Proof. by apply (quiet_fmap set_invalidated). Qed.
