(* ===== verification/EngineFacts.v ===== *)
(** * Functional facts about the engine

    Where a query goes, what a reply may leave in the cache, and what the
    local answers cost. *)

From S2P Require Import Prelude Net Names Message MessageProofs Cache EngineState Records Routing Engine EngineInv EngineStep EngineRun EngineMachine.
Local Open Scope Z_scope.

(** ** The cache *)

Lemma settle_cache e id a : cache (settle e id a).1 = cache e.
Proof. unfold settle. repeat case_match; done. Qed.

Lemma send_cache e id server tcp now : cache (send e id server tcp now).1 = cache e.
Proof.
  unfold send. destruct (tasks e !! id); [|done].
  destruct (_ <=? _)%nat; [by rewrite settle_cache|].
  destruct (_ <=? _)%nat; [by rewrite settle_cache|].
  destruct (entropy e (drawn e)); [done|by rewrite settle_cache].
Qed.

Lemma next_attempt_cache e id now : cache (next_attempt e id now).1 = cache e.
Proof.
  unfold next_attempt. destruct (tasks e !! id); [|done].
  destruct (_ <=? _)%nat; [by rewrite settle_cache|].
  destruct (servers_of _ _ _); [by rewrite settle_cache|]. by rewrite send_cache.
Qed.

(** Looking for the next candidate only drops expired entries. *)
Lemma next_candidate_from_cache cs : forall e id now,
  cache (next_candidate_from cs e id now).1 ⊆ cache e.
Proof.
  induction cs as [|c rest IH]; intros e id now; cbn [next_candidate_from];
    destruct (tasks e !! id) as [t|]; try done; [by rewrite settle_cache|].
  destruct (route _ c); [|by rewrite settle_cache].
  destruct (t_no_cache t); [by rewrite next_attempt_cache|].
  match goal with |- context [Cache_get ?c ?k ?n] => pose proof (Cache_get_subseteq c k n) as Hg end.
  destruct (Cache_get _ _ _) as [cc [entry|]]; simpl in Hg.
  - case_match; [|by rewrite settle_cache]. etrans; [apply IH|done].
  - by rewrite next_attempt_cache.
Qed.

Lemma next_candidate_cache e id now : cache (next_candidate e id now).1 ⊆ cache e.
Proof.
  unfold next_candidate. destruct (tasks e !! id); [|done]. apply next_candidate_from_cache.
Qed.

(** A reply adds at most one entry, and none for an invalidated task. *)
Lemma received_answer_cache `{MapOrder} e id t server message code now :
  let cand := current_or_original t in
  let ttl := reply_ttl message cand (t_rtype t) code in
  cache (received_answer e id t server message code now).1 ⊆
  (if (0 <? ttl) && negb (t_cache_invalidated t) then
     Cache_insert (cache e) (CacheKey_new cand (t_rtype t) (scope_or_default t))
       (mkEntry (reply_outcome code) (reply_records message cand (t_rtype t) code) code server
          (now + from_secs ttl)) now
   else cache e).
Proof.
  cbv zeta. unfold received_answer. set (b := (_ && negb (t_cache_invalidated t))%bool).
  destruct (_ && negb (bool_decide (t_candidates t = []))).
  - etrans; [apply next_candidate_cache|]. by destruct b.
  - rewrite settle_cache. by destruct b.
Qed.

Lemma received_invalidated `{MapOrder} e tx x t bytes now :
  txs e !! tx = Some x -> tasks e !! x_task x = Some t -> t_cache_invalidated t = true ->
  cache (received e tx bytes now).1 ⊆ cache e.
Proof.
  intros Hx Ht Hi. unfold received. rewrite Hx.
  destruct (matching_response e tx bytes) as [m|]; [|done].
  cbn [tasks put_txs]. rewrite Ht.
  destruct (_ && negb (x_tcp x)); [by rewrite send_cache|].
  destruct (_ && (Message_rcode m <? 16)); [|by rewrite next_attempt_cache].
  etrans; [apply received_answer_cache|]. simpl. by rewrite Hi, andb_false_r.
Qed.

(** ** Where queries go *)

Lemma settle_no_send e id a tx server itf tcp payload :
  Send tx server itf tcp payload ∉ (settle e id a).2.
Proof.
  unfold settle. repeat case_match; simpl; intros Hin;
    try (by apply elem_of_nil in Hin); by apply list_elem_of_singleton in Hin.
Qed.

Lemma send_sends e id server tcp now t tx' server' itf tcp' payload :
  tasks e !! id = Some t -> Send tx' server' itf tcp' payload ∈ (send e id server tcp now).2 ->
  server' = server /\ tcp' = tcp /\ itf = t_scope t ≫= interface_of e.
Proof.
  intros Ht. unfold send. rewrite Ht.
  destruct (_ <=? _)%nat; [by intros ?%settle_no_send|].
  destruct (_ <=? _)%nat; [by intros ?%settle_no_send|].
  destruct (entropy e (drawn e)); [|by intros ?%settle_no_send].
  simpl. intros [= _ -> -> -> _]%list_elem_of_singleton. done.
Qed.

(** The transaction and the packet of a send. *)
Lemma send_emits e id t c server tcp now tx server' itf tcp' payload :
  focus id t e -> t_current t = Some c ->
  Send tx server' itf tcp' payload ∈ (send e id server tcp now).2 ->
  exists x n, txs (send e id server tcp now).1 !! tx = Some x /\ n ≃ c /\ x_task x = id /\
    x_server x = server' /\ x_question x = mkQuestion n (t_rtype t) class_IN /\ tx_ok x /\
    payload = message_wire (Message_query (x_dns_id x) (x_question x)).
Proof.
  intros [Ht _ Htk Hcf] Hc. unfold send. rewrite Ht.
  destruct (_ <=? _)%nat; [by intros ?%settle_no_send|].
  destruct (_ <=? _)%nat; [by intros ?%settle_no_send|].
  destruct (entropy e (drawn e)) as [r|] eqn:He; [|by intros ?%settle_no_send].
  apply (cf_entropy e Hcf) in He as [_ Hr].
  unfold current_or_original. rewrite Hc. cbn [default].
  cbn [snd fst] in *. intros [= -> -> _ _ ->]%list_elem_of_singleton.
  pose proof (sent_tx_ok id t c r server tcp (now + SERVER_TIMEOUT) Htk Hc Hr) as Hxok.
  eexists _, (randomise_case (case_bits r) c). split; [apply lookup_insert_eq|]. split_and!; try done.
  - apply randomise_case_equiv.
  - pose proof (proj1 (query_encodes _ _ (xk_id _ Hxok) (xk_question _ Hxok))) as Henc.
    cbn [x_dns_id x_question] in *. change (Datatypes.id c) with c. by rewrite Henc.
Qed.

Lemma servers_of_subset e scope now s : s ∈ servers_of e scope now -> s ∈ scope_servers e scope.
Proof. by rewrite servers_of_perm. Qed.

Lemma scope_servers_update id f e scope : scope_servers (update_task id f e) scope = scope_servers e scope.
Proof. done. Qed.

(** The server an attempt picks is one of the scope's. *)
Lemma chosen_server_elem (tried : list IpAddr) first rest k :
  match List.find (fun s => negb (bool_decide (s ∈ tried))) (first :: rest) with
  | Some s => s
  | None => default first ((first :: rest) !! k)
  end ∈ first :: rest.
Proof.
  destruct (List.find _ (first :: rest)) as [s|] eqn:Ef.
  - apply find_some in Ef as [Hin _]. by apply list_elem_of_In.
  - destruct ((first :: rest) !! k) as [s|] eqn:El; cbn [default]; [by eapply list_elem_of_lookup_2|by left].
Qed.

Lemma next_attempt_sends e id now t tx server itf tcp payload :
  tasks e !! id = Some t -> Send tx server itf tcp payload ∈ (next_attempt e id now).2 ->
  server ∈ scope_servers e (scope_or_default t) /\ tcp = false /\ itf = t_scope t ≫= interface_of e.
Proof.
  intros Ht. unfold next_attempt. rewrite Ht.
  destruct (_ <=? _)%nat; [by intros ?%settle_no_send|].
  pose proof (servers_of_subset e (scope_or_default t) now) as Hsub.
  destruct (servers_of e (scope_or_default t) now) as [|first rest]; [by intros ?%settle_no_send|].
  set (server' := match List.find _ _ with Some s => s | None => _ end).
  assert (server' ∈ first :: rest) as Hin by apply chosen_server_elem.
  intros Hs. apply (send_sends _ _ _ _ _ (set_tried (t_tried t ++ [server']) t)) in Hs.
  - destruct Hs as (-> & -> & ->). split_and!; [by apply Hsub|done|done].
  - unfold update_task. simpl. by rewrite lookup_alter_eq, Ht.
Qed.

(** A query for a candidate goes to a server of the scope the candidate is
    routed to, on that scope's interface, and over UDP first. *)
Lemma next_candidate_from_sends cs : forall e id now t tx server itf tcp payload,
  tasks e !! id = Some t ->
  Send tx server itf tcp payload ∈ (next_candidate_from cs e id now).2 ->
  exists c scope, c ∈ cs /\ route e c = Some scope /\ server ∈ scope_servers e scope /\
    itf = interface_of e scope /\ tcp = false.
Proof.
  induction cs as [|c rest IH]; intros e id now t tx server itf tcp payload Ht; cbn [next_candidate_from];
    rewrite Ht; [by intros ?%settle_no_send|].
  change (route (update_task id (take_candidate c rest) e) c) with (route e c).
  destruct (route e c) as [scope|] eqn:Hr; [|by intros ?%settle_no_send].
  set (t2 := set_scope (Some scope) (take_candidate c rest t)).
  set (e2 := update_task id (set_scope (Some scope)) (update_task id (take_candidate c rest) e)).
  assert (tasks e2 !! id = Some t2) as Ht2.
  { unfold e2, update_task. simpl. by rewrite !lookup_alter_eq, Ht. }
  assert (forall e3, tasks e3 = tasks e2 -> scopes e3 = scopes e ->
    fallback_servers e3 = fallback_servers e ->
    Send tx server itf tcp payload ∈ (next_attempt e3 id now).2 ->
    exists c0 scope0, c0 ∈ c :: rest /\ route e c0 = Some scope0 /\ server ∈ scope_servers e scope0 /\
    itf = interface_of e scope0 /\ tcp = false) as Hatt.
  { intros e3 H1 H2 H3 Hs. apply (next_attempt_sends e3 id now t2) in Hs as (Hin & -> & ->); [|by rewrite H1].
    exists c, scope. unfold scope_servers, interface_of in *. simpl in *. rewrite H2, H3 in Hin.
    rewrite H2. split_and!; [by left|done..]. }
  destruct (t_no_cache t); [by apply Hatt|].
  destruct (Cache_get _ _ _) as [cc [entry|]]; [|by apply Hatt].
  case_match; [|by intros ?%settle_no_send].
  intros Hs. eapply IH in Hs; [|exact Ht2].
  destruct Hs as (c0 & scope0 & Hc & Hr0 & ?). exists c0, scope0. split; [by right|]. done.
Qed.

(** ** Local answers *)

Lemma advance_synthetic `{MapOrder} e id t now a :
  tasks e !! id = Some t -> t_current t = None -> t_candidates t = [] -> t_attempt t = 0%nat ->
  synthetic e (t_original t) (t_rtype t) = Some a ->
  advance e id now = settle (count add_synthetic e) id a.
Proof.
  intros Ht Hcur Hcs Ha Hs. unfold advance. rewrite Ht, Hcur, Hcs, Ha. simpl. by rewrite Hs.
Qed.

Lemma resolve_name_synthetic `{MapOrder} e q name rt nc now a :
  synthetic e name rt = Some a ->
  (resolve_name e q name rt nc now).2 = [Done q (CAnswer a)] /\
  txs (resolve_name e q name rt nc now).1 = txs e.
Proof.
  intros Hs. unfold resolve_name, start_task. cbn [fresh_id].
  set (t := mkTask _ _ _ _ _ _ _ _ _ _ _). set (e1 := put_tasks _ _).
  assert (tasks e1 !! next_id e = Some t) as Ht by apply lookup_insert_eq.
  rewrite (advance_synthetic e1 (next_id e) t now a); try done.
  unfold settle. change (tasks (count add_synthetic e1)) with (tasks e1). by rewrite Ht.
Qed.

(** ** Replies *)

Lemma reply_records_sound m c rt code r :
  r ∈ reply_records m c rt code ->
  reply_outcome code = Found /\
  exists r0, r = recase c r0 /\ justified (answers m) c rt r0.
Proof.
  unfold reply_records. destruct (relevant_records (answers m) c rt) as [kept name] eqn:E.
  destruct (relevant_records_sound _ _ _ _ _ E) as (_ & Hj & _). rewrite Forall_forall in Hj.
  rewrite list_elem_of_In, in_map_iff. intros (r0 & <- & Hin).
  apply filter_In in Hin as [Hin Hf]. bool_simpl. split; [done|]. exists r0.
  split; [done|]. by apply Hj, list_elem_of_In.
Qed.

Lemma recase_spec c r : r_name (recase c r) ≃ r_name r /\ r_ttl (recase c r) = r_ttl r /\
  r_rdata (recase c r) = r_rdata r /\ r_rtype (recase c r) = r_rtype r /\ r_class (recase c r) = r_class r.
Proof.
  unfold recase. destruct (Name_eqb (r_name r) c) eqn:E; [|done].
  apply Name_eqb_spec in E. split_and!; [by symmetry|done..].
Qed.

(** A record at the asked name takes the spelling of the question, any other
    keeps its own. *)
Lemma recase_name c r :
  (r_name r ≃ c -> r_name (recase c r) = c) /\ (~ r_name r ≃ c -> r_name (recase c r) = r_name r).
Proof.
  unfold recase. pose proof (Name_eqb_spec (r_name r) c) as Hs.
  destruct (Name_eqb (r_name r) c); split; intros Hn; try done.
  - destruct Hn. by apply Hs.
  - by apply Hs in Hn.
Qed.

Lemma list_min_le l x : x ∈ l -> exists m, list_min l = Some m /\ m <= x.
Proof.
  intros Hx. destruct (list_min l) as [m|] eqn:E.
  - apply list_min_Some in E as [_ Hle]. exists m. split; [done|by apply Hle].
  - apply list_min_None in E as ->. by apply elem_of_nil in Hx.
Qed.

Lemma reply_ttl_records m c rt code r :
  r ∈ reply_records m c rt code -> reply_ttl m c rt code <= r_ttl r /\
  reply_ttl m c rt code <= MAX_POSITIVE_TTL.
Proof.
  intros Hr. destruct (reply_records_sound _ _ _ _ _ Hr) as [Ho _]. unfold reply_ttl.
  destruct (relevant_records _ _ _) as [kept name]. rewrite Ho.
  rewrite (bool_decide_eq_false_2 (reply_records m c rt code = [])).
  2:{ intros E. rewrite E in Hr. by apply elem_of_nil in Hr. }
  simpl. destruct (list_min_le (map r_ttl (reply_records m c rt code)) (r_ttl r)) as (mn & -> & Hle).
  { apply list_elem_of_In, in_map_iff. exists r. split; [done|by apply list_elem_of_In]. }
  simpl. unfold MAX_POSITIVE_TTL. lia.
Qed.

Lemma reply_ttl_negative m c rt code :
  reply_records m c rt code = [] -> reply_ttl m c rt code <= MAX_NEGATIVE_TTL.
Proof.
  intros E. unfold reply_ttl. destruct (relevant_records _ _ _) as [kept name]. rewrite E.
  rewrite andb_false_r. pose proof (negative_ttl_le (authority m) name). lia.
Qed.

(** An absence is cached only when an SOA of the effective name's zone allows
    it. *)
Lemma reply_ttl_negative_pos m c rt code :
  reply_records m c rt code = [] -> 0 < reply_ttl m c rt code ->
  exists r t, r ∈ authority m /\ r_class r = class_IN /\
    ends_with (relevant_records (answers m) c rt).2 (r_name r) = true /\ soa_ttl r = Some t /\
    reply_ttl m c rt code <= t.
Proof.
  intros E. unfold reply_ttl. destruct (relevant_records _ _ _) as [kept name]. rewrite E.
  rewrite andb_false_r. intros Hp.
  destruct (negative_ttl_pos (authority m) name) as (r & t & ? & ? & ? & ? & Ht); [lia|].
  exists r, t. rewrite Ht. split_and!; try done. unfold MAX_NEGATIVE_TTL. lia.
Qed.

(** ** How long an entry lives *)

(** An entry made of the reply [m] at [now], for the candidate [c]: it lives no
    longer than any of its records and than a day; without records no longer
    than five minutes and than an SOA of the zone of the name it is about. *)
Definition lives (now : Z) (m : Message) (c : Name) (rt : Z) (entry : Entry) : Prop :=
  now < e_expires entry /\
  (forall r, r ∈ e_records entry ->
     e_expires entry <= now + r_ttl r * 1000000000 /\ e_expires entry <= now + 86400 * 1000000000) /\
  (e_records entry = [] ->
     e_expires entry <= now + 300 * 1000000000 /\
     exists soa mname rname serial refresh retry expire minimum,
       soa ∈ authority m /\ r_class soa = class_IN /\
       ends_with (relevant_records (answers m) c rt).2 (r_name soa) = true /\
       r_rdata soa = RSoa mname rname serial refresh retry expire minimum /\
       e_expires entry <= now + r_ttl soa * 1000000000 /\ e_expires entry <= now + minimum * 1000000000).

Lemma entry_lives m c rt code server now :
  0 < reply_ttl m c rt code ->
  lives now m c rt (mkEntry (reply_outcome code) (reply_records m c rt code) code server
                      (now + from_secs (reply_ttl m c rt code))).
Proof.
  intros Hp. unfold lives, from_secs, NANOS. cbn [e_expires e_records]. split; [lia|]. split.
  - intros r Hr. destruct (reply_ttl_records m c rt code r Hr) as [H1 H2].
    change MAX_POSITIVE_TTL with 86400 in H2. lia.
  - intros E. pose proof (reply_ttl_negative m c rt code E) as Hn. change MAX_NEGATIVE_TTL with 300 in Hn.
    split; [lia|]. destruct (reply_ttl_negative_pos m c rt code E Hp) as (r & t & Hr & Hc & He & Hs & Ht).
    unfold soa_ttl in Hs. destruct (r_rdata r) eqn:Hd; try done. injection Hs as <-.
    exists r. repeat eexists; [done|done|done|done|lia|lia].
Qed.

(** Whatever arrives, an entry that was not there before is the reply's, for
    the question that was asked, and lives as long as the reply allows. *)
Lemma received_entry_lives `{MapOrder} e tx bytes now k entry :
  cache (received e tx bytes now).1 !! k = Some entry ->
  cache e !! k = Some entry \/
  exists x t m, txs e !! tx = Some x /\ tasks e !! x_task x = Some t /\ matching_response e tx bytes = Some m /\
    k = CacheKey_new (current_or_original t) (t_rtype t) (scope_or_default t) /\
    t_cache_invalidated t = false /\ lives now m (current_or_original t) (t_rtype t) entry.
Proof.
  unfold received. destruct (txs e !! tx) as [x|] eqn:Hx; [|by left].
  destruct (matching_response e tx bytes) as [m|] eqn:Hm; [|by left].
  cbn [tasks put_txs]. destruct (tasks e !! x_task x) as [t|] eqn:Ht; [|by left].
  destruct (_ && negb (x_tcp x)); [rewrite send_cache; by left|].
  destruct (_ && (Message_rcode m <? 16)); [|rewrite next_attempt_cache; by left].
  intros Hk. pose proof (lookup_weaken _ _ _ _ Hk (received_answer_cache _ _ _ _ _ _ _)) as Hin.
  cbn [current_or_original t_rtype scope_or_default t_cache_invalidated set_tx] in Hin.
  change (current_or_original (set_tx None t)) with (current_or_original t) in Hin.
  change (scope_or_default (set_tx None t)) with (scope_or_default t) in Hin.
  destruct (_ && negb (t_cache_invalidated t)) eqn:Hb; [|by left].
  apply andb_true_iff in Hb as [Hp%Z.ltb_lt Hi%negb_true_iff].
  unfold Cache_insert in Hin. apply lookup_insert_Some in Hin as [[<- <-]|[_ Hin]].
  - right. exists x, t, m. split_and!; try done. by apply entry_lives.
  - left. exact (lookup_weaken _ _ _ _ Hin (make_room_subseteq _ _ _)).
Qed.
