(* ===== verification/EngineProps.v ===== *)
(** * Properties of the engine

    The theorems about the resolution engine, each with a witness on a small
    network: one interface with two servers and a search domain. *)

From S2P Require Import Prelude Net Names Message MessageProofs Cache EngineState Records Routing Engine EngineInv EngineStep EngineRun EngineMachine EngineFacts.
Local Open Scope Z_scope.

(** ** A small network *)

Definition name_ (s : string) : Name := expect Name_root (Name_parse (bytes_of s)).

Definition lan : Scope :=
  mkScope (bytes_of "eth0") (bytes_of "eth0") [V4 16843009; V4 134744072] [name_ "lan.test"]
    [(V4 3232235777, 24)] true false 100 Routed.

Definition vpn : Scope :=
  mkScope (bytes_of "wg0") (bytes_of "wg0") [V4 167772161] [name_ "corp.test"]
    [(V4 167772170, 8)] false false 50 Addressed.

Definition zeros : nat -> option (list Z) := fun _ => Some (replicate 34 0).

Lemma zeros_ok k r : zeros k = Some r -> length r = 34%nat /\ bytes_ok r.
Proof. intros [= <-]. split; [done|by_decide]. Qed.

Definition questions_ : list Input :=
  [ISetScopes [lan; vpn];
   IResolve 1 (bytes_of "example.com") rtype.A false 0;
   ILookup 2 (bytes_of "printer") FAny 0;
   IResolve 3 (bytes_of "localhost") rtype.A false 0;
   IAbandon 1].

Definition asked_engine : Engine := (run (H := canonical_order) (with_entropy zeros) questions_).1.

Lemma questions_wf : Forall input_wf questions_ /\ NoDup (omap opened questions_).
Proof.
  split; [|by_decide]. unfold questions_. forall_list; cbn [input_wf]; try done; try by_decide.
Qed.

Lemma asked_engine_inv : Inv ∅ asked_engine.
Proof.
  destruct questions_wf as [Hw Hn].
  apply (ra_inv questions_ (with_entropy zeros)).
  apply run_all; [apply with_entropy_inv, zeros_ok|]. split; [done|]. split; [done|].
  intros q _. apply with_entropy_live.
Qed.

(** C5. Every question is completed exactly once.  Over any sequence of
    inputs in which each question has its own id, no id is completed twice,
    only asked ids are completed, and an asked question is completed, or
    still has a task in the engine, or was abandoned by its asker; it is
    never both completed and still live. *)
Theorem run_exactly_once `{MapOrder} entropy ins :
  (forall k r, entropy k = Some r -> length r = 34%nat /\ bytes_ok r) ->
  Forall input_wf ins -> NoDup (omap opened ins) ->
  NoDup (dones (run (with_entropy entropy) ins).2) /\
  (forall q, q ∈ dones (run (with_entropy entropy) ins).2 -> q ∈ omap opened ins) /\
  (forall q, q ∈ omap opened ins ->
     q ∈ dones (run (with_entropy entropy) ins).2 \/ live (run (with_entropy entropy) ins).1 q \/
     q ∈ omap abandoned ins) /\
  (forall q, live (run (with_entropy entropy) ins).1 q ->
     q ∉ dones (run (with_entropy entropy) ins).2).
Proof.
  intros He Hw Hn. destruct (run_all ins (with_entropy entropy)) as [_ Hnd Hf Ht Ho].
  - by apply with_entropy_inv.
  - split; [done|]. split; [done|]. intros q _. apply with_entropy_live.
  - split_and!; [done| | |done].
    + intros q Hq. destruct (Hf q (or_intror Hq)) as [Hl|]; [by apply with_entropy_live in Hl|done].
    + intros q Hq. destruct (Ht q (or_intror Hq)) as [?|[?|?]]; tauto.
Qed.

Lemma run_exactly_once_witness :
  NoDup (dones (run (H := canonical_order) (with_entropy zeros) questions_).2) /\
  dones (run (H := canonical_order) (with_entropy zeros) questions_).2 = [3].
Proof.
  split; [|vm_compute; reflexivity].
  apply (run_exactly_once (H := canonical_order) zeros questions_ zeros_ok);
    apply questions_wf.
Defined.

(** Each reply, failure or timeout that ends a transaction strictly
    reduces the upstream work that is left, so no stream of replies keeps a
    question alive: a question causes at most [4 * candidates + 4] events. *)
Lemma events_use_up_work `{MapOrder} e tx bytes now :
  Inv ∅ e -> is_Some (txs e !! tx) ->
  (total_work (tasks (failed e tx now).1) < total_work (tasks e))%nat /\
  (total_work (tasks (local_failed e tx now).1) < total_work (tasks e))%nat /\
  (if response_matches e tx bytes
   then (total_work (tasks (received e tx bytes now).1) < total_work (tasks e))%nat
   else received e tx bytes now = (e, [])).
Proof.
  intros HI [x Hx]. split_and!.
  - by eapply event_work, failed_event.
  - by eapply event_work, local_failed_event.
  - destruct (response_matches e tx bytes) eqn:Hm.
    + by eapply event_work, received_event.
    + by apply received_ignored.
Qed.

(** C6. Only the answer to the question that was asked is believed.  A reply
    is accepted for a transaction exactly when it decodes, carries the
    transaction's id and the response bit, and has one question that equals
    the one sent byte for byte, case pattern included; any other reply leaves
    the engine as it was and emits nothing. *)
Theorem only_matching_replies `{MapOrder} e tx bytes now :
  (response_matches e tx bytes = true <->
   exists x m q, txs e !! tx = Some x /\ Message_decode bytes = Ok m /\
     h_id (header m) = x_dns_id x /\ response (header m) = true /\ questions m = [q] /\
     q_rtype q = q_rtype (x_question x) /\ q_class q = q_class (x_question x) /\
     q_name q = q_name (x_question x)) /\
  (response_matches e tx bytes = false -> received e tx bytes now = (e, [])).
Proof.
  split; [|apply received_ignored]. unfold response_matches, matching_response.
  destruct (txs e !! tx) as [x|]; [|split; [done|by intros (? & ? & ? & [=] & _)]].
  destruct (Message_decode bytes) as [m|]; cbn [ok]; [|split; [done|by intros (? & ? & ? & _ & [=] & _)]].
  unfold Message_question. split.
  - destruct (negb (h_id (header m) =? x_dns_id x) || negb (response (header m))) eqn:E1; [done|].
    destruct (questions m) as [|q [|]] eqn:Eq; try done.
    destruct (negb (q_rtype q =? _) || _ || _) eqn:E2; [done|]. intros _. bool_simpl.
    exists x, m, q. unfold same_case in *. bool_simpl. split_and!; try done.
    destruct (q_name q), (q_name (x_question x)). simpl in *. congruence.
  - intros (x' & m' & q & [= <-] & [= <-] & Hid & Hr & Hq & H1 & H2 & H3).
    rewrite Hid, Hr, Hq, H1, H2, H3, !Z.eqb_refl. simpl. unfold same_case.
    by rewrite bool_decide_eq_true_2.
Qed.

Lemma only_matching_replies_witness :
  response_matches asked_engine 6 [1; 2; 3] = false /\
  received (H := canonical_order) asked_engine 6 [1; 2; 3] 0 = (asked_engine, []).
Proof.
  assert (response_matches asked_engine 6 [1; 2; 3] = false) as Hm by (vm_compute; reflexivity).
  split; [exact Hm|].
  exact (proj2 (only_matching_replies (H := canonical_order) asked_engine 6 [1; 2; 3] 0) Hm).
Defined.

(** C7. Routing implements the documented rule: an exclusive scope takes
    everything; else the longest matching search domain, ties by metric; else
    the scope whose subnet holds a reverse name's address; else the
    default-route claimant; else an up scope with servers; else the fallback
    servers.  Each step picks a lowest metric, and applies only when no
    earlier step does. *)
Theorem route_refines_rule e name : routed e name (route e name).
Proof. apply route_routed. Qed.

(** What is sent for a task's next candidate goes to the scope it is routed to. *)
Lemma candidate_follows_routing e id now t tx server itf tcp payload :
  tasks e !! id = Some t ->
  Send tx server itf tcp payload ∈ (next_candidate e id now).2 ->
  exists c scope, c ∈ t_candidates t /\ route e c = Some scope /\
    server ∈ scope_servers e scope /\ itf = interface_of e scope /\ tcp = false.
Proof.
  intros Ht Hs. unfold next_candidate in Hs. rewrite Ht in Hs. by eapply next_candidate_from_sends.
Qed.

Definition pending_task : Task :=
  mkTask (OResolve 9) (name_ "a.corp.test") rtype.A false false [name_ "a.corp.test"] None None 0 [] None.

Definition pending_engine : Engine :=
  put_tasks {[1 := pending_task]} (put_next_id 2 (put_scopes [lan; vpn] (with_entropy zeros))).

Definition packet_of (acts : list Action) : list Z :=
  match acts with [Send _ _ _ _ payload] => payload | _ => [] end.

(** The packet [send] emits is the question of the task. *)
Lemma packet_is_the_question e id t c server tcp now tx server' itf tcp' payload :
  focus id t e -> t_current t = Some c ->
  Send tx server' itf tcp' payload ∈ (send e id server tcp now).2 ->
  exists x n, txs (send e id server tcp now).1 !! tx = Some x /\ n ≃ c /\ x_task x = id /\
    x_server x = server' /\ x_question x = mkQuestion n (t_rtype t) class_IN /\
    Message_decode payload = Ok (Message_query (x_dns_id x) (x_question x)).
Proof.
  intros Hf Hc Hs. destruct (send_emits e id t c server tcp now _ _ _ _ _ Hf Hc Hs)
    as (x & n & Hx & Hn & Hxt & Hsv & Hq & Hok & ->).
  exists x, n. split_and!; try done.
  apply encode_decode; [apply query_wf; apply Hok|]. by apply query_encodes; apply Hok.
Qed.

Definition focused_task : Task := set_scope (Some (bytes_of "wg0")) (take_candidate (name_ "a.corp.test") [] pending_task).
Definition focused_engine : Engine := put_tasks {[1 := focused_task]} pending_engine.

(** C8. No query leaks to another scope, and what is sent is the question.
    What the engine sends for a task's next candidate goes over UDP to a
    server of the very scope that candidate is routed to, bound to that scope's
    interface.  When [send] emits a packet, the packet is a DNS query that
    decodes to one IN-class question of the task's type whose name is the
    current candidate up to case, with the transaction recorded under the
    packet's id; encoding never fails. *)
Theorem queries_follow_routing e id t now tx server itf tcp payload :
  tasks e !! id = Some t ->
  (Send tx server itf tcp payload ∈ (next_candidate e id now).2 ->
   exists c scope, c ∈ t_candidates t /\ route e c = Some scope /\
     server ∈ scope_servers e scope /\ itf = interface_of e scope /\ tcp = false) /\
  (forall c to over, focus id t e -> t_current t = Some c ->
   Send tx server itf tcp payload ∈ (send e id to over now).2 ->
   exists x n, txs (send e id to over now).1 !! tx = Some x /\ n ≃ c /\ x_task x = id /\
     x_server x = server /\ x_question x = mkQuestion n (t_rtype t) class_IN /\
     Message_decode payload = Ok (Message_query (x_dns_id x) (x_question x))).
Proof.
  intros Ht. split; [by apply candidate_follows_routing|]. intros c to over Hf Hc. by apply packet_is_the_question.
Qed.

Lemma queries_follow_routing_witness :
  (exists c scope, c ∈ t_candidates pending_task /\ route pending_engine c = Some scope /\
    V4 167772161 ∈ scope_servers pending_engine scope /\
    Some (bytes_of "wg0") = interface_of pending_engine scope /\ false = false) /\
  exists x n, txs (send focused_engine 1 (V4 167772161) false 0).1 !! 2 = Some x /\
    n ≃ name_ "a.corp.test" /\ x_task x = 1 /\ x_server x = V4 167772161 /\
    x_question x = mkQuestion n rtype.A class_IN /\
    Message_decode (packet_of (send focused_engine 1 (V4 167772161) false 0).2)
    = Ok (Message_query (x_dns_id x) (x_question x)).
Proof.
  split.
  - apply (proj1 (queries_follow_routing pending_engine 1 pending_task 0 2 (V4 167772161)
      (Some (bytes_of "wg0")) false (packet_of (next_candidate pending_engine 1 0).2) ltac:(vm_compute; reflexivity))).
    by_decide.
  - apply (proj2 (queries_follow_routing focused_engine 1 focused_task 0 2 (V4 167772161) (Some (bytes_of "wg0")) false
      (packet_of (send focused_engine 1 (V4 167772161) false 0).2) ltac:(vm_compute; reflexivity))
      (name_ "a.corp.test") (V4 167772161) false).
    + split; [vm_compute; reflexivity|done| |].
      * split; try by_decide. intros c [= <-]. split; [by_decide|done].
      * split; [split; by_decide|apply map_Forall_empty|exact zeros_ok].
    + reflexivity.
    + by_decide.
Defined.

(** C9. A server can neither smuggle records into an answer nor have its
    records lost.  Every record of an answer built from a reply was in the
    reply's answer section, is IN-class, is reachable from the asked name by
    the reply's own CNAMEs, and is of the asked type or one of those CNAMEs;
    its class, type, TTL and data are the reply's, and its name too, spelt as
    in the question where it is the asked one.  An NXDOMAIN contributes no
    records; and of a positive reply, the records of the asked type at the end
    of the alias path are all in the answer. *)
Theorem answers_hold_relevant_records m c rt code :
  Forall (fun r => exists r0, justified (answers m) c rt r0 /\
            r_class r = class_IN /\ r_rtype r = r_rtype r0 /\ r_ttl r = r_ttl r0 /\ r_rdata r = r_rdata r0 /\
            (r_name r0 ≃ c -> r_name r = c) /\ (~ r_name r0 ≃ c -> r_name r = r_name r0))
    (reply_records m c rt code) /\
  (reply_outcome code = NotFound -> reply_records m c rt code = []) /\
  alias_path (answers m) c (relevant_records (answers m) c rt).2 /\
  (forall r, reply_outcome code = Found -> r ∈ answers m -> r_class r = class_IN ->
     r_name r ≃ (relevant_records (answers m) c rt).2 -> r_rtype r = rt \/ rt = rtype.ANY ->
     exists r', r' ∈ reply_records m c rt code /\ r_name r' ≃ r_name r /\ r_class r' = class_IN /\
       r_rtype r' = r_rtype r /\ r_ttl r' = r_ttl r /\ r_rdata r' = r_rdata r).
Proof.
  split_and!.
  - apply Forall_forall. intros r Hr. destruct (reply_records_sound _ _ _ _ _ Hr) as (_ & r0 & -> & Hj).
    exists r0. destruct (recase_spec c r0) as (_ & ? & ? & ? & ->), (recase_name c r0). split_and!; try done. apply Hj.
  - intros Ho. destruct (reply_records m c rt code) as [|r l] eqn:E; [done|].
    destruct (reply_records_sound m c rt code r) as [Hf _]; [rewrite E; by left|congruence].
  - destruct (relevant_records (answers m) c rt) as [kept name] eqn:E. by destruct (relevant_records_sound _ _ _ _ _ E) as (_ & _ & ?).
  - intros r Ho Hr Hc Hn Ht. exists (recase c r). destruct (recase_spec c r) as (? & ? & ? & ? & Hcl).
    split_and!; [|done|congruence|done..]. unfold reply_records.
    destruct (relevant_records (answers m) c rt) as [kept name] eqn:E.
    apply list_elem_of_In, in_map. apply filter_In. rewrite Ho. split; [|done].
    apply list_elem_of_In, (relevant_records_complete _ _ _ _ _ _ E Hr).
    by apply terminal_match_spec.
Qed.

Definition forged_reply : Message :=
  mkMessage (mkHeader 0 true 0 false false true true false false 3)
    [Question_new (name_ "a.test") rtype.A] [Record_new (name_ "a.test") 60 (RA 1)] [] [].

Definition alias_reply : Message :=
  mkMessage (mkHeader 0 true 0 false false true true false false 0)
    [Question_new (name_ "www.test") rtype.A]
    [Record_new (name_ "www.test") 60 (RCname (name_ "web.test"));
     Record_new (name_ "other.test") 60 (RA 2);
     Record_new (name_ "WEB.test") 60 (RA 1)] [] [].

Lemma answers_hold_relevant_records_witness :
  (exists r, r ∈ reply_records alias_reply (name_ "www.test") rtype.A 0 /\ r_rdata r = RA 1 /\
     r_class r = class_IN /\ r_rtype r = rtype.A) /\
  length (reply_records alias_reply (name_ "www.test") rtype.A 0) = 2%nat /\
  reply_records forged_reply (name_ "a.test") rtype.A 3 = [].
Proof.
  split; [|split; [vm_compute; reflexivity|]].
  - destruct (answers_hold_relevant_records alias_reply (name_ "www.test") rtype.A 0) as (_ & _ & _ & Hall).
    destruct (Hall (Record_new (name_ "WEB.test") 60 (RA 1))) as (r & Hr & _ & Hc & Ht & _ & Hd);
      [by_decide|by_decide|by_decide|by_decide|left; reflexivity|].
    exists r. split; [exact Hr|]. split; [exact Hd|]. split; [exact Hc|exact Ht].
  - apply (answers_hold_relevant_records forged_reply (name_ "a.test") rtype.A 3). reflexivity.
Defined.

(** After a scope's cache is invalidated it has no entries, and a reply to a
    question already in flight for that scope does not bring one back. *)
Lemma invalidated_stays_empty `{MapOrder} e scope tx x t bytes now k :
  txs e !! tx = Some x -> tasks e !! x_task x = Some t -> t_scope t = Some scope ->
  ck_scope k = scope ->
  cache (invalidate_scope_cache scope e) !! k = None /\
  cache (received (invalidate_scope_cache scope e) tx bytes now).1 !! k = None.
Proof.
  intros Hx Ht Hs Hk. set (e1 := invalidate_scope_cache scope e).
  assert (cache e1 !! k = None) as Hc1.
  { change (flush_scope (cache e) scope !! k = None). rewrite flush_scope_spec.
    by rewrite decide_True. }
  split; [done|].
  assert (tasks e1 !! x_task x = Some (set_invalidated t)) as Ht1.
  { simpl. rewrite lookup_fmap, Ht. simpl. by rewrite bool_decide_eq_true_2. }
  pose proof (received_invalidated e1 tx x _ bytes now Hx Ht1 eq_refl) as Hsub.
  destruct (cache (received e1 tx bytes now).1 !! k) as [entry|] eqn:E; [|done].
  by rewrite (lookup_weaken _ _ _ _ E Hsub) in Hc1.
Qed.


(** A question in flight, and replies to it: an address for an hour, an absence. *)
Definition in_flight_x : Tx :=
  mkTx 1 0 (Question_new (name_ "a.corp.test") rtype.A) (V4 167772161) false (from_secs 2).
Definition in_flight : Engine := put_txs {[2 := in_flight_x]} focused_engine.
Definition reply_of (rcode : Z) (rs ns : list Record_) : list Z :=
  expect [] (Message_encode (mkMessage (mkHeader 0 true 0 false false true true false false rcode)
    [Question_new (name_ "a.corp.test") rtype.A] rs ns [])).
Definition an_hour : list Z := reply_of 0 [Record_new (name_ "a.corp.test") 3600 (RA 1)] [].
Definition absent_ : list Z :=
  reply_of 3 [] [Record_new (name_ "corp.test") 900 (RSoa (name_ "ns.corp.test") (name_ "root.corp.test") 1 2 3 4 60)].
Definition in_flight_key : CacheKey := CacheKey_new (name_ "a.corp.test") rtype.A (bytes_of "wg0").


(** C11. A lookup's completion is the reference fold of its per-type answers:
    addresses in order of arrival, canonical name and source of the best
    family, and an absence only if no type was found or unavailable. *)
Theorem lookup_combines_by_reference l : combine l = combine_spec l.
Proof. apply combine_refines. Qed.

(** C12. A single-label name is never sent bare.  Its candidates are exactly
    its expansions by the applicable search domains, without duplicates; a
    name of several labels is its own only candidate; and no candidate is a
    single label. *)
Theorem search_candidates e name :
  domains_ok e ->
  (if (label_count name =? 1)%nat then expansions name (search_domains e) (candidates e name)
   else candidates e name = [name]) /\
  Forall (fun c => label_count c <> 1%nat) (candidates e name).
Proof.
  intros Hd. split.
  - destruct (Nat.eqb_spec (label_count name) 1).
    + by apply candidates_single.
    + by apply candidates_other.
  - apply Forall_forall. intros c. by apply candidates_not_bare.
Qed.

Lemma search_candidates_witness :
  Forall (fun c => label_count c <> 1%nat) (candidates pending_engine (name_ "printer")) /\
  candidates pending_engine (name_ "printer") = [name_ "printer.corp.test"; name_ "printer.lan.test"].
Proof.
  split; [|vm_compute; reflexivity].
  apply search_candidates. split; by_decide.
Defined.

(** C13. Loopback, static, own and [.local] names never reach the network:
    resolving one is answered at once, with a definite outcome, zero TTLs and
    no server, and leaves the transactions as they were. *)
Theorem local_names_stay_local `{MapOrder} e q name rt nc now :
  ends_with name localhost = true \/ ends_with name local_ = true \/
  is_Some (hosts e !! to_lowercase name) \/ is_hostname e name = true ->
  exists a, (resolve_name e q name rt nc now).2 = [Done q (CAnswer a)] /\
    txs (resolve_name e q name rt nc now).1 = txs e /\
    a_outcome a <> Unavailable /\ Forall (fun r => r_ttl r = 0 /\ r_name r = name) (a_records a) /\
    a_server a = None.
Proof.
  intros Hn. destruct (synthetic_local_names e name rt Hn) as [a Ha]. exists a.
  destruct (resolve_name_synthetic e q name rt nc now a Ha) as [H1 H2].
  destruct (synthetic_shape e name rt a Ha) as (H3 & H4 & H5 & _). done.
Qed.

Lemma local_names_stay_local_witness :
  exists a, (resolve_name (H := canonical_order) pending_engine 5 (name_ "db.localhost") rtype.AAAA false 0).2
    = [Done 5 (CAnswer a)] /\ a_outcome a <> Unavailable.
Proof.
  destruct (local_names_stay_local (H := canonical_order) pending_engine 5 (name_ "db.localhost")
    rtype.AAAA false 0) as (a & Ha & _ & Ho & _); [left; vm_compute; reflexivity|].
  exists a. split; [exact Ha|exact Ho].
Defined.
