(* ===== verification/CodecProps.v ===== *)
(** * Properties of the DNS codec and of the cache

    The theorems about dns/src/lib.rs and resolvd/src/cache.rs. *)

From S2P Require Import Prelude Net Names Message MessageProofs Cache EngineState Routing.
Local Open Scope Z_scope.

Definition nm (s : string) : Name := expect Name_root (Name_parse (bytes_of s)).

(** ** Messages *)

Definition sample_message : Message :=
  mkMessage (mkHeader 4660 true 0 true false true true false true 3)
    [Question_new (nm "www.example.com") rtype.A]
    [Record_new (nm "www.example.com") 300 (RCname (nm "web.example.com"));
     Record_new (nm "web.example.com") 60 (RA 16843009);
     Record_new (nm "web.example.com") 60 (RTxt [bytes_of "a"; []])]
    [Record_new (nm "example.com") 900
       (RSoa (nm "ns.example.com") (nm "root.example.com") 1 2 3 4 5)]
    [Record_new (nm "_dns._udp.example.com") 5 (RSrv 1 2 53 (nm "ns.example.com"));
     Record_opt 1232 true].

(** C21. The message codec.  Whatever message the encoder accepts, every
    record type, flag and section of it, the decoder reads back equal.  For
    any bytes the decoder returns an error or a message whose names are legal,
    whose integers have their width and whose record data agrees with its
    type; when that message encodes again, it decodes to itself. *)
Theorem message_contract m bytes msg m' again :
  Message_wf m -> bytes_ok msg ->
  (Message_encode m = Ok bytes -> Message_decode bytes = Ok m) /\
  (Message_decode msg = Ok m' ->
   Message_wf m' /\ (Message_encode m' = Ok again -> Message_decode again = Ok m')).
Proof.
  intros Hm Hb. split; [by apply encode_decode|]. intros Hd. pose proof (decode_message_wf _ _ Hb Hd) as Hm'.
  split; [done|by apply encode_decode].
Qed.

Definition sample_bytes : list Z :=
  Eval vm_compute in expect [] (Message_encode sample_message).

Lemma message_contract_witness :
  Message_decode sample_bytes = Ok sample_message /\ Message_wf sample_message.
Proof.
  destruct (message_contract sample_message sample_bytes sample_bytes sample_message sample_bytes
    ltac:(by_decide) ltac:(by_decide)) as [H1 H2].
  split; [apply H1; vm_compute; reflexivity|]. apply H2. vm_compute. reflexivity.
Defined.

(** A query of a legal question always encodes, in at most 282 bytes: the
    [expect] of the engine's send path never panics. *)
Lemma queries_encode id q :
  is_u16 id -> Question_wf q ->
  exists bytes, Message_encode (Message_query id q) = Ok bytes /\ (length bytes <= 282)%nat.
Proof.
  intros Hid Hq. destruct (query_encodes id q Hid Hq) as [He Hl].
  exists (message_wire (Message_query id q)). done.
Qed.

(** ** Names *)

(** C23. Names.  Reading one terminates within its fuel on any message, and
    what is read is legal, with the next position after the start and inside
    the message: compression pointers cannot loop or escape.  Parsing yields
    legal names, printing is injective on them, and a name without bytes that
    need an escape parses back from its text.  [Eq], [Hash], [to_lowercase] and
    [ends_with] agree on one notion of sameness, ASCII case ignored: equal
    names hash alike, so they share cache and hosts entries, and suffix tests
    do not depend on case. *)
Theorem name_contract msg pos s n m a b :
  bytes_ok msg -> bytes_ok s -> Name_parse s = Ok n -> Name_wf m ->
  (read_loop READ_FUEL msg [] 0 pos None 0 = Some (Name_read msg pos) /\
   (forall x next, Name_read msg pos = Ok (x, next) -> Name_wf x /\ (pos < next <= length msg)%nat)) /\
  (Name_wf n /\ (Name_to_string n = Name_to_string m -> n = m) /\
   (Forall (Forall plain_byte) (labels m) -> Name_parse (Name_to_string m) = Ok m)) /\
  (Name_eqb a b = true <-> to_lowercase a = to_lowercase b) /\
  (Name_eqb a b = true -> Name_hash a = Name_hash b /\
     (forall t s, CacheKey_new a t s = CacheKey_new b t s) /\
     (forall c, ends_with a c = ends_with b c /\ ends_with c a = ends_with c b)).
Proof.
  intros Hmsg Hs Hp Hm. pose proof (Name_parse_wf s n Hs Hp) as Hn. rewrite Name_eqb_spec.
  split; [split; [by apply read_loop_done|intros x next; by apply Name_read_inv]|]. split_and!.
  - done.
  - by apply Name_to_string_inj.
  - by apply parse_to_string.
  - symmetry; apply to_lowercase_eq.
  - intros H. split; [by apply Name_hash_equiv|]. split; [intros t k; by apply CacheKey_new_eq|].
    intros c. by rewrite H.
Qed.

(** A pointer back to a name, and texts. *)
Lemma name_contract_witness :
  Name_read [192; 0] 0 = Err BadPointer /\
  Name_wf (nm "a") /\ Name_parse (Name_to_string (nm "x.y")) = Ok (nm "x.y") /\
  Name_hash (nm "WWW.Test") = Name_hash (nm "www.test").
Proof.
  split; [vm_compute; reflexivity|].
  destruct (name_contract [1; 97; 0; 192; 0] 3 (bytes_of "a.b") (nm "a.b") (nm "x.y") (nm "WWW.Test") (nm "www.test"))
    as ((_ & Hr) & (_ & _ & Hp) & _ & Hh); [by_decide|by_decide|vm_compute; reflexivity|by_decide|].
  split; [apply (Hr (nm "a") 5%nat); vm_compute; reflexivity|]. split; [apply Hp; by_decide|].
  apply Hh. vm_compute. reflexivity.
Defined.

(** 0x20 randomisation never changes which name is asked: the result is
    the same name up to case, as long and as legal, and the 256 case bits of
    a send are enough for any legal name. *)
Lemma case_randomisation_keeps_name bits n :
  Name_wf n ->
  randomise_case bits n ≃ n /\ Name_wf (randomise_case bits n) /\
  wire_len (randomise_case bits n) = wire_len n /\ ((randomise_labels bits 0 (labels n)).2 < 256)%nat.
Proof.
  intros Hn. split_and!.
  - apply randomise_case_equiv.
  - by apply randomise_case_wf.
  - apply equiv_wire_len, randomise_case_equiv.
  - apply randomise_bits_bound, Hn.
Qed.

(** A subnet test compares exactly the prefix: addresses of one family
    agree under a prefix length when their leading bits do; a zero prefix
    holds everything, and families never mix. *)
Lemma subnet_is_prefix_equality a b p :
  0 <= p ->
  (is_u32 a -> is_u32 b -> same_subnet (V4 a) p (V4 b) = true <->
     p = 0 \/ Z.shiftr a (32 - Z.min p 32) = Z.shiftr b (32 - Z.min p 32)) /\
  (is_u128 a -> is_u128 b -> same_subnet (V6 a) p (V6 b) = true <->
     p = 0 \/ Z.shiftr a (128 - Z.min p 128) = Z.shiftr b (128 - Z.min p 128)) /\
  same_subnet (V4 a) p (V6 b) = false /\ same_subnet (V6 a) p (V4 b) = false.
Proof.
  intros Hp.
  assert (forall w, 0 < w -> in_width w a -> in_width w b ->
    Z.land a (mask_of w p) =? Z.land b (mask_of w p) = true <->
    p = 0 \/ Z.shiftr a (w - Z.min p w) = Z.shiftr b (w - Z.min p w)) as Hw.
  { intros w Hw Ha Hb. rewrite Z.eqb_eq. destruct (decide (p = 0)) as [->|Hne].
    - unfold mask_of. simpl. rewrite !Z.land_0_r. tauto.
    - assert (mask_of w p = mask_of w (Z.min p w)) as ->.
      { unfold mask_of. destruct (Z.eqb_spec p 0); [done|].
        destruct (Z.eqb_spec (Z.min p w) 0); [lia|].
        by replace (Z.min (Z.min p w) w) with (Z.min p w) by lia. }
      rewrite mask_equal by (done || lia). split; [by right|by intros [?|?]]. }
  split_and!; try done; intros; by apply Hw.
Qed.

(** ** The cache *)

(** The cache is bounded and loses nothing it need not.  It stays within
    8192 entries and never holds [Unavailable], through lookups, insertions of
    definite answers, scope flushes and clearing; and when an entry goes in,
    another that is live is still there unless the cache was full of live
    entries, and then the one lost expires no later than any other. *)
Lemma cache_operations_safe `{MapOrder} c key entry now scope :
  Cache_ok c ->
  Cache_ok (Cache_get c key now).1 /\
  (e_outcome entry <> Unavailable -> Cache_ok (Cache_insert c key entry now)) /\
  Cache_ok (flush_scope c scope) /\ Cache_ok (Cache_clear c) /\
  (forall k e, c !! k = Some e -> now < e_expires e -> k <> key ->
     Cache_insert c key entry now !! k = Some e \/
     ((MAX_ENTRIES <= size (retain_live now c))%nat /\
      forall k' e', c !! k' = Some e' -> now < e_expires e' -> e_expires e <= e_expires e')).
Proof.
  intros Hc. split_and!; [by apply Cache_get_ok|by intros; apply Cache_insert_ok|by apply flush_scope_ok| |].
  - apply Cache_new_ok.
  - intros k e Hk Hl Hne. unfold Cache_insert. rewrite lookup_insert_ne by done.
    destruct (make_room c key now !! k) as [e'|] eqn:E.
    + left. pose proof (lookup_weaken _ _ _ _ E (make_room_subseteq c key now)). congruence.
    + right. by eapply make_room_lost.
Qed.

Definition entry_ (t : Z) : Entry := mkEntry Found [Record_new (nm "a.b") 100 (RA 1)] 0 (V4 1) t.
Definition key_ : CacheKey := CacheKey_new (nm "A.b") rtype.A (bytes_of "eth0").

(** The cache serves exactly its live entries: a lookup succeeds when the
    entry expires after now, returning it with every TTL cut to the whole
    seconds left, and otherwise returns nothing and drops the entry; no other
    entry is touched.  What was just inserted is found. *)
Lemma cache_lookup_spec `{MapOrder} c key now :
  match Cache_get c key now with
  | (c', Some out) => exists e, c !! key = Some e /\ now < e_expires e /\ c' = c /\
      out = mkEntry (e_outcome e)
        (map (min_ttl (wrap 32 (as_secs (e_expires e - now)))) (e_records e))
        (e_rcode e) (e_server e) (e_expires e)
  | (c', None) => c' = delete key c /\
      forall e, c !! key = Some e -> e_expires e <= now
  end /\
  (forall entry, now < e_expires entry ->
     exists out, (Cache_get (Cache_insert c key entry now) key now).2 = Some out).
Proof.
  split.
  - destruct (Cache_get c key now) as [c' [out|]] eqn:E.
    + apply Cache_get_Some in E as (e & ? & ? & ? & ?). eauto.
    + unfold Cache_get in E. destruct (c !! key) as [e|] eqn:Ek.
      * destruct (e_expires e <=? now) eqn:El; [|done]. bool_simpl. simplify_eq.
        split; [done|]. by intros ? [= <-].
      * simplify_eq. by rewrite delete_id.
  - intros entry Hl. unfold Cache_get. rewrite Cache_insert_lookup.
    destruct (e_expires entry <=? now) eqn:El; bool_simpl; [lia|]. simpl. eauto.
Qed.

(** C24. The contract of the cache.  Every operation keeps it bounded and free
    of unavailable answers; inserting loses another live entry only when the
    cache is full of live ones, and then one that expires first.  A lookup
    serves exactly the live entry, with every TTL cut to the whole seconds
    left, and drops an expired one; what was just inserted is found. *)
Theorem cache_contract `{MapOrder} c key entry now scope :
  Cache_ok c ->
  (Cache_ok (Cache_get c key now).1 /\
   (e_outcome entry <> Unavailable -> Cache_ok (Cache_insert c key entry now)) /\
   Cache_ok (flush_scope c scope) /\ Cache_ok (Cache_clear c) /\
   (forall k e, c !! k = Some e -> now < e_expires e -> k <> key ->
      Cache_insert c key entry now !! k = Some e \/
      ((MAX_ENTRIES <= size (retain_live now c))%nat /\
       forall k' e', c !! k' = Some e' -> now < e_expires e' -> e_expires e <= e_expires e'))) /\
  match Cache_get c key now with
  | (c', Some out) => exists e, c !! key = Some e /\ now < e_expires e /\ c' = c /\
      out = mkEntry (e_outcome e)
        (map (min_ttl (wrap 32 (as_secs (e_expires e - now)))) (e_records e))
        (e_rcode e) (e_server e) (e_expires e)
  | (c', None) => c' = delete key c /\
      forall e, c !! key = Some e -> e_expires e <= now
  end /\
  (now < e_expires entry -> exists out, (Cache_get (Cache_insert c key entry now) key now).2 = Some out).
Proof.
  intros Hc. split; [by apply cache_operations_safe|]. destruct (cache_lookup_spec c key now) as [Hg Hi].
  split; [done|]. by apply Hi.
Qed.

Lemma cache_contract_witness :
  Cache_ok (Cache_insert (H := canonical_order) Cache_new key_ (entry_ 5) 0) /\
  exists out, (Cache_get (Cache_insert (H := canonical_order) Cache_new key_ (entry_ 5) 0) key_ 0).2 = Some out.
Proof.
  destruct (cache_contract (H := canonical_order) Cache_new key_ (entry_ 5) 0 [] Cache_new_ok)
    as ((_ & Hok & _) & _ & Hget).
  split; [by apply Hok|]. apply Hget. vm_compute. reflexivity.
Defined.
