(* ===== verification/Io.v ===== *)
(** * Bounded I/O (resolvd/src/reply_queue.rs, accept_backoff.rs, entropy.rs)

    The queue of replies whose peer is not draining them, the pause after a
    failed [accept], and the loop that fills the entropy of a query.  What a
    stream or the kernel does on a call comes in as data. *)

From S2P Require Import Prelude Cache.
Local Open Scope Z_scope.

Inductive IoError : Type := WriteZero | TimedOut | IoWouldBlock | UnexpectedEof | IoOther.

(** ** Reads

    What one [read] on a nonblocking stream returned. *)
Inductive ReadTcp : Type :=
| ReadEof
| ReadBytes (chunk : list Z)
| ReadWouldBlock
| ReadInterrupted
| ReadError.

(** What a stream will yield: a [ReadBytes] is a stretch that is there at once,
    of which a read into a smaller buffer leaves the rest for the next read.
    [Ok(0)] is the end, and a stream with nothing more to yield blocks. *)
Definition read_some (room : nat) (rs : list ReadTcp) : ReadTcp * list ReadTcp :=
  match rs with
  | [] => (ReadWouldBlock, [])
  | ReadBytes [] :: rs => (ReadEof, rs)
  | ReadBytes chunk :: rs =>
      (ReadBytes (take room chunk),
       if (length chunk <=? room)%nat then rs else ReadBytes (drop room chunk) :: rs)
  | r :: rs => (r, rs)
  end.

Definition read_weight (r : ReadTcp) : nat := match r with ReadBytes chunk => 1 + length chunk | _ => 1 end.

(** More than the reads it takes to empty the stream. *)
Definition reads_weight (rs : list ReadTcp) : nat := sum_list (map read_weight rs).

(** The bytes a stream yields without ending, blocking or failing. *)
Definition arrived (rs : list ReadTcp) : list Z :=
  concat (map (fun r => match r with ReadBytes chunk => chunk | _ => [] end) rs).

Definition steady (r : ReadTcp) : Prop :=
  match r with ReadBytes chunk => chunk <> [] | ReadInterrupted => True | _ => False end.

Lemma reads_weight_cons r rs : reads_weight (r :: rs) = (read_weight r + reads_weight rs)%nat.
Proof. done. Qed.

(** One read of a steady stream: it yields some bytes or is interrupted. *)
Lemma read_some_steady room rs tail :
  (1 <= room)%nat -> Forall steady rs -> rs <> [] ->
  exists chunk rs', (read_some room (rs ++ tail) = (ReadBytes chunk, rs' ++ tail) /\ chunk <> [] \/
      read_some room (rs ++ tail) = (ReadInterrupted, rs' ++ tail) /\ chunk = []) /\
    (length chunk <= room)%nat /\ chunk ++ arrived rs' = arrived rs /\ Forall steady rs' /\
    (reads_weight rs' < reads_weight rs)%nat.
Proof.
  intros Hroom Hok Hne. destruct rs as [|r rs]; [done|]. apply Forall_cons in Hok as [Hr Hok].
  destruct r as [|[|b chunk]| | |]; try done.
  2: { exists [], rs. split_and!; [by right|simpl; lia|done|done|rewrite reads_weight_cons; simpl; lia]. }
  set (c := b :: chunk). exists (take room c).
  cbn [app]. unfold read_some; fold c.
  change (match c with [] => _ | _ => ?x end) with x.
  assert (take room c <> []) as Ht by (destruct room; [lia|done]).
  destruct (Nat.leb_spec (length c) room) as [Hl|Hl].
  - exists rs. rewrite take_ge by done. split_and!; [by left|done|done|done|].
    rewrite reads_weight_cons. simpl. lia.
  - exists (ReadBytes (drop room c) :: rs). split_and!; [by left|rewrite length_take; lia| | |].
    + unfold arrived. cbn [map concat]. by rewrite app_assoc, take_drop.
    + constructor; [|done]. simpl. intros E%(f_equal length). rewrite length_drop in E. simpl in *. lia.
    + rewrite !reads_weight_cons. cbn [read_weight]. rewrite length_drop.
      assert (1 <= length c)%nat by (simpl; lia). lia.
Qed.

(** ** The reply queue *)

Definition WRITE_TIMEOUT : Z := from_secs 1.
Definition MAX_PENDING_REPLIES : nat := 256.

(** [stream] is the descriptor of the peer's stream. *)
Record Pending : Type := mkPending {
  pd_stream : Z;
  pd_frame : list Z;
  pd_sent : nat;
  pd_deadline : Z;
}.

Record Replies : Type := mkReplies { pending : gmap Z Pending; r_next_id : Z }.

Definition Replies_default : Replies := mkReplies ∅ 0.

(** What a stream does with one [write]: it takes up to [n] bytes, or the
    call fails. *)
Inductive Write : Type := Takes (n : nat) | WriteWouldBlock | WriteInterrupted | WriteFails.

Definition write_once (w : Write) (bytes : list Z) : result IoError nat :=
  match w with
  | Takes n => if (n `min` length bytes =? 0)%nat then Err WriteZero else Ok (n `min` length bytes)%nat
  | WriteWouldBlock | WriteInterrupted => Ok 0%nat
  | WriteFails => Err IoOther
  end.

(** The bytes the peer got by it. *)
Definition wrote (w : Write) (bytes : list Z) : list Z :=
  match write_once w bytes with Ok n => take n bytes | Err _ => [] end.

Definition enqueue (rs : Replies) (stream : Z) (frame : list Z) (w : Write) (now : Z)
  : Replies * result IoError () :=
  match write_once w frame with
  | Err e => (rs, Err e)
  | Ok sent =>
      if (sent =? length frame)%nat then (rs, Ok ())
      else if (MAX_PENDING_REPLIES <=? size (pending rs))%nat then (rs, Err IoWouldBlock)
      else
        (mkReplies
           (<[r_next_id rs := mkPending stream frame sent (now + WRITE_TIMEOUT)]> (pending rs))
           (r_next_id rs + 1), Ok ())
  end.

Definition fds `{MapOrder} (rs : Replies) : list (Z * Z) :=
  map (fun ip => (ip.1, pd_stream ip.2)) (map_iter (pending rs)).

Definition service (rs : Replies) (id : Z) (w : Write) (now : Z) : Replies * result IoError () :=
  match pending rs !! id with
  | None => (rs, Ok ())
  | Some p =>
      let gone := mkReplies (delete id (pending rs)) (r_next_id rs) in
      if pd_deadline p <=? now then (gone, Err TimedOut)
      else
        match write_once w (drop (pd_sent p) (pd_frame p)) with
        | Err e => (gone, Err e)
        | Ok n =>
            let sent := (pd_sent p + n)%nat in
            if (sent <? length (pd_frame p))%nat then
              (mkReplies
                 (<[id := mkPending (pd_stream p) (pd_frame p) sent (pd_deadline p)]> (pending gone))
                 (r_next_id rs), Ok ())
            else (gone, Ok ())
        end
  end.

Definition replies_deadline `{MapOrder} (rs : Replies) : option Z :=
  list_min (map (fun ip => pd_deadline ip.2) (map_iter (pending rs))).

Definition replies_expire (rs : Replies) (now : Z) : Replies * nat :=
  let kept := filter (fun ip => now < pd_deadline ip.2) (pending rs) in
  (mkReplies kept (r_next_id rs), (size (pending rs) - size kept)%nat).

(** ** The pause after a failed accept *)

Definition RETRY_DELAY : Z := 250 * 1000000.

Record AcceptBackoff : Type := mkAcceptBackoff { until : option Z }.

Definition AcceptBackoff_default : AcceptBackoff := mkAcceptBackoff None.

Definition backoff_failed (b : AcceptBackoff) (now : Z) : AcceptBackoff :=
  mkAcceptBackoff (Some (now + RETRY_DELAY)).

Definition backoff_deadline (b : AcceptBackoff) (now : Z) : option Z :=
  match until b with
  | Some t => if now <? t then Some t else None
  | None => None
  end.

Definition poll_fd (b : AcceptBackoff) (fd : Z) (now : Z) : Z :=
  if backoff_deadline b now then -1 else fd.

(** ** Entropy

    One [getrandom] call: bytes into the head of the slice it is given, an
    interruption, or an error.  [None]: the calls seen so far do not end the
    loop. *)
Inductive RandRead : Type := Filled (bytes : list Z) | RandInterrupted | RandFailed.

Fixpoint fill_with (remaining : nat) (reads : list RandRead) : option (result IoError (list Z)) :=
  if (remaining =? 0)%nat then Some (Ok [])
  else
    match reads with
    | [] => None
    | Filled bytes :: reads =>
        let got := take remaining bytes in
        if (length got =? 0)%nat then Some (Err UnexpectedEof)
        else
          match fill_with (remaining - length got) reads with
          | Some (Ok rest) => Some (Ok (got ++ rest))
          | r => r
          end
    | RandInterrupted :: reads => fill_with remaining reads
    | RandFailed :: _ => Some (Err IoOther)
    end.

(** A filled request has all its bytes, and only bytes the kernel gave. *)
Lemma fill_with_ok reads : forall remaining out,
  Forall (fun r => match r with Filled bs => bytes_ok bs | _ => True end) reads ->
  fill_with remaining reads = Some (Ok out) -> length out = remaining /\ bytes_ok out.
Proof.
  induction reads as [|[bs| |] reads IH]; intros remaining out Hr H; cbn [fill_with] in H;
    (destruct (Nat.eqb_spec remaining 0) as [->|Hn]; [simplify_eq; split; [done|constructor]|]); try done.
  - apply Forall_cons in Hr as [Hb Hr]. destruct (Nat.eqb_spec (length (take remaining bs)) 0); [done|].
    destruct (fill_with (remaining - length (take remaining bs)) reads) as [[rest|]|] eqn:E;
      try done. simplify_eq. apply IH in E as [El Eb]; [|done].
    split; [rewrite length_app, El, length_take; lia|].
    apply bytes_ok_app. split; [by apply Forall_take|done].
  - apply Forall_cons in Hr as [_ Hr]. by eapply IH.
Qed.

(** The queue never grows past its limit. *)
Definition Replies_ok (rs : Replies) : Prop := (size (pending rs) <= MAX_PENDING_REPLIES)%nat.

Lemma enqueue_ok rs stream frame w now : Replies_ok rs -> Replies_ok (enqueue rs stream frame w now).1.
Proof.
  intros Hs. unfold enqueue. destruct (write_once w frame); [|done]. destruct (_ =? _)%nat; [done|].
  destruct (_ <=? _)%nat eqn:E; [done|]. bool_simpl. unfold Replies_ok. simpl.
  rewrite map_size_insert. case_match; simpl; lia.
Qed.

Lemma service_ok rs id w now : Replies_ok rs -> Replies_ok (service rs id w now).1.
Proof.
  unfold Replies_ok, service. intros Hs. destruct (pending rs !! id) as [p|] eqn:Hp; [|done].
  assert (size (delete id (pending rs)) < MAX_PENDING_REPLIES)%nat as Hd.
  { rewrite map_size_delete_Some by done.
    assert (size (pending rs) <> 0)%nat; [|lia]. intros E%map_size_empty_inv. by rewrite E in Hp. }
  repeat (case_match; simpl); try lia.
  rewrite map_size_insert_None by apply lookup_delete_eq. lia.
Qed.

Lemma expire_ok rs now : Replies_ok rs -> Replies_ok (replies_expire rs now).1.
Proof.
  unfold Replies_ok, replies_expire. simpl. intros Hs.
  pose proof (map_subseteq_size _ _ (map_filter_subseteq (fun ip => now < pd_deadline ip.2) (pending rs))).
  lia.
Qed.

#[export] Hint Resolve enqueue_ok service_ok expire_ok : resolvd.

(** ** Runs of the queue *)

Inductive QueueOp : Type :=
| QEnqueue (stream : Z) (frame : list Z) (w : Write) (now : Z)
| QService (id : Z) (w : Write) (now : Z)
| QExpire (now : Z).

(** One operation, with what it wrote to which stream. *)
Definition queue_step (rs : Replies) (op : QueueOp) : Replies * list (Z * list Z) :=
  match op with
  | QEnqueue stream frame w now => ((enqueue rs stream frame w now).1, [(stream, wrote w frame)])
  | QService id w now =>
      ((service rs id w now).1,
       match pending rs !! id with
       | Some p =>
           if pd_deadline p <=? now then []
           else [(pd_stream p, wrote w (drop (pd_sent p) (pd_frame p)))]
       | None => []
       end)
  | QExpire now => ((replies_expire rs now).1, [])
  end.

Fixpoint queue_run (rs : Replies) (ops : list QueueOp) : Replies * list (Z * list Z) :=
  match ops with
  | [] => (rs, [])
  | op :: ops =>
      let '(rs, out) := queue_step rs op in
      let '(rs, rest) := queue_run rs ops in
      (rs, out ++ rest)
  end.

(** Everything a stream was sent. *)
Definition sent_to (stream : Z) (log : list (Z * list Z)) : list Z :=
  concat (map snd (filter (fun x => x.1 = stream) log)).

Definition enqueued (op : QueueOp) : option (Z * list Z) :=
  match op with QEnqueue stream frame _ _ => Some (stream, frame) | _ => None end.
