(* ===== verification/IoProps.v ===== *)
(** * Delivery by the reply queue

    Over any run of the queue, what a peer receives is its own frame from the
    start, each byte once, with the queue bounded. *)

From S2P Require Import Prelude Cache Io.
Local Open Scope Z_scope.

Lemma sent_to_app s a b : sent_to s (a ++ b) = sent_to s a ++ sent_to s b.
Proof. unfold sent_to. by rewrite filter_app, map_app, concat_app. Qed.

Lemma sent_to_one s x b : sent_to s [(x, b)] = if decide (x = s) then b else [].
Proof. unfold sent_to. rewrite filter_cons. simpl. case_decide; simpl; [by rewrite app_nil_r|done]. Qed.

Lemma write_once_ok w bytes n : write_once w bytes = Ok n -> (n <= length bytes)%nat.
Proof. destruct w; simpl; intros; case_all_in H; simplify_eq; lia. Qed.

(** Where the bytes of every stream are. *)
Record delivering (rs : Replies) (log : list (Z * list Z)) (frames : list (Z * list Z)) : Prop := {
  dl_size : (size (pending rs) <= MAX_PENDING_REPLIES)%nat;
  dl_ids : map_Forall (fun id _ => id < r_next_id rs) (pending rs);
  dl_pending : map_Forall (fun _ p =>
    (pd_stream p, pd_frame p) ∈ frames /\ (pd_sent p < length (pd_frame p))%nat /\
    sent_to (pd_stream p) log = take (pd_sent p) (pd_frame p)) (pending rs);
  dl_frames : forall s f, (s, f) ∈ frames -> sent_to s log `prefix_of` f;
  dl_others : forall s, s ∉ map fst frames -> sent_to s log = [];
  dl_unique : forall i j p q, pending rs !! i = Some p -> pending rs !! j = Some q ->
    pd_stream p = pd_stream q -> i = j;
}.

Lemma delivering_subseteq rs rs' log frames :
  pending rs' ⊆ pending rs -> r_next_id rs' = r_next_id rs ->
  delivering rs log frames -> delivering rs' log frames.
Proof.
  intros Hsub Hn [H1 H2 H3 H4 H5 H6].
  assert (forall i p, pending rs' !! i = Some p -> pending rs !! i = Some p) as Hw.
  { intros i p Hi. by apply (lookup_weaken _ _ _ _ Hi). }
  split; [|intros i p Hi; rewrite Hn; by eapply H2, Hw|intros i p Hi; by eapply H3, Hw|done|done|].
  - pose proof (map_subseteq_size _ _ Hsub). lia.
  - intros i j p q Hi Hj. by apply H6; apply Hw.
Qed.

(** Writing to a stream that no other pending reply uses. *)
Lemma delivering_write rs log frames s f b :
  delivering rs log frames -> (s, f) ∈ frames -> NoDup (map fst frames) ->
  map_Forall (fun _ p => pd_stream p <> s) (pending rs) ->
  sent_to s log ++ b `prefix_of` f ->
  delivering rs (log ++ [(s, b)]) frames.
Proof.
  intros [H1 H2 H3 H4 H5 H6] Hf Hnd Hno Hp.
  split; [done|done| | | |done].
  - intros i p Hi. destruct (H3 i p Hi) as (? & ? & Hs). split_and!; [done|done|].
    rewrite sent_to_app, sent_to_one, decide_False by (apply not_eq_sym, (Hno i p Hi)).
    by rewrite app_nil_r.
  - intros s' f' Hf'. rewrite sent_to_app, sent_to_one. case_decide as E; [|rewrite app_nil_r; by apply H4].
    subst s'. assert (f' = f) as ->; [|done].
    apply list_elem_of_lookup in Hf as [i Hi], Hf' as [j Hj].
    assert (j = i) as ->; [|congruence].
    eapply (NoDup_lookup (map fst frames) _ _ s); [done| |]; rewrite list_lookup_fmap;
      [by rewrite Hj|by rewrite Hi].
  - intros s' Hs'. rewrite sent_to_app, sent_to_one, (H5 s' Hs'). case_decide as E; [|done].
    subst s'. destruct Hs'. apply list_elem_of_fmap. by exists (s, f).
Qed.

Lemma delivering_frame rs log frames s f :
  delivering rs log frames -> s ∉ map fst frames -> delivering rs log (frames ++ [(s, f)]).
Proof.
  intros [H1 H2 H3 H4 H5 H6] Hs. split; [done|done| | | |done].
  - intros i p Hi. destruct (H3 i p Hi) as (? & ? & ?). split_and!; [|done|done]. set_solver.
  - intros s' f' [Hf|[= -> ->]%list_elem_of_singleton]%elem_of_app; [by apply H4|].
    rewrite (H5 _ Hs). apply prefix_nil.
  - intros s' Hs'. apply H5. rewrite map_app in Hs'. set_solver.
Qed.

Lemma delivering_insert rs log frames id p next :
  delivering rs log frames -> pending rs !! id = None -> id < next -> r_next_id rs <= next ->
  (S (size (pending rs)) <= MAX_PENDING_REPLIES)%nat ->
  map_Forall (fun _ q => pd_stream q <> pd_stream p) (pending rs) ->
  (pd_stream p, pd_frame p) ∈ frames -> (pd_sent p < length (pd_frame p))%nat ->
  sent_to (pd_stream p) log = take (pd_sent p) (pd_frame p) ->
  delivering (mkReplies (<[id := p]> (pending rs)) next) log frames.
Proof.
  intros [H1 H2 H3 H4 H5 H6] Hid Hlt Hle Hsz Hno Hf Hl Hs. split; simpl; [| | |done|done|].
  - by rewrite map_size_insert_None.
  - apply map_Forall_insert_2; [done|]. intros i q Hi. specialize (H2 i q Hi). simpl in H2. lia.
  - by apply map_Forall_insert_2.
  - intros i j q r [[<- <-]|[? Hi]]%lookup_insert_Some [[<- <-]|[? Hj]]%lookup_insert_Some Hst; try done.
    + by destruct (Hno j r Hj).
    + by destruct (Hno i q Hi).
    + by eapply H6.
Qed.

Lemma take_prefix {A} n (l : list A) : take n l `prefix_of` l.
Proof. exists (drop n l). by rewrite take_drop. Qed.

Lemma delivering_enqueue rs log frames s f w now :
  delivering rs log frames -> NoDup (map fst frames) -> s ∉ map fst frames ->
  delivering (enqueue rs s f w now).1 (log ++ [(s, wrote w f)]) (frames ++ [(s, f)]).
Proof.
  intros Hd Hnd Hs.
  assert (map_Forall (fun _ p => pd_stream p <> s) (pending rs)) as Hno.
  { intros i p Hi <-. destruct (dl_pending _ _ _ Hd i p Hi) as (Hin & _).
    apply Hs, list_elem_of_fmap. by exists (pd_stream p, pd_frame p). }
  assert (wrote w f `prefix_of` f) as Hpre.
  { unfold wrote. destruct (write_once w f); [apply take_prefix|apply prefix_nil]. }
  assert (delivering rs (log ++ [(s, wrote w f)]) (frames ++ [(s, f)])) as Hd'.
  { apply delivering_write with (f := f); [by apply delivering_frame|set_solver| |done|].
    - rewrite map_app. apply NoDup_app. split_and!; [done|set_solver|apply NoDup_singleton].
    - by rewrite (dl_others _ _ _ Hd s Hs). }
  unfold enqueue, wrote in *. destruct (write_once w f) as [sent|] eqn:Ew; [|done].
  apply write_once_ok in Ew. destruct (Nat.eqb_spec sent (length f)); [done|].
  destruct (_ <=? _)%nat eqn:Em; [done|]. bool_simpl.
  apply delivering_insert; simpl; try done; try lia.
  - apply eq_None_not_Some. intros [p Hp]. pose proof (dl_ids _ _ _ Hd _ _ Hp). simpl in *. lia.
  - set_solver.
  - by rewrite sent_to_app, sent_to_one, decide_True, (dl_others _ _ _ Hd s Hs) by done.
Qed.

Lemma service_sent rs log frames id p n :
  delivering rs log frames -> pending rs !! id = Some p ->
  sent_to (pd_stream p) log ++ take n (drop (pd_sent p) (pd_frame p)) = take (pd_sent p + n) (pd_frame p).
Proof.
  intros Hd Hp. destruct (dl_pending _ _ _ Hd id p Hp) as (_ & _ & ->). by rewrite take_take_drop.
Qed.

Lemma delivering_gone rs log frames id p b :
  delivering rs log frames -> NoDup (map fst frames) -> pending rs !! id = Some p ->
  sent_to (pd_stream p) log ++ b `prefix_of` pd_frame p ->
  delivering (mkReplies (delete id (pending rs)) (r_next_id rs)) (log ++ [(pd_stream p, b)]) frames /\
  map_Forall (fun _ q => pd_stream q <> pd_stream p) (delete id (pending rs)).
Proof.
  intros Hd Hnd Hp Hpre.
  assert (map_Forall (fun _ q => pd_stream q <> pd_stream p) (delete id (pending rs))) as Hno.
  { intros i q [Hne Hq]%lookup_delete_Some Hst. by destruct (dl_unique _ _ _ Hd _ _ _ _ Hp Hq). }
  split; [|done]. apply delivering_write with (f := pd_frame p); [|apply (dl_pending _ _ _ Hd id p Hp)| |done|done].
  - eapply delivering_subseteq; [| |done]; [apply delete_subseteq|done].
  - done.
Qed.

Lemma delivering_service rs log frames id w now :
  delivering rs log frames -> NoDup (map fst frames) ->
  delivering (service rs id w now).1 (log ++ (queue_step rs (QService id w now)).2) frames.
Proof.
  intros Hd Hnd. cbn [queue_step snd]. unfold service. destruct (pending rs !! id) as [p|] eqn:Hp;
    [|by rewrite app_nil_r].
  destruct (pd_deadline p <=? now).
  { rewrite app_nil_r. eapply delivering_subseteq; [| |done]; [apply delete_subseteq|done]. }
  unfold wrote. destruct (write_once w _) as [n|] eqn:Ew.
  - pose proof (service_sent _ _ _ id p n Hd Hp) as Hs.
    destruct (delivering_gone _ _ _ id p (take n (drop (pd_sent p) (pd_frame p))) Hd Hnd Hp) as [Hg Hno].
    { rewrite Hs. apply take_prefix. }
    destruct (_ <? _)%nat eqn:El; [|done]. bool_simpl.
    eapply (delivering_insert (mkReplies (delete id (pending rs)) (r_next_id rs))); simpl; try done.
    + apply lookup_delete_eq.
    + by eapply (dl_ids _ _ _ Hd id p).
    + rewrite map_size_delete_Some by done. pose proof (dl_size _ _ _ Hd).
      assert (size (pending rs) <> 0)%nat; [|lia]. intros E%map_size_empty_inv. by rewrite E in Hp.
    + apply (dl_pending _ _ _ Hd id p Hp).
    + by rewrite sent_to_app, sent_to_one, decide_True, Hs.
  - apply delivering_gone; [done|done|done|]. rewrite app_nil_r.
    destruct (dl_pending _ _ _ Hd id p Hp) as (_ & _ & ->). apply take_prefix.
Qed.

Lemma delivering_run ops : forall rs log frames,
  delivering rs log frames -> NoDup (map fst (frames ++ omap enqueued ops)) ->
  delivering (queue_run rs ops).1 (log ++ (queue_run rs ops).2) (frames ++ omap enqueued ops).
Proof.
  induction ops as [|op ops IH]; intros rs log frames Hd Hnd; simpl; [by rewrite !app_nil_r|].
  assert (delivering (queue_step rs op).1 (log ++ (queue_step rs op).2)
            (frames ++ option_list (enqueued op))) as Hstep.
  { destruct op as [s f w now|id w now|now].
    - simpl in Hnd |- *. rewrite map_app in Hnd. apply NoDup_app in Hnd as (? & Hdis & ?).
      apply delivering_enqueue; [done|done|]. intros Hin. apply (Hdis s Hin). simpl. by left.
    - cbn [enqueued option_list]. rewrite app_nil_r. apply delivering_service; [done|].
      rewrite map_app in Hnd. by apply NoDup_app in Hnd as (? & _).
    - simpl. rewrite !app_nil_r. eapply delivering_subseteq; [| |done]; [apply map_filter_subseteq|done]. }
  destruct (queue_step rs op) as [rs' out]. specialize (IH rs' (log ++ out) _ Hstep).
  destruct (queue_run rs' ops) as [rs'' rest]. simpl in *.
  rewrite (app_assoc log out rest). destruct (enqueued op) as [x|]; simpl in *.
  - rewrite <- (app_assoc frames) in IH. by apply IH.
  - rewrite app_nil_r in IH. by apply IH.
Qed.

Lemma delivering_default : delivering Replies_default [] [].
Proof.
  split; simpl; [apply Nat.le_0_l|apply map_Forall_empty|apply map_Forall_empty| |done|].
  - intros s f Hin. by apply not_elem_of_nil in Hin.
  - intros i j p q Hi. by rewrite lookup_empty in Hi.
Qed.

(** C28. Replies arrive whole and in order.  Over any run of the reply queue in
    which each stream carries one reply, a peer receives a prefix of its own
    frame, each byte once; at most 256 replies are pending, each with exactly
    its sent part received and something left; and a reply that a write
    finishes has been received in full. *)
Theorem replies_delivered_in_order ops :
  NoDup (map fst (omap enqueued ops)) ->
  let '(rs, log) := queue_run Replies_default ops in
  (size (pending rs) <= MAX_PENDING_REPLIES)%nat /\
  (forall s f, (s, f) ∈ omap enqueued ops -> sent_to s log `prefix_of` f) /\
  (forall id p, pending rs !! id = Some p ->
     sent_to (pd_stream p) log = take (pd_sent p) (pd_frame p) /\ (pd_sent p < length (pd_frame p))%nat) /\
  (forall id p w now, pending rs !! id = Some p ->
     (service rs id w now).2 = Ok () -> pending (service rs id w now).1 !! id = None ->
     sent_to (pd_stream p) (log ++ (queue_step rs (QService id w now)).2) = pd_frame p).
Proof.
  intros Hnd. pose proof (delivering_run ops Replies_default [] [] delivering_default Hnd) as Hd.
  destruct (queue_run Replies_default ops) as [rs log]. simpl in Hd. split_and!.
  - by eapply dl_size.
  - by eapply dl_frames.
  - intros id p Hp. by destruct (dl_pending _ _ _ Hd id p Hp) as (_ & ? & ?).
  - intros id p w now Hp. unfold service. cbn [queue_step snd]. rewrite Hp.
    destruct (_ <=? now); [done|]. unfold wrote.
    destruct (write_once w _) as [n|] eqn:Ew; [|done].
    destruct (_ <? _)%nat eqn:El; simpl; [by rewrite lookup_insert_eq|]. intros _ _. bool_simpl.
    rewrite sent_to_app, sent_to_one, decide_True by done.
    rewrite (service_sent _ _ _ id p n Hd Hp). by apply take_ge.
Qed.

(** A peer that takes two bytes of its frame in three calls. *)
Definition slow_peer : list QueueOp :=
  [QEnqueue 7 [1; 2; 3] (Takes 1) 0; QService 0 WriteWouldBlock 1; QService 0 (Takes 1) 2].

Lemma replies_delivered_in_order_witness :
  sent_to 7 (queue_run Replies_default slow_peer).2 = [1; 2] /\
  (size (pending (queue_run Replies_default slow_peer).1) <= MAX_PENDING_REPLIES)%nat.
Proof.
  split; [reflexivity|]. apply (replies_delivered_in_order slow_peer). by_decide.
Defined.
