(* ===== verification/IpText.v ===== *)
(** * The text of addresses: [Display] and [FromStr] of [std::net::IpAddr]

    The native wire, the configuration and the tools carry addresses as text.
    The printer compresses the longest run of zero groups and writes mapped
    addresses with their IPv4 tail; the parser is the recursive-descent one
    of the standard library, on the bytes that are left. *)

From S2P Require Import Prelude Net.
Local Open Scope Z_scope.

(** ** Groups *)

(** [Ipv6Addr::segments] and the address of eight groups. *)
Fixpoint pairs (os : list Z) : list Z :=
  match os with
  | a :: b :: os => from_be [a; b] :: pairs os
  | _ => []
  end.
Definition segments (a : Ipv6Addr) : list Z := pairs (octets_v6 a).
Definition from_segments (gs : list Z) : Ipv6Addr := from_be (concat (map (be_bytes 2) gs)).

(** ** Display *)

Fixpoint strip_zeros (ds : list Z) : list Z :=
  match ds with
  | 0 :: ((_ :: _) as ds') => strip_zeros ds'
  | _ => ds
  end.

(** [{:x}] of a [u16]. *)
Definition fmt_hex (g : Z) : list Z :=
  map fmt_nibble (strip_zeros [g / 4096 mod 16; g / 256 mod 16; g / 16 mod 16; g mod 16]).

Definition fmt_v4 (a : Ipv4Addr) : list Z := join_with 46 (map fmt_dec (octets_v4 a)).

(** The first longest run of zero groups, as start and length. *)
Fixpoint zero_span (zs : list bool) (i : nat) (current longest : nat * nat) : nat * nat :=
  match zs with
  | [] => longest
  | true :: zs =>
      let current := if (current.2 =? 0)%nat then (i, 1%nat) else (current.1, S current.2) in
      zero_span zs (S i) current (if (longest.2 <? current.2)%nat then current else longest)
  | false :: zs => zero_span zs (S i) (0, 0)%nat longest
  end.

Definition to_ipv4_mapped (gs : list Z) : option (Z * Z) :=
  match gs with
  | [a; b; c; d; e; f; g; h] =>
      if (a =? 0) && (b =? 0) && (c =? 0) && (d =? 0) && (e =? 0) && (f =? 65535) then Some (g, h) else None
  | _ => None
  end.

Definition fmt_subslice (gs : list Z) : list Z := join_with 58 (map fmt_hex gs).

Definition fmt_v6 (a : Ipv6Addr) : list Z :=
  let gs := segments a in
  match to_ipv4_mapped gs with
  | Some (g, h) => bytes_of "::ffff:" ++ fmt_v4 (from_be (be_bytes 2 g ++ be_bytes 2 h))
  | None =>
      let '(start, len) := zero_span (map (Z.eqb 0) gs) 0 (0, 0)%nat (0, 0)%nat in
      if (1 <? len)%nat
      then fmt_subslice (take start gs) ++ [58; 58] ++ fmt_subslice (drop (start + len) gs)
      else fmt_subslice gs
  end.

Definition ip_to_string (a : IpAddr) : list Z :=
  match a with V4 x => fmt_v4 x | V6 x => fmt_v6 x end.

(** ** FromStr *)

(** [Parser::read_number]: the digits of [s], at most [max_digits]. *)
Fixpoint read_digits (digit : Z -> option Z) (radix : Z) (max_digits : nat) (acc : Z) (count : nat)
    (s : list Z) : option (Z * nat * list Z) :=
  match s with
  | [] => Some (acc, count, [])
  | b :: s' =>
      match digit b with
      | None => Some (acc, count, s)
      | Some d =>
          if (max_digits <? S count)%nat then None
          else read_digits digit radix max_digits (acc * radix + d) (S count) s'
      end
  end.

Definition read_number (digit : Z -> option Z) (radix : Z) (max_digits : nat) (allow_zero_prefix : bool)
    (bound : Z) (s : list Z) : option (Z * list Z) :=
  match read_digits digit radix max_digits 0 0 s with
  | None => None
  | Some (v, count, rest) =>
      if (count =? 0)%nat then None
      else if negb allow_zero_prefix && bool_decide (head s = Some 48) && (1 <? count)%nat then None
      else if v <? bound then Some (v, rest) else None
  end.

Definition read_separator {A} (sep : Z) (index : nat) (inner : list Z -> option (A * list Z))
    (s : list Z) : option (A * list Z) :=
  match index with
  | O => inner s
  | S _ => match s with c :: s' => if c =? sep then inner s' else None | [] => None end
  end.

Definition read_octet : list Z -> option (Z * list Z) := read_number dec_digit 10 3 false 256.
Definition read_group : list Z -> option (Z * list Z) := read_number hex_digit 16 4 true 65536.

Fixpoint read_octets (n i : nat) (s : list Z) : option (list Z * list Z) :=
  match n with
  | O => Some ([], s)
  | S n =>
      match read_separator 46 i read_octet s with
      | None => None
      | Some (o, s) =>
          match read_octets n (S i) s with
          | None => None
          | Some (os, s) => Some (o :: os, s)
          end
      end
  end.

Definition read_ipv4 (s : list Z) : option (Ipv4Addr * list Z) :=
  match read_octets 4 0 s with
  | Some (os, s) => Some (from_be os, s)
  | None => None
  end.

(** [read_groups] with [n] slots left at index [i]: the groups, whether they
    end in an embedded IPv4 address, and what is left. *)
Fixpoint read_groups (n i : nat) (s : list Z) : list Z * bool * list Z :=
  match n with
  | O => ([], false, s)
  | S n =>
      match (if (0 <? n)%nat then read_separator 58 i read_ipv4 s else None) with
      | Some (v4, s) => (pairs (octets_v4 v4), true, s)
      | None =>
          match read_separator 58 i read_group s with
          | None => ([], false, s)
          | Some (g, s) => let '(gs, v4, s) := read_groups n (S i) s in (g :: gs, v4, s)
          end
      end
  end.

Definition read_ipv6 (s : list Z) : option (Ipv6Addr * list Z) :=
  let '(hd, v4, s) := read_groups 8 0 s in
  if (length hd =? 8)%nat then Some (from_segments hd, s)
  else if v4 then None
  else
    match s with
    | 58 :: 58 :: s =>
        let '(tl, _, s) := read_groups (8 - (length hd + 1)) 0 s in
        Some (from_segments (hd ++ replicate (8 - length hd - length tl) 0 ++ tl), s)
    | _ => None
    end.

(** [IpAddr::from_str]: one address and nothing behind it. *)
Definition ip_parse (s : list Z) : option IpAddr :=
  match read_ipv4 s with
  | Some (a, rest) => if bool_decide (rest = []) then Some (V4 a) else None
  | None =>
      match read_ipv6 s with
      | Some (a, rest) => if bool_decide (rest = []) then Some (V6 a) else None
      | None => None
      end
  end.

(** ** Numbers *)

(** What ends a number: nothing, or a byte that is no digit. *)
Definition ends (digit : Z -> option Z) (s : list Z) : Prop :=
  match s with [] => True | b :: _ => digit b = None end.

Lemma read_digits_app digit radix max_digits ds rest : ends digit rest ->
  forall acc count, Forall (fun b => is_Some (digit b)) ds -> (count + length ds <= max_digits)%nat ->
  read_digits digit radix max_digits acc count (ds ++ rest) =
  Some (fold_left (fun acc b => acc * radix + default 0 (digit b)) ds acc, (count + length ds)%nat, rest).
Proof.
  intros He. induction ds as [|d ds IH]; intros acc count Hd Hc; simpl app.
  - rewrite Nat.add_0_r. destruct rest as [|b rest]; [done|]. cbn [read_digits]. by rewrite He.
  - apply Forall_cons in Hd as [[x Hx] Hd]. cbn [read_digits length] in *. rewrite Hx.
    rewrite (proj2 (Nat.ltb_ge _ _)) by lia. rewrite IH by (done || lia). cbn [fold_left]. rewrite Hx.
    simpl. do 3 f_equal. lia.
Qed.

(** A number never swallows a byte that is no digit. *)
Lemma read_digits_stops digit radix max_digits xs rest : ends digit rest ->
  Forall (fun b => b <> 46) xs -> head rest <> Some 46 ->
  forall acc count v c s, read_digits digit radix max_digits acc count (xs ++ rest) = Some (v, c, s) ->
  head s <> Some 46.
Proof.
  intros He Hx Hh. induction xs as [|x xs IH]; intros acc count v c s H; simpl app in H.
  - destruct rest as [|b rest]; cbn [read_digits] in H; [by simplify_eq|]. rewrite He in H. by simplify_eq.
  - apply Forall_cons in Hx as [Hx0 Hx]. cbn [read_digits] in H. destruct (digit x).
    + case_match; [done|]. by eapply IH.
    + simplify_eq. simpl. congruence.
Qed.

Lemma fmt_dec_octet b : is_u8 b ->
  Forall (fun x => is_Some (dec_digit x)) (fmt_dec b) /\ (1 <= length (fmt_dec b) <= 3)%nat /\
  fold_left (fun acc x => acc * 10 + default 0 (dec_digit x)) (fmt_dec b) 0 = b /\
  (head (fmt_dec b) = Some 48 -> length (fmt_dec b) = 1%nat).
Proof. intros Hb%is_u8_le. pattern b. by_range (256%nat). Qed.

Lemma read_octet_fmt b rest : is_u8 b -> ends dec_digit rest -> read_octet (fmt_dec b ++ rest) = Some (b, rest).
Proof.
  intros Hb He. destruct (fmt_dec_octet b Hb) as (Hd & Hl & Hv & Hz).
  unfold read_octet, read_number. rewrite read_digits_app by (done || lia). rewrite Hv.
  cbn [Nat.add]. rewrite (proj2 (Nat.eqb_neq _ _)) by lia.
  assert (head (fmt_dec b ++ rest) = head (fmt_dec b)) as -> by (destruct (fmt_dec b); simpl in *; [lia|done]).
  assert ((1 <? length (fmt_dec b))%nat && bool_decide (head (fmt_dec b) = Some 48) = false) as E.
  { apply andb_false_iff. case_bool_decide as Hb0; [left; rewrite Hz by done; done|by right]. }
  cbn [negb andb]. rewrite andb_comm, E. apply is_u8_le in Hb. by rewrite (proj2 (Z.ltb_lt _ _)) by lia.
Qed.

(** Hexadecimal groups, from their nibbles. *)
Lemma fmt_hex_group g : is_u16 g ->
  Forall (fun x => is_Some (hex_digit x)) (fmt_hex g) /\ (1 <= length (fmt_hex g) <= 4)%nat /\
  fold_left (fun acc x => acc * 16 + default 0 (hex_digit x)) (fmt_hex g) 0 = g.
Proof.
  intros [Hg0 Hg]. unfold fmt_hex.
  set (a := g / 4096 mod 16). set (b := g / 256 mod 16). set (c := g / 16 mod 16). set (d := g mod 16).
  assert (g = ((a * 16 + b) * 16 + c) * 16 + d) as Eg.
  { unfold a, b, c, d. change 4096 with (16 * 16 * 16). change 256 with (16 * 16).
    rewrite <- !Z.div_div by lia. set (x := g / 16). set (y := x / 16).
    pose proof (Z.div_mod g 16 ltac:(lia)). pose proof (Z.div_mod x 16 ltac:(lia)).
    pose proof (Z.div_mod y 16 ltac:(lia)).
    assert (0 <= y / 16 < 16).
    { unfold y, x. rewrite !Z.div_div by lia.
      split; [apply Z.div_pos; lia|apply Z.div_lt_upper_bound; lia]. }
    rewrite (Z.mod_small (y / 16)) by lia. fold x in H. fold y in H0. lia. }
  assert (forall x, 0 <= fmt_nibble (x mod 16) /\ hex_digit (fmt_nibble (x mod 16)) = Some (x mod 16)) as Hn.
  { intros x. pose proof (Z.mod_pos_bound x 16 ltac:(lia)). split.
    - unfold fmt_nibble. case_match; lia.
    - by apply hex_fmt_nibble. }
  destruct (Hn (g / 4096)) as [_ Ha], (Hn (g / 256)) as [_ Hb], (Hn (g / 16)) as [_ Hc], (Hn g) as [_ Hd].
  fold a b c d in Ha, Hb, Hc, Hd. clearbody a b c d. unfold strip_zeros.
  repeat case_match; subst; cbn [map]; rewrite ?Forall_cons, ?Forall_nil; cbn [length fold_left];
    rewrite ?Ha, ?Hb, ?Hc, ?Hd; simpl; split_and!; by eauto || lia.
Qed.

Lemma read_group_fmt g rest : is_u16 g -> ends hex_digit rest -> read_group (fmt_hex g ++ rest) = Some (g, rest).
Proof.
  intros Hg He. destruct (fmt_hex_group g Hg) as (Hd & Hl & Hv). destruct Hg as [_ Hg].
  unfold read_group, read_number. rewrite read_digits_app by (done || lia). rewrite Hv.
  cbn [Nat.add]. rewrite (proj2 (Nat.eqb_neq _ _)) by lia. cbn [negb andb].
  by rewrite (proj2 (Z.ltb_lt _ _)) by (simpl in Hg; lia).
Qed.

(** ** IPv4 *)

Lemma read_octets_text os rest : Forall is_u8 os -> ends dec_digit rest ->
  forall i, read_octets (length os) i
    (concat (imap (fun j o => (if (i + j =? 0)%nat then [] else [46]) ++ fmt_dec o) os) ++ rest)
  = Some (os, rest).
Proof.
  intros Hos He. induction Hos as [|o os Ho Hos IH]; intros i; [done|].
  cbn [length read_octets]. rewrite imap_cons. cbn [concat]. rewrite <- !app_assoc.
  set (tl := concat (imap _ os) ++ rest).
  assert (ends dec_digit tl) as Het.
  { unfold tl. destruct os; [done|]. rewrite imap_cons. simpl. rewrite Nat.add_succ_r. done. }
  assert (read_separator 46 i read_octet ((if (i + 0 =? 0)%nat then [] else [46]) ++ fmt_dec o ++ tl)
          = Some (o, tl)) as ->.
  { rewrite Nat.add_0_r. destruct i; simpl; by apply read_octet_fmt. }
  specialize (IH (S i)). unfold tl.
  rewrite (imap_ext _ (fun j o => (if (S i + j =? 0)%nat then [] else [46]) ++ fmt_dec o)), IH; [done|].
  intros j x _. simpl. by rewrite Nat.add_succ_r.
Qed.

Lemma fmt_v4_text a : fmt_v4 a = concat (imap (fun j o => (if (0 + j =? 0)%nat then [] else [46]) ++ fmt_dec o) (octets_v4 a)).
Proof.
  unfold fmt_v4, octets_v4. cbn [be_bytes map imap join_with]. simpl. by rewrite ?app_nil_r.
Qed.

Lemma read_ipv4_text a rest : is_u32 a -> ends dec_digit rest -> read_ipv4 (fmt_v4 a ++ rest) = Some (a, rest).
Proof.
  intros Ha He. unfold read_ipv4. rewrite fmt_v4_text.
  change 4%nat with (length (octets_v4 a)).
  rewrite read_octets_text; [|apply be_bytes_ok|done]. unfold octets_v4. by rewrite be_roundtrip.
Qed.

(** A hexadecimal group with no dot behind it is no IPv4 address. *)
Lemma read_ipv4_fails xs rest : Forall (fun b => b <> 46) xs -> (rest = [] \/ exists s, rest = 58 :: s) ->
  read_ipv4 (xs ++ rest) = None.
Proof.
  intros Hx Hr. assert (ends dec_digit rest /\ head rest <> Some 46) as [He Hh].
  { by destruct Hr as [->|[s ->]]. }
  unfold read_ipv4. cbn [read_octets read_separator].
  destruct (read_octet (xs ++ rest)) as [[o s]|] eqn:E; [|done].
  assert (head s <> Some 46) as Hs.
  { unfold read_octet, read_number in E.
    destruct (read_digits _ _ _ _ _ _) as [[[v c] s']|] eqn:Ed; [|done].
    apply read_digits_stops in Ed; [|done|done|done].
    repeat case_match; simplify_eq; done. }
  destruct s as [|b s]; [done|]. simpl in Hs. destruct (Z.eqb_spec b 46); [congruence|done].
Qed.

(** ** IPv6 *)

(** Groups as [read_groups] meets them from index [i]. *)
Fixpoint groups_text (i : nat) (gs : list Z) : list Z :=
  match gs with
  | [] => []
  | g :: gs => (if (i =? 0)%nat then [] else [58]) ++ fmt_hex g ++ groups_text (S i) gs
  end.

Lemma fmt_subslice_text gs : fmt_subslice gs = groups_text 0 gs.
Proof.
  unfold fmt_subslice. destruct gs as [|g gs]; [done|]. cbn [groups_text Nat.eqb app].
  assert (forall i, groups_text (S i) gs = concat (map (fun g => 58 :: fmt_hex g) gs)) as E.
  { induction gs as [|h gs IH]; intros i; [done|]. cbn [groups_text Nat.eqb app map concat]. by rewrite IH. }
  rewrite E. clear E. revert g. induction gs as [|h gs IH]; intros g; [simpl; by rewrite app_nil_r|].
  change (join_with 58 (map fmt_hex (g :: h :: gs)))
    with (fmt_hex g ++ 58 :: join_with 58 (map fmt_hex (h :: gs))). by rewrite IH.
Qed.

(** What ends a list of groups: nothing, or the [::]. *)
Definition group_end (s : list Z) : Prop := s = [] \/ exists s', s = 58 :: 58 :: s'.

Lemma hex_no_dot g : is_u16 g -> Forall (fun b => b <> 46) (fmt_hex g).
Proof.
  intros Hg. destruct (fmt_hex_group g Hg) as (Hd & _). eapply Forall_impl; [done|].
  by intros x [d Hx] ->.
Qed.

Lemma groups_text_end i gs rest : group_end rest ->
  let s := groups_text (S i) gs ++ rest in s = [] \/ exists s', s = 58 :: s'.
Proof. intros [->|[s' ->]]; destruct gs; simpl; eauto. Qed.

Lemma read_groups_text gs : forall n i rest, Forall is_u16 gs -> (length gs <= n)%nat -> group_end rest ->
  read_groups n i (groups_text i gs ++ rest) = (gs, false, rest).
Proof.
  induction gs as [|g gs IH]; intros [|n] i rest Hgs Hn He; simpl in Hn; try lia; try done.
  - cbn [read_groups groups_text app].
    assert (read_separator 58 i read_ipv4 rest = None) as ->.
    { destruct He as [->|[s ->]], i; cbn [read_separator]; try done; rewrite ?Z.eqb_refl;
        by apply (read_ipv4_fails []); eauto. }
    assert (read_separator 58 i read_group rest = None) as ->; [|by destruct (0 <? n)%nat].
    by destruct He as [->|[s ->]], i.
  - apply Forall_cons in Hgs as [Hg Hgs]. cbn [read_groups groups_text]. rewrite <- !app_assoc.
    pose proof (groups_text_end i gs rest He) as Ht. cbv zeta in Ht.
    assert (forall {A} (inner : list Z -> option (A * list Z)) s,
      read_separator 58 i inner ((if (i =? 0)%nat then [] else [58]) ++ s) = inner s) as Hsep
      by (by destruct i).
    rewrite !Hsep, read_ipv4_fails by (done || by apply hex_no_dot).
    rewrite read_group_fmt; [|done|by destruct Ht as [->|[s ->]]].
    rewrite IH by (done || lia). by destruct (0 <? n)%nat.
Qed.

Lemma pairs_ok os : bytes_ok os -> Forall is_u16 (pairs os).
Proof.
  revert os. fix IH 1. intros [|a [|b os]] Ho; try constructor.
  - apply from_be_u16; [|done]. apply Forall_cons in Ho as [Ha Ho]. apply Forall_cons in Ho as [Hb _]. by forall_list.
  - apply IH. by do 2 apply Forall_cons in Ho as [_ Ho].
Qed.

Lemma concat_pairs n : forall os, bytes_ok os -> length os = (2 * n)%nat ->
  concat (map (be_bytes 2) (pairs os)) = os /\ length (pairs os) = n.
Proof.
  induction n as [|n IH]; intros os Ho Hl; [by destruct os|].
  destruct os as [|a [|b os]]; simpl in Hl; try lia.
  apply Forall_cons in Ho as [Ha Ho]. apply Forall_cons in Ho as [Hb Ho].
  destruct (IH os Ho ltac:(lia)) as [E1 E2]. cbn [pairs map concat length]. rewrite E1, E2. split; [|done].
  change 2%nat with (length [a; b]). rewrite be_bytes_from_be; [done|]. by forall_list.
Qed.

Lemma segments_spec a : is_u128 a ->
  Forall is_u16 (segments a) /\ length (segments a) = 8%nat /\ from_segments (segments a) = a.
Proof.
  intros Ha. pose proof (be_bytes_ok 16 a) as Ho.
  destruct (concat_pairs 8 (octets_v6 a) Ho ltac:(apply length_be_bytes)) as [E1 E2].
  split_and!; [by apply pairs_ok|done|]. unfold from_segments, segments. rewrite E1. by apply be_roundtrip.
Qed.

(** The span is a run of zero groups inside the address. *)
Lemma zero_span_sound zs : length zs = 8%nat ->
  let '(start, len) := zero_span zs 0 (0, 0)%nat (0, 0)%nat in
  (start + len <= 8)%nat /\ take len (drop start zs) = replicate len true.
Proof.
  intros Hl. do 8 (destruct zs as [|[] zs]; [discriminate Hl| |]); (destruct zs; [|discriminate Hl]);
    vm_compute; split; (lia || reflexivity).
Qed.

Lemma zero_groups gs start len :
  take len (drop start (map (Z.eqb 0) gs)) = replicate len true -> take len (drop start gs) = replicate len 0.
Proof.
  rewrite <- fmap_drop, <- fmap_take. intros H. apply list_eq. intros i.
  assert (length (take len (drop start gs)) = len) as Hl.
  { rewrite <- (length_fmap (Z.eqb 0)), H. apply length_replicate. }
  destruct (take len (drop start gs) !! i) as [x|] eqn:E.
  - assert (map (Z.eqb 0) (take len (drop start gs)) !! i = Some (0 =? x)) as Hx
      by (rewrite list_lookup_fmap, E; done).
    unfold fmap, list_fmap in H. unfold map in Hx. rewrite H in Hx.
    apply lookup_replicate in Hx as [Hx Hi]. symmetry. apply lookup_replicate. split; [|done].
    by destruct (Z.eqb_spec 0 x).
  - apply lookup_ge_None in E. symmetry. apply lookup_ge_None. rewrite length_replicate. lia.
Qed.

Lemma read_ipv6_compressed hd len tl : Forall is_u16 (hd ++ tl) -> (1 < len)%nat ->
  (length hd + len + length tl = 8)%nat ->
  read_ipv6 (fmt_subslice hd ++ [58; 58] ++ fmt_subslice tl) = Some (from_segments (hd ++ replicate len 0 ++ tl), []).
Proof.
  intros [Hh Ht]%Forall_app Hlen Hl. unfold read_ipv6. rewrite !fmt_subslice_text.
  rewrite read_groups_text; [|done|lia|right; eauto]. rewrite (proj2 (Nat.eqb_neq _ _)) by lia. simpl app.
  rewrite <- (app_nil_r (groups_text 0 tl)).
  rewrite read_groups_text by (done || lia || by left). replace (8 - length hd - length tl)%nat with len by lia. done.
Qed.

Lemma read_ipv6_full gs : Forall is_u16 gs -> length gs = 8%nat ->
  read_ipv6 (fmt_subslice gs) = Some (from_segments gs, []).
Proof.
  intros Hg Hl. unfold read_ipv6. rewrite fmt_subslice_text, <- (app_nil_r (groups_text 0 gs)).
  rewrite read_groups_text by (done || lia || by left). by rewrite Hl.
Qed.

(** The mapped form: [::ffff:] and the IPv4 tail. *)
Lemma read_ipv6_mapped g h : is_u16 g -> is_u16 h ->
  read_ipv6 (bytes_of "::ffff:" ++ fmt_v4 (from_be (be_bytes 2 g ++ be_bytes 2 h))) =
  Some (from_segments [0; 0; 0; 0; 0; 65535; g; h], []).
Proof.
  intros Hg Hh. set (v := from_be (be_bytes 2 g ++ be_bytes 2 h)).
  assert (bytes_ok (be_bytes 2 g ++ be_bytes 2 h)) as Hb by (apply bytes_ok_app; split; apply be_bytes_ok).
  assert (is_u32 v) as Hv by (by apply from_be_u32).
  assert (pairs (octets_v4 v) = [g; h]) as Hp.
  { unfold octets_v4, v. change 4%nat with (length (be_bytes 2 g ++ be_bytes 2 h)).
    rewrite (be_bytes_from_be (be_bytes 2 g ++ be_bytes 2 h) Hb).
    change (pairs (be_bytes 2 g ++ be_bytes 2 h))
      with [from_be (be_bytes 2 g); from_be (be_bytes 2 h)]. by rewrite !be_roundtrip. }
  unfold read_ipv6.
  change (bytes_of "::ffff:" ++ fmt_v4 v) with (groups_text 0 [] ++ 58 :: 58 :: (bytes_of "ffff" ++ 58 :: fmt_v4 v)).
  rewrite read_groups_text; [|by apply Forall_nil_2|simpl; lia|right; by eexists]. simpl Nat.eqb. cbv iota.
  cbn [length Nat.add Nat.sub read_groups read_separator Nat.ltb Nat.leb].
  rewrite read_ipv4_fails by (by_decide || eauto).
  change (bytes_of "ffff") with (fmt_hex 65535). rewrite read_group_fmt by (by_decide || done).
  rewrite Z.eqb_refl. rewrite <- (app_nil_r (fmt_v4 v)), read_ipv4_text by done. by rewrite Hp.
Qed.

Lemma to_ipv4_mapped_Some gs g h : to_ipv4_mapped gs = Some (g, h) -> gs = [0; 0; 0; 0; 0; 65535; g; h].
Proof.
  unfold to_ipv4_mapped. intros H. do 8 (destruct gs as [|? gs]; [done|]). destruct gs; [|done].
  case_match; [|done]. bool_simpl. by simplify_eq.
Qed.

Lemma read_ipv6_text a : is_u128 a -> read_ipv6 (fmt_v6 a) = Some (a, []).
Proof.
  intros Ha. destruct (segments_spec a Ha) as (Hs & Hl & Hf). unfold fmt_v6. rewrite <- Hf at 2.
  destruct (to_ipv4_mapped (segments a)) as [[g h]|] eqn:E.
  { apply to_ipv4_mapped_Some in E. rewrite E in *.
    do 6 apply Forall_cons in Hs as [_ Hs]. apply Forall_cons in Hs as [Hg Hs].
    apply Forall_cons in Hs as [Hh _]. by apply read_ipv6_mapped. }
  pose proof (zero_span_sound (map (Z.eqb 0) (segments a))) as Hz. rewrite length_map in Hz. specialize (Hz Hl).
  destruct (zero_span _ _ _ _) as [start len]. destruct Hz as [Hle Hz].
  destruct (Nat.ltb_spec 1 len); [|by apply read_ipv6_full].
  rewrite (read_ipv6_compressed (take start (segments a)) len (drop (start + len) (segments a))).
  - apply zero_groups in Hz. rewrite <- Hz, <- drop_drop, take_drop, take_drop. done.
  - apply Forall_app. split; [by apply Forall_take|by apply Forall_drop].
  - done.
  - rewrite length_take, length_drop. lia.
Qed.

(** No IPv6 text starts with an IPv4 address. *)
Lemma fmt_v6_not_v4 a : is_u128 a -> read_ipv4 (fmt_v6 a) = None.
Proof.
  intros Ha. destruct (segments_spec a Ha) as (Hs & Hl & _). unfold fmt_v6.
  assert (forall gs rest, Forall is_u16 gs -> group_end rest -> read_ipv4 (fmt_subslice gs ++ rest) = None) as H.
  { intros gs rest Hg He. rewrite fmt_subslice_text. destruct gs as [|g gs].
    - apply (read_ipv4_fails []); [constructor|]. destruct He as [->|[s ->]]; eauto.
    - apply Forall_cons in Hg as [Hg _]. cbn [groups_text Nat.eqb app]. rewrite <- app_assoc.
      apply read_ipv4_fails; [by apply hex_no_dot|]. by apply groups_text_end. }
  destruct (to_ipv4_mapped (segments a)) as [[g h]|].
  { apply (read_ipv4_fails []); [constructor|]. right. by eexists. }
  destruct (zero_span _ _ _ _) as [start len]. case_match.
  - apply H; [by apply Forall_take|right; by eexists].
  - rewrite <- (app_nil_r (fmt_subslice _)). apply H; [done|by left].
Qed.

(** The text of an address parses back to it. *)
Lemma ip_parse_to_string a : IpAddr_wf a -> ip_parse (ip_to_string a) = Some a.
Proof.
  intros Ha. destruct a as [a|a]; unfold ip_parse; cbn [ip_to_string].
  - rewrite <- (app_nil_r (fmt_v4 a)), read_ipv4_text by done. done.
  - by rewrite fmt_v6_not_v4, read_ipv6_text by done.
Qed.
