(* ===== verification/Msgpack.v ===== *)
(** * MessagePack (resolvd-core/src/msgpack.rs)

    The codec of the native wire: a writer that appends to a buffer and a
    reader that walks one.  A reader that has failed is not used again by any
    caller, so an error carries no reader. *)

From S2P Require Import Prelude Net.
Local Open Scope Z_scope.

Inductive MError : Type := MTruncated | MType | MUnsupported | MUtf8 | MDepth.

#[export] Instance MError_eq_dec : EqDecision MError.
Proof. solve_decision. Defined.

Inductive Type_ : Set := TNil | TBool | TInt | TStr | TBin | TArray | TMap | TOther.

#[export] Instance Type_eq_dec : EqDecision Type_.
Proof. solve_decision. Defined.

(** ** UTF-8, as [std::str::from_utf8] accepts it *)

Definition in_range (lo hi b : Z) : bool := (lo <=? b) && (b <=? hi).

Definition is_cont (b : Z) : bool := in_range 128 191 b.

Fixpoint utf8_valid (s : list Z) : bool :=
  match s with
  | [] => true
  | a :: s1 =>
      if in_range 0 127 a then utf8_valid s1
      else
        match s1 with
        | [] => false
        | b :: s2 =>
            if in_range 194 223 a then is_cont b && utf8_valid s2
            else
              match s2 with
              | [] => false
              | c :: s3 =>
                  if in_range 224 239 a then
                    in_range (if a =? 224 then 160 else 128) (if a =? 237 then 159 else 191) b
                    && is_cont c && utf8_valid s3
                  else
                    match s3 with
                    | [] => false
                    | d :: s4 =>
                        in_range 240 244 a
                        && in_range (if a =? 240 then 144 else 128) (if a =? 244 then 143 else 191) b
                        && is_cont c && is_cont d && utf8_valid s4
                    end
              end
        end
  end.

(** ** The writer *)

Definition write_nil (w : list Z) : list Z := w ++ [192].

Definition write_bool (v : bool) (w : list Z) : list Z := w ++ [if v then 195 else 194].

Definition write_uint (v : Z) (w : list Z) : list Z :=
  if v <? 128 then w ++ [v]
  else if v <=? 255 then w ++ [204; wrap 8 v]
  else if v <=? 65535 then w ++ [205] ++ be_bytes 2 (wrap 16 v)
  else if v <=? 4294967295 then w ++ [206] ++ be_bytes 4 (wrap 32 v)
  else w ++ [207] ++ be_bytes 8 v.

(** An [i64] to its two's complement is [wrap]. *)
Definition write_int (v : Z) (w : list Z) : list Z :=
  if 0 <=? v then write_uint v w
  else if -32 <=? v then w ++ [wrap 8 v]
  else if -128 <=? v then w ++ [208; wrap 8 v]
  else if -32768 <=? v then w ++ [209] ++ be_bytes 2 (wrap 16 v)
  else if -2147483648 <=? v then w ++ [210] ++ be_bytes 4 (wrap 32 v)
  else w ++ [211] ++ be_bytes 8 (wrap 64 v).

Definition write_str (s : list Z) (w : list Z) : list Z :=
  let n := Z.of_nat (length s) in
  (if n <? 32 then w ++ [Z.lor 160 (wrap 8 n)]
   else if n <=? 255 then w ++ [217; wrap 8 n]
   else if n <=? 65535 then w ++ [218] ++ be_bytes 2 (wrap 16 n)
   else w ++ [219] ++ be_bytes 4 (wrap 32 n)) ++ s.

Definition write_bin (b : list Z) (w : list Z) : list Z :=
  let n := Z.of_nat (length b) in
  (if n <=? 255 then w ++ [196; wrap 8 n]
   else if n <=? 65535 then w ++ [197] ++ be_bytes 2 (wrap 16 n)
   else w ++ [198] ++ be_bytes 4 (wrap 32 n)) ++ b.

Definition write_array (count : Z) (w : list Z) : list Z :=
  if count <? 16 then w ++ [Z.lor 144 (wrap 8 count)]
  else if count <=? 65535 then w ++ [220] ++ be_bytes 2 (wrap 16 count)
  else w ++ [221] ++ be_bytes 4 count.

Definition write_map (count : Z) (w : list Z) : list Z :=
  if count <? 16 then w ++ [Z.lor 128 (wrap 8 count)]
  else if count <=? 65535 then w ++ [222] ++ be_bytes 2 (wrap 16 count)
  else w ++ [223] ++ be_bytes 4 count.

(** ** The reader *)

Record Reader : Type := mkReader { rd_buf : list Z; rd_pos : nat; rd_depth : nat }.

Definition MAX_DEPTH : nat := 32.

Definition Reader_new (buf : list Z) : Reader := mkReader buf 0 0.

Definition remaining (r : Reader) : nat := (length (rd_buf r) - rd_pos r)%nat.

(** [self.pos += n]. *)
Definition forward (n : nat) (r : Reader) : Reader := mkReader (rd_buf r) (rd_pos r + n) (rd_depth r).

Definition array_marker (b : Z) : bool := in_range 144 159 b || (b =? 220) || (b =? 221).
Definition map_marker (b : Z) : bool := in_range 128 143 b || (b =? 222) || (b =? 223).

Abbreviation Read A := (result MError (A * Reader)).

Definition byte (r : Reader) : Read Z :=
  let? b := ok_or (rd_buf r !! rd_pos r) MTruncated in
  Ok (b, forward 1 r).

Definition take_ (n : nat) (r : Reader) : Read (list Z) :=
  let? s := ok_or (slice_get (rd_buf r) (rd_pos r) (rd_pos r + n)) MTruncated in
  Ok (s, forward n r).

Definition be_u (n : nat) (r : Reader) : Read Z :=
  let? (s, r) := take_ n r in
  Ok (fold_left (fun acc b => Z.lor (wrap 64 (Z.shiftl acc 8)) b) s 0, r).

Definition peek (r : Reader) : option Type_ :=
  match rd_buf r !! rd_pos r with
  | None => None
  | Some b =>
      Some
        (if b =? 192 then TNil
         else if (b =? 194) || (b =? 195) then TBool
         else if in_range 0 127 b || in_range 224 255 b || in_range 204 211 b then TInt
         else if in_range 160 191 b || in_range 217 219 b then TStr
         else if in_range 196 198 b then TBin
         else if array_marker b then TArray
         else if map_marker b then TMap
         else TOther)
  end.

Definition read_nil (r : Reader) : Read () :=
  let? (b, r) := byte r in
  if b =? 192 then Ok ((), r) else Err MType.

Definition read_bool (r : Reader) : Read bool :=
  let? (b, r) := byte r in
  if b =? 194 then Ok (false, r) else if b =? 195 then Ok (true, r) else Err MType.

(** The [w]-bit two's complement of an unsigned value, as a signed one. *)
Definition as_signed (w v : Z) : Z := if v <? 2 ^ (w - 1) then v else v - 2 ^ w.

Definition read_int (r : Reader) : Read Z :=
  let? (b, r) := byte r in
  if in_range 0 127 b then Ok (b, r)
  else if in_range 224 255 b then Ok (as_signed 8 b, r)
  else if b =? 204 then be_u 1 r
  else if b =? 205 then be_u 2 r
  else if b =? 206 then be_u 4 r
  else if b =? 207 then
    let? (v, r) := be_u 8 r in
    if v <? 2 ^ 63 then Ok (v, r) else Err MType
  else if b =? 208 then let? (v, r) := be_u 1 r in Ok (as_signed 8 v, r)
  else if b =? 209 then let? (v, r) := be_u 2 r in Ok (as_signed 16 v, r)
  else if b =? 210 then let? (v, r) := be_u 4 r in Ok (as_signed 32 v, r)
  else if b =? 211 then let? (v, r) := be_u 8 r in Ok (as_signed 64 v, r)
  else Err MType.

Definition read_uint (r : Reader) : Read Z :=
  let? (v, r) := read_int r in
  if 0 <=? v then Ok (v, r) else Err MType.

Definition read_str (r : Reader) : Read (list Z) :=
  let? (b, r) := byte r in
  let? (n, r) :=
    if in_range 160 191 b then Ok (Z.land b 31, r)
    else if b =? 217 then be_u 1 r
    else if b =? 218 then be_u 2 r
    else if b =? 219 then be_u 4 r
    else Err MType in
  let? (s, r) := take_ (Z.to_nat n) r in
  if utf8_valid s then Ok (s, r) else Err MUtf8.

Definition read_bin (r : Reader) : Read (list Z) :=
  let? (b, r) := byte r in
  let? (n, r) :=
    if b =? 196 then be_u 1 r
    else if b =? 197 then be_u 2 r
    else if b =? 198 then be_u 4 r
    else Err MType in
  take_ (Z.to_nat n) r.

Definition read_array (r : Reader) : Read nat :=
  let? (b, r) := byte r in
  let? (n, r) :=
    if in_range 144 159 b then Ok (Z.land b 15, r)
    else if b =? 220 then be_u 2 r
    else if b =? 221 then be_u 4 r
    else Err MType in
  if Z.of_nat (remaining r) <? n then Err MTruncated else Ok (Z.to_nat n, r).

Definition read_map (r : Reader) : Read nat :=
  let? (b, r) := byte r in
  let? (n, r) :=
    if in_range 128 143 b then Ok (Z.land b 15, r)
    else if b =? 222 then be_u 2 r
    else if b =? 223 then be_u 4 r
    else Err MType in
  if Z.of_nat (remaining r) <? n * 2 then Err MTruncated else Ok (Z.to_nat n, r).

(** [(0..n).try_for_each]. *)
Fixpoint try_times (n : nat) (f : Reader -> result MError Reader) (r : Reader) : result MError Reader :=
  match n with
  | O => Ok r
  | S n => let? r := f r in try_times n f r
  end.

Definition nested (f : Reader -> result MError Reader) (r : Reader) : result MError Reader :=
  let depth := S (rd_depth r) in
  if (MAX_DEPTH <? depth)%nat then Err MDepth
  else
    let? r := f (mkReader (rd_buf r) (rd_pos r) depth) in
    Ok (mkReader (rd_buf r) (rd_pos r) (pred (rd_depth r))).

(** The payload of a fixed-width value, its extension type byte included. *)
Definition fixed_width (b : Z) : nat :=
  if (b =? 204) || (b =? 208) then 1
  else if (b =? 205) || (b =? 209) || (b =? 212) then 2
  else if b =? 213 then 3
  else if (b =? 202) || (b =? 206) || (b =? 210) then 4
  else if b =? 214 then 5
  else if (b =? 203) || (b =? 207) || (b =? 211) then 8
  else if b =? 215 then 9
  else 17.

(** One value that is not a container. *)
Definition skip_leaf (b : Z) (r : Reader) : result MError Reader :=
  if in_range 0 127 b || in_range 224 255 b || (b =? 192) || (b =? 194) || (b =? 195) then
    let? (_, r) := byte r in Ok r
  else if in_range 202 216 b then
    let? (b, r) := byte r in
    let? (_, r) := take_ (fixed_width b) r in Ok r
  else if in_range 199 201 b then
    let? (b, r) := byte r in
    let? (n, r) := be_u (if b =? 199 then 1 else if b =? 200 then 2 else 4) r in
    let? (_, r) := byte r in
    let? (_, r) := take_ (Z.to_nat n) r in Ok r
  else if in_range 160 191 b || in_range 217 219 b then
    let? (_, r) := read_str r in Ok r
  else if in_range 196 198 b then
    let? (_, r) := read_bin r in Ok r
  else Err MUnsupported.

(** [fuel] bounds the recursion; the depth check stops it first. *)
Fixpoint skip_fuel (fuel : nat) (r : Reader) : result MError Reader :=
  match fuel with
  | O => Err MDepth
  | S fuel =>
      let? b := ok_or (rd_buf r !! rd_pos r) MTruncated in
      if array_marker b then
        let? (n, r) := read_array r in
        nested (try_times n (skip_fuel fuel)) r
      else if map_marker b then
        let? (n, r) := read_map r in
        nested (try_times n (fun r => let? r := skip_fuel fuel r in skip_fuel fuel r)) r
      else skip_leaf b r
  end.

Definition skip (r : Reader) : result MError Reader := skip_fuel (S MAX_DEPTH) r.
