(* ===== verification/MsgpackProofs.v ===== *)
(** * MessagePack: what is written is read back

    [reads rd bytes v] is the contract of a reader: wherever [bytes] come
    next, [rd] returns [v] and stops right behind them.  Each writer meets the
    contract of its reader, and [skip] meets it for every value. *)

From S2P Require Import Prelude Net Msgpack.
Local Open Scope Z_scope.

(** ** Positions *)

Definition next (r : Reader) : list Z := drop (rd_pos r) (rd_buf r).
Definition Reader_ok (r : Reader) : Prop := (rd_pos r <= length (rd_buf r))%nat.

Lemma next_new buf : next (Reader_new buf) = buf.
Proof. done. Qed.

Lemma Reader_new_ok buf : Reader_ok (Reader_new buf).
Proof. unfold Reader_ok. simpl. lia. Qed.

Lemma length_next r : length (next r) = remaining r.
Proof. apply length_drop. Qed.

Lemma next_forward n r : next (forward n r) = drop n (next r).
Proof. unfold next. simpl. by rewrite drop_drop. Qed.

Lemma forward_forward n m r : forward m (forward n r) = forward (n + m) r.
Proof. unfold forward. simpl. f_equal. lia. Qed.

Lemma forward_0 r : forward 0 r = r.
Proof. destruct r. unfold forward. simpl. f_equal. lia. Qed.

(** Stepping over [bytes] keeps the reader inside and leaves the rest. *)
Lemma forward_over r bytes rest :
  Reader_ok r -> next r = bytes ++ rest ->
  Reader_ok (forward (length bytes) r) /\ next (forward (length bytes) r) = rest.
Proof.
  intros Hr Hn. rewrite next_forward, Hn, drop_app_length. split; [|done].
  assert (length bytes <= length (next r))%nat as Hl by (rewrite Hn, length_app; lia).
  rewrite length_next in Hl. unfold Reader_ok, remaining in *. simpl. lia.
Qed.

(** ** The contract of a reader *)

Definition reads {A} (rd : Reader -> Read A) (bytes : list Z) (v : A) : Prop :=
  forall r rest, Reader_ok r -> next r = bytes ++ rest -> rd r = Ok (v, forward (length bytes) r).

Lemma byte_next r b rest : next r = b :: rest -> byte r = Ok (b, forward 1 r).
Proof.
  intros Hn. unfold byte. assert (rd_buf r !! rd_pos r = Some b) as ->; [|done].
  rewrite <- (Nat.add_0_r (rd_pos r)), <- lookup_drop. change (next r !! 0%nat = Some b). by rewrite Hn.
Qed.

Lemma head_next r b rest : next r = b :: rest -> rd_buf r !! rd_pos r = Some b.
Proof.
  intros Hn. rewrite <- (Nat.add_0_r (rd_pos r)), <- lookup_drop.
  change (next r !! 0%nat = Some b). by rewrite Hn.
Qed.

Lemma take_reads bs : reads (take_ (length bs)) bs bs.
Proof.
  intros r rest Hr Hn. unfold take_, slice_get.
  assert (length bs <= remaining r)%nat by (rewrite <- length_next, Hn, length_app; lia).
  unfold remaining, Reader_ok in *.
  rewrite (proj2 (Nat.leb_le _ _)), (proj2 (Nat.leb_le _ _)) by lia.
  replace (rd_pos r + length bs - rd_pos r)%nat with (length bs) by lia.
  fold (next r). by rewrite Hn, take_app_length.
Qed.

Lemma fold_shift bs : forall acc, bytes_ok bs ->
  0 <= acc -> (acc + 1) * 256 ^ Z.of_nat (length bs) <= 2 ^ 64 ->
  fold_left (fun acc b => Z.lor (wrap 64 (Z.shiftl acc 8)) b) bs acc
  = acc * 256 ^ Z.of_nat (length bs) + from_be bs.
Proof.
  induction bs as [|b bs IH]; intros acc Hb Ha Hl; [change (acc = acc * 1 + 0); lia|].
  apply bytes_ok_cons in Hb as [Hb%is_u8_le Hbs]. cbn [fold_left].
  cbn [length] in Hl. rewrite Nat2Z.inj_succ, Z.pow_succ_r in Hl by lia.
  set (P := 256 ^ Z.of_nat (length bs)) in *.
  assert (1 <= P) by (unfold P; lia).
  assert (acc * 256 < 2 ^ 64) by nia.
  assert (Z.lor (wrap 64 (Z.shiftl acc 8)) b = acc * 256 + b) as ->.
  { rewrite wrap_small by (unfold in_width; rewrite Z.shiftl_mul_pow2 by lia; lia).
    assert (Z.land (Z.shiftl acc 8) b = 0) as Hz.
    { apply Z.bits_inj'. intros n Hn. rewrite Z.land_spec, Z.bits_0. destruct (Z.ltb_spec n 8).
      - by rewrite Z.shiftl_spec_low.
      - rewrite (Z.bits_above_log2 b n), andb_false_r; [done|lia|].
        destruct (Z.eq_dec b 0) as [->|]; [simpl; lia|].
        assert (Z.log2 b < 8) by (apply Z.log2_lt_pow2; lia). lia. }
    pose proof (Z.add_lor_land (Z.shiftl acc 8) b) as E. rewrite Hz, Z.add_0_r in E.
    rewrite E, Z.shiftl_mul_pow2; lia. }
  fold P. rewrite IH by (done || lia || nia). fold P. cbn [length].
  rewrite from_be_cons, Nat2Z.inj_succ, Z.pow_succ_r by lia. fold P. lia.
Qed.

Lemma be_u_reads n v : (n <= 8)%nat -> in_width (8 * Z.of_nat n) v -> reads (be_u n) (be_bytes n v) v.
Proof.
  intros Hn Hv r rest Hr Hnx. unfold be_u.
  pose proof (take_reads (be_bytes n v) r rest Hr Hnx) as Ht. rewrite length_be_bytes in Ht.
  rewrite Ht. cbn [result_bind]. rewrite fold_shift, be_roundtrip, length_be_bytes; try done.
  - apply be_bytes_ok.
  - rewrite length_be_bytes. change 256 with (2 ^ 8). rewrite <- Z.pow_mul_r by lia.
    rewrite Z.mul_1_l. apply Z.pow_le_mono_r; lia.
Qed.

(** ** Markers

    Decide the comparisons of a marker that is a numeral. *)
Ltac marker :=
  repeat match goal with
  | |- context [in_range ?a ?b ?c] =>
      let v := eval vm_compute in (in_range a b c) in
      lazymatch v with true => idtac | false => idtac end; change (in_range a b c) with v
  | |- context [Z.eqb ?a ?b] =>
      let v := eval vm_compute in (Z.eqb a b) in
      lazymatch v with true => idtac | false => idtac end; change (Z.eqb a b) with v
  end; cbn [orb andb result_bind].

(** A head of one marker byte and an [n]-byte big-endian integer. *)
Lemma be_u_head r hd m n v rest :
  hd = m :: be_bytes n v -> Reader_ok r -> next r = hd ++ rest ->
  (n <= 8)%nat -> in_width (8 * Z.of_nat n) v ->
  byte r = Ok (m, forward 1 r) /\ be_u n (forward 1 r) = Ok (v, forward (length hd) r).
Proof.
  intros -> Hr Hn Hn8 Hv. pose proof (byte_next r m _ Hn) as Hb. split; [done|].
  destruct (forward_over r [m] (be_bytes n v ++ rest) Hr Hn) as [Hr1 Hn1]. cbn [length] in Hr1, Hn1.
  rewrite (be_u_reads n v Hn8 Hv _ rest Hr1 Hn1). by rewrite forward_forward.
Qed.

Lemma write_nil_app w : write_nil w = w ++ write_nil [].
Proof. done. Qed.

Lemma write_bool_app v w : write_bool v w = w ++ write_bool v [].
Proof. done. Qed.

Lemma write_uint_app v w : write_uint v w = w ++ write_uint v [].
Proof. unfold write_uint. by repeat case_match. Qed.

Lemma write_int_app v w : write_int v w = w ++ write_int v [].
Proof. unfold write_int. rewrite write_uint_app. by repeat case_match. Qed.

Lemma write_str_app s w : write_str s w = w ++ write_str s [].
Proof. unfold write_str. repeat case_match; by rewrite <- !app_assoc. Qed.

Lemma write_bin_app b w : write_bin b w = w ++ write_bin b [].
Proof. unfold write_bin. repeat case_match; by rewrite <- !app_assoc. Qed.

Lemma write_array_app n w : write_array n w = w ++ write_array n [].
Proof. unfold write_array. by repeat case_match. Qed.

Lemma write_map_app n w : write_map n w = w ++ write_map n [].
Proof. unfold write_map. by repeat case_match. Qed.

Create Rewrite HintDb wire.
#[export] Hint Rewrite write_nil_app write_bool_app write_uint_app write_int_app write_str_app write_bin_app
  write_array_app write_map_app : wire.

(** ** Scalars *)

Lemma read_nil_reads : reads read_nil (write_nil []) ().
Proof. intros r rest Hr Hn. unfold read_nil. by rewrite (byte_next r _ _ Hn). Qed.

Lemma read_bool_reads v : reads read_bool (write_bool v []) v.
Proof. intros r rest Hr Hn. unfold read_bool. rewrite (byte_next r _ _ Hn). by destruct v. Qed.

(** One branch of an integer reader: the marker, then the bytes. *)
Ltac read_be n v :=
  match goal with
  | Hr : Reader_ok ?r, Hn : next ?r = ?bs ++ ?rest |- _ =>
      let Hb := fresh in let Hu := fresh in
      destruct (be_u_head r bs _ n v rest eq_refl Hr Hn ltac:(lia) ltac:(first [apply wrap_in_width; lia|unfold in_width; lia]))
        as [Hb Hu]; rewrite Hb; cbn [result_bind]; marker; rewrite Hu; cbn [result_bind]; marker
  end.

Lemma be_bytes_1 v : is_u8 v -> be_bytes 1 v = [v].
Proof. intros Hv%is_u8_le. cbn [be_bytes]. f_equal. rewrite Z.div_1_r. by rewrite Z.mod_small by lia. Qed.

Lemma read_uint_int v bytes : 0 <= v -> reads read_int bytes v -> reads read_uint bytes v.
Proof.
  intros Hv Hi r rest Hr Hn. unfold read_uint. rewrite (Hi r rest Hr Hn). cbn [result_bind].
  by rewrite (proj2 (Z.leb_le _ _) Hv).
Qed.

Lemma read_int_uint v : 0 <= v < 2 ^ 63 -> reads read_int (write_uint v []) v.
Proof.
  intros Hv r rest Hr. unfold write_uint, read_int. rewrite !app_nil_l.
  repeat case_match; bool_simpl; intros Hn.
  - rewrite (byte_next r _ _ Hn). cbn [result_bind].
    assert (in_range 0 127 v = true) as ->; [|done]. apply andb_true_iff. split; apply Z.leb_le; lia.
  - rewrite wrap_small, <- (be_bytes_1 v) in * by (unfold in_width; lia). by read_be 1%nat v.
  - rewrite wrap_small in * by (unfold in_width; lia). by read_be 2%nat v.
  - rewrite wrap_small in * by (unfold in_width; lia). by read_be 4%nat v.
  - read_be 8%nat v. by rewrite (proj2 (Z.ltb_lt v (2 ^ 63))) by lia.
Qed.

Lemma read_uint_reads v : 0 <= v < 2 ^ 63 -> reads read_uint (write_uint v []) v.
Proof. intros Hv. apply read_uint_int; [lia|]. by apply read_int_uint. Qed.

Lemma as_signed_wrap w v : 0 < w -> - 2 ^ (w - 1) <= v < 0 -> as_signed w (wrap w v) = v.
Proof.
  intros Hw Hv. assert (2 ^ w = 2 * 2 ^ (w - 1)) as Hp.
  { rewrite <- Z.pow_succ_r by lia. f_equal. lia. }
  assert (wrap w v = v + 2 ^ w) as ->.
  { unfold wrap. rewrite <- (Z.mod_small (v + 2 ^ w) (2 ^ w)) by lia.
    rewrite <- Z.add_mod_idemp_r, Z.mod_same, Z.add_0_r by lia. done. }
  unfold as_signed. rewrite (proj2 (Z.ltb_ge _ _)) by lia. lia.
Qed.

Lemma read_int_reads v : - 2 ^ 63 <= v < 2 ^ 63 -> reads read_int (write_int v []) v.
Proof.
  intros Hv. destruct (Z.leb_spec 0 v) as [H0|H0].
  { unfold write_int. rewrite (proj2 (Z.leb_le _ _) H0). apply read_int_uint. lia. }
  intros r rest Hr. unfold write_int, read_int. rewrite (proj2 (Z.leb_gt _ _) H0), !app_nil_l.
  assert (forall w, 0 < w -> in_width w (wrap w v)) as Hw by (intros; apply wrap_in_width; lia).
  repeat case_match; bool_simpl; intros Hn.
  - rewrite (byte_next r _ _ Hn). cbn [result_bind].
    assert (in_range 0 127 (wrap 8 v) = false /\ in_range 224 255 (wrap 8 v) = true) as [-> ->].
    { pose proof (as_signed_wrap 8 v ltac:(lia) ltac:(lia)) as E. unfold as_signed in E.
      pose proof (Hw 8 ltac:(lia)) as [? ?]. unfold in_range. case_match; [lia|].
      rewrite andb_false_iff, andb_true_iff, !Z.leb_le, !Z.leb_gt. lia. }
    by rewrite as_signed_wrap by lia.
  - rewrite <- (be_bytes_1 (wrap 8 v)) in * by (apply Hw; lia). read_be 1%nat (wrap 8 v).
    by rewrite as_signed_wrap by lia.
  - read_be 2%nat (wrap 16 v). by rewrite as_signed_wrap by lia.
  - read_be 4%nat (wrap 32 v). by rewrite as_signed_wrap by lia.
  - read_be 8%nat (wrap 64 v). by rewrite as_signed_wrap by lia.
Qed.

(** ** Strings and binary *)

Lemma str_head n : 0 <= n < 32 ->
  in_range 160 191 (Z.lor 160 (wrap 8 n)) = true /\ Z.land (Z.lor 160 (wrap 8 n)) 31 = n.
Proof. intros Hn. pattern n. by_range (32%nat). Qed.

(** The data behind a head of [length hd] bytes. *)
Lemma take_after r hd s rest :
  Reader_ok r -> next r = (hd ++ s) ++ rest ->
  take_ (length s) (forward (length hd) r) = Ok (s, forward (length (hd ++ s)) r).
Proof.
  intros Hr Hn. rewrite <- app_assoc in Hn. destruct (forward_over r hd _ Hr Hn) as [Hr1 Hn1].
  by rewrite (take_reads s _ rest Hr1 Hn1), forward_forward, length_app.
Qed.

(** Read a data head of [n] bytes after its marker, then the data. *)
Ltac read_data n s :=
  match goal with
  | Hr : Reader_ok ?r, Hn : next ?r = (?hd ++ s) ++ ?rest |- _ =>
      let Hb := fresh in let Hu := fresh in
      destruct (be_u_head r hd _ n (Z.of_nat (length s)) (s ++ rest) eq_refl Hr
                  (eq_trans Hn (eq_sym (app_assoc hd s rest))) ltac:(lia) ltac:(unfold in_width; lia))
        as [Hb Hu];
      rewrite Hb; cbn [result_bind]; marker; rewrite Hu; cbn [result_bind];
      rewrite Nat2Z.id, (take_after r hd s rest Hr Hn); cbn [result_bind]
  end.

Lemma read_str_reads s :
  utf8_valid s = true -> Z.of_nat (length s) < 2 ^ 32 -> reads read_str (write_str s []) s.
Proof.
  intros Hu Hl r rest Hr. unfold write_str, read_str. rewrite !app_nil_l.
  repeat case_match; bool_simpl; intros Hn.
  - destruct (str_head (Z.of_nat (length s)) ltac:(lia)) as [E1 E2].
    pose proof (take_after r _ s rest Hr Hn) as Ht.
    rewrite (byte_next r _ _ Hn). cbn [result_bind]. rewrite E1. cbn [result_bind].
    rewrite E2, Nat2Z.id. cbn [length] in Ht. rewrite Ht. cbn [result_bind]. by rewrite Hu.
  - rewrite wrap_small, <- be_bytes_1 in * by (unfold in_width; lia). read_data 1%nat s. by rewrite Hu.
  - rewrite wrap_small in * by (unfold in_width; lia). read_data 2%nat s. by rewrite Hu.
  - rewrite wrap_small in * by (unfold in_width; lia). read_data 4%nat s. by rewrite Hu.
Qed.

Lemma read_bin_reads b : Z.of_nat (length b) < 2 ^ 32 -> reads read_bin (write_bin b []) b.
Proof.
  intros Hl r rest Hr. unfold write_bin, read_bin. rewrite !app_nil_l.
  repeat case_match; bool_simpl; intros Hn.
  - rewrite wrap_small, <- be_bytes_1 in * by (unfold in_width; lia). by read_data 1%nat b.
  - rewrite wrap_small in * by (unfold in_width; lia). by read_data 2%nat b.
  - rewrite wrap_small in * by (unfold in_width; lia). by read_data 4%nat b.
Qed.

(** ** Container heads *)

Lemma array_head n : 0 <= n < 16 ->
  in_range 144 159 (Z.lor 144 (wrap 8 n)) = true /\ Z.land (Z.lor 144 (wrap 8 n)) 15 = n.
Proof. intros Hn. pattern n. by_range (16%nat). Qed.

Lemma map_head n : 0 <= n < 16 ->
  in_range 128 143 (Z.lor 128 (wrap 8 n)) = true /\ Z.land (Z.lor 128 (wrap 8 n)) 15 = n.
Proof. intros Hn. pattern n. by_range (16%nat). Qed.

(** The count check passes when the items follow. *)
Lemma remaining_over r hd rest : Reader_ok r -> next r = hd ++ rest ->
  remaining (forward (length hd) r) = length rest.
Proof. intros Hr Hn. rewrite <- length_next. by rewrite (proj2 (forward_over r hd rest Hr Hn)). Qed.

Lemma read_array_reads n r rest :
  0 <= n < 2 ^ 32 -> Reader_ok r -> next r = write_array n [] ++ rest -> n <= Z.of_nat (length rest) ->
  read_array r = Ok (Z.to_nat n, forward (length (write_array n [])) r).
Proof.
  intros Hn Hr Hnx Hc. pose proof (remaining_over r _ rest Hr Hnx) as Hm.
  revert Hnx Hm. unfold write_array, read_array. rewrite !app_nil_l.
  repeat case_match; bool_simpl; intros Hnx Hm.
  - destruct (array_head n ltac:(lia)) as [E1 E2].
    rewrite (byte_next r _ _ Hnx). cbn [result_bind]. rewrite E1. cbn [result_bind].
    rewrite E2. cbn [length] in Hm. by rewrite Hm, (proj2 (Z.ltb_ge _ _)) by lia.
  - rewrite wrap_small in * by (unfold in_width; lia). read_be 2%nat n. by rewrite Hm, (proj2 (Z.ltb_ge _ _)) by lia.
  - read_be 4%nat n. by rewrite Hm, (proj2 (Z.ltb_ge _ _)) by lia.
Qed.

Lemma read_map_reads n r rest :
  0 <= n < 2 ^ 32 -> Reader_ok r -> next r = write_map n [] ++ rest -> 2 * n <= Z.of_nat (length rest) ->
  read_map r = Ok (Z.to_nat n, forward (length (write_map n [])) r).
Proof.
  intros Hn Hr Hnx Hc. pose proof (remaining_over r _ rest Hr Hnx) as Hm.
  revert Hnx Hm. unfold write_map, read_map. rewrite !app_nil_l.
  repeat case_match; bool_simpl; intros Hnx Hm.
  - destruct (map_head n ltac:(lia)) as [E1 E2].
    rewrite (byte_next r _ _ Hnx). cbn [result_bind]. rewrite E1. cbn [result_bind].
    rewrite E2. cbn [length] in Hm. by rewrite Hm, (proj2 (Z.ltb_ge _ _)) by lia.
  - rewrite wrap_small in * by (unfold in_width; lia). read_be 2%nat n. by rewrite Hm, (proj2 (Z.ltb_ge _ _)) by lia.
  - read_be 4%nat n. by rewrite Hm, (proj2 (Z.ltb_ge _ _)) by lia.
Qed.

(** ** Skipping

    [steps f d bytes]: at depth [d], [f] steps over exactly [bytes]. *)

Definition steps (f : Reader -> result MError Reader) (d : nat) (bytes : list Z) : Prop :=
  forall r rest, Reader_ok r -> rd_depth r = d -> next r = bytes ++ rest -> f r = Ok (forward (length bytes) r).

Lemma steps_then f g d a b :
  steps f d a -> steps g d b -> steps (fun r => let? r := f r in g r) d (a ++ b).
Proof.
  intros Hf Hg r rest Hr Hd Hn. rewrite <- app_assoc in Hn. rewrite (Hf r _ Hr Hd Hn). cbn [result_bind].
  destruct (forward_over r a _ Hr Hn) as [Hr1 Hn1].
  by rewrite (Hg _ rest Hr1 Hd Hn1), forward_forward, length_app.
Qed.

Lemma steps_times f d bss : Forall (steps f d) bss -> steps (try_times (length bss) f) d (concat bss).
Proof.
  induction 1 as [|bs bss Hb _ IH]; [intros r rest _ _ _; simpl; by rewrite forward_0|].
  by apply (steps_then f (try_times (length bss) f)).
Qed.

Lemma steps_nested f d bytes : (S d <= MAX_DEPTH)%nat -> steps f (S d) bytes -> steps (nested f) d bytes.
Proof.
  intros Hd Hf r rest Hr <- Hn. unfold nested. rewrite (proj2 (Nat.ltb_ge _ _)) by lia.
  by rewrite (Hf (mkReader (rd_buf r) (rd_pos r) (S (rd_depth r))) rest Hr eq_refl Hn).
Qed.

(** A reader's contract, its value dropped. *)
Lemma steps_reads {A} (rd : Reader -> Read A) bytes v d :
  reads rd bytes v -> steps (fun r => let? (_, r) := rd r in Ok r) d bytes.
Proof. intros Hv r rest Hr _ Hn. by rewrite (Hv r rest Hr Hn). Qed.

(** A leaf is skipped by its marker. *)
Lemma steps_leaf fuel d m data :
  array_marker m = false -> map_marker m = false ->
  steps (skip_leaf m) d (m :: data) -> steps (skip_fuel (S fuel)) d (m :: data).
Proof.
  intros Ha Hm Hs r rest Hr Hd Hn. cbn [skip_fuel]. rewrite (head_next r m _ Hn). cbn [ok_or result_bind].
  rewrite Ha, Hm. by eapply Hs.
Qed.

Definition one_byte (m : Z) : bool :=
  in_range 0 127 m || in_range 224 255 m || (m =? 192) || (m =? 194) || (m =? 195).
Definition str_marker (m : Z) : bool := in_range 160 191 m || in_range 217 219 m.

(** The marker classes are disjoint. *)
Lemma marker_classes m : is_u8 m ->
  (one_byte m = true -> array_marker m = false /\ map_marker m = false) /\
  (in_range 202 216 m = true -> array_marker m = false /\ map_marker m = false /\ one_byte m = false) /\
  (in_range 199 201 m = true -> array_marker m = false /\ map_marker m = false /\ one_byte m = false /\
     in_range 202 216 m = false) /\
  (str_marker m = true -> array_marker m = false /\ map_marker m = false /\ one_byte m = false /\
     in_range 202 216 m = false /\ in_range 199 201 m = false) /\
  (in_range 196 198 m = true -> array_marker m = false /\ map_marker m = false /\ one_byte m = false /\
     in_range 202 216 m = false /\ in_range 199 201 m = false /\ str_marker m = false) /\
  (map_marker m = true -> array_marker m = false).
Proof. intros Hm%is_u8_le. pattern m. by_range (256%nat). Qed.

Lemma skip_one fuel d m : is_u8 m -> one_byte m = true -> steps (skip_fuel (S fuel)) d [m].
Proof.
  intros Hm H1. destruct (marker_classes m Hm) as (Hc & _). destruct (Hc H1) as [Ha Hp].
  apply steps_leaf; [done|done|]. intros r rest Hr Hd Hn. unfold skip_leaf. fold (one_byte m). rewrite H1.
  by rewrite (byte_next r _ _ Hn).
Qed.

Lemma skip_fixed fuel d m data : is_u8 m -> in_range 202 216 m = true -> length data = fixed_width m ->
  steps (skip_fuel (S fuel)) d (m :: data).
Proof.
  intros Hm H1 Hl. destruct (marker_classes m Hm) as (_ & Hc & _). destruct (Hc H1) as (Ha & Hp & H0).
  apply steps_leaf; [done|done|]. intros r rest Hr Hd Hn. unfold skip_leaf. fold (one_byte m).
  rewrite H0, H1, (byte_next r _ _ Hn). cbn [result_bind].
  pose proof (take_after r [m] data rest Hr Hn) as Ht. cbn [length] in Ht. by rewrite <- Hl, Ht.
Qed.

Definition ext_width (m : Z) : nat := if m =? 199 then 1 else if m =? 200 then 2 else 4.

Lemma skip_ext fuel d m ty data : in_range 199 201 m = true ->
  Z.of_nat (length data) < 2 ^ (8 * Z.of_nat (ext_width m)) ->
  steps (skip_fuel (S fuel)) d (m :: be_bytes (ext_width m) (Z.of_nat (length data)) ++ ty :: data).
Proof.
  intros H1 Hl. assert (is_u8 m) as Hm.
  { unfold in_range in H1. bool_simpl. apply is_u8_le. lia. }
  destruct (marker_classes m Hm) as (_ & _ & Hc & _). destruct (Hc H1) as (Ha & Hp & H0 & H2).
  apply steps_leaf; [done|done|]. intros r rest Hr Hd Hn. unfold skip_leaf. fold (one_byte m).
  rewrite H0, H1, H2. fold (ext_width m) in *. set (hd := m :: be_bytes (ext_width m) (Z.of_nat (length data))).
  assert (ext_width m <= 8)%nat by (unfold ext_width; repeat case_match; lia).
  change (next r = (hd ++ ty :: data) ++ rest) in Hn. rewrite <- app_assoc in Hn.
  destruct (be_u_head r hd m (ext_width m) (Z.of_nat (length data)) _ eq_refl Hr Hn ltac:(lia)
              ltac:(unfold in_width; lia)) as [Hb Hu].
  rewrite Hb. cbn [result_bind]. fold (ext_width m). rewrite Hu. cbn [result_bind].
  destruct (forward_over r hd _ Hr Hn) as [Hr1 Hn1]. simpl app in Hn1.
  rewrite (byte_next _ ty _ Hn1). cbn [result_bind]. rewrite Nat2Z.id.
  pose proof (take_after _ [ty] data rest Hr1 Hn1) as Ht. cbn [length] in Ht. rewrite Ht. cbn [result_bind].
  f_equal. rewrite forward_forward. f_equal. unfold hd. simpl. rewrite !length_app. simpl. lia.
Qed.

Lemma str_head_marker s : Z.of_nat (length s) < 2 ^ 32 ->
  exists m tl, write_str s [] = m :: tl /\ is_u8 m /\ str_marker m = true.
Proof.
  intros Hl. unfold write_str. rewrite !app_nil_l.
  repeat case_match; bool_simpl; [|eexists _, _; split; [done|by_decide]..].
  eexists _, _. split; [done|]. unfold str_marker.
  destruct (str_head (Z.of_nat (length s)) ltac:(lia)) as [E1 _]. split; [|by rewrite E1].
  unfold in_range in E1. bool_simpl. apply is_u8_le. lia.
Qed.

Lemma skip_str fuel d s : utf8_valid s = true -> Z.of_nat (length s) < 2 ^ 32 ->
  steps (skip_fuel (S fuel)) d (write_str s []).
Proof.
  intros Hu Hl. pose proof (steps_reads _ _ _ d (read_str_reads s Hu Hl)) as Hs.
  destruct (str_head_marker s Hl) as (m & tl & E & Hm & H1). rewrite E in *.
  destruct (marker_classes m Hm) as (_ & _ & _ & Hc & _). destruct (Hc H1) as (? & ? & H0 & H2 & H3).
  apply steps_leaf; [done|done|]. unfold skip_leaf. fold (one_byte m) (str_marker m).
  by rewrite H0, H1, H2, H3.
Qed.

Lemma skip_bin fuel d b : Z.of_nat (length b) < 2 ^ 32 ->
  steps (skip_fuel (S fuel)) d (write_bin b []).
Proof.
  intros Hl. pose proof (steps_reads _ _ _ d (read_bin_reads b Hl)) as Hs. revert Hs.
  unfold write_bin. rewrite !app_nil_l.
  repeat case_match; intros Hs; (apply steps_leaf; [done|done|exact Hs]).
Qed.

Lemma skip_int fuel d v : - 2 ^ 63 <= v < 2 ^ 64 -> steps (skip_fuel (S fuel)) d (write_int v []).
Proof.
  intros Hv. unfold write_int, write_uint. rewrite !app_nil_l.
  repeat case_match; bool_simpl; try (apply skip_fixed; [by_decide|done|by rewrite ?length_be_bytes]).
  - apply skip_one; [unfold in_width; lia|]. unfold one_byte, in_range.
    by rewrite (proj2 (Z.leb_le 0 v)), (proj2 (Z.leb_le v 127)) by lia.
  - assert (wrap 8 v = v + 256) as ->.
    { unfold wrap. change (2 ^ 8) with 256. rewrite <- (Z.mod_small (v + 256) 256) by lia.
      by rewrite <- Z.add_mod_idemp_r, Z.mod_same, Z.add_0_r by lia. }
    apply skip_one; [unfold in_width; lia|]. unfold one_byte.
    assert (in_range 224 255 (v + 256) = true) as ->; [|by rewrite orb_true_r].
    apply andb_true_iff. rewrite !Z.leb_le. lia.
Qed.

(** ** Values

    Any MessagePack value: what the writer writes, and the fixed-width and
    extension forms it does not.  [VFixed m data] has its payload length
    fixed by the marker; [VExt m ty data] is an extension with a length. *)

Inductive Value : Type :=
| VNil
| VBool (v : bool)
| VInt (v : Z)
| VStr (s : list Z)
| VBin (b : list Z)
| VFixed (m : Z) (data : list Z)
| VExt (m ty : Z) (data : list Z)
| VArray (vs : list Value)
| VMap (kvs : list (Value * Value)).

Fixpoint value_wire (v : Value) : list Z :=
  match v with
  | VNil => write_nil []
  | VBool b => write_bool b []
  | VInt z => write_int z []
  | VStr s => write_str s []
  | VBin b => write_bin b []
  | VFixed m data => m :: data
  | VExt m ty data => m :: be_bytes (ext_width m) (Z.of_nat (length data)) ++ ty :: data
  | VArray vs => write_array (Z.of_nat (length vs)) [] ++ concat (map value_wire vs)
  | VMap kvs =>
      write_map (Z.of_nat (length kvs)) [] ++
      concat (map (fun kv => value_wire kv.1 ++ value_wire kv.2) kvs)
  end.

Fixpoint height (v : Value) : nat :=
  match v with
  | VArray vs => S (max_list (map height vs))
  | VMap kvs => S (max_list (map (fun kv => (height kv.1 `max` height kv.2)%nat) kvs))
  | _ => 0%nat
  end.

Fixpoint value_ok (v : Value) : Prop :=
  match v with
  | VNil | VBool _ => True
  | VInt z => - 2 ^ 63 <= z < 2 ^ 64
  | VStr s => utf8_valid s = true /\ Z.of_nat (length s) < 2 ^ 32
  | VBin b => Z.of_nat (length b) < 2 ^ 32
  | VFixed m data => in_range 202 216 m = true /\ length data = fixed_width m
  | VExt m ty data => in_range 199 201 m = true /\ Z.of_nat (length data) < 2 ^ (8 * Z.of_nat (ext_width m))
  | VArray vs => Z.of_nat (length vs) < 2 ^ 32 /\ foldr (fun v P => value_ok v /\ P) True vs
  | VMap kvs => Z.of_nat (length kvs) < 2 ^ 32 /\ foldr (fun kv P => (value_ok kv.1 /\ value_ok kv.2) /\ P) True kvs
  end.

Lemma value_ind_deep (P : Value -> Prop) :
  (forall v, (forall vs, v <> VArray vs) -> (forall kvs, v <> VMap kvs) -> P v) ->
  (forall vs, Forall P vs -> P (VArray vs)) ->
  (forall kvs, Forall (fun kv => P kv.1 /\ P kv.2) kvs -> P (VMap kvs)) ->
  forall v, P v.
Proof.
  intros Hl Ha Hm. fix IH 1. intros v. destruct v as [| | | | | | |vs|kvs]; try by apply Hl.
  - apply Ha. induction vs; constructor; auto.
  - apply Hm. induction kvs as [|[k v] kvs IHk]; constructor; auto.
Qed.

Lemma value_wire_nonempty v : (1 <= length (value_wire v))%nat.
Proof.
  assert (forall n, (1 <= length (write_array n []))%nat) by (intros; unfold write_array; repeat case_match; simpl; lia).
  assert (forall n, (1 <= length (write_map n []))%nat) by (intros; unfold write_map; repeat case_match; simpl; lia).
  destruct v; simpl; try lia; rewrite ?length_app;
    try (unfold write_int, write_uint, write_str, write_bin; repeat case_match; simpl; rewrite ?length_app; simpl; lia).
  - specialize (H (Z.of_nat (length vs))). lia.
  - specialize (H0 (Z.of_nat (length kvs))). lia.
Qed.

Lemma concat_length_ge {A} (f : A -> list Z) n l :
  (forall x, n <= length (f x))%nat -> (n * length l <= length (concat (map f l)))%nat.
Proof.
  intros Hf. induction l as [|x l IH]; simpl; [lia|]. rewrite length_app. pose proof (Hf x). lia.
Qed.

Lemma array_head_marker n : 0 <= n < 2 ^ 32 ->
  exists m tl, write_array n [] = m :: tl /\ array_marker m = true.
Proof.
  intros Hn. unfold write_array. rewrite !app_nil_l.
  repeat case_match; bool_simpl; [|eexists _, _; by split..].
  eexists _, _. split; [done|]. unfold array_marker. by rewrite (proj1 (array_head n ltac:(lia))).
Qed.

Lemma map_head_marker n : 0 <= n < 2 ^ 32 ->
  exists m tl, write_map n [] = m :: tl /\ is_u8 m /\ map_marker m = true.
Proof.
  intros Hn. unfold write_map. rewrite !app_nil_l.
  repeat case_match; bool_simpl; [|eexists _, _; split; [done|by_decide]..].
  eexists _, _. split; [done|]. unfold map_marker. destruct (map_head n ltac:(lia)) as [E _].
  rewrite E. split; [|done]. unfold in_range in E. bool_simpl. apply is_u8_le. lia.
Qed.

Lemma skip_array fuel d vs :
  (S d <= MAX_DEPTH)%nat -> Z.of_nat (length vs) < 2 ^ 32 ->
  Forall (fun v => steps (skip_fuel fuel) (S d) (value_wire v)) vs ->
  steps (skip_fuel (S fuel)) d (value_wire (VArray vs)).
Proof.
  intros Hd Hl Hvs r rest Hr Hdr Hn. cbn [value_wire] in *. rewrite <- app_assoc in Hn.
  destruct (array_head_marker (Z.of_nat (length vs)) ltac:(lia)) as (m & tl & E & Hm).
  cbn [skip_fuel]. rewrite (head_next r m (tl ++ concat (map value_wire vs) ++ rest)) by (by rewrite Hn, E).
  cbn [ok_or result_bind]. rewrite Hm.
  rewrite (read_array_reads (Z.of_nat (length vs)) r _ ltac:(lia) Hr Hn).
  2:{ pose proof (concat_length_ge value_wire 1 vs value_wire_nonempty). rewrite length_app. lia. }
  cbn [result_bind]. destruct (forward_over r _ _ Hr Hn) as [Hr1 Hn1]. rewrite Nat2Z.id.
  rewrite <- (length_map value_wire vs) at 1.
  rewrite (steps_nested _ d (concat (map value_wire vs)) Hd) with (rest := rest); try done.
  - by rewrite forward_forward, length_app.
  - apply steps_times. by apply Forall_fmap.
Qed.

Lemma skip_map fuel d kvs :
  (S d <= MAX_DEPTH)%nat -> Z.of_nat (length kvs) < 2 ^ 32 ->
  Forall (fun kv => steps (skip_fuel fuel) (S d) (value_wire kv.1) /\
                    steps (skip_fuel fuel) (S d) (value_wire kv.2)) kvs ->
  steps (skip_fuel (S fuel)) d (value_wire (VMap kvs)).
Proof.
  intros Hd Hl Hvs r rest Hr Hdr Hn. cbn [value_wire] in *. rewrite <- app_assoc in Hn.
  set (pair_wire := fun kv : Value * Value => value_wire kv.1 ++ value_wire kv.2) in *.
  destruct (map_head_marker (Z.of_nat (length kvs)) ltac:(lia)) as (m & tl & E & Hu & Hm).
  destruct (marker_classes m Hu) as (_ & _ & _ & _ & _ & Hc).
  cbn [skip_fuel]. rewrite (head_next r m (tl ++ concat (map pair_wire kvs) ++ rest)) by (by rewrite Hn, E).
  cbn [ok_or result_bind]. rewrite (Hc Hm), Hm.
  rewrite (read_map_reads (Z.of_nat (length kvs)) r _ ltac:(lia) Hr Hn).
  2:{ pose proof (concat_length_ge pair_wire 2 kvs) as Hg. rewrite length_app.
      assert (forall kv, 2 <= length (pair_wire kv))%nat as H2; [|specialize (Hg H2); lia].
      intros kv. unfold pair_wire. rewrite length_app.
      pose proof (value_wire_nonempty kv.1). pose proof (value_wire_nonempty kv.2). lia. }
  cbn [result_bind]. destruct (forward_over r _ _ Hr Hn) as [Hr1 Hn1]. rewrite Nat2Z.id.
  rewrite <- (length_map pair_wire kvs) at 1.
  rewrite (steps_nested _ d (concat (map pair_wire kvs)) Hd) with (rest := rest); try done.
  - by rewrite forward_forward, length_app.
  - apply steps_times, Forall_fmap. eapply Forall_impl; [done|]. intros kv [H1 H2]. by apply steps_then.
Qed.

Lemma foldr_and {A} (P : A -> Prop) l : foldr (fun x Q => P x /\ Q) True l <-> Forall P l.
Proof. induction l; simpl; [split; [constructor|done]|]. by rewrite Forall_cons, IHl. Qed.

Lemma max_list_map {A} (f : A -> nat) x l : x ∈ l -> (f x <= max_list (map f l))%nat.
Proof. intros Hx. apply max_list_elem_of_le, list_elem_of_fmap. by exists x. Qed.

(** [skip] steps over any value that does not nest too deeply. *)
Lemma skip_value v : forall d fuel, value_ok v ->
  (height v + d <= MAX_DEPTH)%nat -> (height v < fuel)%nat -> steps (skip_fuel fuel) d (value_wire v).
Proof.
  induction v as [v Hna Hnm|vs IH|kvs IH] using value_ind_deep; intros d fuel Hv Hd Hf;
    (destruct fuel as [|fuel]; [lia|]).
  - destruct v; cbn [value_wire value_ok height] in *; try (by exfalso; eapply Hna); try (by exfalso; eapply Hnm).
    + by apply (skip_one _ _ 192); [by_decide|].
    + destruct v; [apply (skip_one _ _ 195)|apply (skip_one _ _ 194)]; by_decide || done.
    + by apply skip_int.
    + destruct Hv. by apply skip_str.
    + by apply skip_bin.
    + destruct Hv as [Hm ?]. apply skip_fixed; [|done|done].
      unfold in_range in Hm. bool_simpl. apply is_u8_le. lia.
    + destruct Hv. by apply skip_ext.
  - destruct Hv as [Hl Hv%(foldr_and value_ok)]. simpl in Hd, Hf. apply skip_array; [lia|done|].
    rewrite Forall_forall in *. intros v Hin. pose proof (max_list_map height v vs Hin).
    apply IH; [done|by apply Hv|lia|lia].
  - destruct Hv as [Hl Hv%(foldr_and (fun kv => value_ok kv.1 /\ value_ok kv.2))]. simpl in Hd, Hf.
    apply skip_map; [lia|done|]. rewrite Forall_forall in *. intros kv Hin.
    pose proof (max_list_map (fun kv => (height kv.1 `max` height kv.2)%nat) kv kvs Hin) as Hm. simpl in Hm.
    destruct (IH kv Hin) as [IH1 IH2], (Hv kv Hin). split; [apply IH1|apply IH2]; done || lia.
Qed.

(** ** Skipping anything

    Whatever the bytes, [skip] that succeeds moved forward inside the buffer
    at the same depth; its fuel is not what stops it. *)

Definition moved (r r' : Reader) : Prop := exists k, r' = forward k r /\ Reader_ok r'.
Definition moved_on (r r' : Reader) : Prop := exists k, r' = forward (S k) r /\ Reader_ok r'.

Lemma moved_trans r r1 r2 : moved r r1 -> moved r1 r2 -> moved r r2.
Proof. intros (k & -> & _) (j & -> & ?). exists (k + j)%nat. by rewrite <- forward_forward. Qed.

Lemma moved_on_trans r r1 r2 : moved_on r r1 -> moved r1 r2 -> moved_on r r2.
Proof.
  intros (k & -> & _) (j & -> & ?). exists (k + j)%nat.
  change (S (k + j)) with (S k + j)%nat. by rewrite <- forward_forward.
Qed.

Lemma moved_refl r : Reader_ok r -> moved r r.
Proof. exists 0%nat. by rewrite forward_0. Qed.

Lemma moved_on_moved r r' : moved_on r r' -> moved r r'.
Proof. intros (k & ? & ?). by exists (S k). Qed.

Lemma moved_depth r r' : moved r r' -> rd_depth r' = rd_depth r.
Proof. by intros (k & -> & _). Qed.

#[local] Hint Resolve moved_trans moved_on_trans moved_refl moved_on_moved : resolvd.

Lemma byte_moves r b r' : byte r = Ok (b, r') -> moved_on r r'.
Proof.
  unfold byte. intros H. inv_ok H. simplify_eq. exists 0%nat. split; [done|].
  apply lookup_lt_Some in E. unfold Reader_ok. simpl. lia.
Qed.

Lemma take_moves n r s r' : take_ n r = Ok (s, r') -> moved r r'.
Proof.
  unfold take_, slice_get. intros H. inv_ok H. case_match; [|done]. simplify_eq. bool_simpl.
  by exists n.
Qed.

Lemma be_u_moves n r v r' : be_u n r = Ok (v, r') -> moved r r'.
Proof. unfold be_u. intros H. inv_ok H. destruct a. simplify_eq. by eapply take_moves. Qed.

(** Invert a chain of reads, each as a move. *)
Ltac moves_head H :=
  repeat (match type of H with result_bind _ _ = Ok _ => inv_ok H end;
    repeat match goal with p : (_ * Reader)%type |- _ => destruct p end);
  repeat match goal with
  | E : byte _ = Ok _ |- _ => apply byte_moves in E
  | E : take_ _ _ = Ok _ |- _ => apply take_moves in E
  | E : be_u _ _ = Ok _ |- _ => apply be_u_moves in E
  end.

(** The length behind a marker, in one of the branches of a head. *)
Lemma head_moves (c1 c2 c3 c4 : bool) v n1 n2 n3 r n r' : Reader_ok r ->
  (if c1 then Ok (v, r) else if c2 then be_u n1 r else if c3 then be_u n2 r
   else if c4 then be_u n3 r else Err MType) = Ok (n, r') -> moved r r'.
Proof.
  intros Hr. repeat case_match; intros H'; simplify_eq; [by apply moved_refl|by eapply be_u_moves..].
Qed.

Lemma moved_on_ok r r' : moved_on r r' -> Reader_ok r'.
Proof. by intros (k & _ & ?). Qed.

Lemma read_str_moves r s r' : read_str r = Ok (s, r') -> moved_on r r'.
Proof.
  unfold read_str. intros H. moves_head H. case_match; [|done]. simplify_eq.
  eapply moved_on_trans; [done|]. eapply moved_trans; [|done].
  by eapply (head_moves _ _ _ _ _ 1 2 4); [by eapply moved_on_ok|].
Qed.

Lemma read_bin_moves r s r' : read_bin r = Ok (s, r') -> moved_on r r'.
Proof.
  unfold read_bin. intros H. moves_head H.
  eapply moved_on_trans; [done|]. eapply moved_trans; [|done].
  by eapply (head_moves false _ _ _ 0 1 2 4); [by eapply moved_on_ok|].
Qed.

Lemma read_array_moves r n r' : read_array r = Ok (n, r') -> moved_on r r'.
Proof.
  unfold read_array. intros H. moves_head H. case_match; [done|]. simplify_eq.
  eapply moved_on_trans; [done|].
  by eapply (head_moves _ _ _ false _ 2 4 0); [by eapply moved_on_ok|].
Qed.

Lemma read_map_moves r n r' : read_map r = Ok (n, r') -> moved_on r r'.
Proof.
  unfold read_map. intros H. moves_head H. case_match; [done|]. simplify_eq.
  eapply moved_on_trans; [done|].
  by eapply (head_moves _ _ _ false _ 2 4 0); [by eapply moved_on_ok|].
Qed.

Lemma skip_leaf_moves b r r' : skip_leaf b r = Ok r' -> moved_on r r'.
Proof.
  unfold skip_leaf. repeat case_match; intros H'; moves_head H'; simplify_eq; eauto with resolvd.
  - by eapply read_str_moves.
  - by eapply read_bin_moves.
Qed.

Lemma times_moves f n : (forall r r', f r = Ok r' -> moved_on r r') ->
  forall r r', Reader_ok r -> try_times n f r = Ok r' -> moved r r'.
Proof.
  intros Hf. induction n as [|n IH]; intros r r' Hr H; cbn [try_times] in H.
  - simplify_eq. by apply moved_refl.
  - inv_ok H. apply Hf in E. eapply moved_trans; [by apply moved_on_moved|].
    apply IH; [by eapply moved_on_ok|done].
Qed.

Lemma nested_moves f : (forall r r', Reader_ok r -> f r = Ok r' -> moved r r') ->
  forall r r', Reader_ok r -> nested f r = Ok r' -> moved r r'.
Proof.
  intros Hf r r' Hr H. unfold nested in H. case_match; [done|]. inv_ok H. simplify_eq.
  apply Hf in E; [|done]. destruct E as (k & -> & Hk). by exists k.
Qed.

Lemma skip_fuel_moves fuel : forall r r', skip_fuel fuel r = Ok r' -> moved_on r r'.
Proof.
  induction fuel as [|fuel IH]; intros r r' H; [done|]. cbn [skip_fuel] in H. inv_ok H.
  destruct (array_marker a); [|destruct (map_marker a); [|by eapply skip_leaf_moves]].
  - inv_ok H. destruct a0. apply read_array_moves in E0. eapply moved_on_trans; [done|].
    eapply nested_moves; [|by eapply moved_on_ok|done]. intros. by eapply times_moves.
  - inv_ok H. destruct a0. apply read_map_moves in E0. eapply moved_on_trans; [done|].
    eapply nested_moves; [|by eapply moved_on_ok|done]. intros. eapply times_moves; [|done|done].
    intros ra rb Hab. apply result_bind_ok in Hab as (rc & Hac%IH & Hcb%IH). eauto with resolvd.
Qed.

Lemma times_ext f g d n :
  (forall r, rd_depth r = d -> f r = g r) ->
  (forall r r', f r = Ok r' -> rd_depth r' = rd_depth r) ->
  forall r, rd_depth r = d -> try_times n f r = try_times n g r.
Proof.
  intros Hfg Hd. induction n as [|n IH]; intros r Hr; [done|]. cbn [try_times].
  rewrite <- (Hfg r Hr). destruct (f r) as [r'|] eqn:E; [|done]. cbn [result_bind].
  apply IH. by rewrite (Hd _ _ E).
Qed.

Lemma nested_ext f g :
  forall r, (forall r', rd_depth r' = S (rd_depth r) -> f r' = g r') -> nested f r = nested g r.
Proof. intros r H. unfold nested. case_match; [done|]. by rewrite H. Qed.

(** More fuel than levels left changes nothing. *)
Lemma skip_fuel_enough fuel : forall fuel' r,
  (MAX_DEPTH < fuel + rd_depth r)%nat -> (MAX_DEPTH < fuel' + rd_depth r)%nat ->
  (rd_depth r <= MAX_DEPTH)%nat -> skip_fuel fuel r = skip_fuel fuel' r.
Proof.
  induction fuel as [|fuel IH]; intros fuel' r Hf Hf' Hd; [lia|]. destruct fuel' as [|fuel']; [lia|].
  assert (forall r0 r1, skip_fuel fuel r0 = Ok r1 -> rd_depth r1 = rd_depth r0) as Hk.
  { intros r0 r1 H. by apply moved_depth, moved_on_moved, (skip_fuel_moves fuel). }
  cbn [skip_fuel]. destruct (ok_or _ _) as [b|]; [|done]. cbn [result_bind].
  destruct (array_marker b); [|destruct (map_marker b); [|done]].
  - destruct (read_array r) as [[n r1]|] eqn:E; [|done]. cbn [result_bind].
    apply read_array_moves, moved_on_moved, moved_depth in E.
    destruct (decide (S (rd_depth r1) <= MAX_DEPTH)%nat) as [Hl|Hl].
    + apply nested_ext. intros r2 H2. apply (times_ext _ _ (S (rd_depth r1))); [|done|done].
      intros r3 H3. apply IH; lia.
    + unfold nested. by rewrite (proj2 (Nat.ltb_lt _ _)) by lia.
  - destruct (read_map r) as [[n r1]|] eqn:E; [|done]. cbn [result_bind].
    apply read_map_moves, moved_on_moved, moved_depth in E.
    destruct (decide (S (rd_depth r1) <= MAX_DEPTH)%nat) as [Hl|Hl].
    + apply nested_ext. intros r2 H2. apply (times_ext _ _ (S (rd_depth r1))); [| |done].
      * intros r3 H3. rewrite (IH fuel' r3) by lia. destruct (skip_fuel fuel' r3) as [r4|] eqn:E4; [|done].
        cbn [result_bind]. rewrite <- (IH fuel' r3) in E4 by lia. apply Hk in E4. apply IH; lia.
      * intros r3 r4 H34. apply result_bind_ok in H34 as (r5 & H35%Hk & H54%Hk). congruence.
    + unfold nested. by rewrite (proj2 (Nat.ltb_lt _ _)) by lia.
Qed.
