(* ===== verification/NativeWire.v ===== *)
(** * The native wire (resolvd-core/src/lib.rs)

    Requests and replies as MessagePack maps, with length-prefixed framing.
    Strings are UTF-8 byte lists. *)

From S2P Require Import Prelude Net IpText Cache Io Msgpack.
Local Open Scope Z_scope.

Notation "w '|>' f" := (f w) (at level 50, left associativity, only parsing) : resolvd_scope.

(** A string literal of the protocol. *)
Abbreviation lit s := (bytes_of s).
Definition is_ (key : list Z) (s : string) : bool := bool_decide (key = bytes_of s).
Abbreviation Text := (list Z).

Definition RESOLVER_QUERY : Z := 1.
Definition RESOLVER_CONTROL : Z := 2.
(** The standard rights are 0x000F_0000. *)
Definition RESOLVER_ALL_ACCESS : Z := Z.lor (Z.lor RESOLVER_QUERY RESOLVER_CONTROL) 983040.
Definition MAX_MESSAGE_BYTES : Z := 65536.
Definition RESOLVD_RUN_DIR : Text := bytes_of "/run/resolvd".
Definition SOCKET_PATH : Text := bytes_of "/run/resolvd/resolv.sock".

(** ** Data *)

Inductive WFamily : Type := WAny | WV4 | WV6.

Definition WFamily_as_str (f : WFamily) : Text :=
  match f with WAny => lit "any" | WV4 => lit "inet" | WV6 => lit "inet6" end.

Definition WFamily_parse (s : Text) : option WFamily :=
  if is_ s "any" then Some WAny
  else if is_ s "inet" then Some WV4
  else if is_ s "inet6" then Some WV6
  else None.

Inductive Request : Type :=
| QResolve (name : Text) (rtype : Z) (no_cache : bool)
| QLookup (name : Text) (family : WFamily)
| QReverse (address : IpAddr)
| QStatus
| QFlush.

Inductive Validation : Type := Unvalidated | Secure | Insecure | Bogus.

Definition Validation_as_str (v : Validation) : Text :=
  match v with
  | Unvalidated => lit "unvalidated"
  | Secure => lit "secure"
  | Insecure => lit "insecure"
  | Bogus => lit "bogus"
  end.

Definition Validation_parse (s : Text) : option Validation :=
  if is_ s "unvalidated" then Some Unvalidated
  else if is_ s "secure" then Some Secure
  else if is_ s "insecure" then Some Insecure
  else if is_ s "bogus" then Some Bogus
  else None.

Record RecordOut : Type := mkRecordOut {
  ro_name : Text;
  ro_rtype : Z;
  ro_ttl : Z;
  ro_data : list Z;
  ro_text : Text;
}.

Record WAnswer : Type := mkWAnswer {
  wa_outcome : Outcome;
  wa_records : list RecordOut;
  wa_source : Text;
  wa_server : option Text;
  wa_interface : option Text;
  wa_validation : Validation;
  wa_rcode : Z;
}.

Record AddressOut : Type := mkAddressOut { ao_address : IpAddr; ao_ttl : Z }.

Record WAddresses : Type := mkWAddresses {
  wd_outcome : Outcome;
  wd_canonical : Text;
  wd_addresses : list AddressOut;
  wd_source : Text;
  wd_validation : Validation;
}.

Record ScopeStatus : Type := mkScopeStatus {
  ss_interface : Text;
  ss_servers : list Text;
  ss_domains : list Text;
  ss_default_route : bool;
  ss_exclusive : bool;
  ss_metric : Z;
  ss_subnets : list Text;
  ss_demoted : list Text;
}.

Record WCounters : Type := mkWCounters {
  wc_queries : Z;
  wc_synthetic : Z;
  wc_cache_hits : Z;
  wc_upstream_sent : Z;
  wc_upstream_answered : Z;
  wc_upstream_failed : Z;
  wc_refused : Z;
}.

Record StatusReport : Type := mkStatusReport {
  sr_hostname : Text;
  sr_netd : bool;
  sr_scopes : list ScopeStatus;
  sr_fallback_servers : list Text;
  sr_cache_entries : Z;
  sr_counters : WCounters;
}.

Inductive Reply : Type :=
| ROk
| RError (message : Text)
| RAnswer (a : WAnswer)
| RAddresses (a : WAddresses)
| RStatus (s : StatusReport).

Definition RecordOut_default : RecordOut := mkRecordOut [] 0 0 [] [].
Definition WAnswer_default : WAnswer := mkWAnswer Outcome_default [] [] None None Unvalidated 0.
Definition WAddresses_default : WAddresses := mkWAddresses Outcome_default [] [] [] Unvalidated.
Definition ScopeStatus_default : ScopeStatus := mkScopeStatus [] [] [] false false 0 [] [].
Definition WCounters_default : WCounters := mkWCounters 0 0 0 0 0 0 0.
Definition StatusReport_default : StatusReport := mkStatusReport [] false [] [] 0 WCounters_default.

(** ** Encoding *)

Definition Request_encode (q : Request) : list Z :=
  match q with
  | QResolve name rtype no_cache =>
      [] |> write_map 4
         |> write_str (lit "query") |> write_str (lit "resolve")
         |> write_str (lit "name") |> write_str name
         |> write_str (lit "type") |> write_uint rtype
         |> write_str (lit "no_cache") |> write_bool no_cache
  | QLookup name family =>
      [] |> write_map 3
         |> write_str (lit "query") |> write_str (lit "lookup")
         |> write_str (lit "name") |> write_str name
         |> write_str (lit "family") |> write_str (WFamily_as_str family)
  | QReverse address =>
      [] |> write_map 2
         |> write_str (lit "query") |> write_str (lit "reverse")
         |> write_str (lit "address") |> write_str (ip_to_string address)
  | QStatus => [] |> write_map 1 |> write_str (lit "query") |> write_str (lit "status")
  | QFlush => [] |> write_map 1 |> write_str (lit "query") |> write_str (lit "flush")
  end.

Definition required_right (q : Request) : Z :=
  match q with QFlush => RESOLVER_CONTROL | _ => RESOLVER_QUERY end.

(** [items.len() as u32]. *)
Definition count_of {A} (items : list A) : Z := wrap 32 (Z.of_nat (length items)).

Definition write_str_list (key : Text) (items : list Text) (w : list Z) : list Z :=
  fold_left (fun w s => w |> write_str s) items (w |> write_str key |> write_array (count_of items)).

Definition write_opt_str (key : Text) (v : option Text) (w : list Z) : list Z :=
  let w := w |> write_str key in
  match v with Some s => w |> write_str s | None => w |> write_nil end.

Definition write_record (w : list Z) (r : RecordOut) : list Z :=
  w |> write_map 5
    |> write_str (lit "name") |> write_str (ro_name r)
    |> write_str (lit "type") |> write_uint (ro_rtype r)
    |> write_str (lit "ttl") |> write_uint (ro_ttl r)
    |> write_str (lit "data") |> write_bin (ro_data r)
    |> write_str (lit "text") |> write_str (ro_text r).

Definition write_address (w : list Z) (x : AddressOut) : list Z :=
  w |> write_map 2
    |> write_str (lit "address") |> write_str (ip_to_string (ao_address x))
    |> write_str (lit "ttl") |> write_uint (ao_ttl x).

Definition write_scope (w : list Z) (sc : ScopeStatus) : list Z :=
  w |> write_map 8
    |> write_str (lit "interface") |> write_str (ss_interface sc)
    |> write_str_list (lit "servers") (ss_servers sc)
    |> write_str_list (lit "domains") (ss_domains sc)
    |> write_str (lit "default_route") |> write_bool (ss_default_route sc)
    |> write_str (lit "exclusive") |> write_bool (ss_exclusive sc)
    |> write_str (lit "metric") |> write_uint (ss_metric sc)
    |> write_str_list (lit "subnets") (ss_subnets sc)
    |> write_str_list (lit "demoted") (ss_demoted sc).

Definition write_counters (c : WCounters) (w : list Z) : list Z :=
  fold_left (fun w kv => w |> write_str kv.1 |> write_uint kv.2)
    [(lit "queries", wc_queries c); (lit "synthetic", wc_synthetic c); (lit "cache_hits", wc_cache_hits c);
     (lit "upstream_sent", wc_upstream_sent c); (lit "upstream_answered", wc_upstream_answered c);
     (lit "upstream_failed", wc_upstream_failed c); (lit "refused", wc_refused c)]
    (w |> write_str (lit "counters") |> write_map 7).

Definition Reply_encode (reply : Reply) : list Z :=
  match reply with
  | ROk => [] |> write_map 1 |> write_str (lit "ok") |> write_bool true
  | RError message =>
      [] |> write_map 2
         |> write_str (lit "ok") |> write_bool false
         |> write_str (lit "error") |> write_str message
  | RAnswer a =>
      let w := [] |> write_map 9 |> write_str (lit "ok") |> write_bool true
        |> write_str (lit "kind") |> write_str (lit "answer")
        |> write_str (lit "outcome") |> write_str (Outcome_as_str (wa_outcome a))
        |> write_str (lit "records") |> write_array (count_of (wa_records a)) in
      fold_left write_record (wa_records a) w
        |> write_str (lit "source") |> write_str (wa_source a)
        |> write_opt_str (lit "server") (wa_server a)
        |> write_opt_str (lit "interface") (wa_interface a)
        |> write_str (lit "validation") |> write_str (Validation_as_str (wa_validation a))
        |> write_str (lit "rcode") |> write_uint (wa_rcode a)
  | RAddresses a =>
      let w := [] |> write_map 7 |> write_str (lit "ok") |> write_bool true
        |> write_str (lit "kind") |> write_str (lit "addresses")
        |> write_str (lit "outcome") |> write_str (Outcome_as_str (wd_outcome a))
        |> write_str (lit "canonical") |> write_str (wd_canonical a)
        |> write_str (lit "addresses") |> write_array (count_of (wd_addresses a)) in
      fold_left write_address (wd_addresses a) w
        |> write_str (lit "source") |> write_str (wd_source a)
        |> write_str (lit "validation") |> write_str (Validation_as_str (wd_validation a))
  | RStatus s =>
      let w := [] |> write_map 8 |> write_str (lit "ok") |> write_bool true
        |> write_str (lit "kind") |> write_str (lit "status")
        |> write_str (lit "hostname") |> write_str (sr_hostname s)
        |> write_str (lit "netd") |> write_bool (sr_netd s)
        |> write_str (lit "scopes") |> write_array (count_of (sr_scopes s)) in
      fold_left write_scope (sr_scopes s) w
        |> write_str_list (lit "fallback_servers") (sr_fallback_servers s)
        |> write_str (lit "cache_entries") |> write_uint (sr_cache_entries s)
        |> write_counters (sr_counters s)
  end.

(** ** Decoding *)

Inductive WireError : Type :=
| Encoding (e : MError)
| Missing (field : Text)
| Duplicate (field : Text)
| UnknownQuery (query : Text)
| TooLarge (n : Z)
| WireIo (e : IoError).

Abbreviation WRead A := (result WireError (A * Reader)).

(** [?] on a MessagePack result. *)
Definition lift {A} (r : result MError A) : result WireError A :=
  match r with Ok a => Ok a | Err e => Err (Encoding e) end.

Definition skip_field (r : Reader) : WRead () :=
  let? r := lift (skip r) in Ok ((), r).

Fixpoint fields_loop {St} (n : nat) (seen : list Text) (f : Text -> St -> Reader -> WRead St)
    (st : St) (r : Reader) : WRead St :=
  match n with
  | O => Ok (st, r)
  | S n =>
      let? (key, r) := lift (read_str r) in
      if existsb (fun s => bool_decide (s = key)) seen then Err (Duplicate key)
      else
        let? (st, r) := f key st r in
        fields_loop n (seen ++ [key]) f st r
  end.

(** Walk a map's fields with the state of the closure. *)
Definition for_each_field {St} (f : Text -> St -> Reader -> WRead St) (st : St) (r : Reader) : WRead St :=
  let? (n, r) := lift (read_map r) in
  fields_loop n [] f st r.

(** [for _ in 0..n] over items that are pushed. *)
Fixpoint read_items {A} (n : nat) (item : Reader -> WRead A) (out : list A) (r : Reader) : WRead (list A) :=
  match n with
  | O => Ok (out, r)
  | S n => let? (x, r) := item r in read_items n item (out ++ [x]) r
  end.

Definition read_str_list (r : Reader) : WRead (list Text) :=
  let? (n, r) := lift (read_array r) in
  read_items n (fun r => lift (read_str r)) [] r.

Definition read_opt_str (r : Reader) : WRead (option Text) :=
  if bool_decide (peek r = Some TNil) then
    let? (_, r) := lift (read_nil r) in Ok (None, r)
  else
    let? (s, r) := lift (read_str r) in Ok (Some s, r).

(** Read a value and store it. *)
Definition store {A St} (rd : Reader -> WRead A) (put : A -> St) (r : Reader) : WRead St :=
  let? (v, r) := rd r in Ok (put v, r).

Definition rd_str (r : Reader) : WRead Text := lift (read_str r).
Definition rd_uint (r : Reader) : WRead Z := lift (read_uint r).
Definition rd_bool (r : Reader) : WRead bool := lift (read_bool r).
Definition rd_bin (r : Reader) : WRead (list Z) := lift (read_bin r).

(** ** Requests *)

Record RequestFields : Type := mkRequestFields {
  q_query : option Text;
  q_name_ : option Text;
  q_type : option Z;
  q_no_cache : bool;
  q_family : option WFamily;
  q_address : option Text;
}.

Definition request_field (key : Text) (s : RequestFields) (r : Reader) : WRead RequestFields :=
  let '(mkRequestFields query name rtype no_cache family address) := s in
  if is_ key "query" then
    store rd_str (fun v => mkRequestFields (Some v) name rtype no_cache family address) r
  else if is_ key "name" then
    store rd_str (fun v => mkRequestFields query (Some v) rtype no_cache family address) r
  else if is_ key "type" then
    let? (v, r) := rd_uint r in
    if v <? 2 ^ 16 then Ok (mkRequestFields query name (Some v) no_cache family address, r)
    else Err (Missing (lit "type"))
  else if is_ key "no_cache" then
    store rd_bool (fun v => mkRequestFields query name rtype v family address) r
  else if is_ key "family" then
    store rd_str (fun v => mkRequestFields query name rtype no_cache (WFamily_parse v) address) r
  else if is_ key "address" then
    store rd_str (fun v => mkRequestFields query name rtype no_cache family (Some v)) r
  else store skip_field (fun _ => s) r.

Definition Request_of (s : RequestFields) : result WireError Request :=
  match q_query s with
  | None => Err (Missing (lit "query"))
  | Some query =>
      if is_ query "resolve" then
        let? name := ok_or (q_name_ s) (Missing (lit "name")) in
        let? rtype := ok_or (q_type s) (Missing (lit "type")) in
        Ok (QResolve name rtype (q_no_cache s))
      else if is_ query "lookup" then
        let? name := ok_or (q_name_ s) (Missing (lit "name")) in
        Ok (QLookup name (default WAny (q_family s)))
      else if is_ query "reverse" then
        let? a := ok_or (q_address s) (Missing (lit "address")) in
        let? address := ok_or (ip_parse a) (Missing (lit "address")) in
        Ok (QReverse address)
      else if is_ query "status" then Ok QStatus
      else if is_ query "flush" then Ok QFlush
      else Err (UnknownQuery query)
  end.

Definition Request_decode (bytes : list Z) : result WireError Request :=
  let? (s, _) := for_each_field request_field (mkRequestFields None None None false None None)
                   (Reader_new bytes) in
  Request_of s.

(** ** Replies *)

Definition record_field (key : Text) (s : RecordOut) (r : Reader) : WRead RecordOut :=
  let '(mkRecordOut name rtype ttl data text) := s in
  if is_ key "name" then store rd_str (fun v => mkRecordOut v rtype ttl data text) r
  else if is_ key "type" then store rd_uint (fun v => mkRecordOut name (wrap 16 v) ttl data text) r
  else if is_ key "ttl" then store rd_uint (fun v => mkRecordOut name rtype (wrap 32 v) data text) r
  else if is_ key "data" then store rd_bin (fun v => mkRecordOut name rtype ttl v text) r
  else if is_ key "text" then store rd_str (fun v => mkRecordOut name rtype ttl data v) r
  else store skip_field (fun _ => s) r.

Definition read_record : Reader -> WRead RecordOut := for_each_field record_field RecordOut_default.

Definition address_field (key : Text) (s : option IpAddr * Z) (r : Reader) : WRead (option IpAddr * Z) :=
  let '(address, ttl) := s in
  if is_ key "address" then store rd_str (fun v => (ip_parse v, ttl)) r
  else if is_ key "ttl" then store rd_uint (fun v => (address, wrap 32 v)) r
  else store skip_field (fun _ => s) r.

Definition read_address : Reader -> WRead (option IpAddr * Z) := for_each_field address_field (None, 0).

(** An entry whose address does not parse is left out. *)
Definition addresses_of (xs : list (option IpAddr * Z)) : list AddressOut :=
  omap (fun x => match x.1 with Some a => Some (mkAddressOut a x.2) | None => None end) xs.

Definition scope_field (key : Text) (s : ScopeStatus) (r : Reader) : WRead ScopeStatus :=
  let '(mkScopeStatus itf servers domains droute excl metric subnets demoted) := s in
  if is_ key "interface" then
    store rd_str (fun v => mkScopeStatus v servers domains droute excl metric subnets demoted) r
  else if is_ key "servers" then
    store read_str_list (fun v => mkScopeStatus itf v domains droute excl metric subnets demoted) r
  else if is_ key "domains" then
    store read_str_list (fun v => mkScopeStatus itf servers v droute excl metric subnets demoted) r
  else if is_ key "default_route" then
    store rd_bool (fun v => mkScopeStatus itf servers domains v excl metric subnets demoted) r
  else if is_ key "exclusive" then
    store rd_bool (fun v => mkScopeStatus itf servers domains droute v metric subnets demoted) r
  else if is_ key "metric" then
    store rd_uint (fun v => mkScopeStatus itf servers domains droute excl (wrap 32 v) subnets demoted) r
  else if is_ key "subnets" then
    store read_str_list (fun v => mkScopeStatus itf servers domains droute excl metric v demoted) r
  else if is_ key "demoted" then
    store read_str_list (fun v => mkScopeStatus itf servers domains droute excl metric subnets v) r
  else store skip_field (fun _ => s) r.

Definition read_scope : Reader -> WRead ScopeStatus := for_each_field scope_field ScopeStatus_default.

Definition counter_field (key : Text) (c : WCounters) (r : Reader) : WRead WCounters :=
  let '(mkWCounters q y h s a f u) := c in
  if is_ key "queries" then store rd_uint (fun v => mkWCounters v y h s a f u) r
  else if is_ key "synthetic" then store rd_uint (fun v => mkWCounters q v h s a f u) r
  else if is_ key "cache_hits" then store rd_uint (fun v => mkWCounters q y v s a f u) r
  else if is_ key "upstream_sent" then store rd_uint (fun v => mkWCounters q y h v a f u) r
  else if is_ key "upstream_answered" then store rd_uint (fun v => mkWCounters q y h s v f u) r
  else if is_ key "upstream_failed" then store rd_uint (fun v => mkWCounters q y h s a v u) r
  else if is_ key "refused" then store rd_uint (fun v => mkWCounters q y h s a f v) r
  else store skip_field (fun _ => c) r.

Record ReplyFields : Type := mkReplyFields {
  p_ok : option bool;
  p_error : option Text;
  p_kind : option Text;
  p_answer : WAnswer;
  p_addresses : WAddresses;
  p_status : StatusReport;
}.

Definition on_answer (f : WAnswer -> WAnswer) (s : ReplyFields) : ReplyFields :=
  mkReplyFields (p_ok s) (p_error s) (p_kind s) (f (p_answer s)) (p_addresses s) (p_status s).
Definition on_addresses (f : WAddresses -> WAddresses) (s : ReplyFields) : ReplyFields :=
  mkReplyFields (p_ok s) (p_error s) (p_kind s) (p_answer s) (f (p_addresses s)) (p_status s).
Definition on_status (f : StatusReport -> StatusReport) (s : ReplyFields) : ReplyFields :=
  mkReplyFields (p_ok s) (p_error s) (p_kind s) (p_answer s) (p_addresses s) (f (p_status s)).

(** An array of items, appended to what was there. *)
Definition read_array_of {A} (item : Reader -> WRead A) (out : list A) (r : Reader) : WRead (list A) :=
  let? (n, r) := lift (read_array r) in
  read_items n item out r.

Definition answer_field (key : Text) (s : ReplyFields) (r : Reader) : option (WRead ReplyFields) :=
  let put f := on_answer f s in
  if is_ key "server" then
    Some (store read_opt_str (fun v => put (fun a =>
      mkWAnswer (wa_outcome a) (wa_records a) (wa_source a) v (wa_interface a) (wa_validation a) (wa_rcode a))) r)
  else if is_ key "interface" then
    Some (store read_opt_str (fun v => put (fun a =>
      mkWAnswer (wa_outcome a) (wa_records a) (wa_source a) (wa_server a) v (wa_validation a) (wa_rcode a))) r)
  else if is_ key "rcode" then
    Some (store rd_uint (fun v => put (fun a =>
      mkWAnswer (wa_outcome a) (wa_records a) (wa_source a) (wa_server a) (wa_interface a) (wa_validation a)
        (wrap 16 v))) r)
  else if is_ key "records" then
    Some (store (read_array_of read_record (wa_records (p_answer s))) (fun v => put (fun a =>
      mkWAnswer (wa_outcome a) v (wa_source a) (wa_server a) (wa_interface a) (wa_validation a) (wa_rcode a))) r)
  else None.

Definition addresses_field (key : Text) (s : ReplyFields) (r : Reader) : option (WRead ReplyFields) :=
  let put f := on_addresses f s in
  if is_ key "canonical" then
    Some (store rd_str (fun v => put (fun a =>
      mkWAddresses (wd_outcome a) v (wd_addresses a) (wd_source a) (wd_validation a))) r)
  else if is_ key "addresses" then
    Some (store (read_array_of read_address []) (fun v => put (fun a =>
      mkWAddresses (wd_outcome a) (wd_canonical a) (wd_addresses a ++ addresses_of v) (wd_source a)
        (wd_validation a))) r)
  else None.

Definition status_field (key : Text) (s : ReplyFields) (r : Reader) : option (WRead ReplyFields) :=
  let put f := on_status f s in
  if is_ key "hostname" then
    Some (store rd_str (fun v => put (fun t =>
      mkStatusReport v (sr_netd t) (sr_scopes t) (sr_fallback_servers t) (sr_cache_entries t) (sr_counters t))) r)
  else if is_ key "netd" then
    Some (store rd_bool (fun v => put (fun t =>
      mkStatusReport (sr_hostname t) v (sr_scopes t) (sr_fallback_servers t) (sr_cache_entries t)
        (sr_counters t))) r)
  else if is_ key "fallback_servers" then
    Some (store read_str_list (fun v => put (fun t =>
      mkStatusReport (sr_hostname t) (sr_netd t) (sr_scopes t) v (sr_cache_entries t) (sr_counters t))) r)
  else if is_ key "cache_entries" then
    Some (store rd_uint (fun v => put (fun t =>
      mkStatusReport (sr_hostname t) (sr_netd t) (sr_scopes t) (sr_fallback_servers t) v (sr_counters t))) r)
  else if is_ key "scopes" then
    Some (store (read_array_of read_scope (sr_scopes (p_status s))) (fun v => put (fun t =>
      mkStatusReport (sr_hostname t) (sr_netd t) v (sr_fallback_servers t) (sr_cache_entries t)
        (sr_counters t))) r)
  else if is_ key "counters" then
    Some (store (for_each_field counter_field (sr_counters (p_status s))) (fun v => put (fun t =>
      mkStatusReport (sr_hostname t) (sr_netd t) (sr_scopes t) (sr_fallback_servers t) (sr_cache_entries t) v)) r)
  else None.

(** The fields both answers and addresses have. *)
Definition shared_field (key : Text) (s : ReplyFields) (r : Reader) : option (WRead ReplyFields) :=
  if is_ key "ok" then
    Some (store rd_bool (fun v =>
      mkReplyFields (Some v) (p_error s) (p_kind s) (p_answer s) (p_addresses s) (p_status s)) r)
  else if is_ key "error" then
    Some (store rd_str (fun v =>
      mkReplyFields (p_ok s) (Some v) (p_kind s) (p_answer s) (p_addresses s) (p_status s)) r)
  else if is_ key "kind" then
    Some (store rd_str (fun v =>
      mkReplyFields (p_ok s) (p_error s) (Some v) (p_answer s) (p_addresses s) (p_status s)) r)
  else if is_ key "outcome" then
    Some (store rd_str (fun v =>
      let o := default Outcome_default (Outcome_parse v) in
      on_answer (fun a => mkWAnswer o (wa_records a) (wa_source a) (wa_server a) (wa_interface a)
                            (wa_validation a) (wa_rcode a))
        (on_addresses (fun a => mkWAddresses o (wd_canonical a) (wd_addresses a) (wd_source a)
                                  (wd_validation a)) s)) r)
  else if is_ key "validation" then
    Some (store rd_str (fun v =>
      let x := default Unvalidated (Validation_parse v) in
      on_answer (fun a => mkWAnswer (wa_outcome a) (wa_records a) (wa_source a) (wa_server a)
                            (wa_interface a) x (wa_rcode a))
        (on_addresses (fun a => mkWAddresses (wd_outcome a) (wd_canonical a) (wd_addresses a)
                                  (wd_source a) x) s)) r)
  else if is_ key "source" then
    Some (store rd_str (fun v =>
      on_answer (fun a => mkWAnswer (wa_outcome a) (wa_records a) v (wa_server a) (wa_interface a)
                            (wa_validation a) (wa_rcode a))
        (on_addresses (fun a => mkWAddresses (wd_outcome a) (wd_canonical a) (wd_addresses a) v
                                  (wd_validation a)) s)) r)
  else None.

(** The [match] of the keys, which are distinct, by group. *)
Definition reply_field (key : Text) (s : ReplyFields) (r : Reader) : WRead ReplyFields :=
  match shared_field key s r with
  | Some x => x
  | None =>
      match answer_field key s r with
      | Some x => x
      | None =>
          match addresses_field key s r with
          | Some x => x
          | None =>
              match status_field key s r with
              | Some x => x
              | None => store skip_field (fun _ => s) r
              end
          end
      end
  end.

Definition Reply_of (s : ReplyFields) : result WireError Reply :=
  match p_ok s with
  | None => Err (Missing (lit "ok"))
  | Some false => Ok (RError (default (lit "unspecified error") (p_error s)))
  | Some true =>
      match p_kind s with
      | Some kind =>
          if is_ kind "answer" then Ok (RAnswer (p_answer s))
          else if is_ kind "addresses" then Ok (RAddresses (p_addresses s))
          else if is_ kind "status" then Ok (RStatus (p_status s))
          else Ok ROk
      | None => Ok ROk
      end
  end.

Definition Reply_decode (bytes : list Z) : result WireError Reply :=
  let? (s, _) := for_each_field reply_field
    (mkReplyFields None None None WAnswer_default WAddresses_default StatusReport_default)
    (Reader_new bytes) in
  Reply_of s.

(** ** Framing *)

(** The bytes [send] puts on the stream. *)
Definition send_frame (payload : list Z) : result WireError (list Z) :=
  if MAX_MESSAGE_BYTES <? Z.of_nat (length payload) then Err (TooLarge (Z.of_nat (length payload)))
  else Ok (le_bytes 4 (wrap 32 (Z.of_nat (length payload))) ++ payload).

(** [Read::read_exact] from the bytes the peer sends before it closes. *)
Definition read_exact (n : nat) (s : list Z) : result WireError (list Z * list Z) :=
  if (n <=? length s)%nat then Ok (take n s, drop n s) else Err (WireIo UnexpectedEof).

Definition recv (s : list Z) : result WireError (list Z * list Z) :=
  let? (len, s) := read_exact 4 s in
  let len := from_le len in
  if MAX_MESSAGE_BYTES <? len then Err (TooLarge len)
  else read_exact (Z.to_nat len) s.

(** [call]: what goes out, and the reply in the bytes that come back. *)
Definition call (request : Request) (back : list Z) : list Z * result WireError Reply :=
  match send_frame (Request_encode request) with
  | Err e => ([], Err e)
  | Ok frame =>
      (frame,
       let? (bytes, _) := recv back in
       Reply_decode bytes)
  end.
