(* ===== verification/NativeWireProofs.v ===== *)
(** * The native wire: maps are read back

    The contract of a reader, lifted to the wire's errors, and the lemma that
    composes it over the fields of a map: [for_each_field] reads what was
    written field by field, whatever the fields. *)

From S2P Require Import Prelude Net IpText Cache Io Msgpack MsgpackProofs NativeWire.
Local Open Scope Z_scope.

(** ** Contracts *)

Definition wreads {A} (rd : Reader -> WRead A) (bytes : list Z) (v : A) : Prop :=
  forall r rest, Reader_ok r -> rd_depth r = 0%nat -> next r = bytes ++ rest ->
  rd r = Ok (v, forward (length bytes) r).

Lemma lift_reads {A} (rd : Reader -> Read A) bytes v : reads rd bytes v -> wreads (fun r => lift (rd r)) bytes v.
Proof. intros H r rest Hr _ Hn. by rewrite (H r rest Hr Hn). Qed.

Lemma store_reads {A St} (rd : Reader -> WRead A) (put : A -> St) bytes v :
  wreads rd bytes v -> wreads (store rd put) bytes (put v).
Proof. intros H r rest Hr Hd Hn. unfold store. by rewrite (H r rest Hr Hd Hn). Qed.

Lemma wreads_bind {A B} (rd : Reader -> WRead A) (k : A -> Reader -> WRead B) a b v w :
  wreads rd a v -> wreads (k v) b w -> wreads (fun r => let? (x, r) := rd r in k x r) (a ++ b) w.
Proof.
  intros Ha Hb r rest Hr Hd Hn. rewrite <- app_assoc in Hn. rewrite (Ha r _ Hr Hd Hn). cbn [result_bind].
  destruct (forward_over r a _ Hr Hn) as [Hr1 Hn1].
  by rewrite (Hb _ rest Hr1 Hd Hn1), forward_forward, length_app.
Qed.

Definition str_ok (s : Text) : Prop := utf8_valid s = true /\ Z.of_nat (length s) < 2 ^ 32.

#[export] Instance str_ok_dec s : Decision (str_ok s).
Proof. unfold str_ok. apply _. Defined.

Lemma rd_str_reads s : str_ok s -> wreads rd_str (write_str s []) s.
Proof. intros [? ?]. by apply lift_reads, read_str_reads. Qed.

Lemma rd_uint_reads v : 0 <= v < 2 ^ 63 -> wreads rd_uint (write_uint v []) v.
Proof. intros. by apply lift_reads, read_uint_reads. Qed.

Lemma rd_bool_reads v : wreads rd_bool (write_bool v []) v.
Proof. apply lift_reads, read_bool_reads. Qed.

Lemma rd_bin_reads b : Z.of_nat (length b) < 2 ^ 32 -> wreads rd_bin (write_bin b []) b.
Proof. intros. by apply lift_reads, read_bin_reads. Qed.

Lemma skip_field_reads v : value_ok v -> (height v <= MAX_DEPTH)%nat -> wreads skip_field (value_wire v) ().
Proof.
  intros Hv Hh r rest Hr Hd Hn. unfold skip_field, skip.
  by rewrite (skip_value v 0 (S MAX_DEPTH) Hv ltac:(lia) ltac:(lia) r rest Hr Hd Hn).
Qed.

Lemma write_str_nonempty s : (1 <= length (write_str s []))%nat.
Proof. unfold write_str. repeat case_match; simpl; lia. Qed.

Lemma opt_str_reads v : (forall s, v = Some s -> str_ok s) ->
  wreads read_opt_str (match v with Some s => write_str s [] | None => write_nil [] end) v.
Proof.
  intros Hv r rest Hr Hd Hn. unfold read_opt_str, peek. destruct v as [s|].
  - destruct (str_head_marker s) as (m & tl & E & Hm & Hs); [by apply Hv|].
    rewrite (head_next r m (tl ++ rest)) by (by rewrite Hn, E).
    assert (m =? 192 = false) as ->.
    { destruct (Z.eqb_spec m 192) as [->|]; [by vm_compute in Hs|done]. }
    rewrite bool_decide_eq_false_2 by (repeat case_match; congruence).
    pose proof (rd_str_reads s (Hv s eq_refl) r rest Hr Hd Hn) as Hs'. unfold rd_str in Hs'. by rewrite Hs'.
  - rewrite (head_next r _ _ Hn). cbn [Z.eqb Pos.eqb]. rewrite bool_decide_eq_true_2 by done.
    pose proof (lift_reads _ _ _ read_nil_reads r rest Hr Hd Hn) as Hs. by rewrite Hs.
Qed.

(** ** Arrays *)

Lemma read_items_reads {A B} (item : Reader -> WRead B) (wire : A -> list Z) (val : A -> B) xs :
  Forall (fun x => wreads item (wire x) (val x)) xs ->
  forall out, wreads (read_items (length xs) item out) (concat (map wire xs)) (out ++ map val xs).
Proof.
  induction 1 as [|x xs Hx _ IH]; intros out; cbn [length read_items map concat].
  - intros r rest Hr _ Hn. rewrite app_nil_r. simpl. by rewrite forward_0.
  - rewrite cons_middle, app_assoc.
    by eapply (wreads_bind item (fun x r => read_items (length xs) item (out ++ [x]) r)).
Qed.

Definition items_wire {A} (wire : A -> list Z) (xs : list A) : list Z :=
  write_array (count_of xs) [] ++ concat (map wire xs).

Lemma array_of_reads {A B} (item : Reader -> WRead B) (wire : A -> list Z) (val : A -> B) xs out :
  Forall (fun x => wreads item (wire x) (val x)) xs -> (forall x, 1 <= length (wire x))%nat ->
  Z.of_nat (length xs) < 2 ^ 32 ->
  wreads (read_array_of item out) (items_wire wire xs) (out ++ map val xs).
Proof.
  intros Hx Hw Hl r rest Hr Hd Hn. unfold items_wire in *. rewrite <- app_assoc in Hn.
  unfold read_array_of, count_of in *. rewrite wrap_small in * by (unfold in_width; lia).
  rewrite (read_array_reads (Z.of_nat (length xs)) r _ ltac:(lia) Hr Hn).
  2:{ pose proof (concat_length_ge wire 1 xs Hw). rewrite length_app. lia. }
  cbn [lift result_bind]. rewrite Nat2Z.id. destruct (forward_over r _ _ Hr Hn) as [Hr1 Hn1].
  by rewrite (read_items_reads item wire val xs Hx out _ rest Hr1 Hd Hn1), forward_forward, length_app.
Qed.

(** ** Maps

    [chain f st fs st']: reading the fields [fs] one after the other takes the
    closure's state from [st] to [st']. *)

Inductive chain {St} (f : Text -> St -> Reader -> WRead St) : St -> list (Text * list Z) -> St -> Prop :=
| chain_nil st : chain f st [] st
| chain_cons st k bytes st1 fs st2 :
    wreads (f k st) bytes st1 -> chain f st1 fs st2 -> chain f st ((k, bytes) :: fs) st2.

Definition field_wire (kb : Text * list Z) : list Z := write_str kb.1 [] ++ kb.2.

Definition map_wire (fs : list (Text * list Z)) : list Z :=
  write_map (Z.of_nat (length fs)) [] ++ concat (map field_wire fs).

(** The loop after the fields [fs], whatever comes behind them. *)
Lemma fields_loop_prefix {St} (f : Text -> St -> Reader -> WRead St) st fs st' : chain f st fs st' ->
  forall m seen r rest, NoDup (map fst fs) -> Forall (fun k => k ∉ seen) (map fst fs) ->
  Forall str_ok (map fst fs) -> Reader_ok r -> rd_depth r = 0%nat ->
  next r = concat (map field_wire fs) ++ rest ->
  fields_loop (length fs + m) seen f st r =
  fields_loop m (seen ++ map fst fs) f st' (forward (length (concat (map field_wire fs))) r).
Proof.
  induction 1 as [st|st k bytes st1 fs st2 Hk _ IH]; intros m seen r rest Hnd Hs Hok Hr Hd Hn.
  { simpl. by rewrite app_nil_r, forward_0. }
  cbn [map fst concat] in *. apply NoDup_cons in Hnd as [Hnk Hnd]. apply Forall_cons in Hs as [Hks Hs].
  apply Forall_cons in Hok as [Hkok Hok]. unfold field_wire at 1 in Hn. cbn [fst snd] in Hn.
  rewrite <- !app_assoc in Hn. cbn [length Nat.add fields_loop].
  fold (rd_str r). rewrite (rd_str_reads k Hkok r _ Hr Hd Hn). cbn [result_bind].
  destruct (forward_over r _ _ Hr Hn) as [Hr1 Hn1].
  assert (existsb (fun s => bool_decide (s = k)) seen = false) as ->.
  { apply not_true_is_false. intros (x & Hx & E)%existsb_exists. bool_simpl. subst.
    by apply list_elem_of_In in Hx. }
  rewrite (Hk _ _ Hr1 Hd Hn1). cbn [result_bind]. destruct (forward_over _ _ _ Hr1 Hn1) as [Hr2 Hn2].
  rewrite (IH m (seen ++ [k]) _ rest Hnd); [|clear IH|done|done|done|done].
  - rewrite <- app_assoc, !forward_forward. do 2 f_equal. unfold field_wire at 2. rewrite !length_app. cbn [fst snd]. lia.
  - rewrite Forall_forall in *. intros x Hx. specialize (Hs x Hx).
    rewrite not_elem_of_app, not_elem_of_cons. split_and!; [done|by intros ->|apply not_elem_of_nil].
Qed.

Lemma fields_loop_reads {St} (f : Text -> St -> Reader -> WRead St) st fs st' : chain f st fs st' ->
  NoDup (map fst fs) -> Forall str_ok (map fst fs) ->
  wreads (fields_loop (length fs) [] f st) (concat (map field_wire fs)) st'.
Proof.
  intros Hc Hnd Hok r rest Hr Hd Hn.
  pose proof (fields_loop_prefix f st fs st' Hc 0 [] r rest Hnd) as H. rewrite Nat.add_0_r in H.
  rewrite H; try done. apply Forall_true. set_solver.
Qed.

Lemma fields_length fs : Forall (fun kb => 1 <= length kb.2)%nat fs ->
  (2 * length fs <= length (concat (map field_wire fs)))%nat.
Proof.
  induction 1 as [|kb fs Hk _ IH]; simpl; [lia|].
  unfold field_wire at 1. rewrite !length_app. pose proof (write_str_nonempty kb.1). lia.
Qed.

Lemma for_each_reads {St} (f : Text -> St -> Reader -> WRead St) st fs st' :
  chain f st fs st' -> NoDup (map fst fs) -> Forall str_ok (map fst fs) ->
  Forall (fun kb => 1 <= length kb.2)%nat fs -> Z.of_nat (length fs) < 2 ^ 32 ->
  wreads (for_each_field f st) (map_wire fs) st'.
Proof.
  intros Hc Hnd Hok Hb Hl r rest Hr Hd Hn. unfold map_wire in *. rewrite <- app_assoc in Hn.
  unfold for_each_field.
  rewrite (read_map_reads (Z.of_nat (length fs)) r _ ltac:(lia) Hr Hn).
  2:{ rewrite length_app. pose proof (fields_length _ Hb). lia. }
  cbn [lift result_bind]. rewrite Nat2Z.id. destruct (forward_over r _ _ Hr Hn) as [Hr1 Hn1].
  rewrite (fields_loop_reads f st fs st' Hc Hnd Hok _ rest Hr1 Hd Hn1).
  by rewrite forward_forward, length_app.
Qed.

(** A key that was seen ends the walk. *)
Lemma for_each_duplicate {St} (f : Text -> St -> Reader -> WRead St) st fs st' k b :
  chain f st fs st' -> NoDup (map fst fs) -> Forall str_ok (map fst fs) ->
  Forall (fun kb => 1 <= length kb.2)%nat (fs ++ [(k, b)]) -> Z.of_nat (S (length fs)) < 2 ^ 32 ->
  k ∈ map fst fs ->
  for_each_field f st (Reader_new (map_wire (fs ++ [(k, b)]))) = Err (Duplicate k).
Proof.
  intros Hc Hnd Hok Hb Hl Hk. set (r := Reader_new _).
  pose proof (Reader_new_ok (map_wire (fs ++ [(k, b)]))) as Hr. fold r in Hr.
  assert (next r = write_map (Z.of_nat (length fs + 1)) [] ++ concat (map field_wire fs) ++ field_wire (k, b)) as Hn.
  { unfold r, map_wire. rewrite next_new, length_app, map_app, concat_app. simpl. by rewrite app_nil_r. }
  unfold for_each_field. rewrite (read_map_reads (Z.of_nat (length fs + 1)) r _ ltac:(lia) Hr Hn).
  2:{ pose proof (fields_length _ Hb) as H. rewrite map_app, concat_app, !length_app in H.
      cbn [map concat] in H. rewrite app_nil_r in H. rewrite length_app. cbn [length] in H. lia. }
  cbn [lift result_bind]. rewrite Nat2Z.id. destruct (forward_over r _ _ Hr Hn) as [Hr1 Hn1].
  rewrite (fields_loop_prefix f st fs st' Hc 1 [] _ (field_wire (k, b)) Hnd); try done.
  2:{ apply Forall_true. set_solver. }
  destruct (forward_over _ _ _ Hr1 Hn1) as [Hr2 Hn2]. cbn [fields_loop].
  assert (str_ok k) as Hks by (rewrite Forall_forall in Hok; by apply Hok).
  fold (rd_str (forward (length (concat (map field_wire fs))) (forward (length (write_map (Z.of_nat (length fs + 1)) [])) r))).
  rewrite (rd_str_reads k Hks _ b Hr2 eq_refl Hn2). cbn [result_bind app].
  assert (existsb (fun s => bool_decide (s = k)) (map fst fs) = true) as ->; [|done].
  apply existsb_exists. exists k. split; [by apply list_elem_of_In|by apply bool_decide_eq_true].
Qed.

(** ** The text of an address is a string *)

Definition ascii_text (s : Text) : Prop := Forall (fun b => 0 <= b <= 127) s.

Lemma utf8_ascii s : ascii_text s -> utf8_valid s = true.
Proof.
  induction 1 as [|b s Hb _ IH]; [done|]. cbn [utf8_valid].
  assert (in_range 0 127 b = true) as ->; [|done]. apply andb_true_iff. rewrite !Z.leb_le. lia.
Qed.

Lemma join_ascii c n ws : 0 <= c <= 127 -> Forall (fun w => ascii_text w /\ (length w <= n)%nat) ws ->
  ascii_text (join_with c ws) /\ (length (join_with c ws) <= S n * length ws)%nat.
Proof.
  intros Hc. induction 1 as [|w ws [Hw Hl] Hws IH]; [split; [constructor|simpl; lia]|].
  destruct ws as [|w' ws]; [split; [done|simpl; lia]|].
  change (join_with c (w :: w' :: ws)) with (w ++ c :: join_with c (w' :: ws)). destruct IH as [IH1 IH2].
  split; [apply Forall_app; split; [done|by constructor]|]. rewrite length_app. cbn [length] in *. lia.
Qed.

Lemma digits_ascii (digit : Z -> option Z) n s : (forall b, is_Some (digit b) -> 0 <= b <= 127) ->
  Forall (fun b => is_Some (digit b)) s -> (length s <= n)%nat -> ascii_text s /\ (length s <= n)%nat.
Proof. intros Hd Hs Hl. split; [|done]. eapply Forall_impl; [exact Hs|]. intros b. apply Hd. Qed.

Lemma fmt_v4_ascii a : ascii_text (fmt_v4 a) /\ (length (fmt_v4 a) <= 16)%nat.
Proof.
  unfold fmt_v4. change 16%nat with (4 * length (map fmt_dec (octets_v4 a)))%nat.
  apply join_ascii; [lia|]. apply Forall_fmap. eapply Forall_impl; [apply (be_bytes_ok 4 a)|].
  intros b Hb. destruct (fmt_dec_octet b Hb) as (Hd & Hl & _). apply (digits_ascii dec_digit); [|done|lia].
  intros x [d Hx]. unfold dec_digit in Hx. case_match; [|done]. bool_simpl. lia.
Qed.

Lemma fmt_subslice_ascii gs : Forall is_u16 gs ->
  ascii_text (fmt_subslice gs) /\ (length (fmt_subslice gs) <= 5 * length gs)%nat.
Proof.
  intros Hg. unfold fmt_subslice. rewrite <- (length_map fmt_hex gs). apply join_ascii; [lia|].
  apply Forall_fmap. eapply Forall_impl; [exact Hg|].
  intros g Hu. destruct (fmt_hex_group g Hu) as (Hd & Hl & _). apply (digits_ascii hex_digit); [|done|lia].
  intros x [d Hx]. unfold hex_digit in Hx. repeat case_match; try done; bool_simpl; lia.
Qed.

Lemma ip_to_string_short a : IpAddr_wf a -> ascii_text (ip_to_string a) /\ (length (ip_to_string a) <= 100)%nat.
Proof.
  intros Ha. destruct a as [a|a]; cbn [ip_to_string].
  { destruct (fmt_v4_ascii a). split; [done|lia]. }
  destruct (segments_spec a Ha) as (Hs & Hl & _). unfold fmt_v6.
  destruct (to_ipv4_mapped (segments a)) as [[g h]|].
  { destruct (fmt_v4_ascii (from_be (be_bytes 2 g ++ be_bytes 2 h))).
    split; [apply Forall_app; split; [by_decide|done]|].
    rewrite length_app. change (length (bytes_of "::ffff:")) with 7%nat. lia. }
  destruct (zero_span _ _ _ _) as [start len]. case_match.
  - destruct (fmt_subslice_ascii (take start (segments a))) as [H1 L1]; [by apply Forall_take|].
    destruct (fmt_subslice_ascii (drop (start + len) (segments a))) as [H2 L2]; [by apply Forall_drop|].
    rewrite length_take in L1. rewrite length_drop in L2.
    split; [apply Forall_app; split; [done|]; apply Forall_app; split; [by_decide|done]|].
    rewrite !length_app. cbn [length]. lia.
  - destruct (fmt_subslice_ascii (segments a) Hs) as [? L]. split; [done|lia].
Qed.

Lemma ip_to_string_ok a : IpAddr_wf a -> str_ok (ip_to_string a).
Proof. intros [Ha Hl]%ip_to_string_short. split; [by apply utf8_ascii|lia]. Qed.

(** ** Reading back, field by field *)

(** Append the writes to the buffer one by one. *)
Ltac push_wire :=
  repeat match goal with
  | |- context [write_str ?s ?w] => lazymatch w with [] => fail | _ => rewrite (write_str_app s w) end
  | |- context [write_uint ?s ?w] => lazymatch w with [] => fail | _ => rewrite (write_uint_app s w) end
  | |- context [write_bool ?s ?w] => lazymatch w with [] => fail | _ => rewrite (write_bool_app s w) end
  | |- context [write_bin ?s ?w] => lazymatch w with [] => fail | _ => rewrite (write_bin_app s w) end
  | |- context [write_nil ?w] => lazymatch w with [] => fail | _ => rewrite (write_nil_app w) end
  | |- context [write_array ?s ?w] => lazymatch w with [] => fail | _ => rewrite (write_array_app s w) end
  | |- context [write_map ?s ?w] => lazymatch w with [] => fail | _ => rewrite (write_map_app s w) end
  end.

(** Show that an encoding is the wire of a list of fields. *)
Ltac by_fields :=
  push_wire; unfold map_wire, field_wire; cbn [map concat fst snd length];
  rewrite <- ?app_assoc, ?app_nil_r; reflexivity.

(** Decide the comparisons with literal keys. *)
Ltac keys :=
  repeat match goal with
  | |- context [is_ ?k ?s] =>
      let v := eval vm_compute in (is_ k s) in
      lazymatch v with true => idtac | false => idtac end; change (is_ k s) with v
  end; cbv iota.

(** One field: find its branch in [unf] and store what its reader returns. *)
Ltac field unf tac :=
  eapply chain_cons; [unf; cbv beta iota; keys; eapply store_reads; tac|cbv beta].

Definition Request_wf (q : Request) : Prop :=
  match q with
  | QResolve name rtype _ => str_ok name /\ is_u16 rtype
  | QLookup name _ => str_ok name
  | QReverse address => IpAddr_wf address
  | QStatus | QFlush => True
  end.

Definition Request_fields (q : Request) : list (Text * list Z) :=
  match q with
  | QResolve name rtype no_cache =>
      [(lit "query", write_str (lit "resolve") []); (lit "name", write_str name []);
       (lit "type", write_uint rtype []); (lit "no_cache", write_bool no_cache [])]
  | QLookup name family =>
      [(lit "query", write_str (lit "lookup") []); (lit "name", write_str name []);
       (lit "family", write_str (WFamily_as_str family) [])]
  | QReverse address =>
      [(lit "query", write_str (lit "reverse") []); (lit "address", write_str (ip_to_string address) [])]
  | QStatus => [(lit "query", write_str (lit "status") [])]
  | QFlush => [(lit "query", write_str (lit "flush") [])]
  end.

Lemma Request_encode_fields q : Request_encode q = map_wire (Request_fields q).
Proof. destruct q; unfold Request_encode, Request_fields; by_fields. Qed.

Lemma chain_app {St} (f : Text -> St -> Reader -> WRead St) st xs ys st' :
  chain f st (xs ++ ys) st' <-> exists st1, chain f st xs st1 /\ chain f st1 ys st'.
Proof.
  revert st. induction xs as [|[k b] xs IH]; intros st; simpl; split.
  - intros H. exists st. split; [constructor|done].
  - intros (st1 & H1 & H2). by inversion H1; subst.
  - intros H. inversion H as [|? ? ? st0 ? ? Hk Hc]; subst. apply IH in Hc as (st1 & H1 & H2).
    exists st1. split; [by econstructor|done].
  - intros (st1 & H1 & H2). inversion H1; subst. econstructor; [done|]. apply IH. eauto.
Qed.

(** Fields a closure does not know, with the values a newer peer may send. *)
Definition unknown_wire (extra : list (Text * Value)) : list (Text * list Z) :=
  map (fun kv => (kv.1, value_wire kv.2)) extra.

Definition unknown_ok (known : list Text) (extra : list (Text * Value)) : Prop :=
  Forall (fun kv => str_ok kv.1 /\ kv.1 ∉ known /\ value_ok kv.2 /\ (height kv.2 <= MAX_DEPTH)%nat) extra.

Lemma chain_unknown {St} (f : Text -> St -> Reader -> WRead St) known st extra :
  (forall k st, k ∉ known -> f k st = store skip_field (fun _ => st)) ->
  unknown_ok known extra -> chain f st (unknown_wire extra) st.
Proof.
  intros Hf. induction 1 as [|[k v] extra (Hk & Hn & Hv & Hh) _ IH]; [constructor|].
  simpl. apply chain_cons with (st1 := st); [|done]. simpl in *. rewrite Hf by done.
  by apply (store_reads skip_field (fun _ => st) _ ()), skip_field_reads.
Qed.

Definition fields_ok (fs : list (Text * list Z)) : Prop :=
  NoDup (map fst fs) /\ Forall str_ok (map fst fs) /\ Forall (fun kb => 1 <= length kb.2)%nat fs /\
  Z.of_nat (length fs) < 2 ^ 32.

Lemma for_each_wire {St} (f : Text -> St -> Reader -> WRead St) st fs st' :
  chain f st fs st' -> fields_ok fs ->
  for_each_field f st (Reader_new (map_wire fs)) = Ok (st', forward (length (map_wire fs)) (Reader_new (map_wire fs))).
Proof.
  intros Hc (H1 & H2 & H3 & H4). eapply (for_each_reads f st fs st' Hc H1 H2 H3 H4 _ []); [apply Reader_new_ok|done|].
  by rewrite app_nil_r.
Qed.

(** ** Requests *)

Definition request_init : RequestFields := mkRequestFields None None None false None None.

Definition request_keys : list Text :=
  [lit "query"; lit "name"; lit "type"; lit "no_cache"; lit "family"; lit "address"].

Lemma is_false key s : key <> bytes_of s -> is_ key s = false.
Proof. apply bool_decide_eq_false_2. Qed.

Lemma request_field_unknown key st : key ∉ request_keys ->
  request_field key st = store skip_field (fun _ => st).
Proof.
  unfold request_keys. rewrite !not_elem_of_cons. intros (? & ? & ? & ? & ? & ? & _).
  unfold request_field. destruct st. by rewrite !is_false by done.
Qed.

Definition Request_state (q : Request) : RequestFields :=
  match q with
  | QResolve name rtype no_cache =>
      mkRequestFields (Some (lit "resolve")) (Some name) (Some rtype) no_cache None None
  | QLookup name family => mkRequestFields (Some (lit "lookup")) (Some name) None false (Some family) None
  | QReverse address => mkRequestFields (Some (lit "reverse")) None None false None (Some (ip_to_string address))
  | QStatus => mkRequestFields (Some (lit "status")) None None false None None
  | QFlush => mkRequestFields (Some (lit "flush")) None None false None None
  end.

Lemma type_field_reads {St} (put : Z -> St) v : is_u16 v ->
  wreads (fun r => let? (v, r) := rd_uint r in
            if v <? 2 ^ 16 then Ok (put v, r) else Err (Missing (lit "type"))) (write_uint v []) (put v).
Proof.
  intros [H0 H1] r rest Hr Hd Hn. rewrite (rd_uint_reads v ltac:(lia) r rest Hr Hd Hn). cbn [result_bind].
  by rewrite (proj2 (Z.ltb_lt _ _)).
Qed.

Lemma WFamily_roundtrip f : str_ok (WFamily_as_str f) /\ WFamily_parse (WFamily_as_str f) = Some f.
Proof. destruct f; (split; [by_decide|done]). Qed.

Ltac lit_str := apply rd_str_reads; by_decide.

Lemma Request_chain q : Request_wf q -> chain request_field request_init (Request_fields q) (Request_state q).
Proof.
  intros Hq. unfold request_init.
  destruct q as [name rtype no_cache|name family|address| |]; simpl in Hq; unfold Request_fields;
    field ltac:(unfold request_field) lit_str.
  - destruct Hq as [Hn Ht]. field ltac:(unfold request_field) ltac:(by apply rd_str_reads).
    eapply chain_cons.
    { unfold request_field. cbv beta iota. keys.
      apply (type_field_reads (fun v => mkRequestFields _ _ (Some v) _ _ _) rtype Ht). }
    field ltac:(unfold request_field) ltac:(apply rd_bool_reads). constructor.
  - field ltac:(unfold request_field) ltac:(by apply rd_str_reads).
    destruct (WFamily_roundtrip family) as [Hf Hp].
    field ltac:(unfold request_field) ltac:(by apply rd_str_reads). rewrite Hp. constructor.
  - field ltac:(unfold request_field) ltac:(by apply rd_str_reads, ip_to_string_ok). constructor.
  - constructor.
  - constructor.
Qed.

Lemma Request_of_state q : Request_wf q -> Request_of (Request_state q) = Ok q.
Proof.
  intros Hq. destruct q as [name rtype no_cache|name family|address| |]; try done.
  unfold Request_of, Request_state. cbn [q_query q_address]. keys. cbn [ok_or result_bind].
  by rewrite ip_parse_to_string.
Qed.

Lemma Request_fields_keys q : Forall (fun k => k ∈ request_keys /\ str_ok k) (map fst (Request_fields q)) /\
  NoDup (map fst (Request_fields q)) /\ (length (Request_fields q) <= 4)%nat.
Proof. destruct q; (split; [by_decide|split; [by_decide|simpl; lia]]). Qed.

Lemma write_uint_nonempty v : (1 <= length (write_uint v []))%nat.
Proof. unfold write_uint. repeat case_match; simpl; lia. Qed.

Lemma Request_fields_nonempty q : Forall (fun kb => 1 <= length kb.2)%nat (Request_fields q).
Proof.
  destruct q; unfold Request_fields; repeat apply Forall_cons_2; try apply Forall_nil_2; cbn [snd];
    try apply write_str_nonempty; [apply write_uint_nonempty|simpl; lia].
Qed.

Lemma fields_ok_perm fs gs : fs ≡ₚ gs -> fields_ok gs -> fields_ok fs.
Proof.
  intros Hp (H1 & H2 & H3 & H4). pose proof (Permutation_map fst Hp) as Hm. split_and!.
  - by rewrite Hm.
  - rewrite Forall_forall in *. intros k Hk. apply H2. by rewrite <- Hm.
  - rewrite Forall_forall in *. intros k Hk. apply H3. by rewrite <- Hp.
  - by rewrite (Permutation_length Hp).
Qed.

(** Unknown fields between known ones keep the map well formed. *)
Lemma unknown_fields_ok known xs ys extra :
  Forall (fun k => k ∈ known /\ str_ok k) (map fst (xs ++ ys)) -> NoDup (map fst (xs ++ ys)) ->
  Forall (fun kb => 1 <= length kb.2)%nat (xs ++ ys) -> (length (xs ++ ys) <= 9)%nat ->
  unknown_ok known extra -> NoDup (map fst extra) -> Z.of_nat (length extra) < 2 ^ 31 ->
  fields_ok (xs ++ unknown_wire extra ++ ys).
Proof.
  intros Hk Hnd Hne Hl Hex Hndx Hlx.
  assert (map fst (unknown_wire extra) = map fst extra) as Efst by (unfold unknown_wire; by rewrite map_map).
  apply (fields_ok_perm _ ((xs ++ ys) ++ unknown_wire extra)).
  { rewrite <- app_assoc. apply Permutation_app_head, Permutation_app_comm. }
  unfold fields_ok. rewrite map_app, length_app, Efst. rewrite !map_app, length_app in *.
  unfold unknown_ok in Hex. rewrite Forall_forall in Hex. split_and!.
  - apply NoDup_app. split_and!; [done| |done].
    intros k Hin (kv & -> & Hkv)%list_elem_of_fmap. destruct (Hex kv Hkv) as (_ & Hn & _). apply Hn.
    rewrite Forall_forall in Hk. by apply Hk.
  - apply Forall_app. split; [eapply Forall_impl; [exact Hk|by intros ? []]|].
    apply Forall_forall. intros k (kv & -> & Hkv)%list_elem_of_fmap. by apply Hex.
  - apply Forall_app. split; [done|]. apply Forall_forall.
    intros kb (kv & -> & Hkv)%list_elem_of_fmap. apply value_wire_nonempty.
  - unfold unknown_wire. rewrite length_map. lia.
Qed.

Lemma Request_decode_encode q : Request_wf q -> Request_decode (Request_encode q) = Ok q.
Proof.
  intros Hq. destruct (Request_fields_keys q) as (Hk & Hnd & Hl). unfold Request_decode. fold request_init.
  rewrite Request_encode_fields, (for_each_wire _ _ _ _ (Request_chain q Hq)).
  - by apply Request_of_state.
  - split_and!; [done|eapply Forall_impl; [exact Hk|by intros ? []]|apply Request_fields_nonempty|lia].
Qed.

(** ** The items of a reply *)

Definition RecordOut_wf (r : RecordOut) : Prop :=
  str_ok (ro_name r) /\ is_u16 (ro_rtype r) /\ is_u32 (ro_ttl r) /\
  Z.of_nat (length (ro_data r)) < 2 ^ 32 /\ str_ok (ro_text r).

Definition AddressOut_wf (x : AddressOut) : Prop := IpAddr_wf (ao_address x) /\ is_u32 (ao_ttl x).

Definition strs_ok (l : list Text) : Prop := Forall str_ok l /\ Z.of_nat (length l) < 2 ^ 32.

Definition ScopeStatus_wf (s : ScopeStatus) : Prop :=
  str_ok (ss_interface s) /\ strs_ok (ss_servers s) /\ strs_ok (ss_domains s) /\ is_u32 (ss_metric s) /\
  strs_ok (ss_subnets s) /\ strs_ok (ss_demoted s).

(** [read_uint] goes through [i64]: counts up to [i64::MAX] come back. *)
Definition is_count (v : Z) : Prop := 0 <= v < 2 ^ 63.

Definition WCounters_wf (c : WCounters) : Prop :=
  is_count (wc_queries c) /\ is_count (wc_synthetic c) /\ is_count (wc_cache_hits c) /\
  is_count (wc_upstream_sent c) /\ is_count (wc_upstream_answered c) /\ is_count (wc_upstream_failed c) /\
  is_count (wc_refused c).

Definition str_list_wire : list Text -> list Z := items_wire (fun s => write_str s []).

Definition record_fields (r : RecordOut) : list (Text * list Z) :=
  [(lit "name", write_str (ro_name r) []); (lit "type", write_uint (ro_rtype r) []);
   (lit "ttl", write_uint (ro_ttl r) []); (lit "data", write_bin (ro_data r) []);
   (lit "text", write_str (ro_text r) [])].

Definition address_fields (x : AddressOut) : list (Text * list Z) :=
  [(lit "address", write_str (ip_to_string (ao_address x)) []); (lit "ttl", write_uint (ao_ttl x) [])].

Definition scope_fields (sc : ScopeStatus) : list (Text * list Z) :=
  [(lit "interface", write_str (ss_interface sc) []); (lit "servers", str_list_wire (ss_servers sc));
   (lit "domains", str_list_wire (ss_domains sc)); (lit "default_route", write_bool (ss_default_route sc) []);
   (lit "exclusive", write_bool (ss_exclusive sc) []); (lit "metric", write_uint (ss_metric sc) []);
   (lit "subnets", str_list_wire (ss_subnets sc)); (lit "demoted", str_list_wire (ss_demoted sc))].

Definition counter_fields (c : WCounters) : list (Text * list Z) :=
  [(lit "queries", write_uint (wc_queries c) []); (lit "synthetic", write_uint (wc_synthetic c) []);
   (lit "cache_hits", write_uint (wc_cache_hits c) []); (lit "upstream_sent", write_uint (wc_upstream_sent c) []);
   (lit "upstream_answered", write_uint (wc_upstream_answered c) []);
   (lit "upstream_failed", write_uint (wc_upstream_failed c) []); (lit "refused", write_uint (wc_refused c) [])].

Lemma fold_appends {A} (f : list Z -> A -> list Z) (wire : A -> list Z) xs :
  (forall w x, f w x = w ++ wire x) -> forall w, fold_left f xs w = w ++ concat (map wire xs).
Proof.
  intros Hf. induction xs as [|x xs IH]; intros w; simpl; [by rewrite app_nil_r|].
  by rewrite IH, Hf, <- app_assoc.
Qed.

Lemma write_record_fields w r : write_record w r = w ++ map_wire (record_fields r).
Proof. unfold write_record, record_fields. by_fields. Qed.

Lemma write_address_fields w x : write_address w x = w ++ map_wire (address_fields x).
Proof. unfold write_address, address_fields. by_fields. Qed.

Lemma write_str_list_wire key items w :
  write_str_list key items w = w ++ write_str key [] ++ str_list_wire items.
Proof.
  unfold write_str_list, str_list_wire, items_wire. rewrite (fold_appends _ (fun s => write_str s [])).
  - push_wire. by rewrite <- !app_assoc.
  - intros. apply write_str_app.
Qed.

Lemma write_scope_fields w sc : write_scope w sc = w ++ map_wire (scope_fields sc).
Proof. unfold write_scope, scope_fields. rewrite !write_str_list_wire. by_fields. Qed.

Lemma write_counters_fields c w : write_counters c w = w ++ write_str (lit "counters") [] ++ map_wire (counter_fields c).
Proof. unfold write_counters, counter_fields. cbn [fold_left fst snd]. by_fields. Qed.

Lemma write_opt_str_wire key v w : write_opt_str key v w =
  w ++ write_str key [] ++ (match v with Some s => write_str s [] | None => write_nil [] end).
Proof. unfold write_opt_str. destruct v; push_wire; by rewrite <- !app_assoc. Qed.

Lemma str_list_reads items : strs_ok items -> wreads read_str_list (str_list_wire items) items.
Proof.
  intros [Hi Hl]. rewrite <- (map_id items) at 2.
  apply (array_of_reads (fun r => lift (read_str r)) (fun s => write_str s []) (fun s => s) items []);
    [|intros; apply write_str_nonempty|done].
  eapply Forall_impl; [done|]. intros s. apply rd_str_reads.
Qed.

(** Closed conditions on a list of literal keys. *)
Lemma wire_nonempty_map fs : (1 <= length (map_wire fs))%nat.
Proof. unfold map_wire, write_map. repeat case_match; simpl; lia. Qed.

Lemma items_nonempty {A} (wire : A -> list Z) xs : (1 <= length (items_wire wire xs))%nat.
Proof. unfold items_wire, write_array. repeat case_match; simpl; lia. Qed.

Lemma str_list_nonempty l : (1 <= length (str_list_wire l))%nat.
Proof. apply items_nonempty. Qed.

Lemma write_bin_nonempty b : (1 <= length (write_bin b []))%nat.
Proof. unfold write_bin. repeat case_match; simpl; lia. Qed.

Ltac fields_nonempty :=
  repeat apply Forall_cons_2; try apply Forall_nil_2; cbn [snd];
  first [apply write_str_nonempty|apply write_uint_nonempty|apply write_bin_nonempty
        |apply str_list_nonempty|apply items_nonempty|apply wire_nonempty_map|simpl; lia].

Lemma wrap_uint w v : in_width w v -> 0 <= w <= 63 -> 0 <= v < 2 ^ 63 /\ wrap w v = v.
Proof.
  intros [H0 H1] Hw. split; [|by apply wrap_small]. split; [done|].
  pose proof (Z.pow_le_mono_r 2 w 63 ltac:(lia) ltac:(lia)). lia.
Qed.

Lemma record_reads r : RecordOut_wf r -> wreads read_record (map_wire (record_fields r)) r.
Proof.
  intros (Hn & Ht & Hl & Hd & Hx). unfold read_record, RecordOut_default.
  destruct (wrap_uint 16 (ro_rtype r) Ht ltac:(lia)) as [Ht' Et].
  destruct (wrap_uint 32 (ro_ttl r) Hl ltac:(lia)) as [Hl' El].
  apply for_each_reads; [|by_decide|by_decide|fields_nonempty|by_decide].
  unfold record_fields.
  field ltac:(unfold record_field) ltac:(by apply rd_str_reads).
  field ltac:(unfold record_field) ltac:(by apply rd_uint_reads).
  field ltac:(unfold record_field) ltac:(by apply rd_uint_reads).
  field ltac:(unfold record_field) ltac:(by apply rd_bin_reads).
  field ltac:(unfold record_field) ltac:(by apply rd_str_reads).
  rewrite Et, El. destruct r. constructor.
Qed.

Lemma address_reads x : AddressOut_wf x ->
  wreads read_address (map_wire (address_fields x)) (Some (ao_address x), ao_ttl x).
Proof.
  intros (Ha & Hl). unfold read_address. destruct (wrap_uint 32 (ao_ttl x) Hl ltac:(lia)) as [Hl' El].
  apply for_each_reads; [|by_decide|by_decide|fields_nonempty|by_decide]. unfold address_fields.
  field ltac:(unfold address_field) ltac:(by apply rd_str_reads, ip_to_string_ok).
  field ltac:(unfold address_field) ltac:(by apply rd_uint_reads).
  rewrite El, ip_parse_to_string by done. constructor.
Qed.

Lemma scope_reads sc : ScopeStatus_wf sc -> wreads read_scope (map_wire (scope_fields sc)) sc.
Proof.
  intros (Hi & Hs & Hd & Hm & Hn & Hx). unfold read_scope, ScopeStatus_default.
  destruct (wrap_uint 32 (ss_metric sc) Hm ltac:(lia)) as [Hm' Em].
  apply for_each_reads; [|by_decide|by_decide|fields_nonempty|by_decide]. unfold scope_fields.
  field ltac:(unfold scope_field) ltac:(by apply rd_str_reads).
  field ltac:(unfold scope_field) ltac:(by apply str_list_reads).
  field ltac:(unfold scope_field) ltac:(by apply str_list_reads).
  field ltac:(unfold scope_field) ltac:(by apply rd_bool_reads).
  field ltac:(unfold scope_field) ltac:(by apply rd_bool_reads).
  field ltac:(unfold scope_field) ltac:(by apply rd_uint_reads).
  field ltac:(unfold scope_field) ltac:(by apply str_list_reads).
  field ltac:(unfold scope_field) ltac:(by apply str_list_reads).
  rewrite Em. destruct sc. constructor.
Qed.

Lemma counters_reads c : WCounters_wf c ->
  wreads (for_each_field counter_field WCounters_default) (map_wire (counter_fields c)) c.
Proof.
  intros (H1 & H2 & H3 & H4 & H5 & H6 & H7). unfold WCounters_default.
  apply for_each_reads; [|by_decide|by_decide|fields_nonempty|by_decide]. unfold counter_fields.
  do 7 field ltac:(unfold counter_field) ltac:(by apply rd_uint_reads).
  destruct c. constructor.
Qed.

(** ** Replies *)

Definition opt_str_ok (v : option Text) : Prop := forall s, v = Some s -> str_ok s.

Definition WAnswer_wf (a : WAnswer) : Prop :=
  Forall RecordOut_wf (wa_records a) /\ Z.of_nat (length (wa_records a)) < 2 ^ 32 /\ str_ok (wa_source a) /\
  opt_str_ok (wa_server a) /\ opt_str_ok (wa_interface a) /\ is_u16 (wa_rcode a).

Definition WAddresses_wf (a : WAddresses) : Prop :=
  str_ok (wd_canonical a) /\ Forall AddressOut_wf (wd_addresses a) /\
  Z.of_nat (length (wd_addresses a)) < 2 ^ 32 /\ str_ok (wd_source a).

Definition StatusReport_wf (s : StatusReport) : Prop :=
  str_ok (sr_hostname s) /\ Forall ScopeStatus_wf (sr_scopes s) /\ Z.of_nat (length (sr_scopes s)) < 2 ^ 32 /\
  strs_ok (sr_fallback_servers s) /\ is_count (sr_cache_entries s) /\ WCounters_wf (sr_counters s).

Definition Reply_wf (reply : Reply) : Prop :=
  match reply with
  | ROk => True
  | RError m => str_ok m
  | RAnswer a => WAnswer_wf a
  | RAddresses a => WAddresses_wf a
  | RStatus s => StatusReport_wf s
  end.

Definition opt_str_wire (v : option Text) : list Z :=
  match v with Some s => write_str s [] | None => write_nil [] end.

Definition Reply_fields (reply : Reply) : list (Text * list Z) :=
  match reply with
  | ROk => [(lit "ok", write_bool true [])]
  | RError m => [(lit "ok", write_bool false []); (lit "error", write_str m [])]
  | RAnswer a =>
      [(lit "ok", write_bool true []); (lit "kind", write_str (lit "answer") []);
       (lit "outcome", write_str (Outcome_as_str (wa_outcome a)) []);
       (lit "records", items_wire (fun r => map_wire (record_fields r)) (wa_records a));
       (lit "source", write_str (wa_source a) []); (lit "server", opt_str_wire (wa_server a));
       (lit "interface", opt_str_wire (wa_interface a));
       (lit "validation", write_str (Validation_as_str (wa_validation a)) []);
       (lit "rcode", write_uint (wa_rcode a) [])]
  | RAddresses a =>
      [(lit "ok", write_bool true []); (lit "kind", write_str (lit "addresses") []);
       (lit "outcome", write_str (Outcome_as_str (wd_outcome a)) []);
       (lit "canonical", write_str (wd_canonical a) []);
       (lit "addresses", items_wire (fun x => map_wire (address_fields x)) (wd_addresses a));
       (lit "source", write_str (wd_source a) []);
       (lit "validation", write_str (Validation_as_str (wd_validation a)) [])]
  | RStatus s =>
      [(lit "ok", write_bool true []); (lit "kind", write_str (lit "status") []);
       (lit "hostname", write_str (sr_hostname s) []); (lit "netd", write_bool (sr_netd s) []);
       (lit "scopes", items_wire (fun x => map_wire (scope_fields x)) (sr_scopes s));
       (lit "fallback_servers", str_list_wire (sr_fallback_servers s));
       (lit "cache_entries", write_uint (sr_cache_entries s) []);
       (lit "counters", map_wire (counter_fields (sr_counters s)))]
  end.

Lemma Reply_encode_fields reply : Reply_encode reply = map_wire (Reply_fields reply).
Proof.
  destruct reply as [|m|a|a|s]; unfold Reply_encode, Reply_fields, items_wire; cbv zeta; [by_fields|by_fields|..].
  - rewrite (fold_appends write_record _ _ write_record_fields), !write_opt_str_wire. fold (opt_str_wire (wa_server a)).
    fold (opt_str_wire (wa_interface a)). by_fields.
  - rewrite (fold_appends write_address _ _ write_address_fields). by_fields.
  - rewrite (fold_appends write_scope _ _ write_scope_fields), write_counters_fields, write_str_list_wire.
    by_fields.
Qed.

Lemma Outcome_roundtrip o : str_ok (Outcome_as_str o) /\ Outcome_parse (Outcome_as_str o) = Some o.
Proof. destruct o; (split; [by_decide|done]). Qed.

Lemma Validation_roundtrip v : str_ok (Validation_as_str v) /\ Validation_parse (Validation_as_str v) = Some v.
Proof. destruct v; (split; [by_decide|done]). Qed.

Definition reply_init : ReplyFields :=
  mkReplyFields None None None WAnswer_default WAddresses_default StatusReport_default.

Ltac reply_step tac :=
  field ltac:(unfold reply_field, shared_field, answer_field, addresses_field, status_field) tac.

Lemma array_wire_reads {A} (item : Reader -> WRead A) (wire : A -> list (Text * list Z)) xs :
  Forall (fun x => wreads item (map_wire (wire x)) x) xs -> Z.of_nat (length xs) < 2 ^ 32 ->
  wreads (read_array_of item []) (items_wire (fun x => map_wire (wire x)) xs) xs.
Proof.
  intros Hx Hl. rewrite <- (map_id xs) at 2.
  apply (array_of_reads item _ (fun x => x) xs []); [done|intros; apply wire_nonempty_map|done].
Qed.

Definition Reply_state (reply : Reply) : ReplyFields :=
  match reply with
  | ROk => mkReplyFields (Some true) None None WAnswer_default WAddresses_default StatusReport_default
  | RError m => mkReplyFields (Some false) (Some m) None WAnswer_default WAddresses_default StatusReport_default
  | RAnswer a =>
      mkReplyFields (Some true) None (Some (lit "answer")) a
        (mkWAddresses (wa_outcome a) [] [] (wa_source a) (wa_validation a)) StatusReport_default
  | RAddresses a =>
      mkReplyFields (Some true) None (Some (lit "addresses"))
        (mkWAnswer (wd_outcome a) [] (wd_source a) None None (wd_validation a) 0) a StatusReport_default
  | RStatus s => mkReplyFields (Some true) None (Some (lit "status")) WAnswer_default WAddresses_default s
  end.

Lemma addresses_of_outs xs : addresses_of (map (fun x => (Some (ao_address x), ao_ttl x)) xs) = xs.
Proof. unfold addresses_of. induction xs as [|[a t] xs IH]; simpl; [done|]. f_equal. apply IH. Qed.

Lemma addresses_reads xs : Forall AddressOut_wf xs -> Z.of_nat (length xs) < 2 ^ 32 ->
  wreads (read_array_of read_address []) (items_wire (fun x => map_wire (address_fields x)) xs)
    (map (fun x => (Some (ao_address x), ao_ttl x)) xs).
Proof.
  intros Hx Hl. apply (array_of_reads read_address _ (fun x => (Some (ao_address x), ao_ttl x)) xs []);
    [|intros; apply wire_nonempty_map|done].
  eapply Forall_impl; [done|]. apply address_reads.
Qed.

Lemma Reply_chain reply : Reply_wf reply -> chain reply_field reply_init (Reply_fields reply) (Reply_state reply).
Proof.
  intros Hw. unfold reply_init.
  destruct reply as [|m|a|a|s]; simpl in Hw; unfold Reply_fields; reply_step ltac:(apply rd_bool_reads).
  - constructor.
  - reply_step ltac:(by apply rd_str_reads). constructor.
  - destruct Hw as (Hr & Hl & Hs & Hv & Hi & Hc). destruct (wrap_uint 16 (wa_rcode a) Hc ltac:(lia)) as [Hc' Ec].
    destruct (Outcome_roundtrip (wa_outcome a)) as [Ho Eo].
    destruct (Validation_roundtrip (wa_validation a)) as [Hd Ed].
    reply_step lit_str. reply_step ltac:(by apply rd_str_reads).
    reply_step ltac:(apply array_wire_reads; [eapply Forall_impl; [exact Hr|apply record_reads]|done]).
    reply_step ltac:(by apply rd_str_reads). reply_step ltac:(by apply opt_str_reads).
    reply_step ltac:(by apply opt_str_reads). reply_step ltac:(by apply rd_str_reads).
    reply_step ltac:(by apply rd_uint_reads). cbv zeta. rewrite Eo, Ed, Ec. destruct a. constructor.
  - destruct Hw as (Hc & Ha & Hl & Hs).
    destruct (Outcome_roundtrip (wd_outcome a)) as [Ho Eo].
    destruct (Validation_roundtrip (wd_validation a)) as [Hd Ed].
    reply_step lit_str. reply_step ltac:(by apply rd_str_reads). reply_step ltac:(by apply rd_str_reads).
    reply_step ltac:(by apply addresses_reads). reply_step ltac:(by apply rd_str_reads).
    reply_step ltac:(by apply rd_str_reads). cbv zeta. rewrite Eo, Ed, addresses_of_outs. destruct a. constructor.
  - destruct Hw as (Hh & Hs & Hl & Hf & He & Hc).
    reply_step lit_str. reply_step ltac:(by apply rd_str_reads). reply_step ltac:(by apply rd_bool_reads).
    reply_step ltac:(apply array_wire_reads; [eapply Forall_impl; [exact Hs|apply scope_reads]|done]).
    reply_step ltac:(by apply str_list_reads). reply_step ltac:(by apply rd_uint_reads).
    reply_step ltac:(by apply counters_reads). destruct s. constructor.
Qed.

Lemma Reply_of_state reply : Reply_of (Reply_state reply) = Ok reply.
Proof. by destruct reply. Qed.

Lemma Reply_fields_ok reply : fields_ok (Reply_fields reply).
Proof.
  destruct reply as [|m|a|a|s]; (split_and!; [by_decide|by_decide| |vm_compute; done]);
    unfold Reply_fields, opt_str_wire; repeat case_match; fields_nonempty.
Qed.

Lemma Reply_decode_encode reply : Reply_wf reply -> Reply_decode (Reply_encode reply) = Ok reply.
Proof.
  intros Hr. unfold Reply_decode. fold reply_init.
  rewrite Reply_encode_fields, (for_each_wire _ _ _ _ (Reply_chain reply Hr) (Reply_fields_ok reply)).
  apply Reply_of_state.
Qed.
