(* ===== verification/NativeWireProps.v ===== *)
(** * Properties of the native wire

    MessagePack values, addresses as text, requests, replies and a whole
    call over the framing. *)

From S2P Require Import Prelude Net IpText Cache Io Msgpack MsgpackProofs NativeWire NativeWireProofs.
Local Open Scope Z_scope.

(** Skipping moves forward inside the buffer and keeps the depth. *)
Lemma skip_moves r r' :
  (rd_depth r <= MAX_DEPTH)%nat -> skip r = Ok r' ->
  rd_buf r' = rd_buf r /\ rd_depth r' = rd_depth r /\ (rd_pos r < rd_pos r' <= length (rd_buf r))%nat.
Proof.
  intros Hd (k & -> & Hk)%skip_fuel_moves. unfold Reader_ok in Hk. simpl in *. split_and!; done || lia.
Qed.

Lemma high_uint_refused v r rest :
  2 ^ 63 <= v < 2 ^ 64 -> Reader_ok r -> next r = write_uint v [] ++ rest -> read_uint r = Err MType.
Proof.
  intros Hv Hr. unfold write_uint. repeat case_match; bool_simpl; try lia. rewrite app_nil_l. intros Hn.
  unfold read_uint, read_int. read_be 8%nat v. by rewrite (proj2 (Z.ltb_ge v (2 ^ 63))) by lia.
Qed.

(** C32. MessagePack values round-trip at their width: wherever they are in a
    buffer, integers, booleans, nil, valid strings and binary are read back
    with the reader right behind them, and [skip] steps over exactly one value
    of any kind, floats, extensions and containers of up to 32 levels
    included.  Unsigned integers are the exception: one with its top bit set
    is written but refused by the reader, which goes through the signed type.
    On any bytes, [skip] gives the same for any sufficient fuel and never
    leaves the buffer. *)
Theorem msgpack_values_read_back v u s b x y d h r rest r' fuel :
  - 2 ^ 63 <= v < 2 ^ 63 -> 0 <= u < 2 ^ 63 -> str_ok s -> Z.of_nat (length b) < 2 ^ 32 ->
  value_ok y -> (height y + d <= MAX_DEPTH)%nat ->
  2 ^ 63 <= h < 2 ^ 64 -> Reader_ok r -> (rd_depth r <= MAX_DEPTH < fuel)%nat ->
  (reads read_int (write_int v []) v /\ reads read_uint (write_uint u []) u /\
   reads read_bool (write_bool x []) x /\ reads read_nil (write_nil []) () /\
   reads read_str (write_str s []) s /\ reads read_bin (write_bin b []) b /\
   steps skip d (value_wire y)) /\
  (next r = write_uint h [] ++ rest -> read_uint r = Err MType) /\
  skip_fuel fuel r = skip r /\
  (skip r = Ok r' -> rd_buf r' = rd_buf r /\ rd_depth r' = rd_depth r /\
     (rd_pos r < rd_pos r' <= length (rd_buf r))%nat).
Proof.
  intros Hv Hu [Hs Hl] Hb Hy Hd Hh Hr [Hdep Hf].
  split_and!; eauto using read_int_reads, read_uint_reads, read_bool_reads, read_nil_reads, read_str_reads,
    read_bin_reads, high_uint_refused.
  - apply skip_value; [done|done|lia].
  - apply skip_fuel_enough; lia.
  - by apply skip_moves.
Qed.

Lemma msgpack_values_read_back_witness :
  reads read_int (write_int (-70000) []) (-70000) /\
  steps skip 3 (value_wire (VMap [(VStr (lit "k"), VArray [VNil; VInt 300; VFixed 203 (replicate 8 1)])])) /\
  read_uint (Reader_new (write_uint (2 ^ 63) [])) = Err MType.
Proof.
  destruct (msgpack_values_read_back (-70000) 7 (lit "name") [1; 2] true
    (VMap [(VStr (lit "k"), VArray [VNil; VInt 300; VFixed 203 (replicate 8 1)])]) 3 (2 ^ 63)
    (Reader_new (write_uint (2 ^ 63) [])) [] (Reader_new []) (S MAX_DEPTH)) as ((H & _ & _ & _ & _ & _ & Hs) & Hh & _);
    [lia|lia|by_decide|vm_compute; done| |vm_compute; lia|lia|vm_compute; lia|vm_compute; lia|split; [done|split; [done|by apply Hh]]].
  cbn. split_and!; try done; lia.
Defined.

(** Requests survive the wire, and a newer client does not confuse an older
    daemon: fields with unknown keys and any values, anywhere in the map, are
    ignored; a key that comes twice is refused. *)
Lemma request_decoding q xs ys extra k b :
  Request_wf q -> Request_fields q = xs ++ ys ->
  unknown_ok request_keys extra -> NoDup (map fst extra) -> Z.of_nat (length extra) < 2 ^ 31 ->
  k ∈ map fst (Request_fields q) -> (1 <= length b)%nat ->
  Request_decode (Request_encode q) = Ok q /\
  Request_decode (map_wire (xs ++ unknown_wire extra ++ ys)) = Ok q /\
  Request_decode (map_wire (Request_fields q ++ [(k, b)])) = Err (Duplicate k).
Proof.
  intros Hq Hxy Hex Hnd Hl Hk Hb. pose proof (Request_chain q Hq) as Hc.
  destruct (Request_fields_keys q) as (Hkeys & Hndk & Hlk). pose proof (Request_fields_nonempty q) as Hne.
  assert (Forall str_ok (map fst (Request_fields q))) as Hok by (eapply Forall_impl; [exact Hkeys|by intros ? []]).
  unfold Request_decode. fold request_init. split_and!.
  - by apply Request_decode_encode.
  - rewrite Hxy in *. apply chain_app in Hc as (st & H1 & H2).
    assert (chain request_field request_init (xs ++ unknown_wire extra ++ ys) (Request_state q)) as Hc'.
    { apply chain_app. exists st. split; [done|]. apply chain_app. exists st. split; [|done].
      by apply (chain_unknown _ request_keys), Hex; intros; apply request_field_unknown. }
    rewrite (for_each_wire _ _ _ _ Hc'); [by apply Request_of_state|]. by apply (unknown_fields_ok request_keys); [..|lia|done|done|done].
  - by rewrite (for_each_duplicate _ _ _ _ k b Hc) by
      (done || lia || (apply Forall_app; split; [done|by apply Forall_cons_2; [|apply Forall_nil_2]])).
Qed.

(** A payload goes through the framing. *)
Lemma frame_roundtrip payload rest :
  Z.of_nat (length payload) <= MAX_MESSAGE_BYTES ->
  exists frame, send_frame payload = Ok frame /\ recv (frame ++ rest) = Ok (payload, rest).
Proof.
  unfold MAX_MESSAGE_BYTES. intros Hl. unfold send_frame.
  rewrite (proj2 (Z.ltb_ge MAX_MESSAGE_BYTES (Z.of_nat (length payload)))) by (unfold MAX_MESSAGE_BYTES; lia).
  eexists. split; [done|]. rewrite wrap_small by (unfold in_width; lia). unfold recv, read_exact.
  rewrite <- app_assoc. rewrite (proj2 (Nat.leb_le _ _)) by (rewrite !length_app, length_le_bytes; lia).
  cbn [result_bind]. rewrite take_app_length', drop_app_length' by (by rewrite length_le_bytes).
  rewrite le_roundtrip by (unfold in_width; simpl; lia).
  rewrite (proj2 (Z.ltb_ge MAX_MESSAGE_BYTES (Z.of_nat (length payload)))) by (unfold MAX_MESSAGE_BYTES; lia).
  rewrite Nat2Z.id, (proj2 (Nat.leb_le _ _)) by (rewrite length_app; lia).
  by rewrite take_app_length, drop_app_length.
Qed.
