(* ===== verification/WireTyped.v ===== *)
(** * What the native wire's decoders yield is well-formed

    The converse of the round trip: whatever [Request::decode] and
    [Reply::decode] accept, from any bytes, is a value the encoders write and
    the decoders read back. *)

From S2P Require Import Prelude Net IpText Cache Io Msgpack MsgpackProofs NativeWire NativeWireProofs.
Local Open Scope Z_scope.

(** ** Addresses *)

Lemma read_digits_nonneg digit radix m :
  0 <= radix -> (forall b d, digit b = Some d -> 0 <= d) ->
  forall s acc count v k rest, 0 <= acc -> read_digits digit radix m acc count s = Some (v, k, rest) -> 0 <= v.
Proof.
  intros Hr Hd. induction s as [|b s IH]; intros acc count v k rest Ha H; cbn [read_digits] in H; [by simplify_eq|].
  destruct (digit b) as [d|] eqn:E; [|by simplify_eq]. case_step_in H. apply IH in H; [done|].
  specialize (Hd b d E). nia.
Qed.

Lemma read_octet_u8 s v rest : read_octet s = Some (v, rest) -> is_u8 v.
Proof.
  unfold read_octet, read_number. destruct (read_digits _ _ _ _ _ s) as [[[w k] r]|] eqn:E; [|done].
  intros H. apply read_digits_nonneg in E; [|lia| |lia].
  - case_all_in H. bool_simpl. simplify_eq. unfold is_u8, in_width. lia.
  - intros b d. unfold dec_digit. destruct ((48 <=? b) && (b <=? 57)) eqn:Ed; [|intros [=]]. intros [= <-]. bool_simpl. lia.
Qed.

Lemma read_octets_ok n : forall i s os rest,
  read_octets n i s = Some (os, rest) -> bytes_ok os /\ length os = n.
Proof.
  induction n as [|n IH]; intros i s os rest H; cbn [read_octets] in H.
  { simplify_eq. by split; [constructor|]. }
  destruct (read_separator 46 i read_octet s) as [[o s1]|] eqn:Eo; [|done].
  destruct (read_octets n (S i) s1) as [[os1 s2]|] eqn:Es; [|done]. simplify_eq.
  apply IH in Es as [Hb Hl]. split; [|by simpl; f_equal]. constructor; [|done].
  unfold read_separator in Eo. destruct i; [by eapply read_octet_u8|]. destruct s as [|c s']; [done|].
  case_step_in Eo. by eapply read_octet_u8.
Qed.

Lemma read_groups_length n : forall i s, (length (read_groups n i s).1.1 <= n)%nat.
Proof.
  induction n as [|n IH]; intros i s; cbn [read_groups]; [simpl; lia|].
  destruct (if (0 <? n)%nat then _ else None) as [[v4 s1]|] eqn:E.
  - destruct (Nat.ltb_spec 0 n); [|done]. change (2 <= S n)%nat. lia.
  - destruct (read_separator 58 i read_group s) as [[g s1]|]; [|simpl; lia].
    specialize (IH (S i) s1). destruct (read_groups n (S i) s1) as [[gs v4] s2]. simpl in *. lia.
Qed.

Lemma from_segments_u128 gs : (length gs <= 8)%nat -> is_u128 (from_segments gs).
Proof.
  intros Hl. unfold from_segments.
  assert (forall gs, bytes_ok (concat (map (be_bytes 2) gs)) /\
    length (concat (map (be_bytes 2) gs)) = (2 * length gs)%nat) as Hc.
  { induction gs0 as [|g gs0 [Hb Hlen]]; [by split; [constructor|]|]. cbn [map concat]. split.
    - apply bytes_ok_app. split; [apply be_bytes_ok|done].
    - rewrite length_app, length_be_bytes, Hlen. simpl. lia. }
  destruct (Hc gs) as [Hb Hlen]. pose proof (from_be_bound _ Hb) as Hbound. rewrite Hlen in Hbound.
  assert (256 ^ Z.of_nat (2 * length gs) <= 256 ^ 16) as Hle by (apply Z.pow_le_mono_r; lia).
  unfold is_u128, in_width. change (2 ^ 128) with (256 ^ 16). lia.
Qed.

Lemma double_colon {A} (f : list Z -> option A) s x :
  match s with 58 :: 58 :: s' => f s' | _ => None end = Some x -> exists s', s = 58 :: 58 :: s' /\ f s' = Some x.
Proof. intros H. repeat (case_step_in H; try done). eauto. Qed.

Lemma ip_parse_wf s a : ip_parse s = Some a -> IpAddr_wf a.
Proof.
  unfold ip_parse, read_ipv4. destruct (read_octets 4 0 s) as [[os rest]|] eqn:E4.
  - apply read_octets_ok in E4 as [Hb Hl]. case_bool_decide; [|done]. intros [= <-]. by apply from_be_u32.
  - destruct (read_ipv6 s) as [[v rest]|] eqn:E6; [|done].
    case_bool_decide; [|done]. intros [= <-]. unfold read_ipv6 in E6. pose proof (read_groups_length 8 0 s) as Hh.
    destruct (read_groups 8 0 s) as [[hd v4] s1]. simpl in Hh.
    destruct (length hd =? 8)%nat eqn:E8; [simplify_eq; by apply from_segments_u128|].
    destruct v4; [done|]. apply double_colon in E6 as (s2 & _ & E6).
    pose proof (read_groups_length (8 - (length hd + 1)) 0 s2) as Ht.
    destruct (read_groups (8 - (length hd + 1)) 0 s2) as [[tl v4] s3]. simpl in Ht. simplify_eq.
    apply from_segments_u128. rewrite !length_app, length_replicate. lia.
Qed.

(** ** Typed readers

    The buffer a reader works on does not change; [yields rd P]: on a buffer
    of bytes that fits in memory, what [rd] returns satisfies [P]. *)

Definition fits (r : Reader) : Prop := bytes_ok (rd_buf r) /\ Z.of_nat (length (rd_buf r)) < 2 ^ 32.

Definition yields {A} (rd : Reader -> WRead A) (P : A -> Prop) : Prop :=
  forall r v r', fits r -> rd r = Ok (v, r') -> P v /\ fits r'.

Lemma yields_weaken {A} (rd : Reader -> WRead A) (P Q : A -> Prop) :
  (forall v, P v -> Q v) -> yields rd P -> yields rd Q.
Proof. intros HPQ H r v r' Hr E. destruct (H r v r' Hr E). auto. Qed.

Lemma yields_store {A St} (rd : Reader -> WRead A) (put : A -> St) P Q :
  yields rd P -> (forall v, P v -> Q (put v)) -> yields (store rd put) Q.
Proof.
  intros H HQ r v r' Hr E. unfold store in E. inv_ok E. destruct a as [x r1]. simplify_eq.
  destruct (H r x r' Hr E0). auto.
Qed.

Lemma forward_small n r : fits r -> fits (forward n r).
Proof. done. Qed.

Lemma byte_small r b r' : fits r -> byte r = Ok (b, r') -> is_u8 b /\ fits r'.
Proof.
  intros [Hb Hl] E. unfold byte in E. destruct (rd_buf r !! rd_pos r) as [x|] eqn:Ex; [|done].
  simplify_eq/=. split; [|done]. unfold bytes_ok in Hb. rewrite Forall_forall in Hb.
  apply Hb. by eapply list_elem_of_lookup_2.
Qed.

Lemma take_small n r s r' :
  fits r -> take_ n r = Ok (s, r') -> bytes_ok s /\ length s = n /\ Z.of_nat n < 2 ^ 32 /\ fits r'.
Proof.
  intros Hr E. unfold take_ in E. inv_ok E. simplify_eq. destruct Hr as [Hb Hl].
  split; [by eapply slice_get_forall|]. pose proof (slice_get_length _ _ _ _ E0) as Hlen.
  apply slice_get_Some in E0 as [Hle _]. split; [lia|]. split; [lia|done].
Qed.

Lemma moved_small r r' : fits r -> moved r r' -> fits r'.
Proof. by intros ? (k & -> & _). Qed.

Lemma moved_on_small r r' : fits r -> moved_on r r' -> fits r'.
Proof. intros ? ?%moved_on_moved. by eapply moved_small. Qed.

Lemma be_u_small n r v r' :
  (n <= 8)%nat -> fits r -> be_u n r = Ok (v, r') -> 0 <= v < 256 ^ Z.of_nat n /\ fits r'.
Proof.
  intros Hn Hr E. unfold be_u in E. inv_ok E. destruct a as [s r1].
  destruct (take_small _ _ _ _ Hr E0) as (Hb & Hl & _ & Hr').
  assert (256 ^ Z.of_nat n <= 2 ^ 64) by (change (2 ^ 64) with (256 ^ 8); apply Z.pow_le_mono_r; lia).
  rewrite fold_shift in E by (done || lia || by rewrite Z.mul_1_l, Hl). simplify_eq.
  split; [|done]. rewrite Z.mul_0_l, Z.add_0_l. by apply from_be_bound.
Qed.

Lemma rd_str_yields : yields rd_str str_ok.
Proof.
  intros r s r' Hr E. unfold rd_str, lift in E. destruct (read_str r) as [[v r1]|] eqn:Es; [|done]. simplify_eq.
  pose proof (moved_on_small _ _ Hr (read_str_moves _ _ _ Es)) as Hr'. split; [|done].
  unfold read_str in Es. inv_ok Es. destruct a as [b r1]. inv_ok Es. destruct a as [n r2]. inv_ok Es. destruct a as [t r3].
  destruct (utf8_valid t) eqn:Eu; [|done]. simplify_eq. split; [done|].
  assert (fits r2) as Hr2.
  { destruct (byte_small _ _ _ Hr E) as [_ Hr1]. eapply moved_small; [done|].
    eapply (head_moves _ _ _ _ _ 1 2 4); [by eapply moved_on_ok, byte_moves|done]. }
  destruct (take_small _ _ _ _ Hr2 E1) as (_ & Hl & Hn & _). lia.
Qed.

Lemma rd_bin_yields : yields rd_bin (fun b => Z.of_nat (length b) < 2 ^ 32).
Proof.
  intros r s r' Hr E. unfold rd_bin, lift in E. destruct (read_bin r) as [[v r1]|] eqn:Es; [|done]. simplify_eq.
  pose proof (moved_on_small _ _ Hr (read_bin_moves _ _ _ Es)) as Hr'. split; [|done].
  unfold read_bin in Es. inv_ok Es. destruct a as [b r1]. inv_ok Es. destruct a as [n r2].
  assert (fits r2) as Hr2.
  { destruct (byte_small _ _ _ Hr E) as [_ Hr1]. eapply moved_small; [done|].
    eapply (head_moves false _ _ _ 0 1 2 4); [by eapply moved_on_ok, byte_moves|done]. }
  destruct (take_small _ _ _ _ Hr2 Es) as (_ & Hl & Hn & _). lia.
Qed.

Lemma as_signed_small w v : 1 <= w <= 64 -> 0 <= v < 2 ^ w -> as_signed w v < 2 ^ 63.
Proof.
  intros Hw Hv. unfold as_signed. assert (2 ^ (w - 1) <= 2 ^ 63) by (apply Z.pow_le_mono_r; lia).
  assert (2 ^ w = 2 * 2 ^ (w - 1)) by (rewrite <- Z.pow_succ_r by lia; f_equal; lia).
  case_match; bool_simpl; lia.
Qed.

Lemma be_u_count n r v r' : (n <= 4)%nat -> fits r -> be_u n r = Ok (v, r') -> v < 2 ^ 63 /\ fits r'.
Proof.
  intros Hn Hr E. destruct (be_u_small n r v r' ltac:(lia) Hr E) as [Hv ?]. split; [|done].
  assert (256 ^ Z.of_nat n <= 256 ^ 4) by (apply Z.pow_le_mono_r; lia). lia.
Qed.

Lemma signed_count n w r v r' :
  (1 <= n <= 8)%nat -> w = 8 * Z.of_nat n -> fits r ->
  (let? (x, r) := be_u n r in Ok (as_signed w x, r)) = Ok (v, r') -> v < 2 ^ 63 /\ fits r'.
Proof.
  intros Hn -> Hr E. inv_ok E. destruct a as [x r1]. destruct (be_u_small n r x r1 ltac:(lia) Hr E0) as [Hx ?].
  simplify_eq. split; [|done]. apply as_signed_small; [lia|]. by rewrite Z.pow_mul_r by lia.
Qed.

Lemma rd_uint_yields : yields rd_uint is_count.
Proof.
  intros r v r' Hr E. unfold rd_uint, lift in E. destruct (read_uint r) as [[w r1]|] eqn:Es; [|done]. simplify_eq.
  unfold read_uint in Es. inv_ok Es. destruct a as [x r1]. case_step_in Es. simplify_eq. bool_simpl.
  enough (v < 2 ^ 63 /\ fits r') by (unfold is_count; split; [lia|tauto]).
  unfold read_int in E. inv_ok E. destruct a as [b r1]. destruct (byte_small _ _ _ Hr E1) as [Hb%is_u8_le Hr1].
  destruct (in_range 0 127 b); [simplify_eq; split; [lia|done]|].
  destruct (in_range 224 255 b); [simplify_eq; split; [apply as_signed_small; lia|done]|].
  repeat match type of E with (if ?c then _ else _) = _ => destruct c end;
    first [by refine (be_u_count _ _ _ _ _ Hr1 E); lia|by refine (signed_count _ _ _ _ _ _ eq_refl Hr1 E); lia|idtac]; try done.
  inv_ok E. destruct a as [y r2]. destruct (be_u_small 8 _ _ _ ltac:(lia) Hr1 E2) as [Hy ?].
  case_step_in E. bool_simpl. by simplify_eq.
Qed.

Lemma rd_bool_yields : yields rd_bool (fun _ => True).
Proof.
  intros r v r' Hr E. unfold rd_bool, read_bool, lift in E. destruct (byte r) as [[b r1]|] eqn:Es; [|done].
  destruct (byte_small _ _ _ Hr Es). cbn [result_bind] in E. repeat case_match; by simplify_eq.
Qed.

Lemma skip_field_yields : yields skip_field (fun _ => True).
Proof.
  intros r v r' Hr E. unfold skip_field, lift in E. destruct (skip r) as [r1|] eqn:Es; [|done].
  cbn [result_bind] in E. simplify_eq. split; [done|]. by eapply moved_on_small, skip_fuel_moves.
Qed.

(** ** Containers *)

Lemma array_small r n r' : fits r -> lift (read_array r) = Ok (n, r') -> Z.of_nat n < 2 ^ 32 /\ fits r'.
Proof.
  intros Hr E. unfold lift in E. destruct (read_array r) as [[m r1]|] eqn:Ea; [|done]. simplify_eq.
  pose proof (moved_on_small _ _ Hr (read_array_moves _ _ _ Ea)) as Hr'. split; [|done].
  unfold read_array in Ea. inv_ok Ea. destruct a as [b r1]. inv_ok Ea. destruct a as [k r2].
  case_step_in Ea. simplify_eq. bool_simpl. unfold remaining in *. destruct Hr' as [_ Hl]. lia.
Qed.

Lemma read_items_yields {A} (item : Reader -> WRead A) (P : A -> Prop) n : yields item P ->
  forall out, Forall P out ->
  yields (read_items n item out) (fun l => Forall P l /\ length l = (length out + n)%nat).
Proof.
  intros Hi. induction n as [|n IH]; intros out Ho r v r' Hr E; cbn [read_items] in E.
  - simplify_eq. split; [|done]. split; [done|lia].
  - inv_ok E. destruct a as [x r1]. destruct (Hi _ _ _ Hr E0) as [Hx Hr1].
    assert (Forall P (out ++ [x])) as Ho1 by (apply Forall_app; split; [done|by constructor]).
    destruct (IH _ Ho1 _ _ _ Hr1 E) as [[Hv Hl] ?]. rewrite length_app in Hl. simpl in Hl.
    split; [|done]. split; [done|lia].
Qed.

(** Items read into an empty list. *)
Definition counted {A} (P : A -> Prop) (l : list A) : Prop := Forall P l /\ Z.of_nat (length l) < 2 ^ 32.

Lemma read_array_of_yields {A} (item : Reader -> WRead A) P :
  yields item P -> yields (read_array_of item []) (counted P).
Proof.
  intros Hi r v r' Hr E. unfold read_array_of in E. inv_ok E. destruct a as [n r1].
  destruct (array_small _ _ _ Hr E0) as [Hn Hr1].
  destruct (read_items_yields item P n Hi [] (Forall_nil_2 _) _ _ _ Hr1 E) as [[Hv Hl] ?].
  split; [|done]. split; [done|]. simpl in Hl. lia.
Qed.

Lemma read_str_list_yields : yields read_str_list strs_ok.
Proof. apply (read_array_of_yields rd_str), rd_str_yields. Qed.

Lemma read_opt_str_yields : yields read_opt_str opt_str_ok.
Proof.
  intros r v r' Hr E. unfold read_opt_str in E. case_bool_decide.
  - unfold lift, read_nil in E. destruct (byte r) as [[b r1]|] eqn:Eb; [|done].
    destruct (byte_small _ _ _ Hr Eb). cbn [result_bind] in E. destruct (b =? 192); [|done].
    cbn [result_bind] in E. by simplify_eq.
  - inv_ok E. destruct a as [s r1]. destruct (rd_str_yields _ _ _ Hr E0). simplify_eq. split; [|done].
    by intros ? [= <-].
Qed.

(** The fields of a map, with an invariant over the keys that have been seen. *)
Lemma fields_loop_yields {St} (f : Text -> St -> Reader -> WRead St) (I : list Text -> St -> Prop) n :
  (forall seen key st, key ∉ seen -> I seen st -> yields (f key st) (I (seen ++ [key]))) ->
  forall seen st, I seen st -> yields (fields_loop n seen f st) (fun st' => exists seen', I seen' st').
Proof.
  intros Hf. induction n as [|n IH]; intros seen st HI r v r' Hr E; cbn [fields_loop] in E.
  - simplify_eq. eauto.
  - inv_ok E. destruct a as [key r1]. destruct (rd_str_yields _ _ _ Hr E0) as [_ Hr1].
    destruct (existsb _ seen) eqn:Es; [done|]. inv_ok E. destruct a as [st1 r2].
    assert (key ∉ seen) as Hk.
    { intros Hin. apply not_true_iff_false in Es. apply Es, existsb_exists. exists key.
      split; [by apply list_elem_of_In|by apply bool_decide_eq_true_2]. }
    destruct (Hf _ _ _ Hk HI _ _ _ Hr1 E1) as [HI1 Hr2]. exact (IH _ _ HI1 _ _ _ Hr2 E).
Qed.

Lemma map_small r n r' : fits r -> lift (read_map r) = Ok (n, r') -> fits r'.
Proof.
  intros Hr E. unfold lift in E. destruct (read_map r) as [[m r1]|] eqn:Ea; [|done]. simplify_eq.
  exact (moved_on_small _ _ Hr (read_map_moves _ _ _ Ea)).
Qed.

Lemma for_each_yields {St} (f : Text -> St -> Reader -> WRead St) (I : list Text -> St -> Prop) st :
  (forall seen key st, key ∉ seen -> I seen st -> yields (f key st) (I (seen ++ [key]))) ->
  I [] st -> yields (for_each_field f st) (fun st' => exists seen', I seen' st').
Proof.
  intros Hf HI r v r' Hr E. unfold for_each_field in E. inv_ok E. destruct a as [n r1].
  exact (fields_loop_yields f I n Hf [] st HI _ _ _ (map_small _ _ _ Hr E0) E).
Qed.

(** With an invariant of the state alone. *)
Lemma for_each_keeps {St} (f : Text -> St -> Reader -> WRead St) (I : St -> Prop) st :
  (forall key st, I st -> yields (f key st) I) -> I st -> yields (for_each_field f st) I.
Proof.
  intros Hf HI. eapply yields_weaken; [|apply (for_each_yields f (fun _ => I)); auto].
  by intros v (? & ?).
Qed.

(** ** Requests *)

Definition RequestFields_ok (s : RequestFields) : Prop :=
  opt_str_ok (q_query s) /\ opt_str_ok (q_name_ s) /\ (forall v, q_type s = Some v -> is_u16 v) /\
  opt_str_ok (q_address s).

Lemma opt_str_some s : str_ok s -> opt_str_ok (Some s).
Proof. by intros ? ? [= <-]. Qed.

#[local] Hint Resolve opt_str_some : resolvd.

(** A field that is read and stored: the reader's lemma, then the state. *)
Ltac stored H := eapply yields_store; [exact H|intros v Hv].

Lemma request_field_keeps key s : RequestFields_ok s -> yields (request_field key s) RequestFields_ok.
Proof.
  destruct s as [query name rtype no_cache family address]. intros (Hq & Hn & Ht & Ha). simpl in *.
  unfold request_field.
  destruct (is_ key "query"); [stored rd_str_yields; split_and!; simpl; eauto with resolvd|].
  destruct (is_ key "name"); [stored rd_str_yields; split_and!; simpl; eauto with resolvd|].
  destruct (is_ key "type").
  { intros r v r' Hr E. inv_ok E. destruct a as [x r1]. destruct (rd_uint_yields _ _ _ Hr E0) as [Hx ?].
    case_step_in E. bool_simpl. simplify_eq. split; [|done]. split_and!; simpl; eauto.
    intros ? [= <-]. unfold is_count, is_u16, in_width in *. lia. }
  destruct (is_ key "no_cache"); [stored rd_bool_yields; by split_and!|].
  destruct (is_ key "family"); [stored rd_str_yields; by split_and!|].
  destruct (is_ key "address"); [stored rd_str_yields; split_and!; simpl; eauto with resolvd|].
  stored skip_field_yields. by split_and!.
Qed.

(** What [Request::decode] accepts, whatever the bytes. *)
Lemma Request_decode_wf bytes q :
  bytes_ok bytes -> Z.of_nat (length bytes) < 2 ^ 32 -> Request_decode bytes = Ok q -> Request_wf q.
Proof.
  intros Hb Hl E. unfold Request_decode in E. inv_ok E. destruct a as [s r].
  eapply (for_each_keeps request_field RequestFields_ok) in E0 as [(_ & Hn & Ht & _) _];
    [|by intros; apply request_field_keeps|by split_and!|by split].
  unfold Request_of in E. destruct (q_query s) as [query|]; [|done].
  destruct (is_ query "resolve"); [inv_ok E; simplify_eq; split; [by apply Hn|by apply Ht]|].
  destruct (is_ query "lookup"); [inv_ok E; simplify_eq; by apply Hn|].
  destruct (is_ query "reverse"); [inv_ok E; simplify_eq; by eapply ip_parse_wf|].
  by repeat case_step_in E; simplify_eq.
Qed.

(** ** Replies *)

Lemma record_field_keeps key s : RecordOut_wf s -> yields (record_field key s) RecordOut_wf.
Proof.
  destruct s as [name rtype ttl data text]. intros Hs. unfold record_field.
  assert (forall w v, 0 <= w -> in_width w (wrap w v)) as Hw by (intros; by apply wrap_in_width).
  destruct Hs as (Hn & Ht & Hl & Hd & Hx). simpl in *.
  destruct (is_ key "name"); [stored rd_str_yields; by split_and!|].
  destruct (is_ key "type"); [stored rd_uint_yields; split_and!; try done; by apply Hw|].
  destruct (is_ key "ttl"); [stored rd_uint_yields; split_and!; try done; by apply Hw|].
  destruct (is_ key "data"); [stored rd_bin_yields; by split_and!|].
  destruct (is_ key "text"); [stored rd_str_yields; by split_and!|].
  stored skip_field_yields. by split_and!.
Qed.

Lemma str_nil_ok : str_ok [].
Proof. by_decide. Qed.

Lemma read_record_yields : yields read_record RecordOut_wf.
Proof.
  apply for_each_keeps; [by intros; apply record_field_keeps|].
  split_and!; try apply str_nil_ok; by_decide.
Qed.

Definition address_ok (x : option IpAddr * Z) : Prop := (forall a, x.1 = Some a -> IpAddr_wf a) /\ is_u32 x.2.

Lemma read_address_yields : yields read_address address_ok.
Proof.
  apply for_each_keeps; [|by split; [|by_decide]]. intros key [a ttl] [Ha Ht]. unfold address_field.
  destruct (is_ key "address"); [stored rd_str_yields; split; [|done]; intros ?; apply ip_parse_wf|].
  destruct (is_ key "ttl"); [stored rd_uint_yields; split; [done|]; by apply wrap_in_width|].
  by stored skip_field_yields.
Qed.

Lemma addresses_of_ok xs : counted address_ok xs -> counted AddressOut_wf (addresses_of xs).
Proof.
  intros [Hx Hl]. unfold addresses_of, counted.
  assert (Forall AddressOut_wf (addresses_of xs) /\ (length (addresses_of xs) <= length xs)%nat) as [H1 H2];
    [|unfold addresses_of in *; split; [done|lia]].
  clear Hl. induction Hx as [|[[a|] ttl] xs [Ha Ht] _ [IH1 IH2]]; simpl in *; split; try lia; try done; try constructor.
  - split; [by apply Ha|done].
  - done.
Qed.

Lemma strs_nil_ok : strs_ok [].
Proof. split; [constructor|done]. Qed.

Lemma scope_field_keeps key s : ScopeStatus_wf s -> yields (scope_field key s) ScopeStatus_wf.
Proof.
  destruct s as [itf servers domains droute excl metric subnets demoted].
  intros (H1 & H2 & H3 & H4 & H5 & H6). unfold scope_field. simpl in *.
  repeat match goal with |- context [is_ key ?k] => destruct (is_ key k) end;
    first [stored rd_str_yields|stored read_str_list_yields|stored rd_bool_yields|stored rd_uint_yields
          |stored skip_field_yields]; split_and!; try done.
  by apply wrap_in_width.
Qed.

Lemma read_scope_yields : yields read_scope ScopeStatus_wf.
Proof.
  apply for_each_keeps; [by intros; apply scope_field_keeps|].
  split_and!; try apply str_nil_ok; try apply strs_nil_ok; by_decide.
Qed.

Lemma counter_field_keeps key c : WCounters_wf c -> yields (counter_field key c) WCounters_wf.
Proof.
  destruct c as [q y h s a f u]. intros (H1 & H2 & H3 & H4 & H5 & H6 & H7). unfold counter_field. simpl in *.
  repeat match goal with |- context [is_ key ?k] => destruct (is_ key k) end;
    first [stored rd_uint_yields|stored skip_field_yields]; by split_and!.
Qed.

(** The fields of a reply so far.  A list is empty until its key has been
    seen, and no key comes twice. *)
Record reply_inv (seen : list Text) (s : ReplyFields) : Prop := mk_reply_inv {
  ri_error : opt_str_ok (p_error s);
  ri_answer : WAnswer_wf (p_answer s);
  ri_addresses : WAddresses_wf (p_addresses s);
  ri_status : StatusReport_wf (p_status s);
  ri_records : lit "records" ∉ seen -> wa_records (p_answer s) = [];
  ri_list : lit "addresses" ∉ seen -> wd_addresses (p_addresses s) = [];
  ri_scopes : lit "scopes" ∉ seen -> sr_scopes (p_status s) = [];
}.

Lemma is_spec key s : is_ key s = true -> key = lit s.
Proof. unfold is_. by case_bool_decide. Qed.

(** A field that reads one value and leaves the lists alone. *)
Lemma reply_inv_step seen key s s' :
  reply_inv seen s -> opt_str_ok (p_error s') -> WAnswer_wf (p_answer s') ->
  WAddresses_wf (p_addresses s') -> StatusReport_wf (p_status s') ->
  wa_records (p_answer s') = wa_records (p_answer s) ->
  wd_addresses (p_addresses s') = wd_addresses (p_addresses s) ->
  sr_scopes (p_status s') = sr_scopes (p_status s) -> reply_inv (seen ++ [key]) s'.
Proof.
  intros [] ? ? ? ? E1 E2 E3.
  constructor; try done; rewrite ?E1, ?E2, ?E3; set_solver.
Qed.

(** The state after a scalar field, each part taken apart. *)
Ltac scalar Hi :=
  let He := fresh "He" in let Ha := fresh "Ha" in let Hd := fresh "Hd" in let Hs := fresh "Hs" in
  apply (reply_inv_step _ _ _ _ Hi); try done; destruct Hi as [He Ha Hd Hs _ _ _];
  destruct Ha as (? & ? & ? & ? & ? & ?), Hd as (? & ? & ? & ?), Hs as (? & ? & ? & ? & ? & ?);
  simpl; try (by apply opt_str_some); try done; try split_and!; try done; try (by apply wrap_in_width).

Definition yields_opt {A} (o : option (WRead A)) (P : A -> Prop) : Prop :=
  forall v r', o = Some (Ok (v, r')) -> P v /\ fits r'.

Lemma yields_some {A} (rd : Reader -> WRead A) (P : A -> Prop) r : fits r -> yields rd P -> yields_opt (Some (rd r)) P.
Proof. intros Hr H v r' E. injection E as E. exact (H r v r' Hr E). Qed.

Lemma shared_field_yields seen key s r :
  fits r -> reply_inv seen s -> yields_opt (shared_field key s r) (reply_inv (seen ++ [key])).
Proof.
  intros Hr Hi. unfold shared_field.
  repeat match goal with |- context [is_ key ?k] => destruct (is_ key k) end; try (by intros ? ? ?);
    apply yields_some; try done; first [stored rd_str_yields|stored rd_bool_yields]; scalar Hi.
Qed.

Lemma answer_field_yields seen key s r :
  fits r -> key ∉ seen -> reply_inv seen s -> yields_opt (answer_field key s r) (reply_inv (seen ++ [key])).
Proof.
  intros Hr Hk Hi. unfold answer_field.
  destruct (is_ key "server"); [apply yields_some; [done|]; stored read_opt_str_yields; scalar Hi|].
  destruct (is_ key "interface"); [apply yields_some; [done|]; stored read_opt_str_yields; scalar Hi|].
  destruct (is_ key "rcode"); [apply yields_some; [done|]; stored rd_uint_yields; scalar Hi|].
  destruct (is_ key "records") eqn:E; [|by intros ? ? ?]. apply is_spec in E as ->.
  apply yields_some; [done|]. destruct Hi as [He (? & ? & ? & ? & ? & ?) Hd Hs Hrec Hlist Hscopes].
  rewrite Hrec by done. stored (read_array_of_yields read_record _ read_record_yields). destruct Hv.
  constructor; try done; simpl; try set_solver; by split_and!.
Qed.

Lemma addresses_field_yields seen key s r :
  fits r -> key ∉ seen -> reply_inv seen s -> yields_opt (addresses_field key s r) (reply_inv (seen ++ [key])).
Proof.
  intros Hr Hk Hi. unfold addresses_field.
  destruct (is_ key "canonical"); [apply yields_some; [done|]; stored rd_str_yields; scalar Hi|].
  destruct (is_ key "addresses") eqn:E; [|by intros ? ? ?]. apply is_spec in E as ->.
  apply yields_some; [done|]. destruct Hi as [He Ha (? & ? & ? & ?) Hs Hrec Hlist Hscopes].
  stored (read_array_of_yields read_address _ read_address_yields). apply addresses_of_ok in Hv as [? ?].
  constructor; try done; simpl; rewrite ?Hlist by done; try set_solver; by split_and!.
Qed.

Lemma status_field_yields seen key s r :
  fits r -> key ∉ seen -> reply_inv seen s -> yields_opt (status_field key s r) (reply_inv (seen ++ [key])).
Proof.
  intros Hr Hk Hi. unfold status_field.
  destruct (is_ key "hostname"); [apply yields_some; [done|]; stored rd_str_yields; scalar Hi|].
  destruct (is_ key "netd"); [apply yields_some; [done|]; stored rd_bool_yields; scalar Hi|].
  destruct (is_ key "fallback_servers"); [apply yields_some; [done|]; stored read_str_list_yields; scalar Hi|].
  destruct (is_ key "cache_entries"); [apply yields_some; [done|]; stored rd_uint_yields; scalar Hi|].
  destruct (is_ key "scopes") eqn:E.
  - apply is_spec in E as ->. apply yields_some; [done|].
    destruct Hi as [He Ha Hd (? & ? & ? & ? & ? & ?) Hrec Hlist Hscopes].
    rewrite Hscopes by done. stored (read_array_of_yields read_scope _ read_scope_yields). destruct Hv.
    constructor; try done; simpl; try set_solver; by split_and!.
  - destruct (is_ key "counters"); [|by intros ? ? ?]. apply yields_some; [done|].
    eapply yields_store; [apply (for_each_keeps counter_field WCounters_wf); [apply counter_field_keeps|]|].
    + by destruct Hi as [_ _ _ (_ & _ & _ & _ & _ & ?) _ _ _].
    + intros v Hv. scalar Hi; by destruct Hv as (? & ? & ? & ? & ? & ? & ?).
Qed.

Lemma reply_field_yields seen key s :
  key ∉ seen -> reply_inv seen s -> yields (reply_field key s) (reply_inv (seen ++ [key])).
Proof.
  intros Hk Hi r v r' Hr E. unfold reply_field in E.
  destruct (shared_field key s r) eqn:E1; [apply (shared_field_yields seen key s r Hr Hi); by rewrite E1, E|].
  destruct (answer_field key s r) eqn:E2; [apply (answer_field_yields seen key s r Hr Hk Hi); by rewrite E2, E|].
  destruct (addresses_field key s r) eqn:E3; [apply (addresses_field_yields seen key s r Hr Hk Hi); by rewrite E3, E|].
  destruct (status_field key s r) eqn:E4; [apply (status_field_yields seen key s r Hr Hk Hi); by rewrite E4, E|].
  revert E. apply yields_store with (P := fun _ => True); [apply skip_field_yields| |done].
  intros _ _. destruct Hi as [? ? ? ? ? ? ?]. constructor; set_solver.
Qed.

(** What [Reply::decode] accepts, whatever the bytes. *)
Lemma Reply_decode_wf bytes reply :
  bytes_ok bytes -> Z.of_nat (length bytes) < 2 ^ 32 -> Reply_decode bytes = Ok reply -> Reply_wf reply.
Proof.
  intros Hb Hl E. unfold Reply_decode in E. inv_ok E. destruct a as [s r].
  eapply (for_each_yields reply_field reply_inv) in E0 as [(seen & Hi) _];
    [|by intros; apply reply_field_yields| |by split].
  - destruct Hi as [He Ha Hd Hs _ _ _]. unfold Reply_of in E. destruct (p_ok s) as [[]|]; [| |done].
    + repeat case_step_in E; by simplify_eq.
    + simplify_eq. destruct (p_error s); [by apply He|]. by_decide.
  - constructor; try done; split_and!; try constructor; try apply str_nil_ok; try apply strs_nil_ok; by_decide.
Qed.
