(* ===== verification/Stub.v ===== *)
(** * The stub door (resolvd/src/stub.rs)

    DNS on the loopback: which packets become questions, how an answer is
    rendered, and the table of TCP clients.  Sockets are the caller's: what
    [recv_from], [accept] and [read] returned comes in as data, what is sent
    comes out as effects. *)

From S2P Require Import Prelude Net Names Message MessageProofs Cache EngineState Io.
Local Open Scope Z_scope.

Definition TCP_TIMEOUT : Z := from_secs 10.
Definition IO_BATCH_LIMIT : nat := 64.

(** ** Queries and replies *)

Definition set_rcode (code : Z) (m : Message) : Message :=
  let h := header m in
  mkMessage
    (mkHeader (h_id h) (response h) (opcode h) (authoritative h) (truncated h) (recursion_desired h)
       (recursion_available h) (authentic_data h) (checking_disabled h) code)
    (questions m) (answers m) (authority m) (additional m).

Definition push_additional (r : Record_) (m : Message) : Message :=
  mkMessage (header m) (questions m) (answers m) (authority m) (additional m ++ [r]).

Definition push_answers (rs : list Record_) (m : Message) : Message :=
  mkMessage (header m) (questions m) (answers m ++ rs) (authority m) (additional m).

Definition with_class (class : Z) (r : Record_) : Record_ :=
  mkRecord (r_name r) (r_rtype r) class (r_ttl r) (r_rdata r).

(** The FORMERR for a packet that does not decode but has a header. *)
Definition formerr_reply (bytes : list Z) : Message :=
  mkMessage (mkHeader (u16_of bytes 0) true 0 false false false false false false rcode.FORMERR)
    [] [] [] [].

Definition error_reply (message : Message) (code : Z) : Message :=
  let r := set_rcode code (reply_to message) in
  match Message_opt message with
  | Some opt => push_additional (with_class (r_class opt) (Record_opt EDNS_UDP_SIZE false)) r
  | None => r
  end.

(** [Err (Some reply)] answers with an error, [Err None] not at all. *)
Definition parse_query (bytes : list Z) : result (option (list Z)) Message :=
  match Message_decode bytes with
  | Err _ =>
      Err (if (12 <=? length bytes)%nat then ok (Message_encode (formerr_reply bytes)) else None)
  | Ok message =>
      if response (header message) then Err None
      else if negb (opcode (header message) =? 0) then
        Err (ok (Message_encode (error_reply message rcode.NOTIMP)))
      else
        match Message_question message with
        | None => Err (ok (Message_encode (error_reply message rcode.FORMERR)))
        | Some question =>
            if negb (q_class question =? class_IN) then
              Err (ok (Message_encode (error_reply message rcode.NOTIMP)))
            else Ok message
        end
  end.

(** The CNAME that says the answer is at an expanded name. *)
Definition expansion_cname (query : Message) (answer : Answer) : list Record_ :=
  match Message_question query, a_resolved_name answer with
  | Some q, Some resolved =>
      if negb (Name_eqb (q_name q) resolved) then
        [Record_new (q_name q)
           (default (a_negative_ttl answer) (list_min (map r_ttl (a_records answer))))
           (RCname resolved)]
      else []
  | _, _ => []
  end.

Definition build_reply (query : Message) (answer : Answer) : Message :=
  let reply := reply_to query in
  let reply :=
    match a_outcome answer with
    | Found =>
        push_answers (a_records answer)
          (push_answers (expansion_cname query answer) (set_rcode rcode.NOERROR reply))
    | NotFound => set_rcode rcode.NXDOMAIN reply
    | Unavailable => set_rcode rcode.SERVFAIL reply
    end in
  match Message_opt query with
  | Some _ => push_additional (Record_opt EDNS_UDP_SIZE false) reply
  | None => reply
  end.

(** ** The door's state

    A peer is its address and port, a stream the caller's handle for it. *)

Record Peer : Type := mkPeer { p_ip : IpAddr; p_port : Z }.

#[export] Instance Peer_eq_dec : EqDecision Peer.
Proof. solve_decision. Defined.

Inductive Origin : Type :=
| OUdp (peer : Peer) (query : Message)
| OTcp (stream : Z) (query : Message).

Inductive Incoming : Type :=
| Query (origin : Origin)
| Nothing.

Record TcpClient : Type := mkTcpClient { tc_stream : Z; tc_buf : list Z; tc_since : Z }.

Record Stub : Type := mkStub {
  clients : gmap Z TcpClient;
  next_client : Z;
  replies : Replies;
  accept_backoff : AcceptBackoff;
}.

Definition put_clients (x : gmap Z TcpClient) (s : Stub) : Stub :=
  mkStub x (next_client s) (replies s) (accept_backoff s).

Definition put_replies (x : Replies) (s : Stub) : Stub :=
  mkStub (clients s) (next_client s) x (accept_backoff s).

Definition put_backoff (x : AcceptBackoff) (s : Stub) : Stub :=
  mkStub (clients s) (next_client s) (replies s) x.

(** What the operations send: a datagram, or the bytes a stream took. *)
Inductive Effect : Type :=
| SendUdp (peer : Peer) (bytes : list Z)
| WriteTcp (stream : Z) (bytes : list Z).

Definition Stub_open : Stub := mkStub ∅ 1 Replies_default AcceptBackoff_default.

Definition tcp_frame (message : list Z) : list Z :=
  be_bytes 2 (wrap 16 (Z.of_nat (length message))) ++ message.

(** [w] is what the stream does with the write, [at_] the clock then. *)
Definition send_tcp (s : Stub) (stream : Z) (message : list Z) (w : Write) (at_ : Z)
  : Stub * list Effect :=
  let frame := tcp_frame message in
  (put_replies (enqueue (replies s) stream frame w at_).1 s, [WriteTcp stream (wrote w frame)]).

(** What one [recv_from] returned. *)
Inductive RecvUdp : Type :=
| Datagram (bytes : list Z) (peer : Peer)
| UdpWouldBlock
| UdpInterrupted
| UdpError.

Fixpoint receive_udp_loop (batch : nat) (rs : list RecvUdp) : list Incoming * list Effect :=
  match batch, rs with
  | S batch, Datagram bytes peer :: rs =>
      let '(out, eff) := receive_udp_loop batch rs in
      if negb (is_loopback (p_ip peer)) then (out, eff)
      else
        match parse_query bytes with
        | Ok query => (Query (OUdp peer query) :: out, eff)
        | Err (Some reply) => (out, SendUdp peer reply :: eff)
        | Err None => (out, eff)
        end
  | S batch, UdpInterrupted :: rs => receive_udp_loop batch rs
  | _, _ => ([], [])
  end.

Definition receive_udp (rs : list RecvUdp) : list Incoming * list Effect :=
  receive_udp_loop IO_BATCH_LIMIT rs.

(** What one [accept] returned; [nonblocking] is whether the stream could be
    made so, [at_] the clock at a failure. *)
Inductive AcceptTcp : Type :=
| Accepted (stream : Z) (peer : Peer) (nonblocking : bool)
| TcpWouldBlock
| TcpInterrupted
| TcpError (at_ : Z).

Fixpoint accept_loop (batch : nat) (s : Stub) (rs : list AcceptTcp) (now : Z) (limit : nat) : Stub :=
  match batch, rs with
  | S batch, Accepted stream peer nonblocking :: rs =>
      if (limit <=? size (clients s))%nat || negb (is_loopback (p_ip peer)) || negb nonblocking
      then accept_loop batch s rs now limit
      else
        accept_loop batch
          (mkStub (<[next_client s := mkTcpClient stream [] now]> (clients s)) (next_client s + 1)
             (replies s) (accept_backoff s))
          rs now limit
  | S batch, TcpInterrupted :: rs => accept_loop batch s rs now limit
  | S _, TcpError at_ :: _ => put_backoff (backoff_failed (accept_backoff s) at_) s
  | _, _ => s
  end.

Definition accept (s : Stub) (rs : list AcceptTcp) (now : Z) (limit : nat) : Stub :=
  accept_loop IO_BATCH_LIMIT s rs now limit.

Definition client_fds `{MapOrder} (s : Stub) : list (Z * Z) :=
  map (fun ic => (ic.1, tc_stream ic.2)) (map_iter (clients s)).

(** The read loop: [None] when the client is dropped, else the buffer and
    whether the peer closed. *)
Fixpoint read_client (buf : list Z) (rs : list ReadTcp) : option (list Z * bool) :=
  match rs with
  | ReadEof :: _ => Some (buf, true)
  | ReadBytes chunk :: rs =>
      let buf := buf ++ chunk in
      if (2 + MAX_MESSAGE_SIZE <? Z.of_nat (length buf)) then None else read_client buf rs
  | ReadInterrupted :: rs => read_client buf rs
  | ReadError :: _ => None
  | ReadWouldBlock :: _ | [] => Some (buf, false)
  end.

Definition remove_client (id : Z) (s : Stub) : Stub := put_clients (delete id (clients s)) s.

(** A complete frame leaves the table as a query, or with its error. *)
Definition finish_client (s : Stub) (id : Z) (c : TcpClient) (payload : list Z) (w : Write) (at_ : Z)
  : Stub * option Incoming * list Effect :=
  let s := remove_client id s in
  match parse_query payload with
  | Ok query => (s, Some (Query (OTcp (tc_stream c) query)), [])
  | Err (Some reply) => let '(s, eff) := send_tcp s (tc_stream c) reply w at_ in (s, Some Nothing, eff)
  | Err None => (s, Some Nothing, [])
  end.

(** [w] and [at_] are for the error reply, when there is one. *)
Definition service_client (s : Stub) (id : Z) (rs : list ReadTcp) (w : Write) (at_ : Z)
  : Stub * option Incoming * list Effect :=
  match clients s !! id with
  | None => (s, None, [])
  | Some c =>
      match read_client (tc_buf c) rs with
      | None => (remove_client id s, Some Nothing, [])
      | Some (buf, eof) =>
          let waiting :=
            if eof then (remove_client id s, Some Nothing, [])
            else (put_clients (<[id := mkTcpClient (tc_stream c) buf (tc_since c)]> (clients s)) s,
                  None, []) in
          if (length buf <? 2)%nat then waiting
          else
            let len := Z.to_nat (from_be (take 2 buf)) in
            if (length buf <? 2 + len)%nat then waiting
            else finish_client s id c (take len (drop 2 buf)) w at_
      end
  end.

Definition Stub_expire (s : Stub) (now : Z) : Stub :=
  let s := put_clients
    (filter (fun kc => saturating_duration_since now (tc_since kc.2) < TCP_TIMEOUT) (clients s)) s in
  put_replies (replies_expire (replies s) now).1 s.

Definition listener_fd (s : Stub) (fd now : Z) : Z := poll_fd (accept_backoff s) fd now.

Definition Stub_next_deadline `{MapOrder} (s : Stub) (now : Z) : option Z :=
  list_min (map (fun kc => tc_since kc.2 + TCP_TIMEOUT) (map_iter (clients s))
            ++ option_list (replies_deadline (replies s))
            ++ option_list (backoff_deadline (accept_backoff s) now)).

Definition Stub_answer (s : Stub) (origin : Origin) (answer : Answer) (w : Write) (at_ : Z)
  : Stub * list Effect :=
  match origin with
  | OUdp peer query =>
      match encode_udp (build_reply query answer) (udp_size query) with
      | Ok bytes => (s, [SendUdp peer bytes])
      | Err _ => (s, [])
      end
  | OTcp stream query =>
      match Message_encode (build_reply query answer) with
      | Ok bytes => send_tcp s stream bytes w at_
      | Err _ => (s, [])
      end
  end.

Definition service_reply (s : Stub) (id : Z) (w : Write) (now : Z) : Stub :=
  put_replies (service (replies s) id w now).1 s.
