(* ===== verification/StubProps.v ===== *)
(** * Properties of the stub door

    What it accepts, that its replies are answers to the query and fit the
    client's buffer, and that TCP framing does not depend on how the bytes
    arrive. *)

From S2P Require Import Prelude Net Names Message MessageProofs Cache EngineState Io Stub.
Local Open Scope Z_scope.

Lemma decode_header msg m :
  Message_decode msg = Ok m -> header m = Header_from_flags (u16_of msg 0) (u16_of msg 2).
Proof.
  intros H. unfold Message_decode in H. destruct (length msg <? 12)%nat; [done|].
  inv_ok H. destruct a as [qs p1]. inv_ok H. destruct a as [an p2]. inv_ok H.
  destruct a as [au p3]. inv_ok H. destruct a as [ad p4]. by injection H as <-.
Qed.

(** ** Replies are well-formed *)

Lemma reply_to_wf q : Message_wf q -> Message_wf (reply_to q).
Proof.
  intros ((Hid & Hop & Hrc) & Hq & _). split; [by split; [|split; [|by_decide]]|].
  split; [done|]. by split_and!; constructor.
Qed.

Lemma set_rcode_wf c m : 0 <= c < 16 -> Message_wf m -> Message_wf (set_rcode c m).
Proof. intros Hc ((? & ? & _) & ?). by split. Qed.

Lemma push_additional_wf r m : Record_wf r -> Message_wf m -> Message_wf (push_additional r m).
Proof.
  intros Hr (? & ? & ? & ? & Ha). split_and!; try done. apply Forall_app. split; [done|].
  by apply Forall_singleton.
Qed.

Lemma push_answers_wf rs m : Forall Record_wf rs -> Message_wf m -> Message_wf (push_answers rs m).
Proof. intros Hr (? & ? & ? & ? & ?). split_and!; try done. by apply Forall_app. Qed.

Lemma EDNS_opt_wf : Record_wf (Record_opt EDNS_UDP_SIZE false).
Proof. apply Record_opt_wf. by_decide. Qed.

Definition Answer_wf (a : Answer) : Prop :=
  Forall Record_wf (a_records a) /\ (forall n, a_resolved_name a = Some n -> Name_wf n) /\
  is_u32 (a_negative_ttl a).

Lemma expansion_cname_wf q a : Message_wf q -> Answer_wf a -> Forall Record_wf (expansion_cname q a).
Proof.
  intros (_ & Hq & _) (Hr & Hn & Ht). unfold expansion_cname, Message_question.
  destruct (questions q) as [|x [|]]; try constructor.
  destruct (a_resolved_name a) as [n|]; [|constructor]. case_match; [|constructor].
  apply Forall_singleton. apply Forall_cons in Hq as [(Hx & _) _].
  split_and!; [done|by_decide|by_decide| |]; simpl.
  - destruct (list_min (map r_ttl (a_records a))) as [m|] eqn:E; simpl; [|done].
    apply list_min_Some in E as [Hin _]. apply list_elem_of_In, in_map_iff in Hin as (r & <- & Hin).
    rewrite Forall_forall in Hr. by apply list_elem_of_In, Hr in Hin as (_ & _ & _ & ? & _).
  - by split; [|apply Hn].
Qed.

Lemma build_reply_wf q a : Message_wf q -> Answer_wf a -> Message_wf (build_reply q a).
Proof.
  intros Hq Ha. pose proof (reply_to_wf q Hq) as Hr. unfold build_reply.
  set (reply := match a_outcome a with Found => _ | NotFound => _ | Unavailable => _ end).
  assert (Message_wf reply) as Hw.
  { unfold reply. destruct (a_outcome a).
    - apply push_answers_wf; [apply Ha|]. apply push_answers_wf; [by apply expansion_cname_wf|].
      apply set_rcode_wf; [by_decide|done].
    - apply set_rcode_wf; [by_decide|done].
    - apply set_rcode_wf; [by_decide|done]. }
  destruct (Message_opt q); [|done]. by apply push_additional_wf; [apply EDNS_opt_wf|].
Qed.

Lemma build_reply_shape q a :
  h_id (header (build_reply q a)) = h_id (header q) /\ response (header (build_reply q a)) = true /\
  questions (build_reply q a) = questions q /\
  h_rcode (header (build_reply q a)) =
    (match a_outcome a with Found => rcode.NOERROR | NotFound => rcode.NXDOMAIN
     | Unavailable => rcode.SERVFAIL end) /\
  additional (build_reply q a) =
    (match Message_opt q with Some _ => [Record_opt EDNS_UDP_SIZE false] | None => [] end) /\
  answers (build_reply q a) =
    (match a_outcome a with Found => expansion_cname q a ++ a_records a | _ => [] end).
Proof. unfold build_reply. destruct (a_outcome a), (Message_opt q); done. Qed.

(** ** Truncated replies are small *)

Lemma truncate_wf q a :
  Message_wf q -> Message_wf (truncate_message (build_reply q a)).
Proof.
  intros ((Hid & Hop & _) & Hq & _). unfold truncate_message.
  destruct (build_reply_shape q a) as (Hi & _ & Hqs & Hrc & Had & _).
  split; [|split; [|split; [|split]]]; cbn [header questions answers authority additional].
  - unfold set_truncated, Header_wf. cbn [h_id opcode h_rcode]. rewrite Hi, Hrc.
    split; [done|]. split; [|destruct (a_outcome a); by_decide].
    unfold build_reply. by destruct (a_outcome a), (Message_opt q).
  - by rewrite Hqs.
  - constructor.
  - constructor.
  - unfold Message_opt at 1. rewrite Had. destruct (Message_opt q); simpl; [|constructor].
    apply Forall_singleton, EDNS_opt_wf.
Qed.

Lemma truncated_length q a x :
  Message_wf q -> questions q = [x] ->
  (length (message_wire (truncate_message (build_reply q a))) <= 282)%nat.
Proof.
  intros (_ & Hq & _) Hx. rewrite Hx in Hq. apply Forall_cons in Hq as [(Hn & _) _].
  destruct (build_reply_shape q a) as (_ & _ & Hqs & _ & Had & _).
  pose proof (length_question_wire x Hn) as Hl. unfold MAX_NAME_LEN in Hl.
  unfold message_wire, header_wire, truncate_message.
  cbn [header questions answers authority additional]. rewrite Hqs, Hx.
  unfold Message_opt at 1 2. rewrite Had. rewrite !length_app, !length_be_bytes.
  destruct (Message_opt q); cbn [List.find map concat length app]; rewrite ?length_app; simpl; lia.
Qed.

Lemma udp_size_ge m : CLASSIC_UDP_SIZE <= udp_size m.
Proof. unfold udp_size. destruct (Message_opt m); lia. Qed.

Lemma reply_fits q a x bytes :
  Message_wf q -> questions q = [x] ->
  encode_udp (build_reply q a) (udp_size q) = Ok bytes -> Z.of_nat (length bytes) <= udp_size q.
Proof.
  intros Hq Hx He. unfold encode_udp in He. destruct (Message_encode _) as [full|]; [|done].
  cbn [result_bind] in He. destruct (Z.of_nat (length full) <=? udp_size q) eqn:Hl.
  - injection He as <-. by apply Z.leb_le.
  - rewrite encode_wire in He by (by apply truncate_wf). case_bool_decide; [|done].
    injection He as <-. pose proof (truncated_length q a x Hq Hx).
    pose proof (udp_size_ge q). unfold CLASSIC_UDP_SIZE in *. lia.
Qed.

(** ** Queries *)

Lemma error_reply_wf m code : Message_wf m -> 0 <= code < 16 -> Message_wf (error_reply m code).
Proof.
  intros Hm Hc. unfold error_reply.
  pose proof (set_rcode_wf code _ Hc (reply_to_wf m Hm)) as Hr.
  destruct (Message_opt m) as [opt|] eqn:Eo; [|done]. apply push_additional_wf; [|done].
  unfold Message_opt in Eo. apply find_some in Eo as [Hin _]. apply list_elem_of_In in Hin.
  destruct Hm as (_ & _ & _ & _ & Had). rewrite Forall_forall in Had.
  destruct (Had opt Hin) as (_ & _ & Hcl & _).
  destruct EDNS_opt_wf as (? & ? & _ & ? & ?). by split_and!.
Qed.

Lemma formerr_reply_wf bytes : bytes_ok bytes -> Message_wf (formerr_reply bytes).
Proof.
  intros Hb. split; [split; [by apply u16_of_u16|by_decide]|]. by split_and!; constructor.
Qed.

(** The errors a packet may earn. *)
Definition error_code (code : Z) : Prop := code = rcode.FORMERR \/ code = rcode.NOTIMP.

Lemma parse_query_error bytes reply :
  bytes_ok bytes -> parse_query bytes = Err (Some reply) ->
  exists m, Message_decode reply = Ok m /\ response (header m) = true /\
    h_id (header m) = u16_of bytes 0 /\ error_code (h_rcode (header m)).
Proof.
  intros Hb H. unfold parse_query in H.
  assert (forall m, Message_wf m -> ok (Message_encode m) = Some reply ->
    Message_decode reply = Ok m) as Hdec.
  { intros m Hm He. apply (encode_decode m); [done|]. destruct (Message_encode m); simplify_eq/=; done. }
  destruct (Message_decode bytes) as [m|] eqn:Ed.
  - pose proof (decode_message_wf bytes m Hb Ed) as Hwf.
    assert (h_id (header m) = u16_of bytes 0) as Hid by (by rewrite (decode_header _ _ Ed)).
    destruct (response (header m)); [done|].
    assert (forall code, error_code code -> ok (Message_encode (error_reply m code)) = Some reply ->
      exists m', Message_decode reply = Ok m' /\ response (header m') = true /\
      h_id (header m') = u16_of bytes 0 /\ error_code (h_rcode (header m'))) as Herr.
    { intros code Hc He. exists (error_reply m code). split.
      - apply Hdec; [|done]. apply error_reply_wf; [done|]. destruct Hc as [-> | ->]; by_decide.
      - unfold error_reply. by destruct (Message_opt m). }
    destruct (negb (opcode (header m) =? 0)); [apply (Herr rcode.NOTIMP); [by right|congruence]|].
    destruct (Message_question m) as [q|]; [|apply (Herr rcode.FORMERR); [by left|congruence]].
    destruct (negb _); [|done]. apply (Herr rcode.NOTIMP); [by right|congruence].
  - destruct (12 <=? length bytes)%nat; [|done]. exists (formerr_reply bytes). split.
    + apply Hdec; [by apply formerr_reply_wf|congruence].
    + split_and!; try done. by left.
Qed.

Lemma parse_query_ok bytes m :
  parse_query bytes = Ok m <->
  Message_decode bytes = Ok m /\ response (header m) = false /\ opcode (header m) = 0 /\
  exists q, questions m = [q] /\ q_class q = class_IN.
Proof.
  unfold parse_query, Message_question. split.
  - destruct (Message_decode bytes) as [m'|]; [|done]. destruct (response (header m')) eqn:Er; [done|].
    destruct (opcode (header m') =? 0) eqn:Eo; [|done]. simpl.
    destruct (questions m') as [|q [|]] eqn:Eq; try done.
    destruct (q_class q =? class_IN) eqn:Ec; [|done]. simpl. intros [= ->]. bool_simpl.
    split_and!; try done. by exists q.
  - intros (-> & -> & -> & q & -> & Hc). simpl. by rewrite (proj2 (Z.eqb_eq _ _) Hc).
Qed.

(** ** TCP framing *)

Lemma read_client_chunks chunks rest : forall buf,
  Z.of_nat (length (buf ++ concat chunks)) <= 2 + MAX_MESSAGE_SIZE ->
  read_client buf (map ReadBytes chunks ++ rest) = read_client (buf ++ concat chunks) rest.
Proof.
  induction chunks as [|c cs IH]; intros buf Hl; simpl; [by rewrite app_nil_r|].
  rewrite app_assoc, IH by (simpl in Hl; by rewrite <- app_assoc).
  destruct (2 + MAX_MESSAGE_SIZE <? Z.of_nat (length (buf ++ c))) eqn:E; [|done].
  bool_simpl. simpl in Hl. rewrite !length_app in *. lia.
Qed.

(** The buffer never outgrows one frame. *)
Lemma read_client_bound rs : forall buf buf' eof,
  Z.of_nat (length buf) <= 2 + MAX_MESSAGE_SIZE -> read_client buf rs = Some (buf', eof) ->
  Z.of_nat (length buf') <= 2 + MAX_MESSAGE_SIZE.
Proof.
  induction rs as [|[|chunk| | |] rs IH]; intros buf buf' eof Hl H; simpl in H; simplify_eq; try done.
  - destruct (_ <? _) eqn:E; [done|]. bool_simpl. by eapply IH.
  - by eapply IH.
Qed.

Definition Stub_ok (limit : nat) (s : Stub) : Prop :=
  (size (clients s) <= limit)%nat /\
  map_Forall (fun id c => id < next_client s /\ Z.of_nat (length (tc_buf c)) <= 2 + MAX_MESSAGE_SIZE)
    (clients s) /\
  Replies_ok (replies s).

Lemma put_clients_ok limit s cs : cs ⊆ clients s -> Stub_ok limit s -> Stub_ok limit (put_clients cs s).
Proof.
  intros Hsub (Hs & Hc & Hr). split_and!; simpl; [| |done].
  - pose proof (map_subseteq_size _ _ Hsub). lia.
  - intros id c Hid. by apply (Hc id c), (lookup_weaken _ _ _ _ Hid Hsub).
Qed.

Lemma put_replies_ok limit s rs : Replies_ok rs -> Stub_ok limit s -> Stub_ok limit (put_replies rs s).
Proof. by intros Hr (Hs & Hc & _). Qed.

Lemma remove_client_ok limit s id : Stub_ok limit s -> Stub_ok limit (remove_client id s).
Proof. apply put_clients_ok, delete_subseteq. Qed.

Lemma send_tcp_ok limit s stream m w at_ : Stub_ok limit s -> Stub_ok limit (send_tcp s stream m w at_).1.
Proof. intros Hok. apply put_replies_ok; [|done]. apply enqueue_ok, Hok. Qed.

Lemma service_client_ok limit s id rs w at_ :
  Stub_ok limit s -> Stub_ok limit (service_client s id rs w at_).1.1.
Proof.
  intros Hok. unfold service_client. destruct (clients s !! id) as [c|] eqn:Hc; [|done].
  pose proof Hok as (Hs & Hcs & Hrs). destruct (Hcs id c Hc) as [Hlt Hlen].
  destruct (read_client (tc_buf c) rs) as [[buf eof]|] eqn:Hr; [|by apply remove_client_ok].
  apply read_client_bound in Hr; [|done].
  set (waiting := if eof then _ else _).
  assert (Stub_ok limit waiting.1.1) as Hw.
  { unfold waiting. destruct eof; [by apply remove_client_ok|]. split_and!; simpl; [| |done].
    - by rewrite map_size_insert_Some.
    - by apply map_Forall_insert_2. }
  clearbody waiting. destruct (length buf <? 2)%nat; [done|].
  destruct (length buf <? _)%nat; [done|]. unfold finish_client.
  destruct (parse_query _) as [|[reply|]]; [|apply send_tcp_ok|]; by apply remove_client_ok.
Qed.

Lemma accept_loop_ok limit batch rs now : forall s, Stub_ok limit s ->
  Stub_ok limit (accept_loop batch s rs now limit).
Proof.
  revert batch. induction rs as [|r rs IH]; intros [|batch] s Hok; try done; destruct r; cbn [accept_loop];
    try done; [|by apply IH].
  destruct (_ || _) eqn:El; [by apply IH|]. apply IH. bool_simpl.
  destruct Hok as (Hs & Hcs & Hr). split_and!; simpl; [| |done].
  - rewrite map_size_insert. case_match; simpl; lia.
  - apply map_Forall_insert_2; [simpl; unfold MAX_MESSAGE_SIZE; lia|].
    intros id c Hid. destruct (Hcs id c Hid). split; [lia|done].
Qed.

Lemma Stub_expire_ok limit s now : Stub_ok limit s -> Stub_ok limit (Stub_expire s now).
Proof.
  intros Hok. apply put_replies_ok; [apply expire_ok, Hok|].
  apply put_clients_ok; [apply map_filter_subseteq|done].
Qed.

Lemma Stub_answer_ok limit s origin a w at_ :
  Stub_ok limit s -> Stub_ok limit (Stub_answer s origin a w at_).1.
Proof. intros Hok. destruct origin; simpl; case_match; try done. by apply send_tcp_ok. Qed.

Lemma service_reply_ok limit s id w now : Stub_ok limit s -> Stub_ok limit (service_reply s id w now).
Proof. intros Hok. apply put_replies_ok; [apply service_ok, Hok|done]. Qed.

(** ** The properties *)

(** What a query says it can take over UDP: the class of its first OPT record,
    no less than 512 bytes, and 512 without one. *)
Definition advertises (q : Message) (limit : Z) : Prop :=
  (Forall (fun r => r_rtype r <> rtype.OPT) (additional q) /\ limit = 512) \/
  exists before opt after, additional q = before ++ opt :: after /\
    Forall (fun r => r_rtype r <> rtype.OPT) before /\ r_rtype opt = rtype.OPT /\ limit = Z.max 512 (r_class opt).

Lemma first_opt rs opt :
  List.find (fun r => r_rtype r =? rtype.OPT) rs = Some opt ->
  exists before after, rs = before ++ opt :: after /\
    Forall (fun r => r_rtype r <> rtype.OPT) before /\ r_rtype opt = rtype.OPT.
Proof.
  induction rs as [|r rs IH]; cbn [List.find]; [done|]. destruct (Z.eqb_spec (r_rtype r) rtype.OPT) as [He|He].
  - intros [= <-]. by exists [], rs.
  - intros (b & c & -> & Hb & Ho)%IH. exists (r :: b), c. split_and!; [done|by constructor|done].
Qed.

Lemma advertises_unique q l1 l2 : advertises q l1 -> advertises q l2 -> l1 = l2.
Proof.
  assert (forall before opt after (l : list Record_), l = before ++ opt :: after ->
    Forall (fun r => r_rtype r <> rtype.OPT) before -> r_rtype opt = rtype.OPT ->
    List.find (fun r => r_rtype r =? rtype.OPT) l = Some opt) as Hfind.
  { intros before opt after l -> Hb Ho. induction Hb as [|r before Hr _ IH]; cbn.
    - by rewrite (proj2 (Z.eqb_eq _ _) Ho).
    - by rewrite (proj2 (Z.eqb_neq _ _) Hr). }
  intros [[Hn ->]|(b & o & c & He & Hb & Ho & ->)] [[Hn' ->]|(b' & o' & c' & He' & Hb' & Ho' & ->)]; try done.
  - rewrite He' in Hn. apply Forall_app in Hn as [_ [? _]%Forall_cons]. done.
  - rewrite He in Hn'. apply Forall_app in Hn' as [_ [? _]%Forall_cons]. done.
  - pose proof (Hfind _ _ _ _ He Hb Ho). pose proof (Hfind _ _ _ _ He' Hb' Ho'). congruence.
Qed.

Lemma udp_size_advertised q : advertises q (udp_size q).
Proof.
  unfold udp_size, Message_opt. destruct (List.find _ _) as [opt|] eqn:E.
  - apply first_opt in E as (b & c & He & Hb & Ho). right. exists b, opt, c.
    unfold CLASSIC_UDP_SIZE. split_and!; [done|done|done|lia].
  - left. split; [|done]. apply Forall_forall. intros r Hr Ht.
    pose proof (List.find_none _ _ E r (proj1 (list_elem_of_In _ _) Hr)) as Hf. cbn in Hf. by rewrite Ht in Hf.
Qed.

(** The CNAME of an answer found at an expanded name. *)
Lemma expansion_cname_spec q x a :
  questions q = [x] ->
  ((forall n, a_resolved_name a = Some n -> n ≃ q_name x) -> expansion_cname q a = []) /\
  (forall n, a_resolved_name a = Some n -> ~ n ≃ q_name x ->
     exists ttl, expansion_cname q a = [mkRecord (q_name x) rtype.CNAME class_IN ttl (RCname n)] /\
       (a_records a = [] -> ttl = a_negative_ttl a) /\
       (a_records a <> [] -> ttl ∈ map r_ttl (a_records a) /\ forall r, r ∈ a_records a -> ttl <= r_ttl r)).
Proof.
  intros Hx. unfold expansion_cname, Message_question. rewrite Hx. split.
  - intros Hn. destruct (a_resolved_name a) as [n|]; [|done].
    by rewrite (proj2 (Name_eqb_spec _ _) (symmetry (Hn n eq_refl))).
  - intros n -> Hne. destruct (Name_eqb (q_name x) n) eqn:E; [by apply Name_eqb_spec in E; destruct Hne|].
    cbn [negb]. eexists. split; [reflexivity|]. destruct (list_min (map r_ttl (a_records a))) as [d|] eqn:Hm; cbn [default].
    + apply list_min_Some in Hm as [Hin Hle]. split; [intros Hr; rewrite Hr in Hin; by apply elem_of_nil in Hin|].
      intros _. split; [done|]. intros r Hr. apply Hle. by apply list_elem_of_fmap_2.
    + apply list_min_None in Hm. split; [done|]. intros Hr. by apply map_eq_nil in Hm.
Qed.

(** C25. The rendering is honest and fits the client.  The reply carries the
    query's id and question and the response bit; a found answer is NOERROR
    with exactly the engine's records, preceded, when the answer is at another
    name than the asked one, by a CNAME from the asked name to it that lives
    no longer than they do; an absence is NXDOMAIN without answers; and
    "nothing could answer" is SERVFAIL, never an absence.  Encoded, it decodes
    to itself.  What the door sends over UDP goes to the peer that asked and
    is no longer than the size its query advertised, the class of its first
    OPT record and at least 512: one datagram, the whole reply when it is no
    longer than that, and otherwise a reply with the same id, question and
    code, the truncation bit and no records; nothing only when the reply is
    larger than any DNS message. *)
Theorem reply_renders_answer q x a :
  Message_wf q -> questions q = [x] -> Answer_wf a ->
  (h_id (header (build_reply q a)) = h_id (header q) /\ response (header (build_reply q a)) = true /\
   questions (build_reply q a) = questions q /\
   h_rcode (header (build_reply q a)) =
     (match a_outcome a with Found => rcode.NOERROR | NotFound => rcode.NXDOMAIN
      | Unavailable => rcode.SERVFAIL end)) /\
  ((a_outcome a <> Found -> answers (build_reply q a) = []) /\
   (a_outcome a = Found -> (forall n, a_resolved_name a = Some n -> n ≃ q_name x) ->
      answers (build_reply q a) = a_records a) /\
   (forall n, a_outcome a = Found -> a_resolved_name a = Some n -> ~ n ≃ q_name x ->
      exists ttl, answers (build_reply q a) =
          mkRecord (q_name x) rtype.CNAME class_IN ttl (RCname n) :: a_records a /\
        (a_records a = [] -> ttl = a_negative_ttl a) /\
        (a_records a <> [] -> ttl ∈ map r_ttl (a_records a) /\ forall r, r ∈ a_records a -> ttl <= r_ttl r))) /\
  (forall bytes, Message_encode (build_reply q a) = Ok bytes -> Message_decode bytes = Ok (build_reply q a)) /\
  (forall limit s peer w at_, advertises q limit ->
     let whole := message_size (build_reply q a) in
     (65535 < whole -> (Stub_answer s (OUdp peer q) a w at_).2 = []) /\
     (whole <= 65535 -> exists bytes,
        (Stub_answer s (OUdp peer q) a w at_).2 = [SendUdp peer bytes] /\ Z.of_nat (length bytes) <= limit /\
        (whole <= limit -> Message_decode bytes = Ok (build_reply q a)) /\
        (limit < whole -> exists m, Message_decode bytes = Ok m /\
           truncated (header m) = true /\ h_id (header m) = h_id (header q) /\ response (header m) = true /\
           h_rcode (header m) = h_rcode (header (build_reply q a)) /\
           questions m = questions q /\ answers m = [] /\ authority m = []))).
Proof.
  intros Hq Hx Ha. pose proof (build_reply_wf q a Hq Ha) as Hw.
  destruct (build_reply_shape q a) as (? & ? & ? & ? & _ & Han). destruct (expansion_cname_spec q x a Hx) as [Hc1 Hc2].
  split; [done|]. split; [|split].
  - rewrite Han. split_and!.
    + by destruct (a_outcome a).
    + intros -> Hn. by rewrite Hc1.
    + intros n -> Hn Hne. destruct (Hc2 n Hn Hne) as (ttl & -> & Ht). by exists ttl.
  - intros bytes. by apply encode_decode.
  - intros limit s peer w at_ Hlim. cbv zeta. cbn [Stub_answer].
    rewrite (advertises_unique q limit (udp_size q) Hlim (udp_size_advertised q)).
    pose proof (encode_udp_by_size (build_reply q a) (udp_size q)) as Hs.
    destruct (Z.leb_spec (message_size (build_reply q a)) 65535) as [Hle|Hgt];
      [|split; [by rewrite Hs|lia]].
    split; [lia|]. intros _. destruct Hs as (bytes & He & Hb). exists bytes. split; [by rewrite He|].
    split; [by eapply reply_fits|].
    destruct (Z.leb_spec (message_size (build_reply q a)) (udp_size q)) as [Hl|Hl]; (split; [|lia]) || (split; [lia|]); intros _.
    + by apply encode_decode.
    + exists (truncate_message (build_reply q a)). split; [apply encode_decode; [by apply truncate_wf|done]|done].
Qed.

Definition stub_query : Message :=
  Message_query 77 (Question_new (expect Name_root (Name_parse (bytes_of "printer"))) rtype.A).

Definition stub_answer_ : Answer :=
  mkAnswer Found [Record_new (expect Name_root (Name_parse (bytes_of "printer.lan"))) 60 (RA 1)] Dns None
    None 0 (Some (expect Name_root (Name_parse (bytes_of "printer.lan")))) 0.

Lemma stub_answer_wf : Answer_wf stub_answer_.
Proof. split; [by_decide|]. split; [|by_decide]. intros n [= <-]. by_decide. Qed.

(** A query that takes 600 bytes, and an answer of forty records. *)
Definition edns_query : Message :=
  mkMessage (header stub_query) (questions stub_query) [] [] [Record_opt 600 false].
Definition long_answer : Answer :=
  mkAnswer Found (replicate 40 (Record_new (expect Name_root (Name_parse (bytes_of "printer"))) 60 (RA 1))) Dns None
    None 0 None 0.

Lemma long_answer_wf : Answer_wf long_answer.
Proof. split; [by_decide|]. split; [done|by_decide]. Qed.

Lemma reply_renders_answer_witness :
  (exists ttl, answers (build_reply stub_query stub_answer_) =
     mkRecord (expect Name_root (Name_parse (bytes_of "printer"))) rtype.CNAME class_IN ttl
       (RCname (expect Name_root (Name_parse (bytes_of "printer.lan")))) :: a_records stub_answer_ /\ ttl <= 60) /\
  (exists bytes, (Stub_answer Stub_open (OUdp (mkPeer (V4 2130706433) 4000) edns_query) long_answer WriteWouldBlock 0).2
       = [SendUdp (mkPeer (V4 2130706433) 4000) bytes] /\ Z.of_nat (length bytes) <= 600 /\
     exists m, Message_decode bytes = Ok m /\ truncated (header m) = true /\ answers m = []).
Proof.
  split.
  - destruct (reply_renders_answer stub_query (Question_new (expect Name_root (Name_parse (bytes_of "printer"))) rtype.A)
      stub_answer_ ltac:(by_decide) eq_refl stub_answer_wf) as (_ & (_ & _ & Hc) & _).
    destruct (Hc (expect Name_root (Name_parse (bytes_of "printer.lan"))) eq_refl eq_refl) as (ttl & Han & _ & Ht);
      [by_decide|].
    exists ttl. split; [exact Han|].
    refine (proj2 (Ht _) (Record_new (expect Name_root (Name_parse (bytes_of "printer.lan"))) 60 (RA 1)) _); [done|by left].
  - destruct (reply_renders_answer edns_query (Question_new (expect Name_root (Name_parse (bytes_of "printer"))) rtype.A)
      long_answer ltac:(by_decide) eq_refl long_answer_wf) as (_ & _ & _ & Hu).
    assert (advertises edns_query 600) as Hadv by (right; exists [], (Record_opt 600 false), []; by split_and!).
    destruct (Hu 600 Stub_open (mkPeer (V4 2130706433) 4000) WriteWouldBlock 0 Hadv) as [_ Hsent].
    destruct (Hsent ltac:(by vm_compute)) as (bytes & Hout & Hlen & _ & Ht).
    exists bytes. split; [exact Hout|]. split; [exact Hlen|].
    destruct (Ht ltac:(vm_compute; reflexivity)) as (m & Hm & Htc & _ & _ & _ & _ & Han & _).
    exists m. split; [exact Hm|]. split; [exact Htc|exact Han].
Defined.

(** C26. The door takes exactly standard queries: a packet becomes a question
    when it decodes, is not a response, has opcode 0 and one IN-class
    question.  An error reply is a decodable response with the packet's id
    and FORMERR or NOTIMP; feeding any such reply back is ignored, so two
    servers cannot bounce errors. *)
Theorem queries_accepted bytes m :
  bytes_ok bytes ->
  (parse_query bytes = Ok m <->
   Message_decode bytes = Ok m /\ response (header m) = false /\ opcode (header m) = 0 /\
   exists q, questions m = [q] /\ q_class q = class_IN) /\
  (forall reply, parse_query bytes = Err (Some reply) ->
   (exists e, Message_decode reply = Ok e /\ response (header e) = true /\
     h_id (header e) = u16_of bytes 0 /\ error_code (h_rcode (header e))) /\
   parse_query reply = Err None).
Proof.
  intros Hb. split; [apply parse_query_ok|]. intros reply Hp.
  destruct (parse_query_error bytes reply Hb Hp) as (e & He & Hr & Hid & Hc). split; [by exists e|].
  unfold parse_query. by rewrite He, Hr.
Qed.

Lemma queries_accepted_witness :
  exists reply, parse_query (replicate 12 255) = Err (Some reply) /\ parse_query reply = Err None.
Proof.
  destruct (parse_query (replicate 12 255)) as [m|[reply|]] eqn:E;
    [vm_compute in E; discriminate E| |vm_compute in E; discriminate E].
  exists reply. split; [reflexivity|].
  apply (proj2 (queries_accepted (replicate 12 255) stub_query ltac:(by_decide)) reply E).
Defined.

(** C27. TCP framing does not depend on how the bytes arrive: a client that
    sends one stretch of bytes in any chunks, in one or in two calls, ends in
    the same state with the same query and the same effects. *)
Theorem framing_independent_of_chunks s id c xs ys w at_ w' at_' :
  clients s !! id = Some c ->
  Z.of_nat (length (tc_buf c ++ concat xs ++ concat ys)) <= 2 + MAX_MESSAGE_SIZE ->
  service_client s id (map ReadBytes (xs ++ ys) ++ [ReadWouldBlock]) w at_ =
  service_client s id [ReadBytes (concat xs ++ concat ys); ReadWouldBlock] w at_ /\
  ((service_client s id (map ReadBytes xs ++ [ReadWouldBlock]) w' at_').1.2 = None ->
   service_client (service_client s id (map ReadBytes xs ++ [ReadWouldBlock]) w' at_').1.1 id
     (map ReadBytes ys ++ [ReadWouldBlock]) w at_ =
   service_client s id (map ReadBytes (xs ++ ys) ++ [ReadWouldBlock]) w at_).
Proof.
  intros Hc Hl.
  assert (forall buf zs, Z.of_nat (length (buf ++ concat zs)) <= 2 + MAX_MESSAGE_SIZE ->
    read_client buf (map ReadBytes zs ++ [ReadWouldBlock]) = Some (buf ++ concat zs, false)) as Hr.
  { intros buf zs H. by rewrite read_client_chunks. }
  assert (Z.of_nat (length (tc_buf c ++ concat xs)) <= 2 + MAX_MESSAGE_SIZE) as Hlx.
  { rewrite !length_app in *. lia. }
  assert (service_client s id (map ReadBytes (xs ++ ys) ++ [ReadWouldBlock]) w at_ =
    service_client s id [ReadBytes (concat xs ++ concat ys); ReadWouldBlock] w at_) as Heq.
  { unfold service_client. rewrite Hc, Hr by (by rewrite concat_app).
    change [ReadBytes ?z; ReadWouldBlock] with (map ReadBytes [z] ++ [ReadWouldBlock]).
    rewrite Hr by (simpl; by rewrite app_nil_r). simpl. by rewrite app_nil_r, concat_app. }
  split; [done|]. intros Hnone. rewrite Heq.
  set (s1 := put_clients
    (<[id := mkTcpClient (tc_stream c) (tc_buf c ++ concat xs) (tc_since c)]> (clients s)) s).
  assert ((service_client s id (map ReadBytes xs ++ [ReadWouldBlock]) w' at_').1.1 = s1) as ->.
  { revert Hnone. unfold service_client. rewrite Hc, Hr by done.
    destruct (_ <? 2)%nat; [done|]. destruct (_ <? _)%nat; [done|].
    unfold finish_client. by destruct (parse_query _) as [|[|]]. }
  unfold service_client at 1. cbn [clients put_clients s1].
  rewrite lookup_insert_eq. cbn [tc_buf tc_stream tc_since].
  rewrite Hr by (by rewrite <- app_assoc).
  unfold service_client. rewrite Hc.
  change [ReadBytes ?z; ReadWouldBlock] with (map ReadBytes [z] ++ [ReadWouldBlock]).
  rewrite Hr by (simpl; by rewrite app_nil_r). cbn [concat]. rewrite app_nil_r, <- app_assoc.
  unfold finish_client, remove_client, s1, put_clients.
  cbn [clients next_client replies accept_backoff].
  by rewrite insert_insert_eq, delete_insert_eq.
Qed.

Definition one_client : Stub := put_clients {[1 := mkTcpClient 5 [] 0]} Stub_open.

Lemma framing_independent_of_chunks_witness :
  service_client one_client 1 (map ReadBytes ([[0]; [12; 1]] ++ [[2; 3]]) ++ [ReadWouldBlock]) WriteFails 0 =
  service_client one_client 1 [ReadBytes (concat [[0]; [12; 1]] ++ concat [[2; 3]]); ReadWouldBlock] WriteFails 0.
Proof.
  apply (proj1 (framing_independent_of_chunks one_client 1 (mkTcpClient 5 [] 0) [[0]; [12; 1]] [[2; 3]]
    WriteFails 0 WriteFails 0 (lookup_singleton_eq _ _) ltac:(vm_compute; discriminate))).
Defined.
