(* ===== verification/Upstream.v ===== *)
(** * Transports to upstream servers (resolvd/src/upstream.rs)

    One socket per transaction: a UDP socket until its reply, a TCP stream
    through sending and receiving.  What the sockets do on a call comes in as
    data; the interface table of the kernel is the parameter [if_nametoindex]. *)

From S2P Require Import Prelude Net IpText Cache EngineState Io.
Local Open Scope Z_scope.

Definition DNS_PORT : Z := 53.

(** An [io::Error]: with the error number of a system call, or made here. *)
Inductive NetError : Type := RawOs (errno : Z) | InvalidInput.

(** EMFILE, ENFILE, ENOMEM, ENOBUFS, ENODEV, EADDRNOTAVAIL, EADDRINUSE, EACCES
    and EPERM, as Linux numbers them. *)
Definition ENODEV : Z := 19.
Definition EADDRNOTAVAIL : Z := 99.
Definition local_errnos : list Z := [24; 23; 12; 105; ENODEV; EADDRNOTAVAIL; 98; 13; 1].

Definition is_local_failure (e : NetError) : bool :=
  match e with RawOs n => bool_decide (n ∈ local_errnos) | InvalidInput => false end.

(** [str::split_once]. *)
Fixpoint split_once (c : Z) (s : list Z) : option (list Z * list Z) :=
  match s with
  | [] => None
  | x :: s' =>
      if x =? c then Some ([], s')
      else match split_once c s' with Some (a, b) => Some (x :: a, b) | None => None end
  end.

Section interfaces.
(** The kernel's index of an interface name, 0 when there is none. *)
Variable if_nametoindex : Str -> Z.

Definition interface_index (interface : Str) : result NetError Z :=
  if existsb (Z.eqb 0) interface then Err InvalidInput
  else
    let index := if_nametoindex interface in
    if index =? 0 then Err (RawOs ENODEV) else Ok index.

(** A server of a snapshot belongs to its interface; a zone must name it. *)
Definition scope_server (text interface : Str) : result NetError IpAddr :=
  let '(address, zone) :=
    match split_once 37 text with Some (a, z) => (a, Some z) | None => (text, None) end in
  let? address := ok_or (ip_parse address) InvalidInput in
  match zone with
  | None => Ok address
  | Some zone =>
      let link_local := match address with V6 ip => is_unicast_link_local ip | V4 _ => false end in
      if negb link_local || bool_decide (zone = []) then Err InvalidInput
      else if bool_decide (zone = interface) then Ok address
      else
        let? index := interface_index interface in
        match parse_uint 32 zone with
        | Some n => if negb (n =? 0) && (n =? index) then Ok address else Err InvalidInput
        | None => Err InvalidInput
        end
  end.

(** A [SocketAddr]: address, port and, for IPv6, the scope id. *)
Record SocketAddr : Type := mkSocketAddr { sa_ip : IpAddr; sa_port : Z; sa_scope_id : Z }.

Definition server_address (server : IpAddr) (interface : option Str) : result NetError SocketAddr :=
  match server with
  | V6 ip =>
      if is_unicast_link_local ip then
        let? interface := ok_or interface (RawOs EADDRNOTAVAIL) in
        let? index := interface_index interface in
        Ok (mkSocketAddr server DNS_PORT index)
      else Ok (mkSocketAddr server DNS_PORT 0)
  | V4 _ => Ok (mkSocketAddr server DNS_PORT 0)
  end.

(** ** State *)

Inductive TcpState : Type :=
| Connecting
| Sending (frame : list Z) (sent : nat)
| Receiving (buf : list Z).

Record Tcp : Type := mkTcp { tcp_stream : Z; tcp_state : TcpState }.

Inductive Event : Type := Received (bytes : list Z) | Failed.

(** [udp] maps a transaction to its socket's descriptor. *)
Record Upstream : Type := mkUpstream { up_udp : gmap Txid Z; up_tcp : gmap Txid Tcp }.

Definition Upstream_new : Upstream := mkUpstream ∅ ∅.

Definition query_frame (payload : list Z) : list Z :=
  be_bytes 2 (wrap 16 (Z.of_nat (length payload))) ++ payload.

(** [socket] is what opening and connecting the socket, and for UDP sending
    the datagram, gave: a descriptor or the first error. *)
Definition upstream_send (u : Upstream) (tx : Txid) (server : IpAddr) (interface : option Str) (tcp : bool)
    (payload : list Z) (socket : result NetError Z) : Upstream * result NetError () :=
  match server_address server interface with
  | Err e => (u, Err e)
  | Ok _ =>
      match socket with
      | Err e => (u, Err e)
      | Ok fd =>
          if tcp then
            (mkUpstream (up_udp u) (<[tx := mkTcp fd (Sending (query_frame payload) 0)]> (up_tcp u)), Ok ())
          else (mkUpstream (<[tx := fd]> (up_udp u)) (up_tcp u), Ok ())
      end
  end.

Definition cancel (tx : Txid) (u : Upstream) : Upstream :=
  mkUpstream (delete tx (up_udp u)) (delete tx (up_tcp u)).

Definition POLLIN : Z := 1.
Definition POLLOUT : Z := 4.
Definition POLLERR : Z := 8.
Definition POLLHUP : Z := 16.

Definition tcp_events (st : TcpState) : Z :=
  match st with Connecting | Sending _ _ => POLLOUT | Receiving _ => POLLIN end.

Definition upstream_fds `{MapOrder} (u : Upstream) : list (Txid * Z * Z) :=
  map (fun ts => (ts.1, ts.2, POLLIN)) (map_iter (up_udp u)) ++
  map (fun tt => (tt.1, tcp_stream tt.2, tcp_events (tcp_state tt.2))) (map_iter (up_tcp u)).

(** ** Service *)

(** Consume the complete frames of a buffer up to one that is accepted.  Each
    frame is at least two bytes, so [fuel] of the buffer's length is enough. *)
Fixpoint drain_frames (fuel : nat) (accepts : list Z -> bool) (buf : list Z) : option (list Z) * list Z :=
  match fuel with
  | O => (None, buf)
  | S fuel =>
      if (2 <=? length buf)%nat then
        let len := Z.to_nat (from_be (take 2 buf)) in
        if (2 + len <=? length buf)%nat then
          let message := take len (drop 2 buf) in
          let buf := drop (2 + len) buf in
          if accepts message then (Some message, buf) else drain_frames fuel accepts buf
        else (None, buf)
      else (None, buf)
  end.

Definition drain (accepts : list Z -> bool) (buf : list Z) : option (list Z) * list Z :=
  drain_frames (length buf) accepts buf.

(** What a stream in [Receiving] becomes: an event, or a buffer to wait with.
    One read per readiness. *)
Definition receive (accepts : list Z -> bool) (buf : list Z) (rd : ReadTcp) : Event + list Z :=
  match drain accepts buf with
  | (Some message, _) => inl (Received message)
  | (None, buf) =>
      match rd with
      | ReadEof | ReadError => inl Failed
      | ReadBytes chunk =>
          match drain accepts (buf ++ chunk) with
          | (Some message, _) => inl (Received message)
          | (None, buf) => inr buf
          end
      | ReadWouldBlock | ReadInterrupted => inr buf
      end
  end.

(** What the sockets do on one readiness: a datagram for [recv], whether
    [take_error] reports a failed connect, what [write] and [read] do. *)
Inductive RecvRes : Type := RecvBytes (bytes : list Z) | RecvWouldBlock | RecvError.

Record Ready : Type := mkReady {
  rdy_recv : RecvRes;
  rdy_connect_error : bool;
  rdy_write : Write;
  rdy_read : ReadTcp;
}.

(** [Ok(0)] of a write is no failure here, an interruption is. *)
Definition tcp_send_step (frame : list Z) (sent : nat) (io : Ready) : Event + TcpState :=
  if (sent =? 0)%nat && rdy_connect_error io then inl Failed
  else
    match rdy_write io with
    | Takes n =>
        let sent := (sent + n `min` (length frame - sent))%nat in
        if (sent =? length frame)%nat then inr (Receiving []) else inr (Sending frame sent)
    | WriteWouldBlock => inr (Sending frame sent)
    | WriteInterrupted | WriteFails => inl Failed
    end.

Definition drop_tcp (tx : Txid) (u : Upstream) : Upstream := mkUpstream (up_udp u) (delete tx (up_tcp u)).
Definition drop_udp (tx : Txid) (u : Upstream) : Upstream := mkUpstream (delete tx (up_udp u)) (up_tcp u).

Definition tcp_step (accepts : list Z -> bool) (st : TcpState) (revents : Z) (io : Ready) : option Event * option TcpState :=
  let receiving := match st with Receiving _ => true | _ => false end in
  if negb (Z.land revents (Z.lor POLLERR POLLHUP) =? 0) && negb receiving then (Some Failed, None)
  else
    match st with
    | Connecting => (None, Some Connecting)
    | Sending frame sent =>
        match tcp_send_step frame sent io with
        | inl e => (Some e, None)
        | inr st => (None, Some st)
        end
    | Receiving buf =>
        match receive accepts buf (rdy_read io) with
        | inl e => (Some e, None)
        | inr buf => (None, Some (Receiving buf))
        end
    end.

Definition upstream_service (u : Upstream) (tx : Txid) (revents : Z) (accepts : list Z -> bool) (io : Ready)
  : Upstream * option Event :=
  match up_udp u !! tx with
  | Some _ =>
      match rdy_recv io with
      | RecvBytes bytes => if accepts bytes then (drop_udp tx u, Some (Received bytes)) else (u, None)
      | RecvWouldBlock => (u, None)
      | RecvError => (drop_udp tx u, Some Failed)
      end
  | None =>
      match up_tcp u !! tx with
      | None => (u, None)
      | Some t =>
          match tcp_step accepts (tcp_state t) revents io with
          | (e, Some st) => (mkUpstream (up_udp u) (<[tx := mkTcp (tcp_stream t) st]> (up_tcp u)), e)
          | (e, None) => (drop_tcp tx u, e)
          end
      end
  end.
End interfaces.
