(* ===== verification/UpstreamProps.v ===== *)
(** * Properties of the upstream transports (resolvd/src/upstream.rs)

    The stream of a TCP transaction is read as a sequence of length-prefixed
    messages however the network cuts it, and the query is written out once;
    a transaction's socket is dropped exactly when it reports an event. *)

From S2P Require Import Prelude Net Framing Cache EngineState Io Upstream.
Local Open Scope Z_scope.

(** DNS messages behind two bytes of length; a query's frame is one. *)
#[local] Existing Instance u16_framing.

Lemma query_frame_framed m : query_frame m = framed m.
Proof. done. Qed.

(** ** Draining *)

Lemma drain_incomplete accepts s fuel : incomplete s -> drain_frames fuel accepts s = (None, s).
Proof.
  destruct fuel; [done|]. cbn [drain_frames]. unfold incomplete. cbn [head_length head_dec u16_framing].
  intros [H|H]; destruct (Nat.leb_spec 2 (length s)); try lia; [done| |done].
  by destruct (Nat.leb_spec (2 + Z.to_nat (from_be (take 2 s))) (length s)); try lia.
Qed.

(** What draining a whole stretch leaves: the first accepted message, or the
    incomplete rest. *)
Lemma drain_stream accepts ms rest : forall fuel,
  Forall fits ms -> incomplete rest -> (length ms <= fuel)%nat ->
  (drain_frames fuel accepts (stream_of ms ++ rest)).1 = find accepts ms /\
  (find accepts ms = None -> (drain_frames fuel accepts (stream_of ms ++ rest)).2 = rest).
Proof.
  induction ms as [|m ms IH]; intros fuel Hms Hrest Hf.
  { simpl. by rewrite drain_incomplete. }
  apply Forall_cons in Hms as [Hm Hms]. destruct fuel as [|fuel]; [simpl in Hf; lia|].
  rewrite stream_of_cons, <- app_assoc. cbn [drain_frames].
  destruct (framed_header m (stream_of ms ++ rest) Hm) as (Ht & Hd & Hn).
  change (take 2 ?s) with (take head_length s). change (drop 2 ?s) with (drop head_length s).
  change (Z.to_nat (from_be ?h)) with (head_dec h).
  rewrite Ht, Hn, Hd, length_app, length_framed.
  rewrite !leb_correct by (simpl; lia). rewrite take_app_length.
  assert (drop (2 + length m) (framed m ++ stream_of ms ++ rest) = stream_of ms ++ rest) as ->.
  { change (2 + length m)%nat with (head_length + length m)%nat. rewrite <- length_framed. apply drop_app_length. }
  cbn [find]. destruct (accepts m); [done|]. apply IH; [done..|simpl in Hf; lia].
Qed.

Lemma drain_whole accepts ms rest :
  Forall fits ms -> incomplete rest ->
  drain accepts (stream_of ms ++ rest) =
    match find accepts ms with
    | Some m => (Some m, (drain accepts (stream_of ms ++ rest)).2)
    | None => (None, rest)
    end.
Proof.
  intros Hms Hr. unfold drain.
  destruct (drain_stream accepts ms rest (length (stream_of ms ++ rest)) Hms Hr) as [H1 H2].
  { rewrite length_app. pose proof (length_stream_of ms). simpl in *. lia. }
  destruct (drain_frames _ _ _) as [o b]. simpl in *. subst.
  destruct (find accepts ms); [done|]. by rewrite H2.
Qed.

(** Every byte string is messages and an incomplete rest, in one way. *)
Lemma stream_splits s : bytes_ok s -> exists ms rest,
  s = stream_of ms ++ rest /\ Forall fits ms /\ incomplete rest.
Proof.
  induction s as [s IH] using (induction_ltof1 _ (@length Z)). unfold ltof in IH. intros Hb.
  destruct (Nat.lt_ge_cases (length s) 2) as [|H2]; [by exists [], s; repeat split; [|left]|].
  destruct (Nat.lt_ge_cases (length s) (2 + Z.to_nat (from_be (take 2 s)))) as [|Hl].
  { by exists [], s; repeat split; [|right]. }
  set (n := Z.to_nat (from_be (take 2 s))) in *.
  assert (is_u16 (from_be (take 2 s))) as Hu.
  { apply from_be_u16; [by apply Forall_take|]. rewrite length_take. lia. }
  destruct (IH (drop (2 + n) s)) as (ms & rest & Heq & Hms & Hr).
  { rewrite length_drop. lia. }
  { by apply Forall_drop. }
  set (m := take n (drop 2 s)).
  assert (length m = n) as Hm by (unfold m; rewrite length_take, length_drop; lia).
  assert (framed m = take 2 s ++ m) as Hq.
  { unfold framed. cbn [head_enc u16_framing]. unfold wrap. rewrite Hm. unfold n. rewrite Z2Nat.id by (unfold in_width in Hu; lia).
    rewrite Z.mod_small by done. f_equal.
    pose proof (be_bytes_from_be (take 2 s) (Forall_take _ _ _ Hb)) as Hbe.
    by rewrite length_take, Nat.min_l in Hbe by lia. }
  exists (m :: ms), rest. split_and!; [|constructor; [|done]|done].
  - rewrite stream_of_cons, Hq, <- !app_assoc, <- Heq.
    unfold m. rewrite <- (drop_drop s n 2), take_drop. by rewrite take_drop.
  - unfold fits. cbn [head_fits u16_framing]. rewrite Hm. unfold n. by rewrite Z2Nat.id by (unfold in_width in Hu; lia).
Qed.

(** ** Runs of one transaction *)

(** The bytes one readiness moves on a TCP stream: written, and read. *)
Definition tcp_moved (st : TcpState) (revents : Z) (io : Ready) : list Z * list Z :=
  match st with
  | Sending frame sent =>
      if negb (Z.land revents (Z.lor POLLERR POLLHUP) =? 0) || ((sent =? 0)%nat && rdy_connect_error io)
      then ([], [])
      else match rdy_write io with Takes n => (take n (drop sent frame), []) | _ => ([], []) end
  | Receiving _ => match rdy_read io with ReadBytes chunk => ([], chunk) | _ => ([], []) end
  | Connecting => ([], [])
  end.

(** Readiness after readiness until the transaction reports an event; the
    third and fourth results are all bytes written and read. *)
Fixpoint serve (u : Upstream) (tx : Txid) (accepts : list Z -> bool) (evs : list (Z * Ready))
  : Upstream * option Event * list Z * list Z :=
  match evs with
  | [] => (u, None, [], [])
  | (revents, io) :: evs =>
      let '(w, r) := match up_tcp u !! tx with
                     | Some t => tcp_moved (tcp_state t) revents io
                     | None => ([], [])
                     end in
      match upstream_service u tx revents accepts io with
      | (u, Some e) => (u, Some e, w, r)
      | (u, None) => let '(u, e, ws, rs) := serve u tx accepts evs in (u, e, w ++ ws, r ++ rs)
      end
  end.

Definition reads_ok (evs : list (Z * Ready)) : Prop :=
  Forall (fun ev => match rdy_read ev.2 with ReadBytes chunk => bytes_ok chunk | _ => True end) evs.

(** What a transaction has reported once it has read [R]. *)
Definition reported (accepts : list Z -> bool) (R : list Z) (e : option Event) : Prop :=
  exists ms rest, R = stream_of ms ++ rest /\ Forall fits ms /\ incomplete rest /\
    find accepts ms = match e with Some (Received m) => Some m | _ => None end.

(** The transaction [tx] of [u] is on its stream in state [st]. *)
Definition on_stream (u : Upstream) (tx : Txid) (fd : Z) (st : TcpState) : Prop :=
  up_udp u !! tx = None /\ up_tcp u !! tx = Some (mkTcp fd st).

Lemma service_on_stream u tx fd st revents accepts io :
  on_stream u tx fd st ->
  upstream_service u tx revents accepts io =
    match tcp_step accepts st revents io with
    | (e, Some st) => (mkUpstream (up_udp u) (<[tx := mkTcp fd st]> (up_tcp u)), e)
    | (e, None) => (drop_tcp tx u, e)
    end.
Proof. intros [H1 H2]. unfold upstream_service. by rewrite H1, H2. Qed.

Lemma find_app_none {A} (f : A -> bool) xs ys : find f xs = None -> find f (xs ++ ys) = find f ys.
Proof. induction xs as [|x xs IH]; simpl; [done|]. by destruct (f x). Qed.

(** What [receive] reports, for a buffer that is the rest of what was read. *)
Lemma receive_spec accepts ms buf rd :
  find accepts ms = None -> Forall fits ms -> incomplete buf -> bytes_ok buf ->
  match rd with ReadBytes chunk => bytes_ok chunk | _ => True end ->
  let R := stream_of ms ++ buf ++ match rd with ReadBytes chunk => chunk | _ => [] end in
  match receive accepts buf rd with
  | inl e => reported accepts R (Some e)
  | inr buf' => exists ms', R = stream_of ms' ++ buf' /\ Forall fits ms' /\ incomplete buf' /\
      bytes_ok buf' /\ find accepts ms' = None
  end.
Proof.
  intros Hf Hms Hi Hb Hc. unfold receive, drain. rewrite drain_incomplete by done.
  destruct rd as [|chunk| | |]; cbn zeta; rewrite ?app_nil_r; try (by exists ms, buf); try (by exists ms).
  assert (bytes_ok (buf ++ chunk)) as Hbc by (by apply bytes_ok_app).
  destruct (stream_splits (buf ++ chunk)) as (ms2 & rest & Heq & Hms2 & Hr); [done|].
  rewrite Heq. change (drain_frames _ accepts _) with (drain accepts (stream_of ms2 ++ rest)).
  rewrite drain_whole by done.
  assert (stream_of ms ++ stream_of ms2 ++ rest = stream_of (ms ++ ms2) ++ rest) as ->.
  { by rewrite stream_of_app, app_assoc. }
  destruct (find accepts ms2) as [m|] eqn:Hfind.
  - exists (ms ++ ms2), rest. split_and!; [done|by apply Forall_app|done|].
    by rewrite find_app_none.
  - exists (ms ++ ms2). split_and!; [done|by apply Forall_app|done| |by rewrite find_app_none].
    rewrite Heq in Hbc. by apply bytes_ok_app in Hbc as [_ ?].
Qed.

(** A run leaves every other transaction alone and keeps this one's stream
    exactly while it has nothing to report. *)
Definition run_frame (tx : Txid) (u u' : Upstream) (e : option Event) : Prop :=
  up_udp u' = up_udp u /\ delete tx (up_tcp u') = delete tx (up_tcp u) /\
  (e = None <-> is_Some (up_tcp u' !! tx)).

Lemma run_frame_set tx fd st u u' e :
  run_frame tx (mkUpstream (up_udp u) (<[tx := mkTcp fd st]> (up_tcp u))) u' e -> run_frame tx u u' e.
Proof. intros (H1 & H2 & H3). split_and!; [done| |done]. by rewrite H2; simpl; rewrite delete_insert_eq. Qed.

Lemma run_frame_drop tx u e : run_frame tx u (drop_tcp tx u) (Some e).
Proof. split_and!; [done|by simpl; rewrite delete_delete_eq|]. simpl. rewrite lookup_delete_eq. by split; [|intros [? ?]]. Qed.

Lemma run_frame_nothing tx fd st u : on_stream u tx fd st -> run_frame tx u u None.
Proof. intros [H1 H2]. split_and!; [done..|]. by rewrite H2. Qed.

Lemma on_stream_set tx fd st st' u :
  on_stream u tx fd st -> on_stream (mkUpstream (up_udp u) (<[tx := mkTcp fd st']> (up_tcp u))) tx fd st'.
Proof. intros [H1 H2]. split; [done|]. simpl. by rewrite lookup_insert_eq. Qed.

Lemma serve_receiving accepts tx fd evs : forall u ms buf u' e W R,
  reads_ok evs -> on_stream u tx fd (Receiving buf) ->
  find accepts ms = None -> Forall fits ms -> incomplete buf -> bytes_ok buf ->
  serve u tx accepts evs = (u', e, W, R) ->
  W = [] /\ reported accepts (stream_of ms ++ buf ++ R) e /\ run_frame tx u u' e.
Proof.
  induction evs as [|[revents io] evs IH]; intros u ms buf u' e W R Hok Hon Hf Hms Hi Hb; cbn [serve].
  { intros [= <- <- <- <-]. rewrite app_nil_r. split_and!; [done|by exists ms, buf|by eapply run_frame_nothing]. }
  apply Forall_cons in Hok as [Hio Hok]. cbn [snd] in Hio.
  rewrite (service_on_stream _ _ _ _ _ _ _ Hon), (proj2 Hon). cbn [tcp_state tcp_moved].
  unfold tcp_step. rewrite andb_false_r.
  pose proof (receive_spec accepts ms buf (rdy_read io) Hf Hms Hi Hb Hio) as Hrec. cbn zeta in Hrec.
  assert (exists w, w = match rdy_read io with ReadBytes chunk => chunk | _ => [] end /\
    match rdy_read io with ReadBytes chunk => ([], chunk) | _ => ([], []) end = (@nil Z, w)) as (w & Hw & ->).
  { destruct (rdy_read io); by eexists. }
  rewrite <- Hw in Hrec. destruct (receive accepts buf (rdy_read io)) as [ev|buf'].
  { intros [= <- <- <- <-]. split_and!; [done|done|apply run_frame_drop]. }
  destruct Hrec as (ms' & Heq & Hms' & Hi' & Hb' & Hf').
  destruct (serve _ _ _ evs) as [[[u2 e2] ws] rs] eqn:Hs. intros [= <- <- <- <-].
  destruct (IH _ ms' buf' _ _ _ _ Hok (on_stream_set _ _ _ _ _ Hon) Hf' Hms' Hi' Hb' Hs) as (-> & Hrep & Hfr).
  split_and!; [done| |by eapply run_frame_set].
  by rewrite (app_assoc buf), app_assoc, Heq, <- app_assoc.
Qed.

Lemma reported_nothing accepts e : (forall m, e <> Some (Received m)) -> reported accepts [] e.
Proof.
  intros He. exists [], []. split_and!; [done|constructor|left; simpl; lia|].
  destruct e as [[m|]|]; try done. by destruct (He m).
Qed.

Lemma serve_sending accepts tx fd frame evs : forall u sent u' e W R,
  reads_ok evs -> (sent < length frame)%nat -> on_stream u tx fd (Sending frame sent) ->
  serve u tx accepts evs = (u', e, W, R) ->
  (W `prefix_of` drop sent frame) /\ (R <> [] -> W = drop sent frame) /\
  reported accepts R e /\ run_frame tx u u' e.
Proof.
  induction evs as [|[revents io] evs IH]; intros u sent u' e W R Hok Hlt Hon; cbn [serve].
  { intros [= <- <- <- <-]. split_and!; [apply prefix_nil|done|by apply reported_nothing|].
    by eapply run_frame_nothing. }
  apply Forall_cons in Hok as [Hio Hok].
  rewrite (service_on_stream _ _ _ _ _ _ _ Hon), (proj2 Hon). cbn [tcp_state].
  unfold tcp_step, tcp_moved, tcp_send_step. rewrite andb_true_r.
  assert (forall ev, ev = Failed -> ([] `prefix_of` drop sent frame) /\ (@nil Z <> [] -> [] = drop sent frame) /\
    reported accepts [] (Some ev) /\ run_frame tx u (drop_tcp tx u) (Some ev)) as Hfail.
  { intros ? ->. split_and!; [apply prefix_nil|done|by apply reported_nothing|apply run_frame_drop]. }
  destruct (negb _); cbn [orb]; [intros [= <- <- <- <-]; by apply Hfail|].
  destruct ((sent =? 0)%nat && _); [intros [= <- <- <- <-]; by apply Hfail|].
  destruct (rdy_write io) as [n| | |]; try (intros [= <- <- <- <-]; by apply Hfail).
  2: { destruct (serve _ _ _ evs) as [[[u2 e2] ws] rs] eqn:Hs. intros [= <- <- <- <-].
       destruct (IH _ _ _ _ _ _ Hok Hlt (on_stream_set _ _ _ _ _ Hon) Hs) as (? & ? & ? & ?).
       split_and!; try done. by eapply run_frame_set. }
  set (k := (n `min` (length frame - sent))%nat).
  assert (take n (drop sent frame) = take k (drop sent frame)) as ->.
  { unfold k. rewrite <- length_drop. destruct (Nat.min_spec n (length (drop sent frame))) as [[? ->]|[? ->]]; [done|].
    by rewrite firstn_all, take_ge. }
  destruct (Nat.eqb_spec (sent + k) (length frame)) as [Hd|Hd];
    destruct (serve _ _ _ evs) as [[[u2 e2] ws] rs] eqn:Hs; intros [= <- <- <- <-].
  - apply (serve_receiving accepts tx fd evs _ [] []) in Hs as (-> & Hrep & Hfr);
      [|done|by eapply on_stream_set|done|constructor|left; simpl; lia|constructor].
    rewrite app_nil_r, take_ge by (rewrite length_drop; lia).
    split_and!; [done|done|done|by eapply run_frame_set].
  - destruct (IH _ (sent + k)%nat _ _ _ _ Hok ltac:(lia) (on_stream_set _ _ _ _ _ Hon) Hs) as ([x Hx] & Hall & Hrep & Hfr).
    split_and!; [| |done|by eapply run_frame_set].
    + exists x. rewrite <- app_assoc, <- Hx, <- drop_drop. by rewrite take_drop.
    + intros Hr. rewrite (Hall Hr), <- drop_drop. by rewrite take_drop.
Qed.

(** ** Datagrams *)

(** What a UDP transaction says of one readiness. *)
Definition udp_verdict (accepts : list Z -> bool) (ev : Z * Ready) : option Event :=
  match rdy_recv ev.2 with
  | RecvBytes bytes => if accepts bytes then Some (Received bytes) else None
  | RecvWouldBlock => None
  | RecvError => Some Failed
  end.

Lemma serve_udp accepts tx fd evs : forall u u' e W R,
  up_udp u !! tx = Some fd -> up_tcp u !! tx = None -> serve u tx accepts evs = (u', e, W, R) ->
  e = head (omap (udp_verdict accepts) evs) /\ cancel tx u' = cancel tx u /\ up_tcp u' !! tx = None /\
  (e = None <-> is_Some (up_udp u' !! tx)).
Proof.
  induction evs as [|[revents io] evs IH]; intros u u' e W R Hu Ht; cbn [serve].
  { intros [= <- <- <- <-]. split_and!; [done..|]. by rewrite Hu. }
  rewrite Ht. unfold upstream_service. rewrite Hu. cbn [omap list_omap].
  assert (forall ev : Event, Some ev = Some ev /\ cancel tx (drop_udp tx u) = cancel tx u /\
    up_tcp (drop_udp tx u) !! tx = None /\ (Some ev = None <-> is_Some (up_udp (drop_udp tx u) !! tx))) as Hdone.
  { intros ev. unfold cancel, drop_udp. simpl. rewrite delete_delete_eq, lookup_delete_eq.
    split_and!; [done..|]. split; [done|]. by intros [? ?]. }
  assert (forall x : Upstream * option Event * list Z * list Z,
    (let '(u2, e2, ws, rs) := serve u tx accepts evs in (u2, e2, [] ++ ws, [] ++ rs)) = x ->
    serve u tx accepts evs = x) as Hrest.
  { intros x <-. by destruct (serve u tx accepts evs) as [[[? ?] ?] ?]. }
  unfold udp_verdict at 1. cbn [snd]. destruct (rdy_recv io) as [bytes| |].
  - destruct (accepts bytes); [intros [= <- <- <- <-]; apply Hdone|].
    intros Hs%Hrest. by eapply IH.
  - intros Hs%Hrest. by eapply IH.
  - intros [= <- <- <- <-]. apply Hdone.
Qed.

Lemma cancel_insert_udp tx fd u : up_udp u !! tx = None ->
  cancel tx (mkUpstream (<[tx := fd]> (up_udp u)) (up_tcp u)) = cancel tx u.
Proof. intros. unfold cancel. simpl. by rewrite delete_insert_eq. Qed.

(** ** Properties *)

(** C29. A transaction's exchange with its server.  Over TCP, whatever the
    cuts of the network, the server gets a prefix of the length-prefixed query
    and nothing is read before it got all of it; the bytes read are a sequence
    of messages and an incomplete rest, and the transaction reports the first
    message its caller accepts, or still waits or has failed when there is
    none among them.  Over UDP it reports the first accepted datagram unless
    an error comes first.  The socket lives exactly until the report, and no
    other transaction is touched. *)
Theorem upstream_exchange if_nametoindex u tx server interface tcp payload fd u1 accepts evs u' e W R :
  up_udp u !! tx = None -> up_tcp u !! tx = None -> reads_ok evs ->
  upstream_send if_nametoindex u tx server interface tcp payload (Ok fd) = (u1, Ok ()) ->
  serve u1 tx accepts evs = (u', e, W, R) ->
  (if tcp then
     (W `prefix_of` query_frame payload) /\ (R <> [] -> W = query_frame payload) /\ reported accepts R e
   else e = head (omap (udp_verdict accepts) evs)) /\
  (e = None <-> is_Some (up_udp u' !! tx) \/ is_Some (up_tcp u' !! tx)) /\
  cancel tx u' = cancel tx u.
Proof.
  intros Hu Ht Hok Hsend Hs. unfold upstream_send in Hsend.
  destruct (server_address _ _ _); [|done]. destruct tcp; injection Hsend as <-.
  - apply serve_sending with (fd := fd) (frame := query_frame payload) (sent := 0%nat) in Hs
      as (? & ? & ? & Hudp & Htcp & Hlive);
      [|done|rewrite query_frame_framed, length_framed; simpl; lia|by split; [|simpl; rewrite lookup_insert_eq]].
    split_and!; [done..| |].
    + rewrite Hlive, Hudp. simpl. rewrite Hu. split; [by right|by intros [[? ?]|]].
    + unfold cancel. rewrite Hudp, Htcp. simpl. by rewrite delete_insert_eq.
  - apply serve_udp with (fd := fd) in Hs as (? & Hc & Hnone & Hlive);
      [|by simpl; rewrite lookup_insert_eq|done].
    split_and!; [done| |].
    + rewrite Hlive, Hnone. split; [by left|by intros [|[? ?]]].
    + rewrite Hc. by apply cancel_insert_udp.
Qed.

Definition silent : Ready := mkReady RecvWouldBlock false WriteWouldBlock ReadWouldBlock.
Definition takes (n : nat) : Z * Ready := (POLLOUT, mkReady RecvWouldBlock false (Takes n) ReadWouldBlock).
Definition gets (bs : list Z) : Z * Ready := (POLLIN, mkReady RecvWouldBlock false WriteWouldBlock (ReadBytes bs)).

Lemma upstream_exchange_witness :
  (serve (upstream_send (fun _ => 0) Upstream_new 7 LOCALHOST_V4 None true [5; 6] (Ok 3)).1 7
     (fun m => bool_decide (m = [9])) [takes 3; takes 3; gets [0; 1; 8; 0]; (0, silent); gets [1; 9]]).1.1.2
    = Some (Received [9]) /\
  reported (fun m => bool_decide (m = [9])) ([0; 1; 8; 0] ++ [1; 9]) (Some (Received [9])).
Proof.
  split; [reflexivity|].
  apply (upstream_exchange (fun _ => 0) Upstream_new 7 LOCALHOST_V4 None true [5; 6] 3
    (upstream_send (fun _ => 0) Upstream_new 7 LOCALHOST_V4 None true [5; 6] (Ok 3)).1
    (fun m => bool_decide (m = [9])) [takes 3; takes 3; gets [0; 1; 8; 0]; (0, silent); gets [1; 9]]
    Upstream_new (Some (Received [9])) (query_frame [5; 6]) ([0; 1; 8; 0] ++ [1; 9]));
    [reflexivity|reflexivity| |reflexivity|reflexivity].
  repeat constructor; try done; by_decide.
Defined.
