(* ===== verification/Control.v ===== *)
(** * The native door (resolvd/src/control.rs)

    One request per connection: a connection that has not yet sent all of it,
    and the framing of replies.  What the kernel's
    access check says of a peer is an argument of the code that asks. *)

From S2P Require Import Prelude Net Names Cache EngineState Io IpText Msgpack MsgpackProofs NativeWire NativeWireProofs NativeWireProps.
Local Open Scope Z_scope.

Definition CLIENT_TIMEOUT : Z := from_secs 5.

(** ** Texts of wire errors *)

Definition MError_to_string (e : MError) : Str :=
  match e with
  | MTruncated => bytes_of "truncated message"
  | MType => bytes_of "unexpected value type"
  | MUnsupported => bytes_of "unsupported value type"
  | MUtf8 => bytes_of "string is not UTF-8"
  | MDepth => bytes_of "nested too deeply"
  end.

(** [debug] is the standard library's quoted form of a string, [io] its text
    for an I/O error. *)
Class Texts : Type := mkTexts { debug : Str -> Str; io_text : IoError -> Str }.

Definition WireError_to_string `{Texts} (e : WireError) : Str :=
  match e with
  | Encoding e => bytes_of "malformed message: " ++ MError_to_string e
  | Missing k => bytes_of "missing or malformed field " ++ k
  | Duplicate k => bytes_of "duplicate field " ++ k
  | UnknownQuery q => bytes_of "unknown query " ++ debug q
  | TooLarge n => bytes_of "message of " ++ fmt_dec n ++ bytes_of " bytes exceeds the ceiling"
  | WireIo e => io_text e
  end.

(** ** Connections *)

Record Client : Type := mkClient { cl_stream : Z; cl_buf : list Z; cl_since : Z }.

Inductive Progress : Type :=
| Incomplete
| PRequest (r : Request)
| PReply (r : Reply)
| Closed.

(** [nonblocking] is whether the stream could be made so. *)
Definition Client_new (stream : Z) (nonblocking : bool) (now : Z) : option Client :=
  if nonblocking then Some (mkClient stream [] now) else None.

Definition decode_request `{Texts} (payload : list Z) : Progress :=
  match Request_decode payload with
  | Ok r => PRequest r
  | Err e => PReply (RError (WireError_to_string e))
  end.

(** The header first, then only the declared payload: the result, the buffer,
    and what the stream has yet to yield. *)
Fixpoint read_request_loop `{Texts} (fuel : nat) (buf : list Z) (rs : list ReadTcp)
  : Progress * list Z * list ReadTcp :=
  match fuel with
  | O => (Incomplete, buf, rs)
  | S fuel =>
      let read_to (target : nat) :=
        match read_some (4096 `min` (target - length buf)) rs with
        | (ReadEof, rs) | (ReadError, rs) => (Closed, buf, rs)
        | (ReadBytes chunk, rs) => read_request_loop fuel (buf ++ chunk) rs
        | (ReadWouldBlock, rs) => (Incomplete, buf, rs)
        | (ReadInterrupted, rs) => read_request_loop fuel buf rs
        end in
      if (length buf <? 4)%nat then read_to 4%nat
      else
        let len := from_le (take 4 buf) in
        if MAX_MESSAGE_BYTES <? len then (PReply (RError (bytes_of "request too large")), buf, rs)
        else if (length buf =? 4 + Z.to_nat len)%nat then (decode_request (drop 4 buf), buf, rs)
        else read_to (4 + Z.to_nat len)%nat
  end.

Definition Client_read `{Texts} (c : Client) (rs : list ReadTcp) : Progress * Client :=
  let '(p, buf, _) := read_request_loop (S (reads_weight rs)) (cl_buf c) rs in
  (p, mkClient (cl_stream c) buf (cl_since c)).

(** An oversized reply is replaced. *)
Definition response_payload (reply : Reply) : list Z :=
  let bytes := Reply_encode reply in
  if MAX_MESSAGE_BYTES <? Z.of_nat (length bytes) then Reply_encode (RError (bytes_of "reply too large"))
  else bytes.

Definition response_frame (reply : Reply) : list Z :=
  let bytes := response_payload reply in
  le_bytes 4 (wrap 32 (Z.of_nat (length bytes))) ++ bytes.

(** ** Reading a request *)

(** What a client that has not finished asking has sent: a start of the header,
    or a start of the frame a header within the limit announces. *)
Definition request_buf (buf : list Z) : Prop :=
  (length buf <= 4)%nat \/
  from_le (take 4 buf) <= MAX_MESSAGE_BYTES /\ (length buf <= 4 + Z.to_nat (from_le (take 4 buf)))%nat.

Lemma request_buf_bound buf : request_buf buf -> Z.of_nat (length buf) <= 65540.
Proof. unfold request_buf, MAX_MESSAGE_BYTES. intros [?|[? ?]]; lia. Qed.

Lemma read_some_room room rs chunk rs' : read_some room rs = (ReadBytes chunk, rs') -> (length chunk <= room)%nat.
Proof.
  destruct rs as [|[|[|x c]| | |] rs]; cbn [read_some]; try done. intros [= <- _]. rewrite length_take. lia.
Qed.

Lemma read_request_buf `{Texts} fuel : forall buf rs,
  request_buf buf -> request_buf (read_request_loop fuel buf rs).1.2.
Proof.
  induction fuel as [|fuel IH]; intros buf rs Hb; cbn [read_request_loop]; [done|].
  assert (forall target, (forall chunk, (length (buf ++ chunk) <= target)%nat -> request_buf (buf ++ chunk)) ->
    (length buf <= target)%nat ->
    request_buf (match read_some (4096 `min` (target - length buf)) rs with
                 | (ReadEof, rs) | (ReadError, rs) => (Closed, buf, rs)
                 | (ReadBytes chunk, rs) => read_request_loop fuel (buf ++ chunk) rs
                 | (ReadWouldBlock, rs) => (Incomplete, buf, rs)
                 | (ReadInterrupted, rs) => read_request_loop fuel buf rs
                 end).1.2) as Hread.
  { intros target Ht Hl. destruct (read_some _ rs) as [[| chunk| | |] rs'] eqn:E; try done; [|by apply IH].
    apply read_some_room in E. apply IH, Ht. rewrite length_app. lia. }
  destruct (Nat.ltb_spec (length buf) 4) as [Hlt|Hge].
  - apply Hread; [|lia]. intros chunk Hc. by left.
  - destruct (Z.ltb_spec MAX_MESSAGE_BYTES (from_le (take 4 buf))) as [|Hm]; [done|].
    destruct (_ =? _)%nat; [done|]. apply Hread.
    + intros chunk Hc. right. rewrite take_app_le by lia. done.
    + destruct Hb as [?|[_ ?]]; lia.
Qed.

Section reading.
Context `{Texts}.

Definition small (payload : list Z) : Prop := Z.of_nat (length payload) <= MAX_MESSAGE_BYTES.

Definition frame_of (payload : list Z) : list Z := le_bytes 4 (Z.of_nat (length payload)) ++ payload.

Lemma length_frame_of payload : length (frame_of payload) = (4 + length payload)%nat.
Proof. unfold frame_of. by rewrite length_app, length_le_bytes. Qed.

Lemma frame_header payload : small payload -> from_le (take 4 (frame_of payload)) = Z.of_nat (length payload).
Proof.
  intros Hs. unfold frame_of. rewrite take_app_length' by (by rewrite length_le_bytes).
  apply le_roundtrip. unfold small, MAX_MESSAGE_BYTES, in_width in *. simpl. lia.
Qed.

(** One read towards a target that is not reached. *)
Lemma read_to_steady fuel buf target rs tail :
  (length buf < target)%nat -> Forall steady rs -> rs <> [] ->
  exists chunk rs',
    match read_some (4096 `min` (target - length buf)) (rs ++ tail) with
    | (ReadEof, rs) | (ReadError, rs) => (Closed, buf, rs)
    | (ReadBytes chunk, rs) => read_request_loop fuel (buf ++ chunk) rs
    | (ReadWouldBlock, rs) => (Incomplete, buf, rs)
    | (ReadInterrupted, rs) => read_request_loop fuel buf rs
    end = read_request_loop fuel (buf ++ chunk) (rs' ++ tail) /\
    (length (buf ++ chunk) <= target)%nat /\ chunk ++ arrived rs' = arrived rs /\
    Forall steady rs' /\ (reads_weight rs' < reads_weight rs)%nat.
Proof.
  intros Ht Hok Hrs.
  destruct (read_some_steady (4096 `min` (target - length buf))%nat rs tail) as
    (chunk & rs' & [[-> _]|[-> ->]] & Hl & Ha & Hok' & Hw); [lia|done|done| |].
  - exists chunk, rs'. split_and!; try done. rewrite length_app. lia.
  - exists [], rs'. rewrite app_nil_r. split_and!; try done. lia.
Qed.

(** One round of the loop on a stretch of a frame that is not all of it. *)
Lemma read_loop_step fuel buf x payload rs tail :
  small payload -> buf ++ x = frame_of payload -> x <> [] -> Forall steady rs -> rs <> [] ->
  exists chunk rs', read_request_loop (S fuel) buf (rs ++ tail) = read_request_loop fuel (buf ++ chunk) (rs' ++ tail) /\
    (length (buf ++ chunk) <= length (frame_of payload))%nat /\ chunk ++ arrived rs' = arrived rs /\
    Forall steady rs' /\ (reads_weight rs' < reads_weight rs)%nat.
Proof.
  intros Hs Hx Hne Hok Hrs.
  assert (length (frame_of payload) = (length buf + length x)%nat) as Hlen by (by rewrite <- Hx, length_app).
  assert (1 <= length x)%nat as Hx1 by (destruct x; [done|simpl; lia]).
  cbn [read_request_loop]. rewrite length_frame_of in *.
  destruct (Nat.ltb_spec (length buf) 4) as [H4|H4].
  { destruct (read_to_steady fuel buf 4 rs tail H4 Hok Hrs) as (c & rs' & ? & ? & ?).
    exists c, rs'. split_and!; [done|lia|tauto..]. }
  assert (take 4 buf = take 4 (frame_of payload)) as -> by (by rewrite <- Hx, take_app_le by lia).
  rewrite frame_header, Nat2Z.id by done.
  destruct (Z.ltb_spec MAX_MESSAGE_BYTES (Z.of_nat (length payload))); [unfold small in *; lia|].
  destruct (Nat.eqb_spec (length buf) (4 + length payload)); [lia|].
  apply read_to_steady; [lia|done|done].
Qed.

(** A header that announces too much is the last thing read. *)
Lemma read_loop_oversize n rest tail : MAX_MESSAGE_BYTES < n < 2 ^ 32 ->
  forall fuel buf rs, (length buf <= 4)%nat -> Forall steady rs -> (reads_weight rs < fuel)%nat ->
  buf ++ arrived rs = le_bytes 4 n ++ rest ->
  (read_request_loop fuel buf (rs ++ tail)).1 = (PReply (RError (bytes_of "request too large")), le_bytes 4 n).
Proof.
  intros Hn. induction fuel as [|fuel IH]; intros buf rs H4 Hok Hf Ha; [lia|]. cbn [read_request_loop].
  destruct (Nat.ltb_spec (length buf) 4) as [Hl|Hl].
  - assert (rs <> []) as Hrs.
    { intros ->. change (arrived []) with (@nil Z) in Ha. apply (f_equal length) in Ha.
      rewrite !length_app, length_le_bytes in Ha. cbn [length] in Ha. lia. }
    destruct (read_to_steady fuel buf 4 rs tail Hl Hok Hrs) as (c & rs' & -> & Hl' & Hc & Hok' & Hw).
    apply IH; [done|done|lia|]. by rewrite <- app_assoc, Hc.
  - assert (buf = le_bytes 4 n) as ->.
    { apply (f_equal (take 4)) in Ha.
      rewrite !take_app_length' in Ha by (rewrite ?length_le_bytes; lia). done. }
    rewrite take_ge by (by rewrite length_le_bytes).
    rewrite le_roundtrip by (unfold in_width, MAX_MESSAGE_BYTES in *; simpl; lia).
    by destruct (Z.ltb_spec MAX_MESSAGE_BYTES n); [|lia].
Qed.

Lemma read_request_done fuel payload rs :
  small payload -> read_request_loop (S fuel) (frame_of payload) rs = (decode_request payload, frame_of payload, rs).
Proof.
  intros Hs. cbn [read_request_loop]. rewrite length_frame_of, frame_header, Nat2Z.id, Nat.eqb_refl by done.
  destruct (Nat.ltb_spec (4 + length payload) 4); [lia|].
  destruct (Z.ltb_spec MAX_MESSAGE_BYTES (Z.of_nat (length payload))); [unfold small in *; lia|].
  unfold frame_of at 1. by rewrite drop_app_length' by (by rewrite length_le_bytes).
Qed.

(** The whole frame, from any stretch of it that was read before. *)
Lemma read_loop_frame payload rest tail : small payload ->
  forall fuel buf x rs, buf ++ x = frame_of payload -> Forall steady rs -> (reads_weight rs < fuel)%nat ->
  buf ++ arrived rs = frame_of payload ++ rest ->
  exists rs', read_request_loop fuel buf (rs ++ tail) = (decode_request payload, frame_of payload, rs' ++ tail) /\
    arrived rs' = rest.
Proof.
  intros Hs. induction fuel as [|fuel IH]; intros buf x rs Hx Hok Hf Ha; [lia|].
  destruct (decide (x = [])) as [->|Hne].
  { rewrite app_nil_r in Hx. subst buf. exists rs. split; [by apply read_request_done|]. by apply app_inv_head in Ha. }
  assert (rs <> []) as Hrs.
  { intros ->. change (arrived []) with (@nil Z) in Ha. rewrite app_nil_r in Ha.
    apply (f_equal length) in Hx, Ha. rewrite length_app in Hx, Ha. destruct x; [done|cbn [length] in Hx; lia]. }
  destruct (read_loop_step fuel buf x payload rs tail Hs Hx Hne Hok Hrs) as (c & rs' & -> & Hl & Hc & Hok' & Hw).
  apply (IH _ (drop (length c) x) rs'); [|done|lia|by rewrite <- app_assoc, Hc].
  rewrite <- Hc, <- Hx, !app_assoc in Ha.
  assert (c = take (length c) x) as Hcx.
  { rewrite <- !app_assoc in Ha. apply app_inv_head in Ha.
    rewrite <- Hx, !length_app in Hl. apply (f_equal (take (length c))) in Ha.
    by rewrite take_app_length, take_app_le in Ha by lia. }
  rewrite <- app_assoc, <- Hx. f_equal. rewrite Hcx at 1. apply take_drop.
Qed.

(** A stretch of a frame that is not all of it is kept. *)
Lemma read_loop_partial payload : small payload ->
  forall fuel buf x rs, buf ++ arrived rs ++ x = frame_of payload -> x <> [] -> Forall steady rs ->
  (reads_weight rs < fuel)%nat -> read_request_loop fuel buf rs = (Incomplete, buf ++ arrived rs, []).
Proof.
  intros Hs. induction fuel as [|fuel IH]; intros buf x rs Hx Hne Hok Hf; [lia|].
  destruct (decide (rs = [])) as [->|Hrs].
  - simpl in Hx. simpl arrived. rewrite app_nil_r.
    assert (1 <= length x)%nat by (destruct x; [done|simpl; lia]).
    assert (length buf + length x = 4 + length payload)%nat by (by rewrite <- length_app, Hx, length_frame_of).
    cbn [read_request_loop]. destruct (Nat.ltb_spec (length buf) 4) as [H4|H4]; [done|].
    assert (take 4 buf = take 4 (frame_of payload)) as -> by (by rewrite <- Hx, take_app_le by lia).
    rewrite frame_header, Nat2Z.id by done.
    destruct (Z.ltb_spec MAX_MESSAGE_BYTES (Z.of_nat (length payload))); [unfold small in *; lia|].
    by destruct (Nat.eqb_spec (length buf) (4 + length payload)); [lia|].
  - assert (arrived rs ++ x <> []) as Hn by (destruct (arrived rs); [done|done]).
    destruct (read_loop_step fuel buf (arrived rs ++ x) payload rs [] Hs Hx Hn Hok Hrs) as
      (c & rs' & Heq & _ & Hc & Hok' & Hw).
    rewrite !app_nil_r in Heq. rewrite Heq, (IH (buf ++ c) x rs'); [|by rewrite <- app_assoc, (app_assoc c), Hc|done|done|lia].
    by rewrite <- app_assoc, Hc.
Qed.

Lemma reads_weight_app rs tail : reads_weight (rs ++ tail) = (reads_weight rs + reads_weight tail)%nat.
Proof. induction rs as [|r rs IH]; [done|]. cbn [app]. rewrite !reads_weight_cons. lia. Qed.

(** The native door reads exactly one request.  However a connection's
    bytes arrive, in stretches, with interruptions and over several events: a
    whole frame is handed up as the request it holds (or the text of its
    decoding error) and no byte after it is taken; a part of a frame is kept
    as it is; a header above the ceiling is refused once its four bytes are
    there, with nothing more read. *)
Theorem native_request_read c payload x rs tail rest n :
  small payload -> Forall steady rs -> cl_buf c ++ x = frame_of payload -> MAX_MESSAGE_BYTES < n < 2 ^ 32 ->
  (cl_buf c ++ arrived rs = frame_of payload ++ rest ->
   Client_read c (rs ++ tail) =
     (decode_request payload, mkClient (cl_stream c) (frame_of payload) (cl_since c))) /\
  (forall y, cl_buf c ++ arrived rs ++ y = frame_of payload -> y <> [] ->
   Client_read c rs = (Incomplete, mkClient (cl_stream c) (cl_buf c ++ arrived rs) (cl_since c))) /\
  ((length (cl_buf c) <= 4)%nat -> cl_buf c ++ arrived rs = le_bytes 4 n ++ rest ->
   Client_read c (rs ++ tail) =
     (PReply (RError (bytes_of "request too large")), mkClient (cl_stream c) (le_bytes 4 n) (cl_since c))).
Proof.
  intros Hs Hok Hx Hn. unfold Client_read. split_and!.
  - intros Ha. edestruct (read_loop_frame payload rest tail Hs (S (reads_weight (rs ++ tail)))
      (cl_buf c) x rs) as (rs' & -> & _); try done. rewrite reads_weight_app. lia.
  - intros y Hy Hne. by erewrite (read_loop_partial payload Hs _ _ y) by (done || lia).
  - intros Hl Ha.
    pose proof (read_loop_oversize n rest tail Hn (S (reads_weight (rs ++ tail))) (cl_buf c) rs Hl Hok) as Hr.
    rewrite reads_weight_app in *. specialize (Hr ltac:(lia) Ha).
    by destruct (read_request_loop _ _ _) as [[p b] l]; simplify_eq/=.
Qed.
End reading.

Definition no_texts : Texts := mkTexts (fun s => s) (fun _ => []).

Definition half_client : Client := mkClient 4 (take 3 (frame_of (Request_encode QFlush))) 0.

Lemma native_request_read_witness :
  (Client_read (H := no_texts) half_client
    ([ReadBytes [0]; ReadInterrupted; ReadBytes (Request_encode QFlush ++ [7])] ++ [])).1 = PRequest QFlush.
Proof.
  rewrite (proj1 (native_request_read (H := no_texts) half_client (Request_encode QFlush)
    (drop 3 (frame_of (Request_encode QFlush)))
    [ReadBytes [0]; ReadInterrupted; ReadBytes (Request_encode QFlush ++ [7])] [] [7] 70000
    ltac:(vm_compute; discriminate) ltac:(repeat constructor; done) ltac:(reflexivity)
    ltac:(vm_compute; split; reflexivity))); reflexivity.
Defined.

(** ** Replies *)

Lemma response_payload_small reply : small (response_payload reply).
Proof.
  unfold response_payload, small.
  destruct (Z.ltb_spec MAX_MESSAGE_BYTES (Z.of_nat (length (Reply_encode reply)))); [|done].
  vm_compute. discriminate.
Qed.

Lemma response_frame_eq reply : response_frame reply = frame_of (response_payload reply).
Proof.
  unfold response_frame, frame_of, wrap. rewrite Z.mod_small; [done|].
  pose proof (response_payload_small reply). unfold small, MAX_MESSAGE_BYTES in *. lia.
Qed.

Lemma send_frame_eq payload : small payload -> send_frame payload = Ok (frame_of payload).
Proof.
  unfold small, send_frame, frame_of. intros Hs.
  rewrite (proj2 (Z.ltb_ge MAX_MESSAGE_BYTES _)) by done.
  by rewrite wrap_small by (unfold MAX_MESSAGE_BYTES, in_width in *; lia).
Qed.

Lemma recv_frame payload rest : small payload -> recv (frame_of payload ++ rest) = Ok (payload, rest).
Proof.
  intros Hs. destruct (frame_roundtrip payload rest Hs) as (frame & Hf & Hr).
  rewrite send_frame_eq in Hf by done. by injection Hf as <-.
Qed.

Lemma response_decodes reply : Reply_wf reply ->
  Reply_decode (response_payload reply) =
    Ok (if MAX_MESSAGE_BYTES <? Z.of_nat (length (Reply_encode reply)) then RError (bytes_of "reply too large")
        else reply).
Proof.
  intros Hr. unfold response_payload. destruct (MAX_MESSAGE_BYTES <? _).
  - apply Reply_decode_encode. by_decide.
  - by apply Reply_decode_encode.
Qed.

(** Messages that do not fit are refused at both ends. *)
Lemma oversized_refused n rest payload :
  MAX_MESSAGE_BYTES < n < 2 ^ 32 ->
  recv (le_bytes 4 n ++ rest) = Err (TooLarge n) /\
  (Z.of_nat (length payload) = n -> send_frame payload = Err (TooLarge n)).
Proof.
  intros Hn. split.
  - unfold recv, read_exact. rewrite (proj2 (Nat.leb_le _ _)) by (rewrite !length_app, length_le_bytes; lia).
    cbn [result_bind]. rewrite take_app_length' by (by rewrite length_le_bytes).
    rewrite le_roundtrip by (unfold in_width, MAX_MESSAGE_BYTES in *; simpl; lia).
    by rewrite (proj2 (Z.ltb_lt _ _)) by lia.
  - intros Hp. unfold send_frame. by rewrite Hp, (proj2 (Z.ltb_lt _ _)) by lia.
Qed.

(** C31. A call over the native socket is faithful end to end: the bytes a
    client sends for a request that fits a message are, in whatever stretches
    they arrive, read by the daemon as that very request; the frame the daemon
    answers with decodes at the client to the very reply, status reports
    included, or to the reply-too-large error when it does not fit; an
    oversized message is refused before it is sent and an oversized length
    before its payload is read.  A newer client does not confuse an older
    daemon: fields with unknown keys and any values, anywhere in the map, are
    ignored; a key that comes twice is refused. *)
Theorem call_end_to_end `{Texts} q reply c rs tail rest n xs ys extra k b :
  Request_wf q -> Reply_wf reply -> small (Request_encode q) ->
  cl_buf c = [] -> Forall steady rs -> arrived rs = (call q (response_frame reply ++ rest)).1 ->
  MAX_MESSAGE_BYTES < n < 2 ^ 32 ->
  Request_fields q = xs ++ ys -> unknown_ok request_keys extra -> NoDup (map fst extra) ->
  Z.of_nat (length extra) < 2 ^ 31 -> k ∈ map fst (Request_fields q) -> (1 <= length b)%nat ->
  ((Client_read c (rs ++ tail)).1 = PRequest q /\
   (call q (response_frame reply ++ rest)).2 =
     Ok (if MAX_MESSAGE_BYTES <? Z.of_nat (length (Reply_encode reply)) then RError (bytes_of "reply too large")
         else reply)) /\
  (recv (le_bytes 4 n ++ rest) = Err (TooLarge n) /\
   (forall payload, Z.of_nat (length payload) = n -> send_frame payload = Err (TooLarge n))) /\
  Request_decode (map_wire (xs ++ unknown_wire extra ++ ys)) = Ok q /\
  Request_decode (map_wire (Request_fields q ++ [(k, b)])) = Err (Duplicate k).
Proof.
  intros Hq Hr Hsq Hc Hok Harr Hn Hxy Hex Hnd Hl Hk Hb.
  destruct (request_decoding q xs ys extra k b Hq Hxy Hex Hnd Hl Hk Hb) as (_ & Hun & Hdup).
  split; [|split; [|done]].
  - unfold call in *. rewrite send_frame_eq in * by done. cbn [fst snd] in *. split.
    + unfold Client_read. rewrite Hc.
      destruct (read_loop_frame (Request_encode q) [] tail Hsq (S (reads_weight (rs ++ tail))) [] (frame_of (Request_encode q)) rs)
        as (rs' & -> & _); [done|done|rewrite reads_weight_app; lia|by rewrite app_nil_r|].
      cbn [fst]. unfold decode_request. by rewrite Request_decode_encode.
    + rewrite response_frame_eq, recv_frame by apply response_payload_small. cbn [result_bind].
      by apply response_decodes.
  - split; [by apply (oversized_refused n rest [])|]. intros payload. by apply (oversized_refused n rest payload).
Qed.

Definition sample_status : Reply :=
  RStatus (mkStatusReport (lit "peios") true
    [mkScopeStatus (lit "eth0") [lit "10.0.0.1"] [lit "corp.test"] true false 100 [lit "10.0.0.0/8"] []]
    [lit "9.9.9.9"] 12 (mkWCounters 1 2 3 4 5 6 7)).

Lemma call_end_to_end_witness :
  (call (QReverse (V6 1)) (response_frame sample_status ++ [])).2 = Ok sample_status /\
  Request_decode (map_wire (Request_fields (QReverse (V6 1)) ++ [(lit "address", write_nil [])])) =
    Err (Duplicate (lit "address")).
Proof.
  assert (unknown_ok request_keys [(lit "dnssec", VBool true)]) as Hex.
  { apply Forall_cons_2; [|apply Forall_nil_2]. split_and!; [by_decide|by_decide|done|vm_compute; lia]. }
  destruct (call_end_to_end (H := no_texts) (QReverse (V6 1)) sample_status (mkClient 3 [] 0)
    [ReadBytes (frame_of (Request_encode (QReverse (V6 1))))] [] [] 65537 [] (Request_fields (QReverse (V6 1)))
    [(lit "dnssec", VBool true)] (lit "address") (write_nil [])) as ((_ & Hc) & _ & _ & Hd);
    [by_decide|cbn; split_and!; by_decide|vm_compute; done|reflexivity|repeat constructor; done|reflexivity
    |vm_compute; done|reflexivity|exact Hex|by_decide|vm_compute; done|by_decide|vm_compute; lia|].
  split; [rewrite Hc; reflexivity|exact Hd].
Defined.
