(* ===== verification/Door.v ===== *)
(** * Opening and guarding the native door (resolvd/src/control.rs)

    The listening socket with its directory, the descriptor that lets programs
    reach it, and the control object whose descriptor decides what a peer may
    ask.  Descriptors are the lists of what they allow; the kernel's check is a
    parameter. *)

From S2P Require Import Prelude Net Io IpText NativeWire.
Local Open Scope Z_scope.

(** ** Rights *)

Definition GENERIC_READ : Z := 2147483648.
Definition GENERIC_WRITE : Z := 1073741824.
Definition GENERIC_EXECUTE : Z := 536870912.
Definition GENERIC_ALL : Z := 268435456.
Definition READ_CONTROL : Z := 131072.

Inductive Sid : Type := SidSystem | SidAdministrators | SidEveryone | SidUser (id : Z).

#[export] Instance Sid_eq_dec : EqDecision Sid.
Proof. solve_decision. Defined.

(** What [AclBuilder] collects: whom it allows what, in order. *)
Abbreviation Acl := (list (Sid * Z)).

Definition allow (sid : Sid) (mask : Z) (acl : Acl) : Acl := acl ++ [(sid, mask)].

Record Sd : Type := mkSd { sd_owner : option Sid; sd_group : option Sid; sd_dacl : Acl }.

(** A descriptor taken as it is from the configuration, or one built here. *)
Inductive SecurityDescriptor : Type := Configured (bytes : list Z) | Built (sd : Sd).

(** What a generic right means for an object. *)
Record GenericMapping : Type := mkGenericMapping {
  gm_read : Z; gm_write : Z; gm_execute : Z; gm_all : Z;
}.

(** ** The control object *)

Definition default_dacl : Acl :=
  [] |> allow SidSystem RESOLVER_ALL_ACCESS
     |> allow SidAdministrators RESOLVER_ALL_ACCESS
     |> allow SidEveryone (Z.lor RESOLVER_QUERY READ_CONTROL).

Definition default_sd : SecurityDescriptor := Built (mkSd (Some SidSystem) (Some SidSystem) default_dacl).

Definition mapping : GenericMapping :=
  mkGenericMapping (Z.lor RESOLVER_QUERY READ_CONTROL) (Z.lor RESOLVER_CONTROL READ_CONTROL) RESOLVER_QUERY
    RESOLVER_ALL_ACCESS.

(** The kernel's side of the access check: the token of a stream's peer, and
    whether a descriptor grants it a right; [None] when the check fails. *)
Record AccessCheck : Type := mkAccessCheck {
  open_peer : Z -> option Z;
  check : SecurityDescriptor -> Z -> Z -> GenericMapping -> option bool;
}.

(** A configured descriptor that is valid, or the compiled default. *)
Definition ControlObject_new (valid_descriptor : list Z -> bool) (configured : option (list Z))
  : SecurityDescriptor :=
  match configured with
  | Some bytes => if valid_descriptor bytes then Configured bytes else default_sd
  | None => default_sd
  end.

(** Without a peer token, or when the check itself fails, nothing is granted. *)
Definition permits (access_check : AccessCheck) (sd : SecurityDescriptor) (stream right : Z) : bool :=
  match open_peer access_check stream with
  | None => false
  | Some token => default false (check access_check sd token right mapping)
  end.

(** ** The files of the door *)

Definition DIRECTORY_MODE : Z := 493.
Definition SOCKET_MODE : Z := 438.

Inductive NodeKind : Type := NDirectory | NSocket | NFile.

(** A file, with the access control list last set on it. *)
Record Node : Type := mkNode { n_kind : NodeKind; n_mode : Z; n_dacl : option Acl }.

Abbreviation Files := (gmap Text Node).

Inductive FileError : Type := FNotFound | FOther (errno : Z).

#[export] Instance FileError_eq_dec : EqDecision FileError.
Proof. solve_decision. Defined.

(** What [protect] meets: resolvd's own identity, whether the descriptor
    builds, whether it can be set. *)
Record ProtectIo : Type := mkProtectIo { pr_self : option Z; pr_builds : bool; pr_sets : bool }.

Definition protect_acl (me : option Z) : Acl :=
  let acl := [] |> allow SidSystem GENERIC_ALL in
  let acl := match me with Some me => allow (SidUser me) GENERIC_ALL acl | None => acl end in
  allow SidEveryone (Z.lor (Z.lor GENERIC_READ GENERIC_WRITE) GENERIC_EXECUTE) acl.

Definition set_dacl (path : Text) (acl : Acl) (fs : Files) : Files :=
  alter (fun n => mkNode (n_kind n) (n_mode n) (Some acl)) path fs.

(** The list only; a failure is logged and no more. *)
Definition protect (path : Text) (io : ProtectIo) (fs : Files) : Files :=
  if pr_builds io && pr_sets io then set_dacl path (protect_acl (pr_self io)) fs else fs.

(** The error of each call, if any. *)
Record ListenIo : Type := mkListenIo {
  li_create : option FileError;
  li_new_mode : Z;
  li_dir_mode : option FileError;
  li_dir : ProtectIo;
  li_remove : option FileError;
  li_bind : option FileError;
  li_sock_mode : option FileError;
  li_sock : ProtectIo;
  li_nonblocking : option FileError;
}.

Definition EADDRINUSE : Z := 98.

(** [create_dir_all] of the door's directory: nothing when it is there. *)
Definition create_dir (mode : Z) (path : Text) (fs : Files) : Files :=
  match fs !! path with Some _ => fs | None => <[path := mkNode NDirectory mode None]> fs end.

Definition set_permissions (path : Text) (mode : Z) (fs : Files) : Files :=
  alter (fun n => mkNode (n_kind n) mode (n_dacl n)) path fs.

(** A call that may fail: its error, or the files after it. *)
Definition attempt (e : option FileError) (fs : Files) : result FileError Files :=
  match e with Some e => Err e | None => Ok fs end.

Definition remove_stale (e : option FileError) (fs : Files) : result FileError Files :=
  match e with
  | None => Ok (delete SOCKET_PATH fs)
  | Some FNotFound => Ok fs
  | Some e => Err e
  end.

(** A name that is taken cannot be bound. *)
Definition bind_socket (e : option FileError) (mode : Z) (fs : Files) : result FileError Files :=
  match e, fs !! SOCKET_PATH with
  | Some e, _ => Err e
  | None, Some _ => Err (FOther EADDRINUSE)
  | None, None => Ok (<[SOCKET_PATH := mkNode NSocket mode None]> fs)
  end.

Definition listen (io : ListenIo) (fs : Files) : result FileError Files :=
  let? fs := attempt (li_create io) (create_dir (li_new_mode io) RESOLVD_RUN_DIR fs) in
  let? fs := attempt (li_dir_mode io) (set_permissions RESOLVD_RUN_DIR DIRECTORY_MODE fs) in
  let fs := protect RESOLVD_RUN_DIR (li_dir io) fs in
  let? fs := remove_stale (li_remove io) fs in
  let? fs := bind_socket (li_bind io) (li_new_mode io) fs in
  let? fs := attempt (li_sock_mode io) (set_permissions SOCKET_PATH SOCKET_MODE fs) in
  let fs := protect SOCKET_PATH (li_sock io) fs in
  attempt (li_nonblocking io) fs.

(** ** What the descriptors grant *)

(** The rights a list allows the holder of some identities. *)
Definition allowed (sids : list Sid) (acl : Acl) : Z :=
  fold_right (fun a m => if bool_decide (a.1 ∈ sids) then Z.lor a.2 m else m) 0 acl.

Definition grants (sids : list Sid) (acl : Acl) (right : Z) : bool := Z.land right (allowed sids acl) =? right.

Definition specific (mask : Z) : bool := Z.land mask (Z.lor (Z.lor GENERIC_READ GENERIC_WRITE) (Z.lor GENERIC_EXECUTE GENERIC_ALL)) =? 0.

(** The documented rule for a descriptor that only allows, for the rights of
    the object itself: a token holds what the entries for its identities
    allow together. *)
Class DaclDecides (access_check : AccessCheck) (sids : Z -> list Sid) : Prop :=
  dacl_decides : forall owner group acl token right gm,
    0 <= right < 2 ^ 16 -> forallb (fun a => specific a.2) acl = true ->
    check access_check (Built (mkSd owner group acl)) token right gm = Some (grants (sids token) acl right).

(** Decide the membership of each identity a list names. *)
Ltac by_identity sids :=
  repeat match goal with
  | |- context [bool_decide (?a ∈ sids)] =>
      destruct (decide (a ∈ sids));
      [rewrite (bool_decide_eq_true_2 (a ∈ sids)) by done|rewrite (bool_decide_eq_false_2 (a ∈ sids)) by done]
  end.

Lemma default_grants sids :
  grants sids default_dacl RESOLVER_QUERY =
    bool_decide (SidSystem ∈ sids \/ SidAdministrators ∈ sids \/ SidEveryone ∈ sids) /\
  grants sids default_dacl RESOLVER_CONTROL = bool_decide (SidSystem ∈ sids \/ SidAdministrators ∈ sids).
Proof.
  unfold grants, default_dacl, allow. cbn [app allowed fold_right fst snd].
  by_identity sids; split; symmetry; (apply bool_decide_eq_true_2 || apply bool_decide_eq_false_2); tauto.
Qed.

(** Everyone can reach the door, and resolvd can replace what it left there. *)
Lemma protect_grants me sids :
  (SidEveryone ∈ sids ->
   grants sids (protect_acl me) (Z.lor (Z.lor GENERIC_READ GENERIC_WRITE) GENERIC_EXECUTE) = true) /\
  (SidSystem ∈ sids \/ (exists m, me = Some m /\ SidUser m ∈ sids) -> grants sids (protect_acl me) GENERIC_ALL = true) /\
  (SidSystem ∉ sids -> (forall m, me = Some m -> SidUser m ∉ sids) -> grants sids (protect_acl me) GENERIC_ALL = false).
Proof.
  unfold grants, protect_acl, allow. destruct me as [m|]; cbn [app allowed fold_right fst snd]; by_identity sids;
    split_and!; try done; intros; try (exfalso; naive_solver).
Qed.

(** ** Listening *)

Lemma protect_other path io fs p : p <> path -> protect path io fs !! p = fs !! p.
Proof. intros Hp. unfold protect, set_dacl. case_match; [|done]. by rewrite lookup_alter_ne. Qed.

Lemma protect_same path io fs n : fs !! path = Some n ->
  protect path io fs !! path =
    Some (mkNode (n_kind n) (n_mode n)
      (if pr_builds io && pr_sets io then Some (protect_acl (pr_self io)) else n_dacl n)).
Proof.
  intros Hn. unfold protect, set_dacl. destruct (pr_builds io && pr_sets io); [by rewrite lookup_alter_eq, Hn|].
  by destruct n.
Qed.

Lemma door_paths : RESOLVD_RUN_DIR <> SOCKET_PATH.
Proof. vm_compute. discriminate. Qed.

(** What the open door looks like. *)
Definition door_open (io : ListenIo) (fs fs' : Files) : Prop :=
  (exists n, fs' !! RESOLVD_RUN_DIR = Some n /\ n_mode n = DIRECTORY_MODE /\
     (pr_builds (li_dir io) && pr_sets (li_dir io) = true -> n_dacl n = Some (protect_acl (pr_self (li_dir io))))) /\
  fs' !! SOCKET_PATH = Some (mkNode NSocket SOCKET_MODE
     (if pr_builds (li_sock io) && pr_sets (li_sock io) then Some (protect_acl (pr_self (li_sock io))) else None)) /\
  (forall p, p <> RESOLVD_RUN_DIR -> p <> SOCKET_PATH -> fs' !! p = fs !! p).

Lemma attempt_ok e fs fs' : attempt e fs = Ok fs' -> e = None /\ fs' = fs.
Proof. unfold attempt. destruct e; [done|]. by intros [= <-]. Qed.

(** The directory, before the socket. *)
Lemma directory_ready io fs p :
  let fs1 := protect RESOLVD_RUN_DIR (li_dir io)
    (set_permissions RESOLVD_RUN_DIR DIRECTORY_MODE (create_dir (li_new_mode io) RESOLVD_RUN_DIR fs)) in
  (exists n, fs1 !! RESOLVD_RUN_DIR = Some n /\ n_mode n = DIRECTORY_MODE /\
     (pr_builds (li_dir io) && pr_sets (li_dir io) = true -> n_dacl n = Some (protect_acl (pr_self (li_dir io))))) /\
  (p <> RESOLVD_RUN_DIR -> fs1 !! p = fs !! p).
Proof.
  cbn zeta. set (fs0 := create_dir _ _ fs).
  assert (is_Some (fs0 !! RESOLVD_RUN_DIR)) as [n0 Hn0].
  { unfold fs0, create_dir. destruct (fs !! RESOLVD_RUN_DIR) eqn:E; [by rewrite E|by rewrite lookup_insert_eq]. }
  split.
  - assert (set_permissions RESOLVD_RUN_DIR DIRECTORY_MODE fs0 !! RESOLVD_RUN_DIR =
      Some (mkNode (n_kind n0) DIRECTORY_MODE (n_dacl n0))) as Hn1
      by (unfold set_permissions; by rewrite lookup_alter_eq, Hn0).
    rewrite (protect_same _ _ _ _ Hn1). eexists. split; [done|]. split; [done|]. by intros ->.
  - intros Hp. rewrite protect_other by done. unfold set_permissions. rewrite lookup_alter_ne by done.
    unfold fs0, create_dir. destruct (fs !! RESOLVD_RUN_DIR); [done|]. by rewrite lookup_insert_ne.
Qed.

Lemma listen_opens io fs fs' : listen io fs = Ok fs' -> door_open io fs fs'.
Proof.
  intros H. unfold listen in H. inv_ok H. apply attempt_ok in E as [_ ->], E0 as [_ ->], E3 as [_ ->].
  apply attempt_ok in H as [_ ->]. pose proof (directory_ready io fs) as Hd. cbn zeta in Hd.
  set (fs1 := protect RESOLVD_RUN_DIR _ _) in *.
  assert (forall p, p <> SOCKET_PATH -> a1 !! p = fs1 !! p) as Hr.
  { intros p Hp. unfold remove_stale in E1. destruct (li_remove io) as [[|]|]; simplify_eq; try done.
    by rewrite lookup_delete_ne. }
  assert (a2 = <[SOCKET_PATH := mkNode NSocket (li_new_mode io) None]> a1) as ->.
  { unfold bind_socket in E2. destruct (li_bind io); [done|]. destruct (a1 !! SOCKET_PATH); by simplify_eq. }
  assert (forall p, p <> SOCKET_PATH ->
    protect SOCKET_PATH (li_sock io) (set_permissions SOCKET_PATH SOCKET_MODE
      (<[SOCKET_PATH := mkNode NSocket (li_new_mode io) None]> a1)) !! p = fs1 !! p) as Ho.
  { intros p Hp. rewrite protect_other by done. unfold set_permissions.
    rewrite lookup_alter_ne, lookup_insert_ne by done. by apply Hr. }
  split_and!.
  - rewrite (Ho _ door_paths). apply (Hd RESOLVD_RUN_DIR).
  - erewrite protect_same; [|unfold set_permissions; by rewrite lookup_alter_eq, lookup_insert_eq]. done.
  - intros p Hp Hp'. rewrite (Ho p Hp'). by apply Hd.
Qed.

(** No call fails; removing says nothing was there only when it is so. *)
Definition listen_smooth (io : ListenIo) (fs : Files) : Prop :=
  li_create io = None /\ li_dir_mode io = None /\ li_bind io = None /\ li_sock_mode io = None /\
  li_nonblocking io = None /\
  (li_remove io = None \/ li_remove io = Some FNotFound /\ fs !! SOCKET_PATH = None).

Lemma listen_restarts io fs : listen_smooth io fs -> exists fs', listen io fs = Ok fs'.
Proof.
  intros (H1 & H2 & H3 & H4 & H5 & H6). unfold listen. rewrite H1, H2, H4, H5. cbn [attempt result_bind].
  pose proof (directory_ready io fs SOCKET_PATH) as [_ Hd]. cbn zeta in Hd.
  specialize (Hd (fun E => door_paths (eq_sym E))). set (fs1 := protect RESOLVD_RUN_DIR _ _) in *.
  assert (exists fs2, remove_stale (li_remove io) fs1 = Ok fs2 /\ fs2 !! SOCKET_PATH = None) as (fs2 & -> & Hs).
  { destruct H6 as [->|[-> Hn]]; simpl; eexists; split; try done; [apply lookup_delete_eq|by rewrite Hd]. }
  cbn [result_bind]. unfold bind_socket. rewrite H3, Hs. cbn [result_bind]. eauto.
Qed.


(** An access check that follows the rule. *)
Definition demo_check (sids : Z -> list Sid) : AccessCheck :=
  mkAccessCheck (fun s => if s =? 0 then None else Some s)
    (fun sd token right _ =>
       match sd with Built sd => Some (grants (sids token) (sd_dacl sd) right) | Configured _ => None end).

Definition demo_sids (token : Z) : list Sid :=
  if token =? 1 then [SidUser 1; SidEveryone] else [SidAdministrators; SidEveryone].

Definition demo_listen : ListenIo :=
  mkListenIo None 448 None (mkProtectIo (Some 7) true true) None None None (mkProtectIo (Some 7) true true) None.

