(* ===== verification/Nss.v ===== *)
(** * The NSS module (nss/src/lib.rs, nss/src/buffer.rs)

    The entry points glibc calls.  The caller's memory is a map from addresses
    to bytes, a pointer an address (eight bytes, little-endian), and a null
    pointer zero.  An out-parameter is a cell that is absent when its pointer
    is null.  Asking the daemon is the argument [ask] of the entry points, which
    [nss_ask] gives from what the system calls return. *)

From S2P Require Import Prelude Net Names Cache EngineState Io IpText Msgpack NativeWire.
Local Open Scope Z_scope.

(** ** Memory *)

Definition Mem : Type := gmap Z Z.

Definition mget (m : Mem) (a : Z) : Z := default 0 (m !! a).

Fixpoint mem_write (p : Z) (bs : list Z) (m : Mem) : Mem :=
  match bs with [] => m | b :: bs => mem_write (p + 1) bs (<[p := b]> m) end.

Definition mem_read (m : Mem) (p : Z) (n : nat) : list Z := map (fun i => mget m (p + Z.of_nat i)) (seq 0 n).

Definition ptr_bytes (p : Z) : list Z := le_bytes 8 p.
Definition null : Z := 0.

(** ** Packing into the caller's buffer *)

Record Packer : Type := mkPacker { pk_base : Z; pk_len : Z; pk_used : Z }.

Definition Packer_new (base len : Z) : Packer := mkPacker base len 0.

Definition div_ceil (a b : Z) : Z := (a + b - 1) / b.

Definition offset (pk : Packer) (size align : Z) : option (Z * Packer) :=
  let start := wrap 64 (div_ceil (pk_used pk) align * align) in
  let end_ := start + size in
  if 2 ^ 64 <=? end_ then None
  else if pk_len pk <? end_ then None
  else Some (start, mkPacker (pk_base pk) (pk_len pk) end_).

Definition reserve (pk : Packer) (size align : Z) : option (Z * Packer) :=
  match offset pk size align with
  | Some (at_, pk) => Some (pk_base pk + at_, pk)
  | None => None
  end.

Definition pack_str (pk : Packer) (value : Text) (m : Mem) : option (Z * Packer * Mem) :=
  if existsb (Z.eqb 0) value then None
  else
    match reserve pk (Z.of_nat (length value) + 1) 1 with
    | None => None
    | Some (dst, pk) =>
        let m := mem_write dst value m in
        Some (dst, pk, mem_write (dst + Z.of_nat (length value)) [0] m)
    end.

Definition pack_bytes (pk : Packer) (value : list Z) (align : Z) (m : Mem) : option (Z * Packer * Mem) :=
  match reserve pk (Z.of_nat (length value)) align with
  | None => None
  | Some (dst, pk) => Some (dst, pk, mem_write dst value m)
  end.

Fixpoint write_nulls (dst : Z) (n : nat) (m : Mem) : Mem :=
  match n with O => m | S n => write_nulls (dst + 8) n (mem_write dst (ptr_bytes null) m) end.

Definition pack_pointers (pk : Packer) (count : nat) (m : Mem) : option (Z * Packer * Mem) :=
  match reserve pk ((Z.of_nat count + 1) * 8) 8 with
  | None => None
  | Some (dst, pk) => Some (dst, pk, write_nulls dst (S count) m)
  end.

(** ** Statuses *)

Inductive NssStatus : Type := TryAgain | Unavail | NssNotFound | Success.

Definition NssStatus_value (s : NssStatus) : Z :=
  match s with TryAgain => -2 | Unavail => -1 | NssNotFound => 0 | Success => 1 end.

Definition NETDB_INTERNAL : Z := -1.
Definition HOST_NOT_FOUND : Z := 1.
Definition TRY_AGAIN : Z := 2.
Definition NO_RECOVERY : Z := 3.
Definition NO_DATA : Z := 4.

Definition ENOENT : Z := 2.
Definition EAGAIN : Z := 11.
Definition ERANGE : Z := 34.
Definition EAFNOSUPPORT : Z := 97.
Definition AF_UNSPEC : Z := 0.
Definition AF_INET : Z := 2.
Definition AF_INET6 : Z := 10.

Record HostEnt : Type := mkHostEnt {
  h_name : Z;
  h_aliases : Z;
  h_addrtype : Z;
  h_length : Z;
  h_addr_list : Z;
}.

(** The caller's cells; [None] is a null pointer. *)
Record Outs : Type := mkOuts {
  o_errno : option Z;
  o_h_errno : option Z;
  o_ttl : option Z;
  o_canon : option Z;
  o_pat : option Z;
  o_result : HostEnt;
}.

Definition put (cell : option Z) (v : Z) : option Z := match cell with Some _ => Some v | None => None end.

Definition fail (status : NssStatus) (errno h_errno : Z) (o : Outs) : NssStatus * Outs :=
  (status, mkOuts (put (o_errno o) errno) (put (o_h_errno o) h_errno) (o_ttl o) (o_canon o) (o_pat o) (o_result o)).

Inductive Got (A : Type) : Type :=
| GValue (a : A)
| GNotFound
| GNoData
| GTryAgain
| GUnavailable.
Arguments GValue {A} a.
Arguments GNotFound {A}.
Arguments GNoData {A}.
Arguments GTryAgain {A}.
Arguments GUnavailable {A}.

Definition status_of {A} (got : Got A) (o : Outs) : option (NssStatus * Outs) :=
  match got with
  | GValue _ => None
  | GNotFound => Some (fail NssNotFound ENOENT HOST_NOT_FOUND o)
  | GNoData => Some (fail NssNotFound ENOENT NO_DATA o)
  | GTryAgain => Some (fail TryAgain EAGAIN TRY_AGAIN o)
  | GUnavailable => Some (fail Unavail ENOENT NO_RECOVERY o)
  end.

Definition out_of_room (o : Outs) : NssStatus * Outs := fail TryAgain ERANGE NETDB_INTERNAL o.

Definition nss_family_of (af : Z) : option WFamily :=
  if af =? AF_INET then Some WV4
  else if af =? AF_INET6 then Some WV6
  else if af =? AF_UNSPEC then Some WAny
  else None.

(** ** Asking *)

Definition is_ipv4 (a : IpAddr) : bool := match a with V4 _ => true | V6 _ => false end.

Definition of_family (family : WFamily) (x : AddressOut) : bool :=
  match family with
  | WAny => true
  | WV4 => is_ipv4 (ao_address x)
  | WV6 => negb (is_ipv4 (ao_address x))
  end.

Definition classify_addresses (a : WAddresses) (family : WFamily) : Got WAddresses :=
  match wd_outcome a with
  | NotFound => GNotFound
  | Unavailable => GTryAgain
  | Found =>
      let a := mkWAddresses (wd_outcome a) (wd_canonical a) (List.filter (of_family family) (wd_addresses a))
                 (wd_source a) (wd_validation a) in
      if bool_decide (wd_addresses a = []) then GNoData else GValue a
  end.

Definition is_ptr (r : RecordOut) : bool := ro_rtype r =? 12.

Definition classify_reverse (a : WAnswer) : Got WAnswer :=
  match wa_outcome a with
  | NotFound => GNotFound
  | Unavailable => GTryAgain
  | Found => if negb (existsb is_ptr (wa_records a)) then GNoData else GValue a
  end.

(** A timeout: the daemon exists and did not answer in time. *)
Definition call_failed {A} (e : WireError) : Got A :=
  match e with
  | WireIo IoWouldBlock | WireIo TimedOut => GTryAgain
  | _ => GUnavailable
  end.

Definition trim_dots (s : Text) : Text :=
  let fix go (r : Text) := match r with b :: r' => if b =? 46 then go r' else r | [] => [] end in rev (go (rev s)).

Definition suffix_of (suffix s : Text) : bool :=
  bool_decide (drop (length s - length suffix) s = suffix).

(** [n.eq_ignore_ascii_case] and [ends_with] on the lower-case form. *)
Definition is_localhost (name : Text) : bool :=
  let n := trim_dots name in
  bool_decide (lower n = bytes_of "localhost") || suffix_of (bytes_of ".localhost") (lower n).


Definition local_addresses (family : WFamily) : WAddresses :=
  mkWAddresses Found (bytes_of "localhost")
    ((match family with WV6 => [] | _ => [mkAddressOut LOCALHOST_V4 0] end) ++
     (match family with WV4 => [] | _ => [mkAddressOut LOCALHOST_V6 0] end))
    (bytes_of "local") Unvalidated.

(** ** Connecting *)

Definition SUN_PATH : Z := 108.

(** What the calls of connecting return: the error of [socket], of [connect], of
    making the stream blocking again, and of setting its timeouts. *)
Record SocketIo : Type := mkSocketIo {
  sk_socket : option Z;
  sk_connect : option Z;
  sk_blocking : option Z;
  sk_timeouts : option Z;
}.

Inductive ConnectError : Type := InvalidPath | SocketError (errno : Z).

Definition connect_socket (path : list Z) (io : SocketIo) : result ConnectError () :=
  if bool_decide (path = []) || (SUN_PATH <=? Z.of_nat (length path)) || existsb (Z.eqb 0) path then Err InvalidPath
  else
    match sk_socket io, sk_connect io, sk_blocking io with
    | Some e, _, _ | None, Some e, _ | None, None, Some e => Err (SocketError e)
    | None, None, None => Ok ()
    end.

Definition nss_socket_path : list Z := bytes_of "/run/resolvd/resolv.sock".

Definition nss_connect (io : SocketIo) : bool :=
  match connect_socket nss_socket_path io, sk_timeouts io with Ok _, None => true | _, _ => false end.

(** One connection, one call: [peer] is what the daemon sends before it closes,
    or the error the stream gives, as when the daemon does not answer in time. *)
Definition nss_ask (io : SocketIo) (peer : result IoError (list Z)) (q : Request) : option (result WireError Reply) :=
  if nss_connect io then
    Some (match peer with Ok back => (call q back).2 | Err e => Err (WireIo e) end)
  else None.

Section asking.
(** What connecting and calling gives; [None] when there is no connection. *)
Variable ask : Request -> option (result WireError Reply).

Definition nss_lookup (name : Text) (family : WFamily) : Got WAddresses :=
  match ask (QLookup name family) with
  | None => GUnavailable
  | Some (Ok (RAddresses a)) => classify_addresses a family
  | Some (Ok _) => GUnavailable
  | Some (Err e) => call_failed e
  end.

Definition nss_reverse (address : IpAddr) : Got WAnswer :=
  match ask (QReverse address) with
  | None => GUnavailable
  | Some (Ok (RAnswer a)) => classify_reverse a
  | Some (Ok _) => GUnavailable
  | Some (Err e) => call_failed e
  end.

Definition resolve_addresses (name : Text) (family : WFamily) : Got WAddresses :=
  if is_localhost name then GValue (local_addresses family) else nss_lookup name family.

(** ** Rendering *)

Definition octets (a : IpAddr) : list Z := match a with V4 v => octets_v4 v | V6 v => octets_v6 v end.

Definition as_i32 (z : Z) : Z := if z <? 2 ^ 31 then z else z - 2 ^ 32.

Definition min_ttl_i32 (ttls : list Z) : Z := as_i32 (default 0 (list_min ttls)).

(** The loop over the addresses of a [hostent]; [false] when there is no room. *)
Fixpoint pack_addresses (pk : Packer) (slot_at : Z) (xs : list AddressOut) (m : Mem) : bool * Mem :=
  match xs with
  | [] => (true, m)
  | x :: xs =>
      match pack_bytes pk (octets (ao_address x)) 4 m with
      | None => (false, m)
      | Some (slot, pk, m) => pack_addresses pk (slot_at + 8) xs (mem_write slot_at (ptr_bytes slot) m)
      end
  end.

Definition render_hostent (a : WAddresses) (af base buflen : Z) (o : Outs) (m : Mem) : NssStatus * Outs * Mem :=
  let pk := Packer_new base buflen in
  match pack_str pk (wd_canonical a) m with
  | None => (out_of_room o, m)
  | Some (name, pk, m) =>
      let addr_len := if af =? AF_INET6 then 16 else 4 in
      match pack_pointers pk 1 m with
      | None => (out_of_room o, m)
      | Some (aliases, pk, m) =>
          match pack_pointers pk (length (wd_addresses a) + 1) m with
          | None => (out_of_room o, m)
          | Some (addr_list, pk, m) =>
              match pack_addresses pk addr_list (wd_addresses a) m with
              | (false, m) => (out_of_room o, m)
              | (true, m) =>
                  (Success,
                   mkOuts (o_errno o) (o_h_errno o) (put (o_ttl o) (min_ttl_i32 (map ao_ttl (wd_addresses a))))
                     (put (o_canon o) name) (o_pat o) (mkHostEnt name aliases af addr_len addr_list), m)
              end
          end
      end
  end.

(** [borrow]: a string that is there and is UTF-8. *)
Definition borrow (pointer : option (list Z)) : option Text :=
  match pointer with Some s => if utf8_valid s then Some s else None | None => None end.

(** glibc's address tuples: next, name, family, four words, scope. *)
Definition TUPLE_SIZE : Z := 40.
Definition TUPLE_ALIGN : Z := 8.

Definition tuple_address (a : IpAddr) : Z * list Z :=
  match a with
  | V4 v => (AF_INET, [from_le (octets_v4 v); 0; 0; 0])
  | V6 v =>
      let o := octets_v6 v in
      let w i := from_le (take 4 (drop i o)) in
      (AF_INET6, [w 0%nat; w 4%nat; w 8%nat; w 12%nat])
  end.

Definition tuple_bytes (next name family : Z) (addr : list Z) (scopeid : Z) : list Z :=
  ptr_bytes next ++ ptr_bytes name ++ le_bytes 4 family ++ concat (map (le_bytes 4) addr) ++ le_bytes 4 scopeid.

(** The loop: [previous] is the tuple to link from, null before the first;
    the first tuple, or [None] when there is no room. *)
Fixpoint pack_tuples (pk : Packer) (canonical previous first : Z) (xs : list AddressOut) (m : Mem) : option Z * Mem :=
  match xs with
  | [] => (Some first, m)
  | x :: xs =>
      match reserve pk TUPLE_SIZE TUPLE_ALIGN with
      | None => (None, m)
      | Some (tuple, pk) =>
          let '(family, addr) := tuple_address (ao_address x) in
          let m := mem_write tuple (tuple_bytes null canonical family addr 0) m in
          if previous =? null then pack_tuples pk canonical tuple tuple xs m
          else pack_tuples pk canonical tuple first xs (mem_write previous (ptr_bytes tuple) m)
      end
  end.

(** ** Entry points *)

Definition gethostbyname4_r (name : option (list Z)) (base buflen : Z) (o : Outs) (m : Mem)
  : NssStatus * Outs * Mem :=
  match borrow name with
  | None => (fail NssNotFound ENOENT HOST_NOT_FOUND o, m)
  | Some name =>
      let got := resolve_addresses name WAny in
      match got with
      | GValue a =>
          match pack_str (Packer_new base buflen) (wd_canonical a) m with
          | None => (out_of_room o, m)
          | Some (canonical, pk, m) =>
              match pack_tuples pk canonical null null (wd_addresses a) m with
              | (None, m) => (out_of_room o, m)
              | (Some first, m) =>
                  (Success,
                   mkOuts (o_errno o) (o_h_errno o) (put (o_ttl o) (min_ttl_i32 (map ao_ttl (wd_addresses a))))
                     (o_canon o) (put (o_pat o) first) (o_result o), m)
              end
          end
      | _ => (default (Success, o) (status_of got o), m)
      end
  end.

Definition gethostbyname3_r (name : option (list Z)) (af base buflen : Z) (o : Outs) (m : Mem)
  : NssStatus * Outs * Mem :=
  match borrow name with
  | None => (fail NssNotFound ENOENT HOST_NOT_FOUND o, m)
  | Some name =>
      match nss_family_of af with
      | None | Some WAny => (fail Unavail EAFNOSUPPORT NO_DATA o, m)
      | Some family =>
          let got := resolve_addresses name family in
          match got with
          | GValue a => render_hostent a af base buflen o m
          | _ => (default (Success, o) (status_of got o), m)
          end
      end
  end.

(** Without the cells for the lifetime and the canonical name. *)
Definition without_extras (o : Outs) : Outs :=
  mkOuts (o_errno o) (o_h_errno o) None None (o_pat o) (o_result o).

Definition gethostbyname2_r (name : option (list Z)) (af base buflen : Z) (o : Outs) (m : Mem)
  : NssStatus * Outs * Mem := gethostbyname3_r name af base buflen (without_extras o) m.

Definition gethostbyname_r (name : option (list Z)) (base buflen : Z) (o : Outs) (m : Mem)
  : NssStatus * Outs * Mem := gethostbyname3_r name AF_INET base buflen (without_extras o) m.

(** The loop over the further names of an address. *)
Fixpoint pack_aliases (pk : Packer) (slot_at : Z) (names : list Text) (m : Mem) : option Packer * Mem :=
  match names with
  | [] => (Some pk, m)
  | alias :: names =>
      match pack_str pk alias m with
      | None => (None, m)
      | Some (p, pk, m) => pack_aliases pk (slot_at + 8) names (mem_write slot_at (ptr_bytes p) m)
      end
  end.

Definition address_of_bytes (af : Z) (addr : list Z) : option IpAddr :=
  if (af =? AF_INET) && (length addr =? 4)%nat then Some (V4 (from_be addr))
  else if (af =? AF_INET6) && (length addr =? 16)%nat then Some (V6 (from_be addr))
  else None.

Definition render_names (a : WAnswer) (address : IpAddr) (af len base buflen : Z) (o : Outs) (m : Mem)
  : NssStatus * Outs * Mem :=
  match map (fun r => trim_dots (ro_text r)) (List.filter is_ptr (wa_records a)) with
  | [] => (fail NssNotFound ENOENT NO_DATA o, m)
  | first :: others =>
      match pack_str (Packer_new base buflen) first m with
      | None => (out_of_room o, m)
      | Some (name, pk, m) =>
          match pack_pointers pk (S (length others)) m with
          | None => (out_of_room o, m)
          | Some (aliases, pk, m) =>
              match pack_aliases pk aliases others m with
              | (None, m) => (out_of_room o, m)
              | (Some pk, m) =>
                  match pack_pointers pk 2 m with
                  | None => (out_of_room o, m)
                  | Some (addr_list, pk, m) =>
                      match pack_bytes pk (octets address) 4 m with
                      | None => (out_of_room o, m)
                      | Some (slot, pk, m) =>
                          (Success,
                           mkOuts (o_errno o) (o_h_errno o) (put (o_ttl o) (min_ttl_i32 (map ro_ttl (wa_records a))))
                             (o_canon o) (o_pat o) (mkHostEnt name aliases af len addr_list),
                           mem_write addr_list (ptr_bytes slot) m)
                      end
                  end
              end
          end
      end
  end.

(** The one answer the module gives itself. *)
Definition loopback_answer : WAnswer :=
  mkWAnswer Found [mkRecordOut [] 12 0 [] (bytes_of "localhost")] [] None None Unvalidated 0.

(** [addr] are the [len] bytes at the pointer. *)
Definition gethostbyaddr2_r (addr : option (list Z)) (af base buflen : Z) (o : Outs) (m : Mem)
  : NssStatus * Outs * Mem :=
  match addr with
  | None => (fail NssNotFound ENOENT HOST_NOT_FOUND o, m)
  | Some addr =>
      match address_of_bytes af addr with
      | None => (fail Unavail EAFNOSUPPORT NO_RECOVERY o, m)
      | Some address =>
          let got := if is_loopback address then GValue loopback_answer else nss_reverse address in
          match got with
          | GValue a => render_names a address af (Z.of_nat (length addr)) base buflen o m
          | _ => (default (Success, o) (status_of got o), m)
          end
      end
  end.

Definition gethostbyaddr_r (addr : option (list Z)) (af base buflen : Z) (o : Outs) (m : Mem)
  : NssStatus * Outs * Mem :=
  gethostbyaddr2_r addr af base buflen
    (mkOuts (o_errno o) (o_h_errno o) None (o_canon o) (o_pat o) (o_result o)) m.
End asking.
