(* ===== verification/NssProofs.v ===== *)
(** * Memory and packing lemmas for the NSS module *)

From S2P Require Import Prelude Net Names Cache EngineState Io IpText Msgpack NativeWire Nss.
Local Open Scope Z_scope.

(** ** Memory *)

Lemma mem_write_out bs : forall p m a, ~ (p <= a < p + Z.of_nat (length bs)) -> mem_write p bs m !! a = m !! a.
Proof.
  induction bs as [|b bs IH]; intros p m a Ha; simpl in *; [done|]. rewrite IH by lia.
  apply lookup_insert_ne. lia.
Qed.

Lemma mem_write_in bs : forall p m i b, bs !! i = Some b -> mem_write p bs m !! (p + Z.of_nat i) = Some b.
Proof.
  induction bs as [|b0 bs IH]; intros p m i b Hi; [done|]. destruct i as [|i]; simpl in *.
  - injection Hi as ->. rewrite mem_write_out by lia. rewrite Z.add_0_r. apply lookup_insert_eq.
  - replace (p + Z.of_nat (S i)) with (p + 1 + Z.of_nat i) by lia. by apply IH.
Qed.

Lemma mem_write_app a b p m : mem_write (p + Z.of_nat (length a)) b (mem_write p a m) = mem_write p (a ++ b) m.
Proof.
  revert p m. induction a as [|x a IH]; intros p m; simpl; [by rewrite Z.add_0_r|].
  rewrite <- IH. f_equal. lia.
Qed.

Lemma mem_read_length m p n : length (mem_read m p n) = n.
Proof. unfold mem_read. by rewrite length_map, length_seq. Qed.

Lemma mem_read_ext m m' p n :
  (forall a, p <= a < p + Z.of_nat n -> m' !! a = m !! a) -> mem_read m' p n = mem_read m p n.
Proof.
  intros Hm. unfold mem_read. apply map_ext_in. intros i [_ Hi]%in_seq. unfold mget. by rewrite Hm by lia.
Qed.

Lemma mem_read_write bs p m : mem_read (mem_write p bs m) p (length bs) = bs.
Proof.
  apply list_eq. intros i. unfold mem_read. destruct (decide (i < length bs)%nat) as [Hi|Hi].
  - destruct (lookup_lt_is_Some_2 bs i Hi) as [b Hb]. rewrite Hb.
    change (map ?f (seq ?a ?b)) with (f <$> seq a b). rewrite list_lookup_fmap, lookup_seq_lt by done.
    cbn. unfold mget. by rewrite (mem_write_in bs p m i b Hb).
  - rewrite !lookup_ge_None_2; [done|lia|]. rewrite length_map, length_seq. lia.
Qed.

Lemma mem_read_app m p a b : mem_read m p (a + b) = mem_read m p a ++ mem_read m (p + Z.of_nat a) b.
Proof.
  unfold mem_read. rewrite seq_app, map_app. f_equal.
  replace (seq (0 + a) b) with (map (Nat.add a) (seq 0 b)).
  2: { rewrite Nat.add_0_l. pose proof (fmap_add_seq a 0 b) as Hs. by rewrite Nat.add_0_r in Hs. }
  rewrite map_map. apply map_ext. intros i. f_equal. lia.
Qed.

(** A block of memory and what it holds. *)
Definition holds (m : Mem) (p : Z) (bs : list Z) : Prop := mem_read m p (length bs) = bs.

Lemma holds_write m p bs : holds (mem_write p bs m) p bs.
Proof. apply mem_read_write. Qed.

Lemma holds_frame m m' p bs :
  (forall a, p <= a < p + Z.of_nat (length bs) -> m' !! a = m !! a) -> holds m p bs -> holds m' p bs.
Proof. intros Hm Hh. unfold holds. by rewrite (mem_read_ext m). Qed.

Lemma holds_app m p a b : holds m p (a ++ b) <-> holds m p a /\ holds m (p + Z.of_nat (length a)) b.
Proof.
  unfold holds. rewrite length_app, mem_read_app. split; [|by intros [-> ->]].
  intros Heq. apply app_inj_1 in Heq; [done|by rewrite mem_read_length].
Qed.

Lemma ptr_bytes_length p : length (ptr_bytes p) = 8%nat.
Proof. apply length_le_bytes. Qed.

Lemma holds_ptr m p q : 0 <= q < 2 ^ 64 -> holds m p (ptr_bytes q) -> from_le (mem_read m p 8) = q.
Proof.
  intros Hq Hh. unfold holds in Hh. rewrite ptr_bytes_length in Hh. rewrite Hh. apply le_roundtrip.
  unfold in_width. done.
Qed.

(** ** Reading as a C program does *)

Fixpoint read_cstr (fuel : nat) (m : Mem) (p : Z) : option (list Z) :=
  match fuel with
  | O => None
  | S fuel => if mget m p =? 0 then Some [] else cons (mget m p) <$> read_cstr fuel m (p + 1)
  end.

Fixpoint read_ptrs (fuel : nat) (m : Mem) (p : Z) : option (list Z) :=
  match fuel with
  | O => None
  | S fuel =>
      let q := from_le (mem_read m p 8) in
      if q =? 0 then Some [] else cons q <$> read_ptrs fuel m (p + 8)
  end.

Lemma read_cstr_holds s : forall fuel m p,
  (length s < fuel)%nat -> existsb (Z.eqb 0) s = false -> holds m p (s ++ [0]) -> read_cstr fuel m p = Some s.
Proof.
  induction s as [|b s IH]; intros fuel m p Hf Hz Hh; (destruct fuel as [|fuel]; [simpl in Hf; lia|]); cbn [read_cstr].
  - unfold holds, mem_read in Hh. simpl in Hh. rewrite Z.add_0_r in Hh. by injection Hh as ->.
  - change ((b :: s) ++ [0]) with ([b] ++ (s ++ [0])) in Hh. apply holds_app in Hh as [Hb Hh].
    unfold holds, mem_read in Hb. simpl in Hb. rewrite Z.add_0_r in Hb. injection Hb as Hb. rewrite Hb.
    cbn [existsb] in Hz. apply orb_false_iff in Hz as [Hz0 Hz]. rewrite Z.eqb_sym in Hz0. rewrite Hz0.
    rewrite (IH fuel m (p + 1)); [done|simpl in Hf; lia|done|done].
Qed.

Lemma read_ptrs_holds qs : forall fuel m p,
  (length qs < fuel)%nat -> Forall (fun q => 0 < q < 2 ^ 64) qs ->
  holds m p (concat (map ptr_bytes qs) ++ ptr_bytes null) -> read_ptrs fuel m p = Some qs.
Proof.
  induction qs as [|q qs IH]; intros fuel m p Hf Hq Hh; (destruct fuel as [|fuel]; [simpl in Hf; lia|]); cbn [read_ptrs].
  - simpl in Hh. by rewrite (holds_ptr m p 0).
  - apply Forall_cons in Hq as [Hq Hqs]. cbn [map concat] in Hh. rewrite <- app_assoc in Hh.
    apply holds_app in Hh as [Hb Hh]. rewrite ptr_bytes_length in Hh.
    rewrite (holds_ptr m p q) by (done || lia). destruct (Z.eqb_spec q 0); [lia|].
    rewrite (IH fuel m (p + 8)); [done|simpl in Hf; lia|done|done].
Qed.

(** ** The packer *)

(** The buffer lies in the address space, off the null page. *)
Definition buffer_ok (base len : Z) : Prop := 0 < base /\ 0 <= len < 2 ^ 63 /\ base + len < 2 ^ 64.

Definition align_up (used align : Z) : Z := div_ceil used align * align.

Lemma align_up_spec used align :
  0 < align -> 0 <= used ->
  used <= align_up used align < used + align /\ align_up used align mod align = 0.
Proof.
  intros Ha Hu. unfold align_up, div_ceil. split; [|by apply Z.mod_mul; lia].
  pose proof (Z.div_mod (used + align - 1) align ltac:(lia)) as Hd.
  pose proof (Z.mod_pos_bound (used + align - 1) align Ha). lia.
Qed.

Lemma align_up_id used align : 0 < align -> used mod align = 0 -> align_up used align = used.
Proof.
  intros Ha Hm. unfold align_up, div_ceil. apply Z.div_exact in Hm; [|lia].
  rewrite Hm at 1. replace (align * (used / align) + align - 1) with ((used / align) * align + (align - 1)) by lia.
  rewrite Z.div_add_l by lia. rewrite (Z.div_small (align - 1)) by lia. lia.
Qed.

Lemma align_up_1 used : align_up used 1 = used.
Proof. apply align_up_id; [lia|apply Z.mod_1_r]. Qed.

Section packing.
Context (base len : Z) (Hbuf : buffer_ok base len).

Lemma reserve_eq used size align :
  0 <= used <= len -> 0 <= size -> 0 < align <= 8 ->
  reserve (mkPacker base len used) size align =
  if align_up used align + size <=? len
  then Some (base + align_up used align, mkPacker base len (align_up used align + size)) else None.
Proof using Hbuf.
  destruct Hbuf as (Hb & Hl & Hs). intros Hu Hsz Ha.
  destruct (align_up_spec used align ltac:(lia) ltac:(lia)) as [Hst _].
  unfold reserve, offset. cbn [pk_base pk_len pk_used]. fold (align_up used align).
  rewrite wrap_small by (unfold in_width; lia).
  destruct (Z.leb_spec (2 ^ 64) (align_up used align + size)), (Z.leb_spec (align_up used align + size) len);
    destruct (Z.ltb_spec len (align_up used align + size)); (done || lia).
Qed.

Lemma pack_str_eq used v m :
  0 <= used <= len ->
  pack_str (mkPacker base len used) v m =
  if negb (existsb (Z.eqb 0) v) && (used + Z.of_nat (length v) + 1 <=? len)
  then Some (base + used, mkPacker base len (used + Z.of_nat (length v) + 1), mem_write (base + used) (v ++ [0]) m)
  else None.
Proof using Hbuf.
  intros Hu. unfold pack_str. destruct (existsb _ v); [done|]. rewrite reserve_eq by lia.
  rewrite align_up_1, Z.add_assoc. cbn [negb andb]. destruct (_ <=? len); [|done]. by rewrite mem_write_app.
Qed.

Lemma pack_bytes_eq used v align m :
  0 <= used <= len -> 0 < align <= 8 ->
  pack_bytes (mkPacker base len used) v align m =
  if align_up used align + Z.of_nat (length v) <=? len
  then Some (base + align_up used align, mkPacker base len (align_up used align + Z.of_nat (length v)),
             mem_write (base + align_up used align) v m)
  else None.
Proof using Hbuf.
  intros Hu Ha. unfold pack_bytes. rewrite reserve_eq by lia. by destruct (_ <=? len).
Qed.

Lemma write_nulls_write n : forall dst m, write_nulls dst n m = mem_write dst (concat (replicate n (ptr_bytes null))) m.
Proof using.
  induction n as [|n IH]; intros dst m; [done|]. cbn [write_nulls replicate concat]. rewrite IH.
  by rewrite <- mem_write_app, ptr_bytes_length.
Qed.

Lemma pack_pointers_eq used count m :
  0 <= used <= len ->
  pack_pointers (mkPacker base len used) count m =
  if align_up used 8 + 8 * (Z.of_nat count + 1) <=? len
  then Some (base + align_up used 8, mkPacker base len (align_up used 8 + 8 * (Z.of_nat count + 1)),
             mem_write (base + align_up used 8) (concat (replicate (S count) (ptr_bytes null))) m)
  else None.
Proof using Hbuf.
  intros Hu. unfold pack_pointers. rewrite reserve_eq by lia. rewrite (Z.mul_comm (_ + 1)).
  destruct (_ <=? len); [|done]. by rewrite write_nulls_write.
Qed.

(** ** Blocks behind an array of pointers

    Both loops that fill a pointer array pack one block per pointer, each block
    where the last one ended; [None] is a block that cannot be packed. *)
Fixpoint pack_slots (used slot_at : Z) (blocks : list (option (list Z))) (m : Mem) : option Z * Mem :=
  match blocks with
  | [] => (Some used, m)
  | Some b :: blocks =>
      if used + Z.of_nat (length b) <=? len
      then pack_slots (used + Z.of_nat (length b)) (slot_at + 8) blocks
             (mem_write slot_at (ptr_bytes (base + used)) (mem_write (base + used) b m))
      else (None, m)
  | None :: _ => (None, m)
  end.

Fixpoint block_starts (p : Z) (bs : list (list Z)) : list Z :=
  match bs with [] => [] | b :: bs => p :: block_starts (p + Z.of_nat (length b)) bs end.

Lemma block_starts_length bs : forall p, length (block_starts p bs) = length bs.
Proof using. induction bs as [|b bs IH]; intros p; simpl; [done|]. by rewrite IH. Qed.

Lemma block_starts_range bs : forall p, 0 < p -> p + Z.of_nat (length (concat bs)) < 2 ^ 64 ->
  Forall (fun q => 0 < q < 2 ^ 64) (block_starts p bs).
Proof using.
  induction bs as [|b bs IH]; intros p Hp Hl; cbn [block_starts concat] in *; [constructor|].
  rewrite length_app in Hl. constructor; [lia|]. apply IH; lia.
Qed.

Lemma pack_slots_spec blocks : forall used slot_at m,
  0 <= used <= len -> slot_at + 8 * Z.of_nat (length blocks) <= base + used ->
  let '(r, m') := pack_slots used slot_at blocks m in
  (forall a, ~ (slot_at <= a < slot_at + 8 * Z.of_nat (length blocks)) -> ~ (base + used <= a < base + len) ->
     m' !! a = m !! a) /\
  match r with
  | Some u => exists bs, blocks = map Some bs /\ u = used + Z.of_nat (length (concat bs)) /\ u <= len /\
      holds m' slot_at (concat (map ptr_bytes (block_starts (base + used) bs))) /\
      holds m' (base + used) (concat bs)
  | None => forall bs, blocks = map Some bs -> len < used + Z.of_nat (length (concat bs))
  end.
Proof using.
  induction blocks as [|[b|] blocks IH]; intros used slot_at m Hu Hs; cbn [pack_slots].
  - split; [done|]. exists []. split_and!; [done|simpl; lia|lia|done|done].
  - cbn [length] in *. destruct (Z.leb_spec (used + Z.of_nat (length b)) len) as [Hfit|Hfit].
    2: { split; [done|]. intros [|b' bs] [=]; subst. cbn [concat]. rewrite length_app. lia. }
    set (m1 := mem_write slot_at _ _).
    specialize (IH (used + Z.of_nat (length b)) (slot_at + 8) m1 ltac:(lia) ltac:(lia)).
    destruct (pack_slots _ _ _ _) as [r m']. destruct IH as [Hframe Hr].
    assert (forall a, ~ (slot_at <= a < slot_at + 8) -> m1 !! a = mem_write (base + used) b m !! a) as Hm1.
    { intros a Ha. unfold m1. apply mem_write_out. rewrite ptr_bytes_length. lia. }
    split.
    { intros a Ha Ha'. rewrite Hframe, Hm1 by lia. apply mem_write_out. lia. }
    destruct r as [u|].
    + destruct Hr as (bs & -> & -> & Hu' & Hp & Hb). exists (b :: bs). cbn [concat map block_starts].
      rewrite length_app. split_and!; [done|lia|lia| |]; apply holds_app; split.
      * apply (holds_frame m1); [|apply holds_write]. rewrite ptr_bytes_length. intros a Ha. apply Hframe; lia.
      * rewrite ptr_bytes_length. by rewrite <- Z.add_assoc.
      * apply (holds_frame (mem_write (base + used) b m)); [|apply holds_write].
        intros a Ha. rewrite Hframe, Hm1 by lia. done.
      * by rewrite <- Z.add_assoc.
    + intros [|b' bs] [=]; subst. specialize (Hr bs eq_refl). cbn [concat]. rewrite length_app. lia.
  - split; [done|]. by intros [|b' bs] [=].
Qed.

Definition addr_block (x : AddressOut) : list Z := octets (ao_address x).

Definition str_block (s : Text) : option (list Z) := if existsb (Z.eqb 0) s then None else Some (s ++ [0]).

Lemma octets_length a : length (octets a) = if is_ipv4 a then 4%nat else 16%nat.
Proof using. destruct a; [apply length_be_bytes|apply length_be_bytes]. Qed.

Lemma octets_mod a : Z.of_nat (length (octets a)) mod 4 = 0.
Proof using. rewrite octets_length. by destruct (is_ipv4 a). Qed.

Lemma pack_addresses_slots xs : forall used slot_at m,
  0 <= used <= len -> used mod 4 = 0 ->
  pack_addresses (mkPacker base len used) slot_at xs m =
  (let '(r, m') := pack_slots used slot_at (map (fun x => Some (addr_block x)) xs) m in (bool_decide (is_Some r), m')).
Proof using Hbuf.
  induction xs as [|x xs IH]; intros used slot_at m Hu Hm; cbn [pack_addresses map pack_slots]; [done|].
  rewrite pack_bytes_eq, align_up_id by (done || lia). unfold addr_block at 1 2.
  destruct (Z.leb_spec (used + Z.of_nat (length (octets (ao_address x)))) len); [|done].
  apply IH; [lia|]. rewrite Z.add_mod, Hm, octets_mod by lia. done.
Qed.

Lemma pack_aliases_slots names : forall used slot_at m,
  0 <= used <= len ->
  pack_aliases (mkPacker base len used) slot_at names m =
  (let '(r, m') := pack_slots used slot_at (map str_block names) m in (mkPacker base len <$> r, m')).
Proof using Hbuf.
  induction names as [|s names IH]; intros used slot_at m Hu; cbn [pack_aliases map pack_slots]; [done|].
  rewrite pack_str_eq by lia. unfold str_block at 1. destruct (existsb _ s); cbn [negb andb]; [done|].
  rewrite length_app. cbn [length]. replace (Z.of_nat (length s + 1)) with (Z.of_nat (length s) + 1) by lia.
  rewrite <- Z.add_assoc. destruct (Z.leb_spec (used + (Z.of_nat (length s) + 1)) len); [|done]. apply IH; lia.
Qed.

(** ** The chain of tuples *)

Fixpoint chain_bytes (p canonical : Z) (xs : list AddressOut) : list Z :=
  match xs with
  | [] => []
  | x :: xs =>
      let '(family, addr) := tuple_address (ao_address x) in
      tuple_bytes (match xs with [] => null | _ => p + 40 end) canonical family addr 0 ++
      chain_bytes (p + 40) canonical xs
  end.

Lemma tuple_bytes_split next name family addr scopeid :
  tuple_bytes next name family addr scopeid = ptr_bytes next ++ drop 8 (tuple_bytes null name family addr scopeid).
Proof using. unfold tuple_bytes. rewrite (drop_app_length' (ptr_bytes null)) by (by rewrite ptr_bytes_length). done. Qed.

Lemma tuple_bytes_length next name a scopeid :
  length (tuple_bytes next name (tuple_address a).1 (tuple_address a).2 scopeid) = 40%nat.
Proof using. unfold tuple_bytes. rewrite !length_app, !ptr_bytes_length, !length_le_bytes. by destruct a. Qed.

Lemma tuple_rest_length name a scopeid :
  length (drop 8 (tuple_bytes null name (tuple_address a).1 (tuple_address a).2 scopeid)) = 32%nat.
Proof using. by rewrite length_drop, tuple_bytes_length. Qed.

Lemma pack_tuples_spec canonical xs : forall used previous first m,
  0 <= used <= len -> used mod 8 = 0 -> (previous = null \/ 0 < previous /\ previous + 8 <= base + used) ->
  let '(r, m') := pack_tuples (mkPacker base len used) canonical previous first xs m in
  (forall a, ~ (previous <> null /\ previous <= a < previous + 8) -> ~ (base + used <= a < base + len) ->
     m' !! a = m !! a) /\
  if used + 40 * Z.of_nat (length xs) <=? len
  then r = Some (if (previous =? null) && negb (bool_decide (xs = [])) then base + used else first) /\
       (previous <> null -> xs <> [] -> holds m' previous (ptr_bytes (base + used))) /\
       (xs = [] -> m' = m) /\
       holds m' (base + used) (chain_bytes (base + used) canonical xs)
  else r = None.
Proof using Hbuf.
  induction xs as [|x xs IH]; intros used previous first m Hu Hm Hp; cbn [pack_tuples].
  { split; [done|]. cbn [length]. destruct (Z.leb_spec (used + 40 * Z.of_nat 0) len); [|lia].
    split_and!; [by rewrite andb_false_r|done|done|done]. }
  unfold TUPLE_SIZE, TUPLE_ALIGN. rewrite reserve_eq, align_up_id by (done || lia). cbn [length].
  destruct (Z.leb_spec (used + 40) len) as [Hfit|Hfit].
  2: { split; [done|]. destruct (Z.leb_spec (used + 40 * Z.of_nat (S (length xs))) len); [lia|done]. }
  pose proof (tuple_bytes_length null canonical (ao_address x) 0) as Hl.
  pose proof (tuple_rest_length canonical (ao_address x) 0) as Hr.
  cbn [chain_bytes].
  destruct (tuple_address (ao_address x)) as [family addr]. cbn [fst snd] in Hl, Hr.
  rewrite (tuple_bytes_split (match xs with [] => _ | _ => _ end)).
  set (tb := tuple_bytes null canonical family addr 0) in *.
  set (tuple := base + used) in *. pose proof (proj1 Hbuf) as Hb0.
  assert (tuple <> null) as Ht by (unfold null, tuple; lia).
  set (m1 := if previous =? null then mem_write tuple tb m else mem_write previous (ptr_bytes tuple) (mem_write tuple tb m)).
  set (first1 := if previous =? null then tuple else first).
  replace (if previous =? null then _ else _) with (pack_tuples (mkPacker base len (used + 40)) canonical tuple first1 xs m1)
    by (unfold m1, first1; by destruct (previous =? null)).
  assert (forall a, ~ (previous <> null /\ previous <= a < previous + 8) -> m1 !! a = mem_write tuple tb m !! a) as Hm1.
  { intros a Ha. unfold m1. destruct (Z.eqb_spec previous null); [done|]. apply mem_write_out.
    rewrite ptr_bytes_length. lia. }
  specialize (IH (used + 40) tuple first1 m1 ltac:(lia)).
  rewrite Z.add_mod, Hm in IH by lia. specialize (IH eq_refl ltac:(unfold tuple in *; lia)).
  destruct (pack_tuples _ _ _ _ _ _) as [r m']. destruct IH as [Hframe Hres].
  split.
  { intros a Ha Ha'. rewrite Hframe, Hm1 by (unfold tuple in *; lia). apply mem_write_out. unfold tuple in *; lia. }
  replace (used + 40 * Z.of_nat (S (length xs))) with (used + 40 + 40 * Z.of_nat (length xs)) by lia.
  destruct (_ <=? len); [|done]. destruct Hres as (-> & Hlink & Hnil & Hchain).
  rewrite (proj2 (Z.eqb_neq tuple null)) by done. cbn [andb]. rewrite bool_decide_false by done. rewrite andb_true_r.
  split_and!; [done| |done|].
  - intros Hpn _. apply (holds_frame m1).
    + rewrite ptr_bytes_length. intros a Ha. apply Hframe; unfold tuple, null in *; lia.
    + unfold m1. rewrite (proj2 (Z.eqb_neq previous null)) by done. apply holds_write.
  - assert (holds m1 tuple tb) as Htb.
    { apply (holds_frame (mem_write tuple tb m)); [|apply holds_write]. intros a Ha. apply Hm1. unfold tuple, null in *; lia. }
    apply holds_app. rewrite length_app, ptr_bytes_length, Hr. split.
    2: { replace (tuple + Z.of_nat (8 + 32)) with (base + (used + 40)) by (unfold tuple; lia).
         by replace (tuple + 40) with (base + (used + 40)) by (unfold tuple; lia). }
    unfold tb in Htb. rewrite (tuple_bytes_split null) in Htb. fold tb in Htb. apply holds_app in Htb as [Hnull Hrest].
    apply holds_app. rewrite ptr_bytes_length in *. split.
    + destruct xs as [|x' xs]; [by rewrite Hnil|].
      replace (tuple + 40) with (base + (used + 40)) by (unfold tuple; lia). by apply Hlink.
    + apply (holds_frame m1); [|done]. rewrite Hr. intros a Ha. apply Hframe; unfold tuple in *; lia.
Qed.
End packing.

Lemma length_nulls n : length (concat (replicate n (ptr_bytes null))) = (8 * n)%nat.
Proof. induction n as [|n IH]; [done|]. cbn [replicate concat]. rewrite length_app, IH, ptr_bytes_length. lia. Qed.
