(* ===== verification/NssProps.v ===== *)
(** * What a caller of the NSS module reads back

    The views below read the caller's memory the way a C program does: strings
    up to their terminator, pointer arrays up to the null entry, tuples along
    their links. *)

From S2P Require Import Prelude Net Names Cache EngineState Io IpText Msgpack NativeWire NativeWireProofs Control Nss NssProofs.
Local Open Scope Z_scope.

(** ** A hostent as a C program sees it *)

Definition HostView : Type := Text * list Text * list (list Z).

Definition view_hostent (fuel : nat) (m : Mem) (h : HostEnt) : option HostView :=
  match read_cstr fuel m (h_name h), read_ptrs fuel m (h_aliases h), read_ptrs fuel m (h_addr_list h) with
  | Some name, Some aliases, Some addresses =>
      match mapM (read_cstr fuel m) aliases with
      | Some aliases => Some (name, aliases, map (fun p => mem_read m p (Z.to_nat (h_length h))) addresses)
      | None => None
      end
  | _, _, _ => None
  end.

(** Nothing outside the caller's buffer is written. *)
Definition untouched (base buflen : Z) (m m' : Mem) : Prop :=
  forall a, ~ (base <= a < base + buflen) -> m' !! a = m !! a.

Lemma untouched_refl base buflen m : untouched base buflen m m.
Proof. by intros a Ha. Qed.

Lemma untouched_write base buflen m m' p bs :
  base <= p -> p + Z.of_nat (length bs) <= base + buflen ->
  untouched base buflen m m' -> untouched base buflen m (mem_write p bs m').
Proof. intros Hp Hl Hu a Ha. rewrite mem_write_out by lia. by apply Hu. Qed.

Create HintDb nss.
#[export] Hint Resolve untouched_refl : nss.
#[export] Hint Extern 3 (untouched _ _ _ (mem_write _ _ _)) =>
  apply untouched_write; [lia|rewrite ?length_nulls, ?length_app, ?ptr_bytes_length; cbn [length]; lia|] : nss.

(** Ends a branch that ran out of room. *)
Ltac no_room :=
  split; [auto with nss|]; match goal with |- context [?x <=? ?y] => destruct (Z.leb_spec x y); [lia|by rewrite ?andb_false_r] end.

Lemma blocks_read k bs : forall m p,
  Forall (fun b => length b = k) bs -> holds m p (concat bs) ->
  map (fun q => mem_read m q k) (block_starts p bs) = bs.
Proof.
  induction bs as [|b bs IH]; intros m p Hk Hh; [done|]. apply Forall_cons in Hk as [Hb Hk].
  cbn [concat] in Hh. apply holds_app in Hh as [H1 H2]. cbn [block_starts map]. rewrite (IH m _ Hk H2).
  unfold holds in H1. rewrite Hb in H1. by rewrite H1.
Qed.

Lemma strings_read fuel names : forall m p,
  Forall (fun s => existsb (Z.eqb 0) s = false /\ (length s < fuel)%nat) names ->
  holds m p (concat (map (fun s => s ++ [0]) names)) ->
  mapM (read_cstr fuel m) (block_starts p (map (fun s => s ++ [0]) names)) = Some names.
Proof.
  induction names as [|s names IH]; intros m p Hs Hh; [done|]. apply Forall_cons in Hs as [[Hz Hl] Hs].
  cbn [map concat] in Hh. apply holds_app in Hh as [H1 H2]. cbn [map block_starts].
  apply mapM_Some. constructor; [by apply read_cstr_holds|]. apply mapM_Some. by apply IH.
Qed.

Lemma str_blocks names bs :
  map str_block names = map Some bs ->
  bs = map (fun s => s ++ [0]) names /\ Forall (fun s => existsb (Z.eqb 0) s = false) names.
Proof.
  revert bs. induction names as [|s names IH]; intros [|b bs]; try done. cbn [map]. intros [=].
  destruct (IH bs) as [-> Hn]; [done|]. unfold str_block in *. destruct (existsb _ s) eqn:Hz; [done|].
  split; [by simplify_eq|by constructor].
Qed.

Lemma str_blocks_Some names :
  Forall (fun s => existsb (Z.eqb 0) s = false) names ->
  map str_block names = map Some (map (fun s => s ++ [0]) names).
Proof.
  induction 1 as [|s names Hs _ IH]; [done|]. cbn [map]. unfold str_block at 1. by rewrite Hs, IH.
Qed.

Lemma length_ptrs qs : length (concat (map ptr_bytes qs)) = (8 * length qs)%nat.
Proof. induction qs as [|q qs IH]; [done|]. cbn [map concat length]. rewrite length_app, IH, ptr_bytes_length. lia. Qed.

(** The array of pointers after the loop: the filled entries and a terminator. *)
Lemma array_terminated m m' p n qs count :
  holds m p (concat (replicate (S count) (ptr_bytes null))) -> (n <= count)%nat -> length qs = n ->
  (forall a, p + 8 * Z.of_nat n <= a < p + 8 * Z.of_nat n + 8 -> m' !! a = m !! a) ->
  holds m' p (concat (map ptr_bytes qs)) -> holds m' p (concat (map ptr_bytes qs) ++ ptr_bytes null).
Proof.
  intros Hm Hn Hq Hframe Hh.
  apply holds_app. split; [done|]. rewrite length_ptrs, Hq.
  replace (S count) with (n + (1 + (count - n)))%nat in Hm by lia.
  rewrite !replicate_add, !concat_app in Hm. apply holds_app in Hm as [_ Hm]. apply holds_app in Hm as [Hm _].
  rewrite length_nulls in Hm. cbn [replicate concat] in Hm. rewrite app_nil_r in Hm.
  apply (holds_frame m); [|done]. rewrite ptr_bytes_length. intros a Ha. apply Hframe. lia.
Qed.

(** A hostent's view from what its parts hold. *)
Lemma view_hostent_intro fuel m h name names pa blocks pd :
  Forall (fun s => existsb (Z.eqb 0) s = false /\ (length s < fuel)%nat) (name :: names) ->
  (length names < fuel)%nat -> (length blocks < fuel)%nat ->
  Forall (fun b => length b = Z.to_nat (h_length h)) blocks ->
  0 < pa -> pa + Z.of_nat (length (concat (map (fun s => s ++ [0]) names))) < 2 ^ 64 ->
  0 < pd -> pd + Z.of_nat (length (concat blocks)) < 2 ^ 64 ->
  holds m (h_name h) (name ++ [0]) ->
  holds m (h_aliases h) (concat (map ptr_bytes (block_starts pa (map (fun s => s ++ [0]) names))) ++ ptr_bytes null) ->
  holds m pa (concat (map (fun s => s ++ [0]) names)) ->
  holds m (h_addr_list h) (concat (map ptr_bytes (block_starts pd blocks)) ++ ptr_bytes null) ->
  holds m pd (concat blocks) ->
  view_hostent fuel m h = Some (name, names, blocks).
Proof.
  intros Hs Hn Hbl Hk Hpa Hpa' Hpd Hpd' H1 H2 H3 H4 H5. apply Forall_cons in Hs as [[Hz Hl] Hs].
  unfold view_hostent. rewrite (read_cstr_holds name) by done.
  rewrite (read_ptrs_holds (block_starts pa (map (fun s => s ++ [0]) names))); cycle 1.
  { by rewrite block_starts_length, length_map. } { by apply block_starts_range. } { done. }
  rewrite (read_ptrs_holds (block_starts pd blocks)); cycle 1.
  { by rewrite block_starts_length. } { by apply block_starts_range. } { done. }
  rewrite (strings_read fuel names m pa) by done. by rewrite (blocks_read _ blocks m pd).
Qed.

(** ** Filling a hostent from addresses *)

Definition name_fits (s : Text) : bool := negb (existsb (Z.eqb 0) s).

Definition hostent_size (a : WAddresses) : Z :=
  align_up (Z.of_nat (length (wd_canonical a)) + 1) 8 + 16 + 8 * (Z.of_nat (length (wd_addresses a)) + 2) +
  Z.of_nat (length (concat (map addr_block (wd_addresses a)))).

(** The cells of a hostent that is filled. *)
Definition filled (a : WAddresses) (af base : Z) (o : Outs) : Outs :=
  let aliases := base + align_up (Z.of_nat (length (wd_canonical a)) + 1) 8 in
  mkOuts (o_errno o) (o_h_errno o) (put (o_ttl o) (min_ttl_i32 (map ao_ttl (wd_addresses a)))) (put (o_canon o) base)
    (o_pat o) (mkHostEnt base aliases af (if af =? AF_INET6 then 16 else 4) (aliases + 16)).

Lemma name_fits_all names :
  forallb name_fits names = true -> Forall (fun s => existsb (Z.eqb 0) s = false) names.
Proof.
  induction names as [|s names IH]; [done|]. cbn [forallb]. intros [Hs Hn]%andb_true_iff.
  apply negb_true_iff in Hs. constructor; [done|by apply IH].
Qed.

Lemma all_name_fits names :
  Forall (fun s => existsb (Z.eqb 0) s = false) names -> forallb name_fits names = true.
Proof. induction 1 as [|s names Hs _ IH]; [done|]. cbn [forallb]. unfold name_fits at 1. by rewrite Hs, IH. Qed.

Definition c_strings (names : list Text) : list Z := concat (map (fun s => s ++ [0]) names).

Lemma c_strings_short names :
  Forall (fun s => existsb (Z.eqb 0) s = false) names ->
  Forall (fun s => existsb (Z.eqb 0) s = false /\ (length s < length (c_strings names))%nat) names.
Proof.
  induction 1 as [|s names Hs _ IH]; [done|]. unfold c_strings in *. cbn [map concat]. rewrite !length_app. cbn [length].
  constructor; [split; [done|lia]|]. apply (Forall_impl _ _ _ IH). intros t [Ht Hl]. split; [done|lia].
Qed.

Section hostents.
Context (base buflen : Z) (Hbuf : buffer_ok base buflen).

(** The hostent of one family, once its addresses are packed. *)
Lemma hostent_view name xs af k A m m' :
  let n := Z.of_nat (length xs) in
  let pd := base + (A + 16 + 8 * (n + 2)) in
  let m3 := mem_write (base + (A + 16)) (concat (replicate (S (length xs + 1)) (ptr_bytes null)))
              (mem_write (base + A) (concat (replicate 2 (ptr_bytes null))) (mem_write base (name ++ [0]) m)) in
  existsb (Z.eqb 0) name = false -> Z.of_nat (length name) + 1 <= A ->
  A + 16 + 8 * (n + 2) + Z.of_nat (length (concat (map addr_block xs))) <= buflen ->
  Forall (fun x => Z.of_nat (length (addr_block x)) = k) xs ->
  (forall a, ~ (base + (A + 16) <= a < base + (A + 16) + 8 * n) -> ~ (pd <= a < base + buflen) -> m' !! a = m3 !! a) ->
  holds m' (base + (A + 16)) (concat (map ptr_bytes (block_starts pd (map addr_block xs)))) ->
  holds m' pd (concat (map addr_block xs)) ->
  view_hostent (S (Z.to_nat buflen)) m' (mkHostEnt base (base + A) af k (base + (A + 16))) =
    Some (name, [], map addr_block xs).
Proof using Hbuf.
  intros n pd m3 Hz HA Hfit Hal Hframe Hptrs Hblocks. pose proof Hbuf as (Hb & Hl & Hs).
  apply (view_hostent_intro _ _ _ _ [] base _ pd); cbn [h_name h_aliases h_addr_list h_length].
  - constructor; [|done]. split; [done|lia].
  - simpl; lia.
  - rewrite length_map. lia.
  - apply Forall_map. eapply Forall_impl; [exact Hal|]. cbn. intros x <-. lia.
  - lia.
  - simpl. lia.
  - lia.
  - unfold pd. lia.
  - apply (holds_frame (mem_write base (name ++ [0]) m)); [|apply holds_write].
    rewrite length_app. cbn [length]. intros x Hx. rewrite Hframe by lia. unfold m3.
    rewrite !mem_write_out by (rewrite ?length_nulls; lia). done.
  - cbn [map block_starts concat]. apply (array_terminated m3 m' _ 0 [] 1); [|lia|done| |done].
    + apply (holds_frame (mem_write (base + A) (concat (replicate 2 (ptr_bytes null))) (mem_write base (name ++ [0]) m))).
      * rewrite length_nulls. intros x Hx. unfold m3. apply mem_write_out. lia.
      * apply holds_write.
    + intros x Hx. apply Hframe; lia.
  - done.
  - apply (array_terminated m3 m' _ (length xs) _ (length xs + 1)); [apply holds_write|lia| | |done].
    + by rewrite block_starts_length, length_map.
    + intros x Hx. apply Hframe; lia.
  - done.
Qed.

Lemma render_hostent_spec a af o m :
  Forall (fun x => Z.of_nat (length (addr_block x)) = if af =? AF_INET6 then 16 else 4) (wd_addresses a) ->
  let '(status, o', m') := render_hostent a af base buflen o m in
  untouched base buflen m m' /\
  if name_fits (wd_canonical a) && (hostent_size a <=? buflen)
  then status = Success /\ o' = filled a af base o /\
       view_hostent (S (Z.to_nat buflen)) m' (o_result o') = Some (wd_canonical a, [], map addr_block (wd_addresses a))
  else (status, o') = out_of_room o.
Proof using Hbuf.
  intros Hal. unfold render_hostent, Packer_new, name_fits.
  destruct (align_up_spec (Z.of_nat (length (wd_canonical a)) + 1) 8 ltac:(lia) ltac:(lia)) as [HA HAm].
  unfold hostent_size, filled. set (A := align_up (Z.of_nat (length (wd_canonical a)) + 1) 8) in *.
  pose proof Hbuf as (Hb & Hl & Hs).
  rewrite pack_str_eq by (done || lia). rewrite Z.add_0_l, Z.add_0_r.
  destruct (existsb _ (wd_canonical a)) eqn:Hz; cbn [negb andb]; [by split; auto with nss|].
  set (n := Z.of_nat (length (wd_addresses a))) in *.
  set (size := Z.of_nat (length (concat (map addr_block (wd_addresses a))))) in *. assert (0 <= size) by lia.
  destruct (Z.leb_spec (Z.of_nat (length (wd_canonical a)) + 1) buflen) as [Hf|Hf]; [|no_room].
  rewrite pack_pointers_eq by (done || lia). fold A.
  destruct (Z.leb_spec (A + 8 * (Z.of_nat 1 + 1)) buflen) as [Hf2|Hf2]; [|no_room].
  replace (A + 8 * (Z.of_nat 1 + 1)) with (A + 16) in * by lia.
  assert ((A + 16) mod 8 = 0) as HA16 by (rewrite Z.add_mod, HAm by lia; done).
  rewrite pack_pointers_eq by (done || lia). rewrite align_up_id by (done || lia).
  replace (8 * (Z.of_nat (length (wd_addresses a) + 1) + 1)) with (8 * (n + 2)) by (unfold n; lia).
  destruct (Z.leb_spec (A + 16 + 8 * (n + 2)) buflen) as [Hf3|Hf3]; [|no_room].
  rewrite pack_addresses_slots; [|done|lia|].
  2: { clearbody A n. clear -HAm. Z.to_euclidean_division_equations; lia. }
  set (m3 := mem_write (base + (A + 16)) _ _).
  pose proof (pack_slots_spec base buflen (map (fun x => Some (addr_block x)) (wd_addresses a))
    (A + 16 + 8 * (n + 2)) (base + (A + 16)) m3 ltac:(lia)) as Hp.
  rewrite length_map in Hp. fold n in Hp. specialize (Hp ltac:(lia)).
  destruct (pack_slots _ _ _ _ _ _) as [r m']. destruct Hp as [Hframe Hr].
  rewrite <- map_map in Hr.
  assert (untouched base buflen m m3) as Hun3 by (unfold m3; auto with nss).
  assert (untouched base buflen m m') as Hun by (intros x Hx; rewrite Hframe by lia; by apply Hun3).
  assert (Inj (=) (=) (map (@Some (list Z)))) as Hinj by (apply list_fmap_eq_inj, _).
  destruct r as [u|].
  2: { specialize (Hr _ eq_refl). fold size in Hr. rewrite bool_decide_false by (by intros [? [=]]). split; [done|].
       destruct (Z.leb_spec (A + 16 + 8 * (n + 2) + size) buflen); [lia|done]. }
  destruct Hr as (bs & <-%Hinj & -> & Hfit & Hptrs & Hblocks). fold size in Hfit. rewrite bool_decide_true by done.
  split; [done|]. rewrite (proj2 (Z.leb_le _ _) Hfit).
  split_and!; [done|by rewrite Z.add_assoc|]. cbn [o_result].
  apply (hostent_view _ _ _ _ A m); done || lia.
Qed.

(** ** Filling a hostent from names *)

Definition reverse_names (a : WAnswer) : list Text :=
  map (fun r => trim_dots (ro_text r)) (List.filter is_ptr (wa_records a)).

(** The offset of the address array, after every name. *)
Definition names_end (first : Text) (others : list Text) : Z :=
  align_up (align_up (Z.of_nat (length first) + 1) 8 + 8 * (Z.of_nat (length others) + 2) +
            Z.of_nat (length (c_strings others))) 8.

Definition names_size (first : Text) (others : list Text) (address : IpAddr) : Z :=
  names_end first others + 24 + Z.of_nat (length (octets address)).

Definition filled_names (a : WAnswer) (first : Text) (others : list Text) (af alen : Z) (o : Outs) : Outs :=
  mkOuts (o_errno o) (o_h_errno o) (put (o_ttl o) (min_ttl_i32 (map ro_ttl (wa_records a)))) (o_canon o) (o_pat o)
    (mkHostEnt base (base + align_up (Z.of_nat (length first) + 1) 8) af alen (base + names_end first others)).

(** The hostent of an address, once its further names are packed. *)
Lemma names_view first others address af A P m m2 m3 :
  let k := Z.of_nat (length others) in
  let pa := base + (A + 8 * (k + 2)) in
  let alen := Z.of_nat (length (octets address)) in
  let m4 := mem_write (base + P) (concat (replicate 3 (ptr_bytes null))) m3 in
  let m5 := mem_write (base + (P + 24)) (octets address) m4 in
  let m' := mem_write (base + P) (ptr_bytes (base + (P + 24))) m5 in
  existsb (Z.eqb 0) first = false -> Forall (fun s => existsb (Z.eqb 0) s = false) others ->
  Z.of_nat (length first) + 1 <= A -> A + 8 * (k + 2) + Z.of_nat (length (c_strings others)) <= P ->
  P + 24 + alen <= buflen ->
  m2 = mem_write (base + A) (concat (replicate (S (S (length others))) (ptr_bytes null)))
         (mem_write base (first ++ [0]) m) ->
  (forall a, ~ (base + A <= a < base + A + 8 * k) -> ~ (pa <= a < base + buflen) -> m3 !! a = m2 !! a) ->
  holds m3 (base + A) (concat (map ptr_bytes (block_starts pa (map (fun s => s ++ [0]) others)))) ->
  holds m3 pa (c_strings others) ->
  (forall a, ~ (base + P <= a < base + buflen) -> m' !! a = m3 !! a) /\
  view_hostent (S (Z.to_nat buflen)) m' (mkHostEnt base (base + A) af alen (base + P)) =
    Some (first, others, [octets address]).
Proof using Hbuf.
  intros k pa alen m4 m5 m' Hz Hall HA HP Hfit Hm2 Hframe Hptrs Hblocks. pose proof Hbuf as (Hb & Hl & Hs).
  assert (forall x, ~ (base + P <= x < base + (P + 24) + alen) -> m' !! x = m3 !! x) as Hm'.
  { intros x Hx. unfold m', m5, m4. rewrite !mem_write_out; [done| | |]; rewrite ?length_nulls, ?ptr_bytes_length; lia. }
  split; [intros x Hx; apply Hm'; lia|].
  apply (view_hostent_intro _ _ _ _ others pa [octets address] (base + (P + 24)));
    cbn [h_name h_aliases h_addr_list h_length]; fold (c_strings others).
  - constructor; [split; [done|lia]|]. apply (Forall_impl _ _ _ (c_strings_short others Hall)). intros s [Hs1 Hs2].
    split; [done|]. lia.
  - lia.
  - simpl. lia.
  - constructor; [lia|done].
  - lia.
  - unfold pa. lia.
  - lia.
  - simpl. rewrite app_nil_r. lia.
  - apply (holds_frame (mem_write base (first ++ [0]) m)); [|apply holds_write].
    rewrite length_app. cbn [length]. intros x Hx. rewrite Hm', Hframe, Hm2 by lia.
    apply mem_write_out. rewrite length_nulls. lia.
  - apply (array_terminated m2 m' _ (length others) _ (S (length others))); [rewrite Hm2; apply holds_write|lia| | |].
    + by rewrite block_starts_length, length_map.
    + intros x Hx. rewrite Hm', Hframe by lia. done.
    + apply (holds_frame m3); [|done]. intros x Hx. apply Hm'.
      rewrite length_ptrs, block_starts_length, length_map in Hx. lia.
  - apply (holds_frame m3); [|done]. intros x Hx. apply Hm'. lia.
  - apply (array_terminated m4 m' _ 1 _ 2); [apply holds_write|lia|done| |].
    + intros x Hx. unfold m', m5. rewrite !mem_write_out; [done| |]; rewrite ?ptr_bytes_length; lia.
    + cbn [block_starts map concat]. rewrite app_nil_r. apply holds_write.
  - cbn [concat]. rewrite app_nil_r. apply (holds_frame m5); [|apply holds_write].
    intros x Hx. unfold m'. apply mem_write_out. rewrite ptr_bytes_length. lia.
Qed.

Lemma render_names_spec a first others address af alen o m :
  reverse_names a = first :: others -> alen = Z.of_nat (length (octets address)) ->
  let '(status, o', m') := render_names a address af alen base buflen o m in
  untouched base buflen m m' /\
  if forallb name_fits (first :: others) && (names_size first others address <=? buflen)
  then status = Success /\ o' = filled_names a first others af alen o /\
       view_hostent (S (Z.to_nat buflen)) m' (o_result o') = Some (first, others, [octets address])
  else (status, o') = out_of_room o.
Proof using Hbuf.
  unfold reverse_names, render_names. intros -> ->. unfold Packer_new. cbn [forallb]. unfold name_fits at 1.
  destruct (align_up_spec (Z.of_nat (length first) + 1) 8 ltac:(lia) ltac:(lia)) as [HA HAm].
  unfold names_size, filled_names.
  set (A := align_up (Z.of_nat (length first) + 1) 8) in *. set (k := Z.of_nat (length others)).
  set (S1 := A + 8 * (k + 2) + Z.of_nat (length (c_strings others))).
  destruct (align_up_spec S1 8 ltac:(lia) ltac:(lia)) as [HL HLm].
  change (names_end first others) with (align_up S1 8). set (L := align_up S1 8) in *.
  pose proof Hbuf as (Hb & Hl & Hs).
  rewrite pack_str_eq by (done || lia). rewrite Z.add_0_l, Z.add_0_r.
  destruct (existsb _ first) eqn:Hz; cbn [negb andb]; [by split; auto with nss|].
  destruct (Z.leb_spec (Z.of_nat (length first) + 1) buflen) as [Hf|Hf]; [|no_room].
  rewrite pack_pointers_eq by (done || lia). fold A.
  replace (Z.of_nat (S (length others)) + 1) with (k + 2) by (unfold k; lia).
  destruct (Z.leb_spec (A + 8 * (k + 2)) buflen) as [Hf2|Hf2]; [|no_room].
  rewrite pack_aliases_slots by (done || lia). set (m2 := mem_write (base + A) _ _).
  pose proof (pack_slots_spec base buflen (map str_block others) (A + 8 * (k + 2)) (base + A) m2 ltac:(lia)) as Hp.
  rewrite length_map in Hp. fold k in Hp. specialize (Hp ltac:(lia)).
  destruct (pack_slots _ _ _ _ _ _) as [r m3]. destruct Hp as [Hframe Hr].
  assert (untouched base buflen m m3) as Hun.
  { assert (untouched base buflen m m2) as Hun2 by (unfold m2; auto with nss).
    intros x Hx. rewrite Hframe by lia. by apply Hun2. }
  destruct r as [u|]; cbn [fmap option_fmap option_map].
  2: { split; [done|]. destruct (forallb _ others) eqn:Hall; [|done].
       specialize (Hr _ (str_blocks_Some others (name_fits_all others Hall))). fold (c_strings others) in Hr.
       destruct (Z.leb_spec (L + 24 + Z.of_nat (length (octets address))) buflen); [lia|done]. }
  destruct Hr as (bs & Hbs & Hu & Hfit & Hptrs & Hblocks). destruct (str_blocks others bs Hbs) as [-> Hall].
  fold (c_strings others) in Hu, Hblocks. fold S1 in Hu. subst u.
  rewrite (all_name_fits others Hall). cbn [andb].
  rewrite pack_pointers_eq by (done || lia). fold L. replace (8 * (Z.of_nat 2 + 1)) with 24 by lia.
  destruct (Z.leb_spec (L + 24) buflen) as [Hf4|Hf4]; [|no_room].
  rewrite pack_bytes_eq by (done || lia). rewrite align_up_id; [|lia|].
  2: { clearbody L. clear -HLm. Z.to_euclidean_division_equations; lia. }
  destruct (Z.leb_spec (L + 24 + Z.of_nat (length (octets address))) buflen) as [Hf5|Hf5].
  2: { split; [auto with nss|done]. }
  destruct (names_view first others address af A L m m2 m3) as [Hm' Hview]; try (done || lia).
  split; [intros x Hx; rewrite Hm' by lia; by apply Hun|]. by split_and!.
Qed.
End hostents.

(** ** A chain of tuples as a C program sees it *)

Record TupleView : Type := mkTupleView { tv_name : Text; tv_family : Z; tv_addr : list Z; tv_scope : Z }.

(** Four-byte addresses leave the rest of the sixteen zero. *)
Definition expected_tuple (canonical : Text) (x : AddressOut) : TupleView :=
  mkTupleView canonical (if is_ipv4 (ao_address x) then AF_INET else AF_INET6)
    (addr_block x ++ replicate (16 - length (addr_block x)) 0) 0.

(** [chars] bounds the length of the name, [fuel] the number of tuples. *)
Fixpoint view_tuples (chars fuel : nat) (m : Mem) (p : Z) : option (list TupleView) :=
  match fuel with
  | O => None
  | S fuel =>
      if p =? null then Some []
      else
        match read_cstr chars m (from_le (mem_read m (p + 8) 8)), view_tuples chars fuel m (from_le (mem_read m p 8)) with
        | Some name, Some rest =>
            Some (mkTupleView name (from_le (mem_read m (p + 16) 4)) (mem_read m (p + 20) 16)
                    (from_le (mem_read m (p + 36) 4)) :: rest)
        | _, _ => None
        end
  end.

Lemma le_bytes_from_le bs : bytes_ok bs -> le_bytes (length bs) (from_le bs) = bs.
Proof.
  intros Hb. unfold le_bytes, from_le. rewrite <- length_rev. rewrite be_bytes_from_be by by apply Forall_rev.
  apply rev_involutive.
Qed.

Lemma le_words n : forall bs, bytes_ok bs -> length bs = (4 * n)%nat ->
  concat (map (fun i => le_bytes 4 (from_le (take 4 (drop (4 * i) bs)))) (seq 0 n)) = bs.
Proof.
  induction n as [|n IH]; intros bs Hb Hl; [by destruct bs|].
  cbn [seq map concat]. rewrite Nat.mul_0_r, drop_0. transitivity (take 4 bs ++ drop 4 bs); [|apply take_drop]. f_equal.
  - rewrite <- (le_bytes_from_le (take 4 bs)) at 2 by by apply Forall_take. f_equal. rewrite length_take. lia.
  - rewrite <- (IH (drop 4 bs)) at 1 by (try apply Forall_drop; rewrite ?length_drop; done || lia).
    rewrite <- seq_shift, map_map. f_equal. apply map_ext. intros i. rewrite drop_drop. do 4 f_equal. lia.
Qed.

Lemma tuple_addr_bytes x :
  concat (map (le_bytes 4) (tuple_address (ao_address x)).2) =
  addr_block x ++ replicate (16 - length (addr_block x)) 0.
Proof.
  unfold addr_block. rewrite octets_length. destruct (ao_address x) as [v|v]; cbn [tuple_address snd is_ipv4 octets].
  - cbn [map concat]. f_equal. apply (le_bytes_from_le (octets_v4 v)), be_bytes_ok.
  - rewrite app_nil_r. apply (le_words 4 (octets_v6 v)); [apply be_bytes_ok|apply length_be_bytes].
Qed.

(** The bytes of one tuple, field by field. *)
Lemma tuple_fields m p next name family addr :
  holds m p (tuple_bytes next name family addr 0) -> in_width 64 next -> in_width 64 name -> in_width 32 family ->
  length (concat (map (le_bytes 4) addr)) = 16%nat ->
  from_le (mem_read m p 8) = next /\ from_le (mem_read m (p + 8) 8) = name /\
  from_le (mem_read m (p + 16) 4) = family /\ mem_read m (p + 20) 16 = concat (map (le_bytes 4) addr) /\
  from_le (mem_read m (p + 36) 4) = 0.
Proof.
  unfold tuple_bytes. intros Hh Hn Hc Hf Ha.
  apply holds_app in Hh as [H1 Hh]. apply holds_app in Hh as [H2 Hh]. apply holds_app in Hh as [H3 Hh].
  apply holds_app in Hh as [H4 H5]. unfold holds in *.
  rewrite ?ptr_bytes_length, ?length_le_bytes, ?Ha in *. unfold ptr_bytes in *.
  rewrite <- !Z.add_assoc in *. cbn [Z.of_nat] in *.
  change (Z.of_nat 8) with 8 in *. change (Z.of_nat 4) with 4 in *. change (Z.of_nat 16) with 16 in *.
  change (8 + 8) with 16 in *. change (8 + (8 + 4)) with 20 in *. change (8 + (8 + (4 + 16))) with 36 in *.
  rewrite H1, H2, H3, H4, H5, !le_roundtrip by done. done.
Qed.

Lemma view_chain m chars canonical name xs : forall fuel p,
  (length xs < fuel)%nat -> 0 < p -> p + 40 * Z.of_nat (length xs) < 2 ^ 64 -> in_width 64 canonical ->
  read_cstr chars m canonical = Some name -> holds m p (chain_bytes p canonical xs) ->
  view_tuples chars fuel m (match xs with [] => null | _ => p end) = Some (map (expected_tuple name) xs).
Proof.
  induction xs as [|x xs IH]; intros fuel p Hf Hp Hl Hc Hn Hh; (destruct fuel as [|fuel]; [simpl in Hf; lia|]);
    cbn [view_tuples]; [done|].
  cbn [chain_bytes length] in *. rewrite (proj2 (Z.eqb_neq p null)) by (unfold null; lia).
  pose proof (tuple_addr_bytes x) as Ha. pose proof (tuple_bytes_length (match xs with [] => null | _ => p + 40 end) canonical (ao_address x) 0) as Hlen.
  assert (tuple_address (ao_address x) = (if is_ipv4 (ao_address x) then AF_INET else AF_INET6, (tuple_address (ao_address x)).2))
    as Hfam by by destruct (ao_address x).
  rewrite Hfam in Hlen, Hh. cbn [fst snd] in Hlen. apply holds_app in Hh as [Ht Hh]. rewrite Hlen in Hh.
  apply tuple_fields in Ht as (-> & -> & -> & -> & ->); cycle 1.
  { unfold in_width, null. destruct xs; cbn [length] in *; lia. } { done. }
  { by destruct (is_ipv4 _). }
  { rewrite Ha, length_app, length_replicate. unfold addr_block. rewrite octets_length. by destruct (is_ipv4 _). }
  rewrite Hn. rewrite (IH fuel (p + 40)) by (done || lia). cbn [map]. unfold expected_tuple at 1. by rewrite Ha.
Qed.

(** ** What the module finds out *)

Lemma is_filter_nil {A} (p : A -> bool) l : List.filter p l = [] <-> Forall (fun x => p x = false) l.
Proof.
  induction l as [|x l IH]; [by split|]. cbn [List.filter]. rewrite Forall_cons, <- IH.
  destruct (p x); (split; [done || by split|by intros []]).
Qed.

Lemma Forall_is_filter {A} (p : A -> bool) l : Forall (fun x => p x = true) (List.filter p l).
Proof. apply List.Forall_forall. by intros x [_ Hx]%filter_In. Qed.

(** Addresses the module hands on: at least one, all of the family asked for. *)
Lemma resolve_addresses_family ask name family a :
  resolve_addresses ask name family = GValue a ->
  wd_addresses a <> [] /\ Forall (fun x => of_family family x = true) (wd_addresses a).
Proof.
  unfold resolve_addresses. destruct (is_localhost name).
  { intros [=<-]. split; [by destruct family|]. destruct family; repeat constructor. }
  unfold nss_lookup. destruct (ask _) as [[[| | |a'|]|[| | | | |[]]]|]; try done.
  unfold classify_addresses. destruct (wd_outcome a'); try done. cbn [wd_addresses].
  case_bool_decide as Hb; [done|]. intros [=<-]. split; [done|]. apply Forall_is_filter.
Qed.

(** The daemon says that a name has no address of the family. *)
Definition says_absent (family : WFamily) (reply : option (result WireError Reply)) : Prop :=
  exists a, reply = Some (Ok (RAddresses a)) /\
    (wd_outcome a = NotFound \/
     wd_outcome a = Found /\ Forall (fun x => of_family family x = false) (wd_addresses a)).

Definition absent {A} (got : Got A) : bool := match got with GNotFound | GNoData => true | _ => false end.

Lemma resolve_absent ask name family :
  absent (resolve_addresses ask name family) = true <->
  is_localhost name = false /\ says_absent family (ask (QLookup name family)).
Proof.
  unfold resolve_addresses, says_absent. destruct (is_localhost name); [by split; [|intros []]|].
  unfold nss_lookup. destruct (ask _) as [[[| | |a|]|[| | | | |[]]]|];
    try (split; [done|by intros (_ & a' & [=] & _)]).
  unfold classify_addresses. cbn [wd_addresses]. destruct (wd_outcome a) eqn:Ho.
  - case_bool_decide as Hb; cbn [absent].
    + split; [|done]. intros _. split; [done|]. exists a. split; [done|]. right. by rewrite <- is_filter_nil.
    + split; [done|]. intros (_ & a' & [=<-] & [H|[_ H]]); [congruence|]. by rewrite <- is_filter_nil in H.
  - split; [|done]. intros _. split; [done|]. exists a. auto.
  - split; [done|]. intros (_ & a' & [=<-] & [H|[H _]]); congruence.
Qed.

Definition says_nameless (reply : option (result WireError Reply)) : Prop :=
  exists a, reply = Some (Ok (RAnswer a)) /\
    (wa_outcome a = NotFound \/ wa_outcome a = Found /\ reverse_names a = []).

Lemma reverse_names_nil a : reverse_names a = [] <-> existsb is_ptr (wa_records a) = false.
Proof.
  unfold reverse_names. induction (wa_records a) as [|r l IH]; [done|]. cbn [List.filter existsb].
  by destruct (is_ptr r).
Qed.

Lemma reverse_absent ask address :
  absent (nss_reverse ask address) = true <-> says_nameless (ask (QReverse address)).
Proof.
  unfold nss_reverse, says_nameless. destruct (ask _) as [[[| |a| |]|[| | | | |[]]]|];
    try (split; [done|by intros (a' & [=] & _)]).
  unfold classify_reverse. destruct (wa_outcome a) eqn:Ho.
  - pose proof (reverse_names_nil a) as Hn. destruct (existsb _ _); cbn [negb absent].
    + split; [done|]. intros (a' & [=<-] & [H|[_ H]]); [congruence|]. by apply Hn in H.
    + split; [|done]. intros _. exists a. split; [done|]. right. split; [done|]. by apply Hn.
  - split; [|done]. intros _. exists a. auto.
  - split; [done|]. intros (a' & [=<-] & [H|[H _]]); congruence.
Qed.

Lemma nss_reverse_named ask address a : nss_reverse ask address = GValue a -> reverse_names a <> [].
Proof.
  unfold nss_reverse. destruct (ask _) as [[[| |a'| |]|[| | | | |[]]]|]; try done.
  unfold classify_reverse. destruct (wa_outcome a'); try done. destruct (existsb _ _) eqn:He; [|done].
  intros [=<-] Hn. apply reverse_names_nil in Hn. congruence.
Qed.

(** ** The entry points *)

Definition tuples_size (a : WAddresses) : Z :=
  align_up (Z.of_nat (length (wd_canonical a)) + 1) 8 + 40 * Z.of_nat (length (wd_addresses a)).

Section tuples.
Context (base buflen : Z) (Hbuf : buffer_ok base buflen).

(** The first tuple decides the alignment of the others. *)
Lemma pack_tuples_aligned canonical previous first x xs used m :
  0 <= used <= buflen ->
  pack_tuples (mkPacker base buflen used) canonical previous first (x :: xs) m =
  if align_up used 8 <=? buflen
  then pack_tuples (mkPacker base buflen (align_up used 8)) canonical previous first (x :: xs) m else (None, m).
Proof using Hbuf.
  intros Hu. destruct (align_up_spec used 8 ltac:(lia) ltac:(lia)) as [Hs Hm].
  cbn [pack_tuples]. unfold TUPLE_SIZE, TUPLE_ALIGN. rewrite reserve_eq by (done || lia).
  destruct (Z.leb_spec (align_up used 8) buflen).
  - by rewrite reserve_eq, (align_up_id (align_up used 8)) by (done || lia).
  - destruct (Z.leb_spec (align_up used 8 + 40) buflen); [lia|done].
Qed.

Lemma render_tuples_spec a m :
  wd_addresses a <> [] ->
  let fits := name_fits (wd_canonical a) && (tuples_size a <=? buflen) in
  let first := base + align_up (Z.of_nat (length (wd_canonical a)) + 1) 8 in
  match pack_str (Packer_new base buflen) (wd_canonical a) m with
  | None => fits = false
  | Some (canonical, pk, m1) =>
      let '(r, m') := pack_tuples pk canonical null null (wd_addresses a) m1 in
      untouched base buflen m m' /\ r = (if fits then Some first else None) /\
      (fits = true -> view_tuples (S (Z.to_nat buflen)) (S (Z.to_nat buflen)) m' first =
                      Some (map (expected_tuple (wd_canonical a)) (wd_addresses a)))
  end.
Proof using Hbuf.
  intros Hne fits first. pose proof Hbuf as (Hb & Hl & Hs). unfold Packer_new.
  destruct (align_up_spec (Z.of_nat (length (wd_canonical a)) + 1) 8 ltac:(lia) ltac:(lia)) as [HA HAm].
  unfold fits, first, tuples_size, name_fits. set (A := align_up (Z.of_nat (length (wd_canonical a)) + 1) 8) in *.
  set (n := Z.of_nat (length (wd_addresses a))).
  rewrite pack_str_eq by (done || lia). rewrite Z.add_0_l, Z.add_0_r.
  destruct (existsb _ (wd_canonical a)) eqn:Hz; cbn [negb andb]; [done|].
  destruct (Z.leb_spec (Z.of_nat (length (wd_canonical a)) + 1) buflen) as [Hf|Hf].
  2: { destruct (Z.leb_spec (A + 40 * n) buflen); [lia|done]. }
  set (m1 := mem_write base _ m). assert (untouched base buflen m m1) as Hun1 by (unfold m1; auto with nss).
  pose proof (pack_tuples_spec base buflen Hbuf base (wd_addresses a) A null null m1) as Hp. fold n in Hp.
  destruct (wd_addresses a) as [|x xs] eqn:Hxs; [done|]. rewrite pack_tuples_aligned by lia. fold A.
  destruct (Z.leb_spec A buflen) as [HAl|HAl].
  2: { destruct (Z.leb_spec (A + 40 * n) buflen); [lia|]. by split_and!. }
  specialize (Hp ltac:(lia) HAm ltac:(by left)).
  destruct (pack_tuples _ _ _ _ _ _) as [r m']. destruct Hp as [Hframe Hr].
  assert (untouched base buflen m m') as Hun by (intros y Hy; rewrite Hframe by lia; by apply Hun1).
  destruct (Z.leb_spec (A + 40 * n) buflen) as [Hfit|Hfit]; [|done].
  destruct Hr as (-> & _ & _ & Hchain). split_and!; [done|done|]. intros _.
  apply (view_chain m' _ base (wd_canonical a) (x :: xs)).
  - unfold n in Hfit. cbn [length] in *. lia.
  - lia.
  - fold n. lia.
  - unfold in_width. lia.
  - apply read_cstr_holds; [lia|done|]. apply (holds_frame m1); [|apply holds_write].
    rewrite length_app. cbn [length]. intros y Hy. apply Hframe; [|lia]. by intros [].
  - done.
Qed.
End tuples.

(** The length of an address of a family, as the hostent states it. *)
Lemma family_length af family x :
  nss_family_of af = Some family -> family <> WAny -> of_family family x = true ->
  Z.of_nat (length (addr_block x)) = if af =? AF_INET6 then 16 else 4.
Proof.
  unfold nss_family_of, addr_block. rewrite octets_length. destruct (Z.eqb_spec af AF_INET) as [->|].
  { intros [=<-] _ Hx. cbn [of_family] in Hx. by rewrite Hx. }
  destruct (Z.eqb_spec af AF_INET6) as [->|]; [|by destruct (af =? AF_UNSPEC); intros [=<-]].
  intros [=<-] _ Hx. cbn [of_family] in Hx. by destruct (is_ipv4 _).
Qed.

(** A forward lookup through the module.  Whatever the daemon answers and
    however small the buffer, nothing outside it is written.  When the answer
    fits (the exact size is [hostent_size] or [tuples_size]) the call succeeds,
    and a C program that follows the pointers it was given reads the canonical
    name, no aliases and every address of the answer in order, as a hostent of
    the family asked for or as a chain of tuples; otherwise the caller is told
    to retry with more room and its other cells are as they were. *)
Lemma forward_answer_reaches_caller ask pointer name base buflen o m :
  buffer_ok base buflen -> borrow pointer = Some name ->
  (forall af family a,
     nss_family_of af = Some family -> family <> WAny -> resolve_addresses ask name family = GValue a ->
     let '(status, o', m') := gethostbyname3_r ask pointer af base buflen o m in
     untouched base buflen m m' /\
     if name_fits (wd_canonical a) && (hostent_size a <=? buflen)
     then status = Success /\ o' = filled a af base o /\
          view_hostent (S (Z.to_nat buflen)) m' (o_result o') =
            Some (wd_canonical a, [], map addr_block (wd_addresses a))
     else (status, o') = fail TryAgain ERANGE NETDB_INTERNAL o) /\
  (forall a,
     resolve_addresses ask name WAny = GValue a ->
     let '(status, o', m') := gethostbyname4_r ask pointer base buflen o m in
     untouched base buflen m m' /\
     if name_fits (wd_canonical a) && (tuples_size a <=? buflen)
     then exists first, status = Success /\ o_pat o' = put (o_pat o) first /\
          o_ttl o' = put (o_ttl o) (min_ttl_i32 (map ao_ttl (wd_addresses a))) /\
          view_tuples (S (Z.to_nat buflen)) (S (Z.to_nat buflen)) m' first =
            Some (map (expected_tuple (wd_canonical a)) (wd_addresses a))
     else (status, o') = fail TryAgain ERANGE NETDB_INTERNAL o).
Proof.
  intros Hbuf Hn. split.
  - intros af family a Haf Hany Ha. unfold gethostbyname3_r. rewrite Hn, Haf.
    replace (match family with WAny => _ | _ => _ end) with (render_hostent a af base buflen o m)
      by (destruct family; first [by rewrite Ha|by destruct Hany]).
    destruct (resolve_addresses_family _ _ _ _ Ha) as [_ Hfam].
    apply (render_hostent_spec base buflen Hbuf a af o m). apply (Forall_impl _ _ _ Hfam).
    intros x. by apply family_length.
  - intros a Ha. unfold gethostbyname4_r. rewrite Hn, Ha.
    destruct (resolve_addresses_family _ _ _ _ Ha) as [Hne _].
    pose proof (render_tuples_spec base buflen Hbuf a m Hne) as Hr. cbv zeta in Hr.
    destruct (pack_str _ _ m) as [[[canonical pk] m1]|].
    2: { rewrite Hr. split; [apply untouched_refl|done]. }
    destruct (pack_tuples _ _ _ _ _ _) as [r m']. destruct Hr as (Hun & -> & Hview).
    destruct (name_fits _ && _); (split; [done|]); [|done]. eexists. by split_and!; [| | |apply Hview].
Qed.

Lemma address_of_bytes_octets af addr address :
  bytes_ok addr -> address_of_bytes af addr = Some address -> octets address = addr.
Proof.
  intros Hb. unfold address_of_bytes.
  destruct ((af =? AF_INET) && (length addr =? 4)%nat) eqn:H4.
  { apply andb_true_iff in H4 as [_ Hl%Nat.eqb_eq]. intros [=<-]. cbn. unfold octets_v4. rewrite <- Hl.
    by apply be_bytes_from_be. }
  destruct ((af =? AF_INET6) && (length addr =? 16)%nat) eqn:H16; [|done].
  apply andb_true_iff in H16 as [_ Hl%Nat.eqb_eq]. intros [=<-]. cbn. unfold octets_v6. rewrite <- Hl.
  by apply be_bytes_from_be.
Qed.

(** A reverse lookup through the module: the names of the answer, less
    their trailing dots, in order, the first as the name and the others as the
    aliases, with the address the caller gave as the one address; written
    inside the buffer only, and refused for lack of room exactly when a name
    has a zero byte or [names_size] exceeds the buffer. *)
Lemma reverse_answer_reaches_caller ask addr af address a first others base buflen o m :
  buffer_ok base buflen -> bytes_ok addr -> address_of_bytes af addr = Some address ->
  (if is_loopback address then GValue loopback_answer else nss_reverse ask address) = GValue a ->
  reverse_names a = first :: others ->
  let '(status, o', m') := gethostbyaddr2_r ask (Some addr) af base buflen o m in
  untouched base buflen m m' /\
  if forallb name_fits (first :: others) && (names_size first others address <=? buflen)
  then status = Success /\ o_ttl o' = put (o_ttl o) (min_ttl_i32 (map ro_ttl (wa_records a))) /\
       h_addrtype (o_result o') = af /\ h_length (o_result o') = Z.of_nat (length addr) /\
       view_hostent (S (Z.to_nat buflen)) m' (o_result o') = Some (first, others, [addr])
  else (status, o') = fail TryAgain ERANGE NETDB_INTERNAL o.
Proof.
  intros Hbuf Hb Haddr Ha Hn. pose proof (address_of_bytes_octets _ _ _ Hb Haddr) as Ho.
  unfold gethostbyaddr2_r. rewrite Haddr, Ha.
  pose proof (render_names_spec base buflen Hbuf a first others address af (Z.of_nat (length addr)) o m Hn) as Hr.
  rewrite Ho in Hr. specialize (Hr eq_refl).
  destruct (render_names _ _ _ _ _ _ _ _) as [[status o'] m']. destruct Hr as [Hun Hr]. split; [done|].
  destruct (forallb _ _ && _); [|done]. destruct Hr as (-> & -> & Hv). by split_and!.
Qed.

(** C36. An answer through the module.  Whatever the daemon answers and however
    small the buffer, nothing outside it is written.  When the answer fits (the
    exact sizes are [hostent_size], [tuples_size] and [names_size]) the call
    succeeds, and a C program that follows the pointers it was given reads the
    whole answer back: of a name the canonical name, no aliases and every
    address in order, as a hostent of the family asked for or as a chain of
    tuples; of an address its names less their trailing dots, the first as the
    name and the others as aliases, and the address itself.  Otherwise the
    caller is told to retry with more room and its other cells are as they
    were. *)
Theorem answers_reach_the_caller ask pointer name addr af address a first others base buflen o m :
  buffer_ok base buflen -> borrow pointer = Some name ->
  bytes_ok addr -> address_of_bytes af addr = Some address ->
  (if is_loopback address then GValue loopback_answer else nss_reverse ask address) = GValue a ->
  reverse_names a = first :: others ->
  (forall af family a,
     nss_family_of af = Some family -> family <> WAny -> resolve_addresses ask name family = GValue a ->
     let '(status, o', m') := gethostbyname3_r ask pointer af base buflen o m in
     untouched base buflen m m' /\
     if name_fits (wd_canonical a) && (hostent_size a <=? buflen)
     then status = Success /\ o' = filled a af base o /\
          view_hostent (S (Z.to_nat buflen)) m' (o_result o') =
            Some (wd_canonical a, [], map addr_block (wd_addresses a))
     else (status, o') = fail TryAgain ERANGE NETDB_INTERNAL o) /\
  (forall a,
     resolve_addresses ask name WAny = GValue a ->
     let '(status, o', m') := gethostbyname4_r ask pointer base buflen o m in
     untouched base buflen m m' /\
     if name_fits (wd_canonical a) && (tuples_size a <=? buflen)
     then exists first, status = Success /\ o_pat o' = put (o_pat o) first /\
          o_ttl o' = put (o_ttl o) (min_ttl_i32 (map ao_ttl (wd_addresses a))) /\
          view_tuples (S (Z.to_nat buflen)) (S (Z.to_nat buflen)) m' first =
            Some (map (expected_tuple (wd_canonical a)) (wd_addresses a))
     else (status, o') = fail TryAgain ERANGE NETDB_INTERNAL o) /\
  (let '(status, o', m') := gethostbyaddr2_r ask (Some addr) af base buflen o m in
   untouched base buflen m m' /\
   if forallb name_fits (first :: others) && (names_size first others address <=? buflen)
   then status = Success /\ o_ttl o' = put (o_ttl o) (min_ttl_i32 (map ro_ttl (wa_records a))) /\
        h_addrtype (o_result o') = af /\ h_length (o_result o') = Z.of_nat (length addr) /\
        view_hostent (S (Z.to_nat buflen)) m' (o_result o') = Some (first, others, [addr])
   else (status, o') = fail TryAgain ERANGE NETDB_INTERNAL o).
Proof.
  intros Hbuf Hn Hb Haddr Ha Hnames.
  destruct (forward_answer_reaches_caller ask pointer name base buflen o m Hbuf Hn) as [H3 H4].
  split; [exact H3|]. split; [exact H4|]. by apply reverse_answer_reaches_caller.
Qed.

Lemma render_hostent_status a af base buflen o m : (render_hostent a af base buflen o m).1.1 <> NssNotFound.
Proof.
  unfold render_hostent. destruct (pack_str _ _ _) as [[[? ?] ?]|]; [|done].
  do 2 (destruct (pack_pointers _ _ _) as [[[? ?] ?]|]; [|done]). by destruct (pack_addresses _ _ _ _) as [[]].
Qed.

Lemma render_names_status a address af len base buflen o m :
  reverse_names a <> [] -> (render_names a address af len base buflen o m).1.1 <> NssNotFound.
Proof.
  unfold reverse_names, render_names. destruct (map _ _) as [|first others]; [done|]. intros _.
  destruct (pack_str _ _ _) as [[[? ?] ?]|]; [|done]. destruct (pack_pointers _ _ _) as [[[? ?] ?]|]; [|done].
  destruct (pack_aliases _ _ _ _) as [[?|] ?]; [|done]. destruct (pack_pointers _ _ _) as [[[? ?] ?]|]; [|done].
  by destruct (pack_bytes _ _ _ _) as [[[? ?] ?]|].
Qed.

(** The call of one connection: the daemon's own reply comes back from the frame
    it answers with, and a daemon that is away or silent gives none. *)
Lemma nss_ask_reply io peer q reply rest :
  Reply_wf reply -> small (Request_encode q) -> small (Reply_encode reply) ->
  (nss_connect io = true -> peer = Ok (response_frame reply ++ rest) -> nss_ask io peer q = Some (Ok reply)) /\
  (nss_connect io = false -> nss_ask io peer q = None) /\
  (forall e, peer = Err e -> forall r, nss_ask io peer q <> Some (Ok r)).
Proof.
  intros Hr Hq Hs. unfold nss_ask. split_and!.
  - intros -> ->. unfold call. rewrite send_frame_eq by done. cbn [snd].
    rewrite response_frame_eq, recv_frame by apply response_payload_small. cbn [result_bind].
    rewrite response_decodes by done. by rewrite (proj2 (Z.ltb_ge MAX_MESSAGE_BYTES _)) by done.
  - by intros ->.
  - intros e -> r. by destruct (nss_connect io).
Qed.

(** A name that cannot be asked: a null pointer, or not UTF-8. *)
Definition no_name (name : option (list Z)) : Prop := forall s, name = Some s -> utf8_valid s = false.

Lemma borrow_cases name :
  (borrow name = None /\ no_name name) \/ exists s, name = Some s /\ utf8_valid s = true /\ borrow name = Some s.
Proof.
  destruct name as [s|]; cbn [borrow]; [|by left]. destruct (utf8_valid s) eqn:E; [right; by exists s|left].
  split; [done|]. by intros ? [= <-].
Qed.

(** One family of a name that can be asked. *)
Lemma by_family ask s family af base buflen o m :
  utf8_valid s = true -> (af = AF_INET /\ family = WV4 \/ af = AF_INET6 /\ family = WV6) ->
  (match resolve_addresses ask s family with
   | GValue a => render_hostent a af base buflen o m
   | _ => (default (Success, o) (status_of (resolve_addresses ask s family) o), m)
   end).1.1 = NssNotFound <->
  no_name (Some s) \/
  exists s' family', Some s = Some s' /\ utf8_valid s' = true /\
    (af = AF_INET /\ family' = WV4 \/ af = AF_INET6 /\ family' = WV6) /\
    is_localhost s' = false /\ says_absent family' (ask (QLookup s' family')).
Proof.
  intros Hu Hf. trans (absent (resolve_addresses ask s family) = true).
  - pose proof (fun a => render_hostent_status a af base buflen o m) as Hs.
    destruct (resolve_addresses ask s family) as [a| | | |]; [|done..]. split; [intros Hx; by apply Hs in Hx|done].
  - rewrite resolve_absent. split; [intros []; right; by exists s, family|].
    intros [Hn|(s' & f' & [= <-] & _ & Hf' & ?)]; [by rewrite (Hn s eq_refl) in Hu|].
    replace family with f'; [done|]. destruct Hf as [[-> ->]|[-> ->]], Hf' as [[? ->]|[? ->]]; done.
Qed.

Lemma address_of_bytes_cases af bytes :
  let means a := af = AF_INET /\ length bytes = 4%nat /\ a = V4 (from_be bytes) \/
              af = AF_INET6 /\ length bytes = 16%nat /\ a = V6 (from_be bytes) in
  (address_of_bytes af bytes = None /\ forall a, ~ means a) \/
  exists a, address_of_bytes af bytes = Some a /\ (forall a', means a' -> a' = a) /\ means a.
Proof.
  intros means. unfold address_of_bytes.
  assert (AF_INET <> AF_INET6) as Hne by done.
  destruct (Z.eqb_spec af AF_INET) as [E4|E4], (Z.eqb_spec af AF_INET6) as [E6|E6],
    (Nat.eqb_spec (length bytes) 4) as [L4|L4], (Nat.eqb_spec (length bytes) 16) as [L6|L6]; cbn [andb]; try lia;
    first [by congruence
          |right; eexists; split; [reflexivity|]; unfold means; split; [intros a' Ha|]; intuition congruence
          |left; split; [reflexivity|]; unfold means; intros a Ha; intuition congruence].
Qed.

(** C37. Absence is the daemon's to assert.  For every input, a name is
    reported as not found exactly when it cannot be asked at all (a null
    pointer, or not UTF-8), or when it is asked, in a family that is served,
    is not localhost, and the daemon answered that it does not exist or that
    it has no address of the family; an address exactly when its pointer is
    null, or it is asked, is no loopback address, and the daemon answered that
    it has no name.  So never because the daemon could not be reached, did not
    answer in time or could not find out, and never for a buffer that is too
    small.  An input that cannot be asked leaves ENOENT and HOST_NOT_FOUND. *)
Theorem absence_is_asserted ask name addr af base buflen o m :
  ((gethostbyname3_r ask name af base buflen o m).1.1 = NssNotFound <->
     no_name name \/
     exists s family, name = Some s /\ utf8_valid s = true /\
       (af = AF_INET /\ family = WV4 \/ af = AF_INET6 /\ family = WV6) /\
       is_localhost s = false /\ says_absent family (ask (QLookup s family))) /\
  ((gethostbyname4_r ask name base buflen o m).1.1 = NssNotFound <->
     no_name name \/
     exists s, name = Some s /\ utf8_valid s = true /\
       is_localhost s = false /\ says_absent WAny (ask (QLookup s WAny))) /\
  ((gethostbyaddr2_r ask addr af base buflen o m).1.1 = NssNotFound <->
     addr = None \/
     exists bytes address, addr = Some bytes /\
       (af = AF_INET /\ length bytes = 4%nat /\ address = V4 (from_be bytes) \/
        af = AF_INET6 /\ length bytes = 16%nat /\ address = V6 (from_be bytes)) /\
       is_loopback address = false /\ says_nameless (ask (QReverse address))) /\
  (no_name name ->
     (gethostbyname3_r ask name af base buflen o m).1 = fail NssNotFound ENOENT HOST_NOT_FOUND o /\
     (gethostbyname4_r ask name base buflen o m).1 = fail NssNotFound ENOENT HOST_NOT_FOUND o) /\
  (addr = None -> (gethostbyaddr2_r ask addr af base buflen o m).1 = fail NssNotFound ENOENT HOST_NOT_FOUND o).
Proof.
  split_and!.
  - unfold gethostbyname3_r. destruct (borrow_cases name) as [[-> Hn]|(s & -> & Hu & ->)]; [by split; [left|]|].
    unfold nss_family_of. destruct (Z.eqb_spec af AF_INET) as [->|H4]; [apply (by_family ask s WV4); by auto|].
    destruct (Z.eqb_spec af AF_INET6) as [->|H6]; [apply (by_family ask s WV6); by auto|].
    destruct (af =? AF_UNSPEC); (split; [done|]);
      (intros [Hn|(s' & f & _ & _ & [[? _]|[? _]] & _)]; [by rewrite (Hn s eq_refl) in Hu|done|done]).
  - unfold gethostbyname4_r. destruct (borrow_cases name) as [[-> Hn]|(s & -> & Hu & ->)]; [by split; [left|]|].
    trans (absent (resolve_addresses ask s WAny) = true).
    + destruct (resolve_addresses ask s WAny) as [a| | | |] eqn:Ha; try done.
      destruct (pack_str _ _ _) as [[[? ?] ?]|]; [|done]. by destruct (pack_tuples _ _ _ _ _ _) as [[]].
    + rewrite resolve_absent. split; [intros []; right; by exists s|].
      intros [Hn|(s' & [= <-] & _ & ?)]; [by rewrite (Hn s eq_refl) in Hu|done].
  - unfold gethostbyaddr2_r. destruct addr as [bytes|]; [|by split; [left|]].
    destruct (address_of_bytes_cases af bytes) as [[-> Hno]|(address & -> & Hyes & His)].
    { split; [done|]. intros [?|(b & address & [= <-] & Ha & _)]; [done|]. by destruct (Hno address). }
    trans (is_loopback address = false /\ absent (nss_reverse ask address) = true).
    + pose proof (fun a => render_names_status a address af (Z.of_nat (length bytes)) base buflen o m) as Hs.
      destruct (is_loopback address); [split; [|by intros []]; intros Hx; by apply Hs in Hx|].
      pose proof (nss_reverse_named ask address) as Hn.
      destruct (nss_reverse ask address) as [a| | | |]; [|split; [|intros []]; done..].
      split; [|by intros []]. intros Hx. by apply (Hs a (Hn a eq_refl)) in Hx.
    + rewrite reverse_absent. split; [intros []; right; by exists bytes, address|].
      intros [?|(b & address' & [= <-] & Ha & ?)]; [done|]. by rewrite (Hyes address' Ha) in *.
  - intros Hn. unfold gethostbyname3_r, gethostbyname4_r.
    destruct (borrow_cases name) as [[-> _]|(s & -> & Hu & _)]; [done|]. by rewrite (Hn s eq_refl) in Hu.
  - by intros ->.
Qed.

(** ** A call, evaluated *)

Definition demo_addresses : WAddresses :=
  mkWAddresses Found (bytes_of "www.example") [mkAddressOut (V4 3221225985) 300; mkAddressOut (V4 3221225986) 60]
    (bytes_of "dns") Unvalidated.

Definition demo_names : WAnswer :=
  mkWAnswer Found [mkRecordOut [] 12 60 [] (bytes_of "a.example."); mkRecordOut [] 12 90 [] (bytes_of "b.example.")]
    [] None None Unvalidated 0.

Definition demo_ask (q : Request) : option (result WireError Reply) :=
  match q with
  | QLookup _ _ => Some (Ok (RAddresses demo_addresses))
  | QReverse _ => Some (Ok (RAnswer demo_names))
  | _ => None
  end.

Definition demo_outs : Outs := mkOuts (Some 0) (Some 0) (Some 0) (Some 0) (Some 0) (mkHostEnt 0 0 0 0 0).

Definition demo_name : list Z := bytes_of "www.example".

(** 72 bytes hold the hostent, 71 do not; 96 hold the tuples. *)
Lemma answers_reach_the_caller_witness :
  (gethostbyname3_r demo_ask (Some demo_name) AF_INET 4096 72 demo_outs ∅).1.1 = Success /\
  (gethostbyname3_r demo_ask (Some demo_name) AF_INET 4096 71 demo_outs ∅).1 =
    fail TryAgain ERANGE NETDB_INTERNAL demo_outs /\
  (gethostbyname4_r demo_ask (Some demo_name) 4096 96 demo_outs ∅).1.1 = Success /\
  let '(status, o', m') := gethostbyaddr2_r demo_ask (Some [192; 0; 2; 1]) AF_INET 4096 96 demo_outs ∅ in
  status = Success /\ o_ttl o' = Some 60 /\
  view_hostent 97 m' (o_result o') = Some (bytes_of "a.example", [bytes_of "b.example"], [[192; 0; 2; 1]]).
Proof.
  pose proof (fun buflen Hbuf => answers_reach_the_caller demo_ask (Some demo_name) demo_name [192; 0; 2; 1] AF_INET
    (V4 3221225985) demo_names (bytes_of "a.example") [bytes_of "b.example"] 4096 buflen demo_outs ∅ Hbuf eq_refl
    ltac:(repeat constructor; unfold in_width; lia) eq_refl ltac:(vm_compute; reflexivity) ltac:(vm_compute; reflexivity)) as H.
  destruct (H 72 ltac:(unfold buffer_ok; lia)) as [H72 _]. destruct (H 71 ltac:(unfold buffer_ok; lia)) as [H71 _].
  destruct (H 96 ltac:(unfold buffer_ok; lia)) as (_ & H96 & Hrev).
  specialize (H72 AF_INET WV4 demo_addresses eq_refl ltac:(done) ltac:(vm_compute; reflexivity)).
  specialize (H71 AF_INET WV4 demo_addresses eq_refl ltac:(done) ltac:(vm_compute; reflexivity)).
  specialize (H96 demo_addresses ltac:(vm_compute; reflexivity)).
  vm_compute (name_fits _ && _) in H72, H71, H96. vm_compute (forallb _ _ && _) in Hrev. split; [|split; [|split]].
  - destruct (gethostbyname3_r _ _ _ _ _ _ _) as [[s o'] m']. by destruct H72 as (_ & -> & _).
  - destruct (gethostbyname3_r _ _ _ _ _ _ _) as [[s o'] m']. by destruct H71 as (_ & ?).
  - destruct (gethostbyname4_r _ _ _ _ _ _) as [[s o'] m']. by destruct H96 as (_ & ? & -> & _).
  - destruct (gethostbyaddr2_r _ _ _ _ _ _ _) as [[s o'] m']. destruct Hrev as (_ & -> & -> & _ & _ & Hv). done.
Defined.

Lemma absence_is_asserted_witness :
  (gethostbyname4_r demo_ask (Some demo_name) 4096 16 demo_outs ∅).1.1 <> NssNotFound /\
  (gethostbyname3_r demo_ask (Some demo_name) AF_INET6 4096 16 demo_outs ∅).1.1 = NssNotFound /\
  (gethostbyname3_r demo_ask (Some [255]) AF_INET6 4096 16 demo_outs ∅).1 = fail NssNotFound ENOENT HOST_NOT_FOUND demo_outs.
Proof.
  destruct (absence_is_asserted demo_ask (Some demo_name) None AF_INET6 4096 16 demo_outs ∅) as (H6 & H4 & _).
  destruct (absence_is_asserted demo_ask (Some [255]) None AF_INET6 4096 16 demo_outs ∅) as (_ & _ & _ & Hno & _).
  split; [|split].
  - rewrite H4. intros [Hn|(s & [= <-] & _ & _ & a & [=<-] & [H|[_ H]])];
      [by specialize (Hn demo_name eq_refl)|done|by apply Forall_cons in H as [H _]].
  - apply H6. right. exists demo_name, WV6. split_and!; [done|done|by right|done|].
    exists demo_addresses. split; [done|]. right. split; [done|]. repeat constructor.
  - apply Hno. by intros s [= <-].
Defined.

(** Offsets are aligned and addresses only as far as the buffer is: a slot for
    pointers is a multiple of eight past the start of the buffer. *)
Lemma pointers_alignment pk count m dst pk' m' :
  0 <= pk_used pk -> pack_pointers pk count m = Some (dst, pk', m') -> pk_used pk < 2 ^ 63 ->
  dst mod 8 = pk_base pk mod 8.
Proof.
  intros Hu Hp Hw. unfold pack_pointers, reserve, offset in Hp.
  destruct (align_up_spec (pk_used pk) 8 ltac:(lia) Hu) as [Hs Hm]. fold (align_up (pk_used pk) 8) in Hp.
  rewrite wrap_small in Hp by (unfold in_width; lia).
  destruct (2 ^ 64 <=? _); [done|]. destruct (pk_len pk <? _); [done|]. injection Hp as <- _ _. cbn [pk_base].
  rewrite Z.add_mod, Hm, Z.add_0_r by lia. apply Z.mod_mod. lia.
Qed.
