(* ===== verification/CViews.v ===== *)
(** * Results as C structures (resolvd-abi/src/lib.rs, libresolvd/src/views.rs,
      resolvd-client/src/decode.rs)

    The C library stores a reply in an arena and hands out structures of
    pointers into it; the Rust client copies them back.  Memory is a map from
    the address of an allocation to what it holds, an array of one type, and
    reading where there is no such array is a fault.  Where the allocator puts
    an allocation is the parameter [malloc]. *)

From S2P Require Import Prelude Net Cache IpText Msgpack NativeWire.
Local Open Scope Z_scope.

(** ** The layouts *)

(** A pointer and a count: byte strings and every list. *)
Record Span : Type := mkSpan { sp_data : Z; sp_len : Z }.

Record CRecordOut : Type := mkCRecordOut {
  cr_name : Span; cr_rtype : Z; cr_ttl : Z; cr_data : Span; cr_text : Span }.

Record CAnswer : Type := mkCAnswer {
  ca_outcome : Z; ca_records : Span; ca_source : Span; ca_server : Span; ca_interface : Span;
  ca_validation : Z; ca_rcode : Z }.

Record CAddressOut : Type := mkCAddressOut { co_address : Span; co_ttl : Z }.

Record CAddresses : Type := mkCAddresses {
  cd_outcome : Z; cd_canonical : Span; cd_addresses : Span; cd_source : Span; cd_validation : Z }.

Record CCounters : Type := mkCCounters {
  cc_queries : Z; cc_synthetic : Z; cc_cache_hits : Z; cc_upstream_sent : Z; cc_upstream_answered : Z;
  cc_upstream_failed : Z; cc_refused : Z }.

Record CScopeStatus : Type := mkCScopeStatus {
  cs_interface : Span; cs_servers : Span; cs_domains : Span; cs_default_route : Z; cs_exclusive : Z;
  cs_metric : Z; cs_subnets : Span; cs_demoted : Span }.

Record CStatusReport : Type := mkCStatusReport {
  ct_hostname : Span; ct_netd : Z; ct_scopes : Span; ct_fallback_servers : Span; ct_cache_entries : Z;
  ct_counters : CCounters }.

(** ** Memory *)

Inductive Block : Type :=
| BBytes (l : list Z)
| BSpans (l : list Span)
| BRecords (l : list CRecordOut)
| BAddresses (l : list CAddressOut)
| BScopes (l : list CScopeStatus).

Abbreviation Heap := (gmap Z Block).

(** What the element types of arrays have in common: how an array of them is
    stored and the alignment, which is also the pointer of an empty one. *)
Class Element (A : Type) : Type := mkElement {
  to_block : list A -> Block;
  of_block : Block -> option (list A);
  dangling : Z;
  of_to_block : forall l, of_block (to_block l) = Some l;
  dangling_pos : dangling <> 0;
}.

#[export] Instance byte_element : Element Z.
Proof. refine (mkElement _ BBytes (fun b => match b with BBytes l => Some l | _ => None end) 1 _ _); done. Defined.
#[export] Instance span_element : Element Span.
Proof. refine (mkElement _ BSpans (fun b => match b with BSpans l => Some l | _ => None end) 8 _ _); done. Defined.
#[export] Instance record_element : Element CRecordOut.
Proof. refine (mkElement _ BRecords (fun b => match b with BRecords l => Some l | _ => None end) 8 _ _); done. Defined.
#[export] Instance address_element : Element CAddressOut.
Proof. refine (mkElement _ BAddresses (fun b => match b with BAddresses l => Some l | _ => None end) 8 _ _); done. Defined.
#[export] Instance scope_element : Element CScopeStatus.
Proof. refine (mkElement _ BScopes (fun b => match b with BScopes l => Some l | _ => None end) 8 _ _); done. Defined.

(** ** Storing *)

(** The arena's allocations. *)
Abbreviation Arena := Heap.

Definition absent_span : Span := mkSpan 0 0.

Section storing.
Variable malloc : Heap -> Z.

(** A boxed slice: an empty one takes no memory. *)
Definition box {A} `{Element A} (l : list A) (a : Arena) : Span * Arena :=
  match l with
  | [] => (mkSpan dangling 0, a)
  | _ => let p := malloc a in (mkSpan p (Z.of_nat (length l)), <[p := to_block l]> a)
  end.

Definition arena_bytes (value : list Z) (a : Arena) : Span * Arena := box value a.

Definition arena_text (value : Text) (a : Arena) : Span * Arena := arena_bytes value a.

Definition arena_maybe_text (value : option Text) (a : Arena) : Span * Arena :=
  match value with None => (absent_span, a) | Some value => arena_text value a end.

(** [values.iter().map(f).collect()], [f] storing in the arena. *)
Fixpoint store_each {A B} (f : A -> Arena -> B * Arena) (values : list A) (a : Arena) : list B * Arena :=
  match values with
  | [] => ([], a)
  | v :: values =>
      let (b, a) := f v a in
      let (bs, a) := store_each f values a in (b :: bs, a)
  end.

Definition store_list {A B} `{Element B} (f : A -> Arena -> B * Arena) (values : list A) (a : Arena) : Span * Arena :=
  let (owned, a) := store_each f values a in box owned a.

Definition arena_strings (values : list Text) (a : Arena) : Span * Arena := store_list arena_text values a.

Definition arena_record_out (value : RecordOut) (a : Arena) : CRecordOut * Arena :=
  let (name, a) := arena_text (ro_name value) a in
  let (data, a) := arena_bytes (ro_data value) a in
  let (text, a) := arena_text (ro_text value) a in
  (mkCRecordOut name (ro_rtype value) (ro_ttl value) data text, a).

Definition arena_record_out_list (values : list RecordOut) (a : Arena) : Span * Arena :=
  store_list arena_record_out values a.

Definition outcome_code (o : Outcome) : Z := match o with Found => 0 | NotFound => 1 | Unavailable => 2 end.

Definition validation_code (v : Validation) : Z :=
  match v with Unvalidated => 0 | Secure => 1 | Insecure => 2 | Bogus => 3 end.

Definition arena_answer (value : WAnswer) (a : Arena) : CAnswer * Arena :=
  let (records, a) := arena_record_out_list (wa_records value) a in
  let (source, a) := arena_text (wa_source value) a in
  let (server, a) := arena_maybe_text (wa_server value) a in
  let (interface, a) := arena_maybe_text (wa_interface value) a in
  (mkCAnswer (outcome_code (wa_outcome value)) records source server interface
     (validation_code (wa_validation value)) (wa_rcode value), a).

Definition arena_address_out (value : AddressOut) (a : Arena) : CAddressOut * Arena :=
  let (address, a) := arena_text (ip_to_string (ao_address value)) a in (mkCAddressOut address (ao_ttl value), a).

Definition arena_address_out_list (values : list AddressOut) (a : Arena) : Span * Arena :=
  store_list arena_address_out values a.

Definition arena_addresses (value : WAddresses) (a : Arena) : CAddresses * Arena :=
  let (canonical, a) := arena_text (wd_canonical value) a in
  let (addresses, a) := arena_address_out_list (wd_addresses value) a in
  let (source, a) := arena_text (wd_source value) a in
  (mkCAddresses (outcome_code (wd_outcome value)) canonical addresses source
     (validation_code (wd_validation value)), a).

Definition arena_counters (value : WCounters) (a : Arena) : CCounters * Arena :=
  (mkCCounters (wc_queries value) (wc_synthetic value) (wc_cache_hits value) (wc_upstream_sent value)
     (wc_upstream_answered value) (wc_upstream_failed value) (wc_refused value), a).

Definition u32_of_bool (b : bool) : Z := if b then 1 else 0.

Definition arena_scope_status (value : ScopeStatus) (a : Arena) : CScopeStatus * Arena :=
  let (interface, a) := arena_text (ss_interface value) a in
  let (servers, a) := arena_strings (ss_servers value) a in
  let (domains, a) := arena_strings (ss_domains value) a in
  let (subnets, a) := arena_strings (ss_subnets value) a in
  let (demoted, a) := arena_strings (ss_demoted value) a in
  (mkCScopeStatus interface servers domains (u32_of_bool (ss_default_route value))
     (u32_of_bool (ss_exclusive value)) (ss_metric value) subnets demoted, a).

Definition arena_scope_status_list (values : list ScopeStatus) (a : Arena) : Span * Arena :=
  store_list arena_scope_status values a.

Definition arena_status_report (value : StatusReport) (a : Arena) : CStatusReport * Arena :=
  let (hostname, a) := arena_text (sr_hostname value) a in
  let (scopes, a) := arena_scope_status_list (sr_scopes value) a in
  let (fallback_servers, a) := arena_strings (sr_fallback_servers value) a in
  let (counters, a) := arena_counters (sr_counters value) a in
  (mkCStatusReport hostname (u32_of_bool (sr_netd value)) scopes fallback_servers (sr_cache_entries value) counters, a).
End storing.

(** ** Copying back *)

Definition EINVAL : Z := 22.

Record ClientError : Type := mkClientError { ce_code : Z; ce_message : Text }.

Definition invalid {A} (message : string) : result ClientError A := Err (mkClientError EINVAL (bytes_of message)).

(** [None] is a read outside every allocation. *)
Definition Copy (A : Type) : Type := option (result ClientError A).

Definition copy_bind {A B} (x : Copy A) (f : A -> Copy B) : Copy B :=
  match x with None => None | Some (Err e) => Some (Err e) | Some (Ok a) => f a end.

Notation "'let*' x := e 'in' k" := (copy_bind e (fun x => k)) (at level 200, x name, e at level 100, k at level 200).

Definition array {A} `{Element A} (h : Heap) (s : Span) : Copy (list A) :=
  if sp_len s =? 0 then Some (Ok [])
  else
    match h !! sp_data s ≫= of_block with
    | Some l => if sp_len s <=? Z.of_nat (length l) then Some (Ok (take (Z.to_nat (sp_len s)) l)) else None
    | None => None
    end.

Definition decode_bytes (h : Heap) (s : Span) : Copy (list Z) := array h s.

Definition decode_text (h : Heap) (s : Span) : Copy Text :=
  let* b := decode_bytes h s in
  Some (if utf8_valid b then Ok b else invalid "invalid library UTF-8").

Definition decode_maybe_text (h : Heap) (s : Span) : Copy (option Text) :=
  if sp_data s =? 0 then Some (Ok None) else let* t := decode_text h s in Some (Ok (Some t)).

(** [iter().map(f).collect()] into a [Result]: the first error ends it. *)
Fixpoint copy_each {A B} (f : A -> Copy B) (l : list A) : Copy (list B) :=
  match l with
  | [] => Some (Ok [])
  | x :: l => let* y := f x in let* ys := copy_each f l in Some (Ok (y :: ys))
  end.

Definition decode_list {A B} `{Element A} (f : Heap -> A -> Copy B) (h : Heap) (s : Span) : Copy (list B) :=
  let* l := array h s in copy_each (f h) l.

Definition decode_strings (h : Heap) (s : Span) : Copy (list Text) := decode_list decode_text h s.

Definition decode_record_out (h : Heap) (value : CRecordOut) : Copy RecordOut :=
  let* name := decode_text h (cr_name value) in
  let* data := decode_bytes h (cr_data value) in
  let* text := decode_text h (cr_text value) in
  Some (Ok (mkRecordOut name (cr_rtype value) (cr_ttl value) data text)).

Definition decode_record_out_list (h : Heap) (s : Span) : Copy (list RecordOut) := decode_list decode_record_out h s.

Definition outcome_of_code (z : Z) : Copy Outcome :=
  Some (if z =? 0 then Ok Found else if z =? 1 then Ok NotFound else if z =? 2 then Ok Unavailable
        else invalid "unknown library enum").

Definition validation_of_code (z : Z) : Copy Validation :=
  Some (if z =? 0 then Ok Unvalidated else if z =? 1 then Ok Secure else if z =? 2 then Ok Insecure
        else if z =? 3 then Ok Bogus else invalid "unknown library enum").

Definition decode_answer (h : Heap) (value : CAnswer) : Copy WAnswer :=
  let* outcome := outcome_of_code (ca_outcome value) in
  let* records := decode_record_out_list h (ca_records value) in
  let* source := decode_text h (ca_source value) in
  let* server := decode_maybe_text h (ca_server value) in
  let* interface := decode_maybe_text h (ca_interface value) in
  let* validation := validation_of_code (ca_validation value) in
  Some (Ok (mkWAnswer outcome records source server interface validation (ca_rcode value))).

Definition decode_address_out (h : Heap) (value : CAddressOut) : Copy AddressOut :=
  let* text := decode_text h (co_address value) in
  Some (match ip_parse text with
        | Some address => Ok (mkAddressOut address (co_ttl value))
        | None => invalid "invalid library IP address"
        end).

Definition decode_address_out_list (h : Heap) (s : Span) : Copy (list AddressOut) := decode_list decode_address_out h s.

Definition decode_addresses (h : Heap) (value : CAddresses) : Copy WAddresses :=
  let* outcome := outcome_of_code (cd_outcome value) in
  let* canonical := decode_text h (cd_canonical value) in
  let* addresses := decode_address_out_list h (cd_addresses value) in
  let* source := decode_text h (cd_source value) in
  let* validation := validation_of_code (cd_validation value) in
  Some (Ok (mkWAddresses outcome canonical addresses source validation)).

Definition decode_counters (value : CCounters) : Copy WCounters :=
  Some (Ok (mkWCounters (cc_queries value) (cc_synthetic value) (cc_cache_hits value) (cc_upstream_sent value)
    (cc_upstream_answered value) (cc_upstream_failed value) (cc_refused value))).

Definition decode_scope_status (h : Heap) (value : CScopeStatus) : Copy ScopeStatus :=
  let* interface := decode_text h (cs_interface value) in
  let* servers := decode_strings h (cs_servers value) in
  let* domains := decode_strings h (cs_domains value) in
  let* subnets := decode_strings h (cs_subnets value) in
  let* demoted := decode_strings h (cs_demoted value) in
  Some (Ok (mkScopeStatus interface servers domains (negb (cs_default_route value =? 0))
    (negb (cs_exclusive value =? 0)) (cs_metric value) subnets demoted)).

Definition decode_scope_status_list (h : Heap) (s : Span) : Copy (list ScopeStatus) := decode_list decode_scope_status h s.

Definition decode_status_report (h : Heap) (value : CStatusReport) : Copy StatusReport :=
  let* hostname := decode_text h (ct_hostname value) in
  let* scopes := decode_scope_status_list h (ct_scopes value) in
  let* fallback_servers := decode_strings h (ct_fallback_servers value) in
  let* counters := decode_counters (ct_counters value) in
  Some (Ok (mkStatusReport hostname (negb (ct_netd value =? 0)) scopes fallback_servers (ct_cache_entries value) counters)).
