(* ===== verification/CViewsProofs.v ===== *)
(** * What the C library stores, the client copies back

    [Faithful] is the interface between the two: storing a value keeps what the
    arena held, and copying from any memory that extends the arena gives the
    value back. *)

From S2P Require Import Prelude Net Cache IpText Msgpack NativeWire NativeWireProofs CViews.
Local Open Scope Z_scope.

(** What the library relies on of the allocator: a new allocation is not at
    null and not where another one is. *)
Class Malloc (malloc : Heap -> Z) : Prop :=
  malloc_fresh : forall h, malloc h <> 0 /\ h !! malloc h = None.

Class Faithful {A B} (store : A -> Arena -> B * Arena) (copy : Heap -> B -> Copy A) (good : A -> Prop) : Prop :=
  faithful : forall v a, a ⊆ (store v a).2 /\
    (good v -> forall h, (store v a).2 ⊆ h -> copy h (store v a).1 = Some (Ok v)).

Abbreviation utf8_list := (Forall (fun s => utf8_valid s = true)).

Section faithful.
Context (malloc : Heap -> Z) {Hm : Malloc malloc}.

#[local] Instance box_faithful {A} `{Element A} : Faithful (box (A := A) malloc) array (fun _ => True).
Proof using Hm.
  intros l a. unfold box, array. destruct l as [|x l]; [by split|]. destruct (Hm a) as [_ Hf].
  cbn [fst snd sp_data sp_len length]. split; [by apply insert_subseteq|]. intros _ h Hh.
  destruct (Z.eqb_spec (Z.of_nat (S (length l))) 0); [lia|].
  rewrite (lookup_weaken _ _ _ _ (lookup_insert_eq _ _ _) Hh). cbn [mbind option_bind]. rewrite of_to_block.
  cbn [length]. rewrite Z.leb_refl, take_ge by (simpl; lia). done.
Qed.

Lemma box_not_null {A} `{Element A} (l : list A) a : sp_data (box malloc l a).1 <> 0.
Proof using Hm. destruct l; [apply dangling_pos|apply (Hm a)]. Qed.

#[local] Instance text_faithful : Faithful (arena_text malloc) decode_text (fun s => utf8_valid s = true).
Proof using Hm.
  intros s a. destruct (box_faithful s a) as [Hs Hc]. split; [done|]. intros Hu h Hh.
  unfold decode_text, decode_bytes, arena_text, arena_bytes. rewrite (Hc I h Hh). cbn. by rewrite Hu.
Qed.

#[local] Instance maybe_text_faithful :
  Faithful (arena_maybe_text malloc) decode_maybe_text (fun v => forall s, v = Some s -> utf8_valid s = true).
Proof using Hm.
  intros [s|] a; [|by split]. destruct (text_faithful s a) as [Hs Hc]. split; [done|]. intros Hu h Hh.
  unfold decode_maybe_text. cbn [arena_maybe_text]. destruct (Z.eqb_spec (sp_data (arena_text malloc s a).1) 0) as [H0|_].
  { by apply box_not_null in H0. }
  rewrite (Hc (Hu s eq_refl) h Hh). done.
Qed.

Lemma store_each_faithful {A B} (store : A -> Arena -> B * Arena) copy good :
  Faithful store copy good -> Faithful (store_each store) (fun h => copy_each (copy h)) (Forall good).
Proof using.
  intros Hf vs. induction vs as [|v vs IH]; intros a; cbn [store_each]; [by split|].
  destruct (Hf v a) as [Hs Hc]. destruct (store v a) as [b a1]. destruct (IH a1) as [Hs' Hc'].
  destruct (store_each store vs a1) as [bs a2]. cbn [fst snd] in *. split; [by etrans|].
  intros [Hv Hvs]%Forall_cons h Hh. cbn [copy_each]. rewrite Hc, Hc' by (done || by etrans). done.
Qed.

#[local] Instance list_faithful {A B} `{Element B} (store : A -> Arena -> B * Arena) copy good :
  Faithful store copy good -> Faithful (store_list malloc store) (decode_list copy) (Forall good).
Proof using Hm.
  intros Hf vs a. unfold store_list, decode_list. destruct (store_each_faithful _ _ _ Hf vs a) as [Hs Hc].
  destruct (store_each store vs a) as [bs a1]. cbn [fst snd] in *. destruct (box_faithful bs a1) as [Hs' Hc'].
  split; [by etrans|]. intros Hg h Hh. rewrite (Hc' I h Hh). cbn [copy_bind]. apply Hc; [done|by etrans].
Qed.

#[local] Typeclasses Opaque arena_text arena_bytes arena_strings arena_record_out_list arena_address_out_list
  arena_scope_status_list.

(** The next field stored: its two facts, and the arena after it. *)
Ltac stored :=
  match goal with
  | |- context [match ?st ?v ?a with (_, _) => _ end] =>
      let Hs := fresh "Hs" in let Hc := fresh "Hc" in destruct (faithful (store := st) v a) as [Hs Hc];
      destruct (st v a) as [? ?]; cbn [fst snd] in Hs, Hc
  end.

Ltac extends := solve [repeat (eassumption || (etrans; [eassumption|]))].

(** Every field copied back. *)
Ltac copied :=
  repeat match goal with
  | Hc : ?good -> forall h, ?a ⊆ h -> ?copy h ?b = _ |- context [?copy ?h ?b] =>
      rewrite (Hc ltac:(done) h ltac:(extends)); cbn [copy_bind]
  end.

#[local] Instance bytes_faithful : Faithful (arena_bytes malloc) decode_bytes (fun _ => True).
Proof using Hm. exact box_faithful. Qed.

Definition RecordOut_texts (r : RecordOut) : Prop := utf8_valid (ro_name r) = true /\ utf8_valid (ro_text r) = true.

#[local] Instance record_out_faithful : Faithful (arena_record_out malloc) decode_record_out RecordOut_texts.
Proof using Hm.
  intros v a. unfold arena_record_out. repeat stored. split; [extends|]. intros [? ?] h Hh. cbn [fst snd] in *.
  unfold decode_record_out. cbn [cr_name cr_data cr_text]. copied. by destruct v.
Qed.

#[local] Instance strings_faithful :
  Faithful (arena_strings malloc) decode_strings (Forall (fun s => utf8_valid s = true)).
Proof using Hm. exact (list_faithful _ _ _ text_faithful). Qed.

#[local] Instance records_faithful :
  Faithful (arena_record_out_list malloc) decode_record_out_list (Forall RecordOut_texts).
Proof using Hm. exact (list_faithful _ _ _ record_out_faithful). Qed.

Lemma outcome_roundtrip o : outcome_of_code (outcome_code o) = Some (Ok o).
Proof using. by destruct o. Qed.

Lemma validation_roundtrip v : validation_of_code (validation_code v) = Some (Ok v).
Proof using. by destruct v. Qed.

Definition maybe_utf8 (v : option Text) : Prop := forall s, v = Some s -> utf8_valid s = true.

Definition WAnswer_texts (a : WAnswer) : Prop :=
  Forall RecordOut_texts (wa_records a) /\ utf8_valid (wa_source a) = true /\
  maybe_utf8 (wa_server a) /\ maybe_utf8 (wa_interface a).

#[local] Instance answer_faithful : Faithful (arena_answer malloc) decode_answer WAnswer_texts.
Proof using Hm.
  intros v a. unfold arena_answer. repeat stored. split; [extends|]. intros (? & ? & ? & ?) h Hh. cbn [fst snd] in *.
  unfold decode_answer. cbn [ca_outcome ca_records ca_source ca_server ca_interface ca_validation].
  rewrite outcome_roundtrip. cbn [copy_bind]. copied. rewrite validation_roundtrip. by destruct v.
Qed.

Definition AddressOut_good (x : AddressOut) : Prop := IpAddr_wf (ao_address x).

#[local] Instance address_out_faithful : Faithful (arena_address_out malloc) decode_address_out AddressOut_good.
Proof using Hm.
  intros v a. unfold arena_address_out. repeat stored. split; [extends|]. intros Hw h Hh. cbn [fst snd] in *.
  unfold decode_address_out. cbn [co_address]. assert (utf8_valid (ip_to_string (ao_address v)) = true) as Hu.
  { by apply ip_to_string_ok. }
  copied. rewrite ip_parse_to_string by done. by destruct v.
Qed.

#[local] Instance address_list_faithful :
  Faithful (arena_address_out_list malloc) decode_address_out_list (Forall AddressOut_good).
Proof using Hm. exact (list_faithful _ _ _ address_out_faithful). Qed.

Definition WAddresses_good (a : WAddresses) : Prop :=
  utf8_valid (wd_canonical a) = true /\ Forall AddressOut_good (wd_addresses a) /\ utf8_valid (wd_source a) = true.

#[local] Instance addresses_faithful : Faithful (arena_addresses malloc) decode_addresses WAddresses_good.
Proof using Hm.
  intros v a. unfold arena_addresses. repeat stored. split; [extends|]. intros (? & ? & ?) h Hh. cbn [fst snd] in *.
  unfold decode_addresses. cbn [cd_outcome cd_canonical cd_addresses cd_source cd_validation].
  rewrite outcome_roundtrip. cbn [copy_bind]. copied. rewrite validation_roundtrip. by destruct v.
Qed.

Definition ScopeStatus_texts (s : ScopeStatus) : Prop :=
  utf8_valid (ss_interface s) = true /\ utf8_list (ss_servers s) /\ utf8_list (ss_domains s) /\
  utf8_list (ss_subnets s) /\ utf8_list (ss_demoted s).

Lemma bool_u32 b : negb (u32_of_bool b =? 0) = b.
Proof using. by destruct b. Qed.

#[local] Instance scope_status_faithful : Faithful (arena_scope_status malloc) decode_scope_status ScopeStatus_texts.
Proof using Hm.
  intros v a. unfold arena_scope_status. repeat stored. split; [extends|]. intros (? & ? & ? & ? & ?) h Hh.
  cbn [fst snd] in *. unfold decode_scope_status.
  cbn [cs_interface cs_servers cs_domains cs_subnets cs_demoted cs_default_route cs_exclusive]. copied.
  rewrite !bool_u32. by destruct v.
Qed.

#[local] Instance scope_list_faithful :
  Faithful (arena_scope_status_list malloc) decode_scope_status_list (Forall ScopeStatus_texts).
Proof using Hm. exact (list_faithful _ _ _ scope_status_faithful). Qed.

Definition StatusReport_texts (s : StatusReport) : Prop :=
  utf8_valid (sr_hostname s) = true /\ Forall ScopeStatus_texts (sr_scopes s) /\ utf8_list (sr_fallback_servers s).

#[local] Instance status_report_faithful :
  Faithful (arena_status_report malloc) decode_status_report StatusReport_texts.
Proof using Hm.
  intros v a. unfold arena_status_report. repeat stored. cbn [arena_counters]. split; [extends|].
  intros (? & ? & ?) h Hh. cbn [fst snd] in *. unfold decode_status_report.
  cbn [ct_hostname ct_scopes ct_fallback_servers ct_netd ct_counters]. copied.
  cbn. rewrite bool_u32. destruct v as [? ? ? ? ? []]. done.
Qed.
End faithful.
