(* ===== verification/CLibrary.v ===== *)
(** * The C library and its Rust client (libresolvd/src/{lib,channel,inputs}.rs,
      resolvd-client/src/lib.rs)

    One call is one connection: a request is sent and a reply received before a
    deadline, and the reply is handed out as C structures.  The clock, [poll]
    and the stream come in as data.  [None] for a result means that the call
    has not returned: it still waits, or it read outside the caller's memory. *)

From S2P Require Import Prelude Net Cache IpText Io Msgpack NativeWire Control CViews.
Local Open Scope Z_scope.

(** ** I/O errors *)

Inductive IoErr : Type :=
| InvalidInput (message : Text)
| InvalidData (message : Text)
| DeadlinePassed (message : Text)
| ShortWrite (message : Text)
| ShortRead (message : Text)
| OtherError (message : Text)
| OsError (errno : Z).

Definition EIO : Z := 5.
Definition EBADF : Z := 9.
Definition ETIMEDOUT : Z := 110.
Definition EINPROGRESS : Z := 115.

(** [raw_os_error], or the code of the kind. *)
Definition errno_of (e : IoErr) : Z :=
  match e with
  | InvalidInput _ | InvalidData _ => EINVAL
  | DeadlinePassed _ => ETIMEDOUT
  | ShortWrite _ | ShortRead _ | OtherError _ => EIO
  | OsError errno => errno
  end.

(** The standard library's text for an error number. *)
Class OsTexts : Type := os_text : Z -> Text.

Definition error_text `{OsTexts} (e : IoErr) : Text :=
  match e with
  | InvalidInput m | InvalidData m | DeadlinePassed m | ShortWrite m | ShortRead m | OtherError m => m
  | OsError errno => os_text errno
  end.

Definition invalid_input {A} (message : string) : result IoErr A := Err (InvalidInput (bytes_of message)).

(** ** Deadlines *)

Definition MILLISECOND : Z := 1000000.

(** One past the last instant there is. *)
Definition INSTANT_END : Z := 2 ^ 63 * 1000000000.

Definition deadline (now timeout_ms : Z) : result IoErr Z :=
  if timeout_ms =? 0 then invalid_input "timeout_ms must be positive"
  else if now + timeout_ms * MILLISECOND <? INSTANT_END then Ok (now + timeout_ms * MILLISECOND)
  else invalid_input "timeout is too large".

Definition remaining_time (end_ now : Z) : result IoErr Z :=
  if end_ <? now then Err (DeadlinePassed (bytes_of "resolvd operation timed out")) else Ok (end_ - now).

(** What one [poll] gives; [nval] is whether it is [POLLNVAL]. *)
Inductive Poll : Type := PollReady (nval : bool) | PollTimedOut | PollInterrupted | PollFails (errno : Z).

(** The milliseconds [poll] is asked to wait. *)
Definition poll_ms (duration : Z) : Z := Z.min (duration / MILLISECOND + 1) (2 ^ 31 - 1).

Fixpoint wait (end_ : Z) (polls : list (Z * Poll)) : option (result IoErr ()) :=
  match polls with
  | [] => None
  | (now, p) :: polls =>
      match remaining_time end_ now with
      | Err e => Some (Err e)
      | Ok _ =>
          match p with
          | PollReady nval => Some (if nval then Err (OsError EBADF) else Ok ())
          | PollTimedOut | PollInterrupted => wait end_ polls
          | PollFails errno => Some (Err (OsError errno))
          end
      end
  end.

(** ** The channel *)

(** What connecting meets: the error of [socket], of [connect], the polls after
    it, the pending error of the socket, and the time at the end. *)
Record ConnectIo : Type := mkConnectIo {
  ci_socket : option Z;
  ci_connect : option Z;
  ci_polls : list (Z * Poll);
  ci_error : result Z (option Z);
  ci_now : Z;
}.

Definition connect_path_ok (path : list Z) : bool :=
  negb (bool_decide (path = []) || existsb (Z.eqb 0) path || (108 <=? Z.of_nat (length path))).

Definition connect (path : list Z) (end_ : Z) (io : ConnectIo) : option (result IoErr ()) :=
  if negb (connect_path_ok path)
  then Some (invalid_input "expected a nonempty filesystem socket path shorter than 108 bytes")
  else
    match ci_socket io with
    | Some errno => Some (Err (OsError errno))
    | None =>
        let waited :=
          match ci_connect io with
          | None => Some (Ok ())
          | Some errno => if negb (errno =? EINPROGRESS) then Some (Err (OsError errno)) else wait end_ (ci_polls io)
          end in
        match waited with
        | Some (Ok _) =>
            match ci_error io with
            | Err errno | Ok (Some errno) => Some (Err (OsError errno))
            | Ok None => Some (match remaining_time end_ (ci_now io) with Ok _ => Ok () | Err e => Err e end)
            end
        | r => r
        end
    end.

(** One round of a loop: the time at its start, the polls if it has to wait,
    the error number if its call fails. *)
Record Tick : Type := mkTick { tk_now : Z; tk_polls : list (Z * Poll); tk_errno : Z }.

(** The loop of [send]: what the stream took, and the result. *)
Fixpoint send_loop (end_ : Z) (pending : list Z) (ticks : list (Tick * Write)) : list Z * option (result IoErr ()) :=
  match pending with
  | [] => ([], Some (Ok ()))
  | _ =>
      match ticks with
      | [] => ([], None)
      | (t, w) :: ticks =>
          match remaining_time end_ (tk_now t) with
          | Err e => ([], Some (Err e))
          | Ok _ =>
              match w with
              | Takes n =>
                  let count := (n `min` length pending)%nat in
                  if (count =? 0)%nat then ([], Some (Err (ShortWrite (bytes_of "resolvd closed while writing"))))
                  else
                    let (sent, r) := send_loop end_ (drop count pending) ticks in (take count pending ++ sent, r)
              | WriteInterrupted => send_loop end_ pending ticks
              | WriteWouldBlock =>
                  match wait end_ (tk_polls t) with
                  | Some (Ok _) => send_loop end_ pending ticks
                  | Some (Err e) => ([], Some (Err e))
                  | None => ([], None)
                  end
              | WriteFails => ([], Some (Err (OsError (tk_errno t))))
              end
          end
      end
  end.

Definition channel_send (request : Request) (end_ : Z) (ticks : list (Tick * Write))
  : list Z * option (result IoErr ()) :=
  let payload := Request_encode request in
  if MAX_MESSAGE_BYTES <? Z.of_nat (length payload)
  then ([], Some (invalid_input "request exceeds the protocol message limit"))
  else send_loop end_ (le_bytes 4 (wrap 32 (Z.of_nat (length payload))) ++ payload) ticks.

(** [receive]: the bytes kept, what the stream has yet to yield, the reply. *)
Fixpoint receive_loop `{Texts} (end_ : Z) (incoming : list Z) (rs : list ReadTcp) (ticks : list Tick)
  : list Z * list ReadTcp * option (result IoErr Reply) :=
  match ticks with
  | [] => (incoming, rs, None)
  | t :: ticks =>
      match remaining_time end_ (tk_now t) with
      | Err e => (incoming, rs, Some (Err e))
      | Ok _ =>
          let read_to (needed : nat) :=
            match read_some (4096 `min` (needed - length incoming)) rs with
            | (ReadEof, rs) => (incoming, rs, Some (Err (ShortRead (bytes_of "resolvd closed mid-reply"))))
            | (ReadBytes chunk, rs) => receive_loop end_ (incoming ++ chunk) rs ticks
            | (ReadInterrupted, rs) => receive_loop end_ incoming rs ticks
            | (ReadWouldBlock, rs) =>
                match wait end_ (tk_polls t) with
                | Some (Ok _) => receive_loop end_ incoming rs ticks
                | Some (Err e) => (incoming, rs, Some (Err e))
                | None => (incoming, rs, None)
                end
            | (ReadError, rs) => (incoming, rs, Some (Err (OsError (tk_errno t))))
            end in
          if (length incoming <? 4)%nat then read_to 4%nat
          else
            let length_ := from_le (take 4 incoming) in
            if MAX_MESSAGE_BYTES <? length_
            then (incoming, rs, Some (invalid_input "reply exceeds the protocol message limit"))
            else
              let frame_bytes := (4 + Z.to_nat length_)%nat in
              if (length incoming =? frame_bytes)%nat
              then
                ([], rs,
                 Some (match Reply_decode (drop 4 incoming) with
                       | Ok reply => Ok reply
                       | Err e => Err (InvalidData (WireError_to_string e))
                       end))
              else read_to frame_bytes
      end
  end.

(** ** Results *)

Inductive Payload : Type :=
| PEmpty
| PAnswer (a : CAnswer)
| PAddresses (a : CAddresses)
| PStatusReport (s : CStatusReport).

Record ResultHandle : Type := mkResultHandle {
  rh_error : Z;
  rh_message : Span;
  rh_arena : Arena;
  rh_payload : Payload;
}.

Section library.
Context `{Texts, OsTexts} (malloc : Heap -> Z).

Definition ResultHandle_error (e : IoErr) : ResultHandle :=
  let (message, arena) := arena_text malloc (error_text e) ∅ in
  mkResultHandle (errno_of e) message arena PEmpty.

Definition finish (r : result IoErr ResultHandle) : ResultHandle :=
  match r with Ok h => h | Err e => ResultHandle_error e end.

(** The accessors, [None] for a null pointer in or out. *)
Definition result_error (result : option ResultHandle) : Z :=
  match result with Some r => rh_error r | None => EINVAL end.

Definition result_message (result : option ResultHandle) : Span :=
  match result with Some r => rh_message r | None => absent_span end.

Definition result_answer (result : option ResultHandle) : option CAnswer :=
  match result with Some (mkResultHandle _ _ _ (PAnswer view)) => Some view | _ => None end.

Definition result_addresses (result : option ResultHandle) : option CAddresses :=
  match result with Some (mkResultHandle _ _ _ (PAddresses view)) => Some view | _ => None end.

Definition result_status_report (result : option ResultHandle) : option CStatusReport :=
  match result with Some (mkResultHandle _ _ _ (PStatusReport view)) => Some view | _ => None end.

Definition reply_result (reply : Reply) : result IoErr ResultHandle :=
  let handle (payload : Payload) (a : Arena) := Ok (mkResultHandle 0 absent_span a payload) in
  match reply with
  | ROk => handle PEmpty ∅
  | RError message => Err (OtherError message)
  | RAnswer value => let (view, a) := arena_answer malloc value ∅ in handle (PAnswer view) a
  | RAddresses value => let (view, a) := arena_addresses malloc value ∅ in handle (PAddresses view) a
  | RStatus value => let (view, a) := arena_status_report malloc value ∅ in handle (PStatusReport view) a
  end.

Definition expected (request : Request) (reply : Reply) : bool :=
  match request, reply with
  | _, RError _ | QStatus, RStatus _ | QFlush, ROk | QLookup _ _, RAddresses _
  | QResolve _ _ _, RAnswer _ | QReverse _, RAnswer _ => true
  | _, _ => false
  end.

(** ** One exchange *)

Record ExchangeIo : Type := mkExchangeIo {
  xi_now : Z;
  xi_connect : ConnectIo;
  xi_writes : list (Tick * Write);
  xi_reads : list ReadTcp;
  xi_ticks : list Tick;
}.

Definition receive_complete (request : Request) (end_ : Z) (rs : list ReadTcp) (ticks : list Tick)
  : option (result IoErr Reply) :=
  match receive_loop end_ [] rs ticks with
  | (_, _, Some (Ok reply)) =>
      Some (if negb (expected request reply) then invalid_input "unexpected reply type" else Ok reply)
  | (_, _, r) => r
  end.

(** What the daemon is sent, and the reply. *)
Definition exchange_reply (path : list Z) (timeout_ms : Z) (request : Request) (io : ExchangeIo)
  : list Z * option (result IoErr Reply) :=
  match deadline (xi_now io) timeout_ms with
  | Err e => ([], Some (Err e))
  | Ok end_ =>
      match connect path end_ (xi_connect io) with
      | Some (Ok _) =>
          match channel_send request end_ (xi_writes io) with
          | (sent, Some (Ok _)) => (sent, receive_complete request end_ (xi_reads io) (xi_ticks io))
          | (sent, Some (Err e)) => (sent, Some (Err e))
          | (sent, None) => (sent, None)
          end
      | Some (Err e) => ([], Some (Err e))
      | None => ([], None)
      end
  end.

Definition exchange (path : list Z) (timeout_ms : Z) (request : Request) (io : ExchangeIo)
  : list Z * option (result IoErr ResultHandle) :=
  let (sent, r) := exchange_reply path timeout_ms request io in
  (sent, match r with Some (Ok reply) => Some (reply_result reply) | Some (Err e) => Some (Err e) | None => None end).

(** ** Inputs *)

Definition MAX_TEXT_BYTES : Z := 4 * 1024 * 1024.

(** A span of bytes in the caller's memory [h]. *)
Definition input_array (h : Heap) (s : Span) : option (result IoErr (list Z)) :=
  if sp_len s =? 0 then Some (Ok [])
  else if (sp_data s =? 0) || (2 ^ 63 - 1 <? sp_len s) then Some (invalid_input "invalid array span")
  else
    match h !! sp_data s ≫= of_block with
    | Some l => if sp_len s <=? Z.of_nat (length l) then Some (Ok (take (Z.to_nat (sp_len s)) l)) else None
    | None => None
    end.

Definition input_bytes (h : Heap) (s : Span) : option (result IoErr (list Z)) :=
  if MAX_TEXT_BYTES <? sp_len s then Some (invalid_input "input span exceeds 4 MiB") else input_array h s.

Definition input_text (h : Heap) (s : Span) : option (result IoErr Text) :=
  match input_bytes h s with
  | Some (Ok b) => Some (if utf8_valid b then Ok b else invalid_input "text is not UTF-8")
  | r => r
  end.

Definition input_boolean (value : Z) : result IoErr bool :=
  if value =? 0 then Ok false else if value =? 1 then Ok true else invalid_input "boolean must be 0 or 1".

(** ** Entry points *)

(** An argument that is a failed input ends the call with its error. *)
Definition with_input {A} (x : option (result IoErr A)) (f : A -> list Z * option (result IoErr ResultHandle))
  : list Z * option (result IoErr ResultHandle) :=
  match x with Some (Ok a) => f a | Some (Err e) => ([], Some (Err e)) | None => ([], None) end.

Definition finished (r : list Z * option (result IoErr ResultHandle)) : list Z * option ResultHandle :=
  (r.1, option_map finish r.2).

Definition peios_resolvd_get_status (h : Heap) (path : Span) (timeout_ms : Z) (io : ExchangeIo) :=
  finished (with_input (input_bytes h path) (fun path => exchange path timeout_ms QStatus io)).

Definition family_of_code (family : Z) : result IoErr WFamily :=
  if family =? 0 then Ok WAny else if family =? 1 then Ok WV4 else if family =? 2 then Ok WV6
  else invalid_input "invalid address family".

Definition peios_resolvd_lookup (h : Heap) (path : Span) (timeout_ms : Z) (name : Span) (family : Z) (io : ExchangeIo) :=
  finished (with_input (input_bytes h path) (fun path =>
    with_input (input_text h name) (fun name =>
    with_input (Some (family_of_code family)) (fun family => exchange path timeout_ms (QLookup name family) io)))).

Definition peios_resolvd_resolve (h : Heap) (path : Span) (timeout_ms : Z) (name : Span) (record_type no_cache : Z)
  (io : ExchangeIo) :=
  finished (with_input (input_bytes h path) (fun path =>
    with_input (input_text h name) (fun name =>
    with_input (Some (input_boolean no_cache)) (fun no_cache =>
    exchange path timeout_ms (QResolve name record_type no_cache) io)))).

Definition address_input (text : Text) : result IoErr IpAddr :=
  match ip_parse text with Some a => Ok a | None => invalid_input "invalid IP address" end.

Definition peios_resolvd_reverse (h : Heap) (path : Span) (timeout_ms : Z) (address : Span) (io : ExchangeIo) :=
  finished (with_input (input_bytes h path) (fun path =>
    with_input (input_text h address) (fun text =>
    with_input (Some (address_input text)) (fun address => exchange path timeout_ms (QReverse address) io)))).

Definition peios_resolvd_flush (h : Heap) (path : Span) (timeout_ms : Z) (io : ExchangeIo) :=
  finished (with_input (input_bytes h path) (fun path => exchange path timeout_ms QFlush io)).

(** ** The Rust client *)

Record LibClient : Type := mkLibClient { lc_path : list Z; lc_timeout_ms : Z }.

(** [timeout] in nanoseconds. *)
Definition client_timeout_ms (timeout : Z) : result ClientError Z :=
  if timeout =? 0 then invalid "timeout must be positive"
  else
    let milliseconds := (timeout + MILLISECOND - 1) / MILLISECOND in
    if milliseconds <? 2 ^ 64 then Ok milliseconds else invalid "timeout is too large".

Definition LibClient_new (path : list Z) (timeout : Z) : result ClientError LibClient :=
  if bool_decide (path = []) || (108 <=? Z.of_nat (length path)) || existsb (Z.eqb 0) path
  then invalid "invalid Unix socket path"
  else
    match client_timeout_ms timeout with
    | Ok ms => Ok (mkLibClient path ms)
    | Err e => Err e
    end.

(** [OwnedResult::take]; the pointer is never null. *)
Definition take_result (r : ResultHandle) : Copy ResultHandle :=
  if negb (result_error (Some r) =? 0) then
    let* message := decode_text (rh_arena r) (result_message (Some r)) in
    Some (Err (mkClientError (result_error (Some r)) message))
  else Some (Ok r).

Definition missing {A} (view : option A) : Copy A :=
  Some (match view with Some v => Ok v | None => invalid "missing library result" end).

(** A call from a result: what was sent, and what the caller gets. *)
Definition from_result {A} (r : list Z * option ResultHandle) (f : ResultHandle -> Copy A) : list Z * Copy A :=
  (r.1, match r.2 with Some r => let* r := take_result r in f r | None => None end).

(** The client's own strings are in memory, as [span] lends them. *)
Definition client_status (c : LibClient) (io : ExchangeIo) : list Z * Copy StatusReport :=
  let (path, h) := box malloc (lc_path c) ∅ in
  from_result (peios_resolvd_get_status h path (lc_timeout_ms c) io) (fun r =>
    let* view := missing (result_status_report (Some r)) in decode_status_report (rh_arena r) view).

Definition family_code (family : WFamily) : Z := match family with WAny => 0 | WV4 => 1 | WV6 => 2 end.

Definition client_lookup (c : LibClient) (name : Text) (family : WFamily) (io : ExchangeIo) : list Z * Copy WAddresses :=
  let (path, h) := box malloc (lc_path c) ∅ in
  let (name, h) := box malloc name h in
  from_result (peios_resolvd_lookup h path (lc_timeout_ms c) name (family_code family) io) (fun r =>
    let* view := missing (result_addresses (Some r)) in decode_addresses (rh_arena r) view).

Definition client_resolve (c : LibClient) (name : Text) (record_type : Z) (no_cache : bool) (io : ExchangeIo)
  : list Z * Copy WAnswer :=
  let (path, h) := box malloc (lc_path c) ∅ in
  let (name, h) := box malloc name h in
  from_result (peios_resolvd_resolve h path (lc_timeout_ms c) name record_type (u32_of_bool no_cache) io) (fun r =>
    let* view := missing (result_answer (Some r)) in decode_answer (rh_arena r) view).

Definition client_reverse (c : LibClient) (address : Text) (io : ExchangeIo) : list Z * Copy WAnswer :=
  let (path, h) := box malloc (lc_path c) ∅ in
  let (address, h) := box malloc address h in
  from_result (peios_resolvd_reverse h path (lc_timeout_ms c) address io) (fun r =>
    let* view := missing (result_answer (Some r)) in decode_answer (rh_arena r) view).

Definition client_flush (c : LibClient) (io : ExchangeIo) : list Z * Copy () :=
  let (path, h) := box malloc (lc_path c) ∅ in
  from_result (peios_resolvd_flush h path (lc_timeout_ms c) io) (fun _ => Some (Ok ())).
End library.
