(* ===== verification/CLibraryProofs.v ===== *)
(** * The channel of the C library *)

From S2P Require Import Prelude Net Cache IpText Io Msgpack NativeWire NativeWireProofs Control CViews CViewsProofs CLibrary.
Local Open Scope Z_scope.

(** ** The bytes of a stream *)

(** What a stream yields before it ends or fails, however long it blocks. *)
Fixpoint wire_bytes (rs : list ReadTcp) : list Z :=
  match rs with
  | ReadBytes (b :: c) :: rs => (b :: c) ++ wire_bytes rs
  | ReadWouldBlock :: rs | ReadInterrupted :: rs => wire_bytes rs
  | _ => []
  end.

Lemma read_some_wire room rs :
  (1 <= room)%nat ->
  match read_some room rs with
  | (ReadBytes c, rs') => wire_bytes rs = c ++ wire_bytes rs' /\ c <> [] /\ (length c <= room)%nat /\
      (reads_weight rs' < reads_weight rs)%nat
  | (ReadWouldBlock, rs') | (ReadInterrupted, rs') => wire_bytes rs = wire_bytes rs' /\
      (rs = [] \/ (reads_weight rs' < reads_weight rs)%nat)
  | (_, rs') => wire_bytes rs = []
  end.
Proof.
  intros Hr. destruct rs as [|[|[|b c]| | |] rs]; cbn [read_some wire_bytes]; try done.
  - split; [done|by left].
  - destruct room as [|room]; [lia|]. destruct (Nat.leb_spec (length (b :: c)) (S room)) as [Hl|Hl].
    + rewrite take_ge by done. split_and!; try done. rewrite reads_weight_cons. simpl. lia.
    + cbn [take drop]. cbn [length] in Hl.
      destruct (drop room c) as [|d e] eqn:Hd.
      { apply (f_equal length) in Hd. rewrite length_drop in Hd. simpl in Hd. lia. }
      split_and!; [|done|simpl; rewrite length_take; lia|].
      * cbn [wire_bytes]. rewrite <- Hd. cbn [app]. rewrite app_assoc. by rewrite take_drop.
      * rewrite !reads_weight_cons, <- Hd. cbn [read_weight length]. rewrite length_drop. lia.
  - split; [done|]. right. rewrite reads_weight_cons. simpl. lia.
  - split; [done|]. right. rewrite reads_weight_cons. simpl. lia.
Qed.

(** ** Receiving *)

Section receiving.
Context `{Texts}.

Definition decoded (payload : list Z) : result IoErr Reply :=
  match Reply_decode payload with Ok reply => Ok reply | Err e => Err (InvalidData (WireError_to_string e)) end.

(** The bytes kept between calls: never more than the frame they announce. *)
Definition partial (incoming : list Z) : Prop :=
  (4 < length incoming)%nat -> (length incoming <= 4 + Z.to_nat (from_le (take 4 incoming)))%nat.

(** Bytes that are exactly the message they announce. *)
Definition whole (frame : list Z) : Prop :=
  (4 <= length frame)%nat /\ from_le (take 4 frame) <= MAX_MESSAGE_BYTES /\
  length frame = (4 + Z.to_nat (from_le (take 4 frame)))%nat.

(** What a round does when the frame is not complete. *)
Definition receive_read (end_ : Z) (incoming : list Z) (rs : list ReadTcp) (t : Tick) (ticks : list Tick) (needed : nat) :=
  match read_some (4096 `min` (needed - length incoming)) rs with
  | (ReadEof, rs) => (incoming, rs, Some (Err (ShortRead (bytes_of "resolvd closed mid-reply"))))
  | (ReadBytes chunk, rs) => receive_loop end_ (incoming ++ chunk) rs ticks
  | (ReadInterrupted, rs) => receive_loop end_ incoming rs ticks
  | (ReadWouldBlock, rs) =>
      match wait end_ (tk_polls t) with
      | Some (Ok _) => receive_loop end_ incoming rs ticks
      | Some (Err e) => (incoming, rs, Some (Err e))
      | None => (incoming, rs, None)
      end
  | (ReadError, rs) => (incoming, rs, Some (Err (OsError (tk_errno t))))
  end.

Lemma receive_round end_ incoming rs t ticks :
  partial incoming ->
  (end_ < tk_now t /\ receive_loop end_ incoming rs (t :: ticks) =
     (incoming, rs, Some (Err (DeadlinePassed (bytes_of "resolvd operation timed out"))))) \/
  tk_now t <= end_ /\
  ((whole incoming /\ receive_loop end_ incoming rs (t :: ticks) = ([], rs, Some (decoded (drop 4 incoming)))) \/
   (MAX_MESSAGE_BYTES < from_le (take 4 incoming) /\ (4 <= length incoming)%nat /\
    receive_loop end_ incoming rs (t :: ticks) =
      (incoming, rs, Some (invalid_input "reply exceeds the protocol message limit"))) \/
   exists needed, (length incoming < needed)%nat /\
     receive_loop end_ incoming rs (t :: ticks) = receive_read end_ incoming rs t ticks needed /\
     needed = (if (length incoming <? 4)%nat then 4 else 4 + Z.to_nat (from_le (take 4 incoming)))%nat).
Proof.
  intros Hp. cbn [receive_loop]. unfold remaining_time. destruct (Z.ltb_spec end_ (tk_now t)) as [Hl|Hl]; [by left|right].
  split; [done|]. destruct (Nat.ltb_spec (length incoming) 4) as [H4|H4].
  { right; right. exists 4%nat. by split_and!. }
  destruct (Z.ltb_spec MAX_MESSAGE_BYTES (from_le (take 4 incoming))) as [Hm|Hm]; [right; left; by split_and!|].
  destruct (Nat.eqb_spec (length incoming) (4 + Z.to_nat (from_le (take 4 incoming)))) as [He|He].
  { left. split; [by split_and!|done]. }
  right; right. eexists. split_and!; [|reflexivity|done]. unfold partial in Hp.
  destruct (decide (4 < length incoming)%nat) as [Hx|Hx]; [specialize (Hp Hx)|]; lia.
Qed.

(** Reading up to what is needed keeps the bytes partial. *)
Lemma partial_grows incoming chunk :
  (length (incoming ++ chunk) <=
     if (length incoming <? 4)%nat then 4 else 4 + Z.to_nat (from_le (take 4 incoming)))%nat ->
  partial (incoming ++ chunk).
Proof.
  unfold partial. destruct (Nat.ltb_spec (length incoming) 4) as [H4|H4]; intros Hl Hx; [lia|].
  by rewrite take_app_le by done.
Qed.

(** No byte is lost, kept twice or taken beyond the reply, whatever happens. *)
Lemma receive_conserves end_ ticks : forall incoming rs,
  partial incoming ->
  let '(incoming', rs', r) := receive_loop end_ incoming rs ticks in
  partial incoming' /\
  (incoming ++ wire_bytes rs = incoming' ++ wire_bytes rs' \/
   (exists e, r = Some (Err e) /\ incoming ++ wire_bytes rs = incoming') \/
   exists frame, whole frame /\ incoming ++ wire_bytes rs = frame ++ wire_bytes rs' /\ incoming' = [] /\
     r = Some (decoded (drop 4 frame))).
Proof.
  induction ticks as [|t ticks IH]; intros incoming rs Hp; [by split; [|left]|].
  destruct (receive_round end_ incoming rs t ticks Hp) as [[_ ->]|[_ [[Hw ->]|[(_ & _ & ->)|(needed & Hn & -> & Hneed)]]]].
  - by split; [|left].
  - split; [unfold partial; simpl; lia|]. right; right. exists incoming. by split_and!.
  - by split; [|left].
  - unfold receive_read. pose proof (read_some_wire (4096 `min` (needed - length incoming)) rs ltac:(lia)) as Hr.
    destruct (read_some _ rs) as [[|chunk| | |] rs1].
    + split; [done|]. right; left. eexists. split; [done|]. by rewrite Hr, app_nil_r.
    + destruct Hr as (Hw & Hne & Hl & _).
      assert (partial (incoming ++ chunk)) as Hp' by (apply partial_grows; rewrite <- Hneed, length_app; lia).
      specialize (IH (incoming ++ chunk) rs1 Hp'). rewrite Hw, app_assoc. exact IH.
    + destruct Hr as [Hw _]. destruct (wait end_ (tk_polls t)) as [[]|]; rewrite Hw; [by apply IH|by split; [|left]..].
    + destruct Hr as [Hw _]. rewrite Hw. by apply IH.
    + split; [done|]. right; left. eexists. split; [done|]. by rewrite Hr, app_nil_r.
Qed.

(** A tick that is on time and whose waiting, if any, ends with the stream ready. *)
Definition on_time (end_ : Z) (t : Tick) : Prop := tk_now t <= end_ /\ wait end_ (tk_polls t) = Some (Ok ()).

Lemma frame_whole payload : small payload -> whole (frame_of payload).
Proof using.
  intros Hs. unfold whole. rewrite frame_header, length_frame_of, Nat2Z.id by done. split_and!; [lia|done|done].
Qed.

(** A prefix of a frame announces the frame. *)
Lemma prefix_header payload incoming x :
  small payload -> incoming ++ x = frame_of payload -> (4 <= length incoming)%nat ->
  from_le (take 4 incoming) = Z.of_nat (length payload).
Proof using.
  intros Hs Hx H4. rewrite <- (frame_header payload Hs), <- Hx. by rewrite take_app_le by done.
Qed.

Lemma prefix_partial payload incoming x : small payload -> incoming ++ x = frame_of payload -> partial incoming.
Proof using.
  intros Hs Hx Hl. rewrite (prefix_header payload incoming x) by (done || lia).
  apply (f_equal length) in Hx. rewrite length_app, length_frame_of in Hx. lia.
Qed.

(** A reply that arrives before the deadline is received, in whatever pieces
    and with whatever waits, and nothing after it is taken. *)
Lemma receive_completes end_ payload rest ticks : forall incoming x rs,
  small payload -> incoming ++ x = frame_of payload -> wire_bytes rs = x ++ rest ->
  Forall (on_time end_) ticks -> (S (reads_weight rs) <= length ticks)%nat ->
  exists rs', receive_loop end_ incoming rs ticks = ([], rs', Some (decoded payload)) /\ wire_bytes rs' = rest.
Proof using.
  induction ticks as [|t ticks IH]; intros incoming x rs Hs Hx Hw Hok Hl; [simpl in Hl; lia|].
  apply Forall_cons in Hok as [[Ht Hwait] Hok].
  pose proof (prefix_partial _ _ _ Hs Hx) as Hp. pose proof (prefix_header _ _ _ Hs Hx) as Hh.
  pose proof (f_equal length Hx) as Hlen. rewrite length_app, length_frame_of in Hlen.
  destruct (receive_round end_ incoming rs t ticks Hp) as [[? _]|[_ [[Hwh ->]|[(Hbig & H4 & _)|(needed & Hn & -> & Hneed)]]]].
  - lia.
  - destruct Hwh as (H4 & _ & He). rewrite Hh in He by done.
    destruct x as [|b x]; [|simpl in Hlen; lia]. rewrite app_nil_r in Hx. subst incoming.
    exists rs. split; [|done]. replace (drop 4 (frame_of payload)) with payload; [done|]. unfold frame_of.
    by rewrite drop_app_length' by (by rewrite length_le_bytes).
  - rewrite Hh in Hbig by done. unfold small in Hs. lia.
  - assert (needed <= 4 + length payload)%nat as Hle.
    { subst needed. destruct (Nat.ltb_spec (length incoming) 4); [lia|]. rewrite Hh by done. lia. }
    unfold receive_read. pose proof (read_some_wire (4096 `min` (needed - length incoming)) rs ltac:(lia)) as Hr.
    assert (x <> []) as Hxne by (destruct x; [simpl in Hlen; lia|done]).
    destruct (read_some _ rs) as [[|chunk| | |] rs1].
    + rewrite Hr in Hw. by destruct x.
    + destruct Hr as (Hw1 & Hne & Hcl & Hwt). rewrite Hw1 in Hw.
      assert (chunk = take (length chunk) x) as Hc.
      { apply (f_equal (take (length chunk))) in Hw. rewrite take_app_length, take_app_le in Hw by lia. done. }
      assert (x = chunk ++ drop (length chunk) x) as Hxs by (rewrite Hc at 1; by rewrite take_drop).
      apply (IH (incoming ++ chunk) (drop (length chunk) x) rs1); [done| | |done|simpl in Hl; lia].
      * by rewrite <- app_assoc, <- Hxs.
      * rewrite Hxs in Hw. rewrite <- app_assoc in Hw. by apply app_inv_head in Hw.
    + rewrite Hwait. destruct Hr as [Hw1 [->|Hwt]]; [by destruct x|].
      apply (IH incoming x rs1); try done; [by rewrite <- Hw1|simpl in Hl; lia].
    + destruct Hr as [Hw1 [->|Hwt]]; [by destruct x|].
      apply (IH incoming x rs1); try done; [by rewrite <- Hw1|simpl in Hl; lia].
    + rewrite Hr in Hw. by destruct x.
Qed.

(** ** Deadlines *)

(** Polls, or ticks, that go on until the deadline is past. *)
Lemma wait_ends end_ polls : Exists (fun p => end_ < p.1) polls -> wait end_ polls <> None.
Proof using.
  induction 1 as [[now p] polls Hl|[now p] polls _ IH]; cbn [wait]; unfold remaining_time.
  - cbn [fst] in Hl. by rewrite (proj2 (Z.ltb_lt end_ now)).
  - destruct (end_ <? now); [done|]. by destruct p.
Qed.

Lemma receive_ends end_ ticks : forall incoming rs,
  partial incoming -> Exists (fun t => end_ < tk_now t) ticks ->
  Forall (fun t => Exists (fun p => end_ < p.1) (tk_polls t)) ticks ->
  (receive_loop end_ incoming rs ticks).2 <> None.
Proof using.
  induction ticks as [|t ticks IH]; intros incoming rs Hp Hl Hpolls; [by inversion Hl|].
  apply Forall_cons in Hpolls as [Hpt Hpolls].
  destruct (receive_round end_ incoming rs t ticks Hp) as [[_ ->]|[Ht [[_ ->]|[(_ & _ & ->)|(needed & Hn & -> & Hneed)]]]]; [done..|].
  apply Exists_cons in Hl as [?|Hl]; [lia|]. unfold receive_read.
  pose proof (read_some_wire (4096 `min` (needed - length incoming)) rs ltac:(lia)) as Hr.
  destruct (read_some _ rs) as [[|chunk| | |] rs1]; try done; try by apply IH.
  - apply IH; [|done|done]. apply partial_grows. rewrite <- Hneed, length_app. lia.
  - pose proof (wait_ends end_ (tk_polls t) Hpt). destruct (wait end_ (tk_polls t)) as [[]|]; try done. by apply IH.
Qed.

(** A [poll] that times out without a cap ends past the deadline. *)
Lemma poll_ms_spec duration :
  0 <= duration -> 0 < poll_ms duration < 2 ^ 31 /\
  (poll_ms duration < 2 ^ 31 - 1 -> duration < poll_ms duration * MILLISECOND).
Proof using.
  intros Hd. unfold poll_ms, MILLISECOND. pose proof (Z.div_pos duration 1000000 Hd ltac:(lia)).
  pose proof (Z.div_mod duration 1000000 ltac:(lia)). pose proof (Z.mod_pos_bound duration 1000000 ltac:(lia)). lia.
Qed.
End receiving.

(** ** Sending *)

(** What the daemon is sent is a start of the frame, all of it on success. *)
Lemma send_loop_prefix end_ ticks : forall pending,
  let '(sent, r) := send_loop end_ pending ticks in
  exists unsent, pending = sent ++ unsent /\ (r = Some (Ok ()) -> unsent = []).
Proof.
  induction ticks as [|[t w] ticks IH]; intros pending; destruct pending as [|b pending]; cbn [send_loop];
    try (by exists []); try (by exists (b :: pending)).
  unfold remaining_time. destruct (end_ <? tk_now t); [by exists (b :: pending)|]. destruct w as [n| | |].
  - destruct (Nat.eqb_spec (n `min` length (b :: pending)) 0); [by exists (b :: pending)|].
    specialize (IH (drop (n `min` length (b :: pending)) (b :: pending))).
    destruct (send_loop _ _ _) as [sent r]. destruct IH as (unsent & Hd & Hr). exists unsent.
    split; [|done]. by rewrite <- app_assoc, <- Hd, take_drop.
  - destruct (wait end_ (tk_polls t)) as [[]|]; [apply IH|by exists (b :: pending)..].
  - apply IH.
  - by exists (b :: pending).
Qed.

(** A stream that takes bytes before the deadline takes them all. *)
Lemma send_loop_completes end_ ticks : forall pending,
  Forall (fun p => on_time end_ p.1 /\ exists n, p.2 = Takes (S n)) ticks -> (length pending <= length ticks)%nat ->
  send_loop end_ pending ticks = (pending, Some (Ok ())).
Proof.
  induction ticks as [|[t w] ticks IH]; intros pending Hok Hl; (destruct pending as [|b pending]; [done|]);
    [simpl in Hl; lia|]. apply Forall_cons in Hok as [[[Ht _] [n Hw]] Hok]. cbn [fst snd] in Ht, Hw. subst w.
  cbn [send_loop]. unfold remaining_time. rewrite (proj2 (Z.ltb_ge end_ (tk_now t))) by done.
  destruct (Nat.eqb_spec (S n `min` length (b :: pending)) 0); [simpl in *; lia|].
  rewrite IH; [by rewrite take_drop|done|]. rewrite length_drop. simpl in *. lia.
Qed.

(** ** The deadline

    It covers connecting, sending and receiving: each ends once its clock is
    past it, and what the system does from then on has no influence. *)

Definition late_polls (end_ : Z) (t : Tick) : Prop := Exists (fun p => end_ < p.1) (tk_polls t).

Lemma send_ends end_ ticks : forall pending,
  Exists (fun x => end_ < tk_now x.1) ticks -> Forall (fun x => late_polls end_ x.1) ticks ->
  (send_loop end_ pending ticks).2 <> None.
Proof.
  induction ticks as [|[t w] ticks IH]; intros pending Hl Hpolls; [by inversion Hl|].
  apply Forall_cons in Hpolls as [Hpt Hpolls]. destruct pending as [|b pending]; [done|]. cbn [send_loop].
  unfold remaining_time. destruct (Z.ltb_spec end_ (tk_now t)); [done|].
  apply Exists_cons in Hl as [?|Hl]; [cbn in *; lia|]. destruct w as [n| | |].
  - destruct (_ =? _)%nat; [done|]. specialize (IH (drop (n `min` length (b :: pending)) (b :: pending)) Hl Hpolls).
    by destruct (send_loop _ _ _).
  - pose proof (wait_ends end_ (tk_polls t) Hpt). destruct (wait end_ (tk_polls t)) as [[]|]; try done. by apply IH.
  - by apply IH.
  - done.
Qed.

Lemma connect_ends path end_ io :
  Exists (fun p => end_ < p.1) (ci_polls io) -> connect path end_ io <> None.
Proof.
  intros Hp. unfold connect. destruct (negb _); [done|]. destruct (ci_socket io); [done|].
  pose proof (wait_ends end_ (ci_polls io) Hp) as Hw.
  destruct (ci_connect io) as [errno|]; [destruct (negb _); [done|]|]; [|by destruct (ci_error io) as [[]|]].
  destruct (wait end_ (ci_polls io)) as [[[]|]|]; [|done..]. by destruct (ci_error io) as [[]|].
Qed.

Lemma connect_in_time path end_ io : connect path end_ io = Some (Ok ()) -> ci_now io <= end_.
Proof.
  unfold connect. destruct (negb _); [done|]. destruct (ci_socket io); [done|].
  destruct (match ci_connect io with Some errno => _ | None => _ end) as [[]|]; try done.
  destruct (ci_error io) as [[]|]; try done. unfold remaining_time.
  destruct (Z.ltb_spec end_ (ci_now io)); [done|]. by intros _.
Qed.

Lemma send_cut end_ t w w' early rest rest' : end_ < tk_now t -> forall pending,
  send_loop end_ pending (early ++ (t, w) :: rest) = send_loop end_ pending (early ++ (t, w') :: rest').
Proof.
  intros Hl. induction early as [|[t0 w0] early IH]; intros [|b pending]; cbn [app send_loop]; try done.
  - unfold remaining_time. by rewrite (proj2 (Z.ltb_lt _ _) Hl).
  - destruct (remaining_time end_ (tk_now t0)); [|done]. by destruct w0; rewrite ?IH.
Qed.

Lemma receive_cut `{Texts} end_ t t' early rest rest' : end_ < tk_now t -> end_ < tk_now t' -> forall incoming rs,
  receive_loop end_ incoming rs (early ++ t :: rest) = receive_loop end_ incoming rs (early ++ t' :: rest').
Proof.
  intros Hl Hl'. induction early as [|t0 early IH]; intros incoming rs; cbn [app receive_loop].
  - unfold remaining_time. by rewrite (proj2 (Z.ltb_lt _ _) Hl), (proj2 (Z.ltb_lt _ _) Hl').
  - destruct (remaining_time end_ (tk_now t0)); [|done].
    assert (forall needed, receive_read end_ incoming rs t0 (early ++ t :: rest) needed =
                           receive_read end_ incoming rs t0 (early ++ t' :: rest') needed) as Hr.
    { intros needed. unfold receive_read. destruct (read_some _ rs) as [[] rs']; by rewrite ?IH. }
    unfold receive_read in Hr. by rewrite !Hr.
Qed.

Lemma send_late end_ t w rest pending : end_ < tk_now t -> pending <> [] ->
  send_loop end_ pending ((t, w) :: rest) = ([], Some (Err (DeadlinePassed (bytes_of "resolvd operation timed out")))).
Proof.
  intros Hl Hne. destruct pending as [|b pending]; [done|]. cbn [send_loop]. unfold remaining_time.
  by rewrite (proj2 (Z.ltb_lt _ _) Hl).
Qed.

Lemma receive_late `{Texts} end_ t incoming rs rest : end_ < tk_now t ->
  receive_loop end_ incoming rs (t :: rest) =
    (incoming, rs, Some (Err (DeadlinePassed (bytes_of "resolvd operation timed out")))).
Proof. intros Hl. cbn [receive_loop]. unfold remaining_time. by rewrite (proj2 (Z.ltb_lt _ _) Hl). Qed.

(** The clock gets past the deadline wherever the exchange may be held up. *)
Record runs_out (end_ : Z) (io : ExchangeIo) : Prop := {
  ro_connect : Exists (fun p => end_ < p.1) (ci_polls (xi_connect io));
  ro_writes : Exists (fun x => end_ < tk_now x.1) (xi_writes io);
  ro_write_polls : Forall (fun x => late_polls end_ x.1) (xi_writes io);
  ro_reads : Exists (fun t => end_ < tk_now t) (xi_ticks io);
  ro_read_polls : Forall (late_polls end_) (xi_ticks io);
}.

Lemma exchange_ends `{Texts} path timeout_ms q io :
  runs_out (xi_now io + timeout_ms * 1000000) io -> (exchange_reply path timeout_ms q io).2 <> None.
Proof.
  intros [H1 H2 H3 H4 H5]. unfold exchange_reply, deadline.
  destruct (timeout_ms =? 0); [done|]. fold MILLISECOND in *. destruct (_ <? INSTANT_END); [|done].
  set (end_ := xi_now io + timeout_ms * MILLISECOND) in *.
  pose proof (connect_ends path end_ (xi_connect io) H1). destruct (connect _ _ _) as [[]|]; [|done..].
  unfold channel_send. destruct (MAX_MESSAGE_BYTES <? _); [done|].
  match goal with |- context [send_loop end_ ?p _] => pose proof (send_ends end_ (xi_writes io) p H2 H3) end.
  destruct (send_loop _ _ _) as [sent [[]|]]; [|done..]. cbn [snd]. unfold receive_complete.
  assert (partial []) as Hnil by (unfold partial, whole; simpl; lia).
  pose proof (receive_ends end_ (xi_ticks io) [] (xi_reads io) Hnil H4 H5).
  destruct (receive_loop _ _ _ _) as [[? ?] [[]|]]; done.
Qed.

Lemma exchange_in_time `{Texts} path timeout_ms q io reply :
  (exchange_reply path timeout_ms q io).2 = Some (Ok reply) ->
  let end_ := xi_now io + timeout_ms * 1000000 in
  ci_now (xi_connect io) <= end_ /\ Exists (fun x => tk_now x.1 <= end_) (xi_writes io) /\
  Exists (fun t => tk_now t <= end_) (xi_ticks io).
Proof.
  unfold exchange_reply, deadline. destruct (timeout_ms =? 0); [done|]. fold MILLISECOND.
  destruct (_ <? INSTANT_END); [|done]. set (end_ := xi_now io + timeout_ms * MILLISECOND) in *.
  destruct (connect _ _ _) as [[[]|]|] eqn:Hc; [|done..]. apply connect_in_time in Hc.
  unfold channel_send. destruct (MAX_MESSAGE_BYTES <? _); [done|].
  destruct (send_loop _ _ _) as [sent [[[]|]|]] eqn:Hs; [|done..]. cbn [snd]. unfold receive_complete.
  destruct (receive_loop _ _ _ _) as [[inc rest] [[r|]|]] eqn:Hr; [|done..]. intros _. cbv zeta. split; [done|]. split.
  - destruct (xi_writes io) as [|[t w] ws]; [by destruct (le_bytes 4 _) as [|] eqn:E; [apply (f_equal length) in E; rewrite length_le_bytes in E|]|].
    left. cbn [fst]. destruct (Z.le_gt_cases (tk_now t) end_); [done|].
    pose proof (length_le_bytes 4 (wrap 32 (Z.of_nat (length (Request_encode q))))) as Hl.
    destruct (le_bytes 4 _) as [|b bs]; [done|]. cbn [app send_loop] in Hs. unfold remaining_time in Hs.
    by rewrite (proj2 (Z.ltb_lt end_ (tk_now t))) in Hs by lia.
  - destruct (xi_ticks io) as [|t ts]; [done|]. left. destruct (Z.le_gt_cases (tk_now t) end_); [done|].
    cbn [receive_loop] in Hr. unfold remaining_time in Hr. by rewrite (proj2 (Z.ltb_lt end_ (tk_now t))) in Hr by lia.
Qed.
