(* ===== verification/CLibraryProps.v ===== *)
(** * Calls through the C library *)

From S2P Require Import Prelude Net Cache IpText Io Msgpack NativeWire NativeWireProofs Control CViews CViewsProofs CLibrary CLibraryProofs.
Local Open Scope Z_scope.

Section calls.
Context `{Texts, OsTexts} (malloc : Heap -> Z) {Hm : Malloc malloc}.

(** ** Inputs *)

Lemma input_box v a h :
  Z.of_nat (length v) <= MAX_TEXT_BYTES -> (box malloc v a).2 ⊆ h -> input_bytes h (box malloc v a).1 = Some (Ok v).
Proof using Hm.
  intros Hl Hh. destruct (box_faithful malloc v a) as [_ Hc]. specialize (Hc I h Hh).
  pose proof (box_not_null malloc v a) as Hn. unfold input_bytes, input_array, array in *.
  assert (sp_len (box malloc v a).1 = Z.of_nat (length v)) as Hlen by by destruct v.
  rewrite Hlen in *. destruct (Z.ltb_spec MAX_TEXT_BYTES (Z.of_nat (length v))); [lia|].
  destruct (Z.of_nat (length v) =? 0); [congruence|]. rewrite (proj2 (Z.eqb_neq _ _) Hn). cbn [orb].
  destruct (Z.ltb_spec (2 ^ 63 - 1) (Z.of_nat (length v))); [unfold MAX_TEXT_BYTES in *; lia|].
  destruct (h !! _ ≫= of_block) as [l|]; [|done]. destruct (_ <=? _); [congruence|done].
Qed.

Lemma input_text_box v a h :
  Z.of_nat (length v) <= MAX_TEXT_BYTES -> utf8_valid v = true -> (box malloc v a).2 ⊆ h ->
  input_text h (box malloc v a).1 = Some (Ok v).
Proof using Hm. intros Hl Hu Hh. unfold input_text. rewrite input_box by done. by rewrite Hu. Qed.

(** ** What comes of a reply *)

(** Texts are UTF-8, addresses of their width: what the types of the code say. *)
Definition reply_good (reply : Reply) : Prop :=
  match reply with
  | ROk => True
  | RError m => utf8_valid m = true
  | RAnswer a => WAnswer_texts a
  | RAddresses a => WAddresses_good a
  | RStatus s => StatusReport_texts s
  end.

(** A message is a string, and no error has the number of success. *)
Definition error_good (e : IoErr) : Prop := utf8_valid (error_text e) = true /\ errno_of e <> 0.

Definition outcome_good (r : option (result IoErr Reply)) : Prop :=
  match r with None => True | Some (Ok reply) => reply_good reply | Some (Err e) => error_good e end.

(** What a caller is to see of an exchange: the payload of its kind, or the
    error with its number and text. *)
Definition seen {A} (pick : Reply -> option A) (r : option (result IoErr Reply)) : Copy A :=
  match r with
  | None => None
  | Some (Err e) => Some (Err (mkClientError (errno_of e) (error_text e)))
  | Some (Ok (RError m)) => Some (Err (mkClientError EIO m))
  | Some (Ok reply) => missing (pick reply)
  end.

Definition pick_answer (r : Reply) : option WAnswer := match r with RAnswer a => Some a | _ => None end.
Definition pick_addresses (r : Reply) : option WAddresses := match r with RAddresses a => Some a | _ => None end.
Definition pick_status (r : Reply) : option StatusReport := match r with RStatus s => Some s | _ => None end.
Definition pick_done (_ : Reply) : option () := Some ().

Lemma take_error e : error_good e ->
  take_result (ResultHandle_error malloc e) = Some (Err (mkClientError (errno_of e) (error_text e))).
Proof using Hm.
  intros [Hu Hz]. unfold take_result, ResultHandle_error. destruct (text_faithful malloc (error_text e) ∅) as [_ Hc].
  destruct (arena_text malloc (error_text e) ∅) as [span a]. cbn [fst snd result_error rh_error rh_arena result_message rh_message] in *.
  rewrite (proj2 (Z.eqb_neq _ _) Hz). cbn [negb]. by rewrite (Hc Hu a) by done.
Qed.

(** From the handle of a reply, the payload. *)
Definition reads_back {A} (f : ResultHandle -> Copy A) (pick : Reply -> option A) : Prop :=
  forall reply h, reply_good reply -> reply_result malloc reply = Ok h -> rh_error h = 0 /\ f h = missing (pick reply).

Lemma from_exchange {A} (f : ResultHandle -> Copy A) pick path timeout request io :
  reads_back f pick -> outcome_good (exchange_reply path timeout request io).2 ->
  from_result (finished malloc (exchange malloc path timeout request io)) f =
    ((exchange_reply path timeout request io).1, seen pick (exchange_reply path timeout request io).2).
Proof using Hm.
  intros Hf Hg. unfold exchange. destruct (exchange_reply _ _ _ _) as [sent r]. unfold from_result, finished.
  cbn [fst snd] in *. f_equal. destruct r as [[reply|e]|]; cbn [option_map finish seen]; [|by rewrite take_error|done].
  destruct (reply_result malloc reply) as [h|e] eqn:Hr.
  - destruct (Hf reply h Hg Hr) as [Hzero Hfh]. cbn [finish]. unfold take_result. cbn [result_error]. rewrite Hzero. cbn [Z.eqb negb copy_bind].
    rewrite Hfh. by destruct reply.
  - destruct reply; cbn [reply_result] in Hr;
      [done| |by destruct (arena_answer _ _ _)|by destruct (arena_addresses _ _ _)|by destruct (arena_status_report _ _ _)].
    injection Hr as <-. cbn [finish]. by rewrite take_error.
Qed.

Lemma reads_back_answer :
  reads_back (fun r => let* view := missing (result_answer (Some r)) in decode_answer (rh_arena r) view) pick_answer.
Proof using Hm.
  intros reply h Hg Hr. destruct reply as [|m|v|v|v]; cbn [reply_result] in Hr; [by simplify_eq|done| | |].
  - destruct (answer_faithful malloc v ∅) as [_ Hc]. destruct (arena_answer _ _ _) as [view a].
    injection Hr as <-. cbn. split; [done|]. by apply Hc.
  - destruct (arena_addresses _ _ _). by simplify_eq.
  - destruct (arena_status_report _ _ _). by simplify_eq.
Qed.

Lemma reads_back_addresses :
  reads_back (fun r => let* view := missing (result_addresses (Some r)) in decode_addresses (rh_arena r) view) pick_addresses.
Proof using Hm.
  intros reply h Hg Hr. destruct reply as [|m|v|v|v]; cbn [reply_result] in Hr; [by simplify_eq|done| | |].
  - destruct (arena_answer _ _ _). by simplify_eq.
  - destruct (addresses_faithful malloc v ∅) as [_ Hc]. destruct (arena_addresses _ _ _) as [view a].
    injection Hr as <-. cbn. split; [done|]. by apply Hc.
  - destruct (arena_status_report _ _ _). by simplify_eq.
Qed.

Lemma reads_back_status :
  reads_back (fun r => let* view := missing (result_status_report (Some r)) in decode_status_report (rh_arena r) view) pick_status.
Proof using Hm.
  intros reply h Hg Hr. destruct reply as [|m|v|v|v]; cbn [reply_result] in Hr; [by simplify_eq|done| | |].
  - destruct (arena_answer _ _ _). by simplify_eq.
  - destruct (arena_addresses _ _ _). by simplify_eq.
  - destruct (status_report_faithful malloc v ∅) as [_ Hc]. destruct (arena_status_report _ _ _) as [view a].
    injection Hr as <-. cbn. split; [done|]. by apply Hc.
Qed.

Lemma reads_back_done : reads_back (fun _ => Some (Ok ())) pick_done.
Proof using.
  intros reply h Hg Hr. destruct reply as [|m|v|v|v]; cbn [reply_result] in Hr; [by simplify_eq|done| | |];
    [destruct (arena_answer _ _ _)|destruct (arena_addresses _ _ _)|destruct (arena_status_report _ _ _)]; by simplify_eq.
Qed.

(** ** Every call of the client *)

Lemma LibClient_new_path path timeout c :
  LibClient_new path timeout = Ok c -> lc_path c = path /\ Z.of_nat (length path) <= MAX_TEXT_BYTES /\
  connect_path_ok path = true.
Proof using.
  unfold LibClient_new, connect_path_ok. intros Hc.
  destruct (bool_decide (path = [])), (Z.leb_spec 108 (Z.of_nat (length path))), (existsb _ path); try done.
  destruct (client_timeout_ms timeout); [|done]. injection Hc as <-. unfold MAX_TEXT_BYTES. by split_and!; [|lia|].
Qed.

Lemma client_calls c path timeout :
  LibClient_new path timeout = Ok c ->
  forall io,
  let ask q := exchange_reply path (lc_timeout_ms c) q io in
  let text s := Z.of_nat (length s) <= MAX_TEXT_BYTES /\ utf8_valid s = true in
  (outcome_good (ask QStatus).2 -> client_status malloc c io = ((ask QStatus).1, seen pick_status (ask QStatus).2)) /\
  (outcome_good (ask QFlush).2 -> client_flush malloc c io = ((ask QFlush).1, seen pick_done (ask QFlush).2)) /\
  (forall name family, text name -> outcome_good (ask (QLookup name family)).2 ->
     client_lookup malloc c name family io =
       ((ask (QLookup name family)).1, seen pick_addresses (ask (QLookup name family)).2)) /\
  (forall name rtype no_cache, text name -> outcome_good (ask (QResolve name rtype no_cache)).2 ->
     client_resolve malloc c name rtype no_cache io =
       ((ask (QResolve name rtype no_cache)).1, seen pick_answer (ask (QResolve name rtype no_cache)).2)) /\
  (forall address, IpAddr_wf address -> outcome_good (ask (QReverse address)).2 ->
     client_reverse malloc c (ip_to_string address) io =
       ((ask (QReverse address)).1, seen pick_answer (ask (QReverse address)).2)).
Proof using Hm.
  intros Hc io ask text. destruct (LibClient_new_path _ _ _ Hc) as (Hp & Hpl & _).
  rewrite <- Hp in Hpl. unfold client_status, client_flush, client_lookup, client_resolve, client_reverse.
  pose proof (input_box (lc_path c) ∅) as Hin. pose proof (fun v => input_text_box v (box malloc (lc_path c) ∅).2) as Htx.
  pose proof (fun v : list Z => box_faithful malloc v (box malloc (lc_path c) ∅).2) as Hsub.
  destruct (box malloc (lc_path c) ∅) as [pspan h]. cbn [fst snd] in Hin, Htx, Hsub. unfold ask. rewrite <- Hp.
  split_and!.
  - intros Hg. unfold peios_resolvd_get_status. rewrite Hin by done. cbn [with_input].
    by apply (from_exchange _ _ _ _ _ _ reads_back_status).
  - intros Hg. unfold peios_resolvd_flush. rewrite Hin by done. cbn [with_input].
    by apply (from_exchange _ _ _ _ _ _ reads_back_done).
  - intros name family [Hl Hu] Hg. specialize (Htx name). destruct (Hsub name) as [Hh _].
    destruct (box malloc name h) as [nspan h']. cbn [fst snd] in *. unfold peios_resolvd_lookup.
    rewrite Hin by done. cbn [with_input]. rewrite Htx by done. cbn [with_input].
    replace (family_of_code (family_code family)) with (Ok (E := IoErr) family) by (by destruct family). cbn [with_input].
    by apply (from_exchange _ _ _ _ _ _ reads_back_addresses).
  - intros name rtype no_cache [Hl Hu] Hg. specialize (Htx name). destruct (Hsub name) as [Hh _].
    destruct (box malloc name h) as [nspan h']. cbn [fst snd] in *. unfold peios_resolvd_resolve.
    rewrite Hin by done. cbn [with_input]. rewrite Htx by done. cbn [with_input].
    replace (input_boolean (u32_of_bool no_cache)) with (Ok (E := IoErr) no_cache) by (by destruct no_cache). cbn [with_input].
    by apply (from_exchange _ _ _ _ _ _ reads_back_answer).
  - intros address Hw Hg. destruct (ip_to_string_ok address Hw) as [Hu _].
    specialize (Htx (ip_to_string address)). destruct (Hsub (ip_to_string address)) as [Hh _].
    assert (Z.of_nat (length (ip_to_string address)) <= MAX_TEXT_BYTES) as Hl
      by (destruct (ip_to_string_short address Hw); unfold MAX_TEXT_BYTES; lia).
    destruct (box malloc (ip_to_string address) h) as [nspan h']. cbn [fst snd] in *. unfold peios_resolvd_reverse.
    rewrite Hin by done. cbn [with_input]. rewrite Htx by done. cbn [with_input]. unfold address_input.
    rewrite ip_parse_to_string by done. cbn [with_input].
    by apply (from_exchange _ _ _ _ _ _ reads_back_answer).
Qed.
End calls.

(** ** One exchange *)

Lemma strs_ok_utf8 l : strs_ok l -> utf8_list l.
Proof. intros [Hl _]. apply (Forall_impl _ _ _ Hl). by intros s []. Qed.

Lemma Reply_wf_good reply : Reply_wf reply -> reply_good reply.
Proof.
  destruct reply as [|m|v|v|v]; cbn [Reply_wf reply_good]; [done|by intros []| | |].
  - intros (Hr & _ & [Hs _] & Hv & Hi & _). split_and!; [|done|by intros s Hs'%Hv; apply Hs'|by intros s Hs'%Hi; apply Hs'].
    apply (Forall_impl _ _ _ Hr). by intros r ([] & _ & _ & _ & []).
  - intros ([Hc _] & Ha & _ & [Hs _]). split_and!; [done| |done]. apply (Forall_impl _ _ _ Ha). by intros x [].
  - intros ([Hh _] & Hs & _ & Hf & _). split_and!; [done| |by apply strs_ok_utf8].
    apply (Forall_impl _ _ _ Hs). intros x ([] & ? & ? & _ & ? & ?). by split_and!; [|apply strs_ok_utf8..].
Qed.

(** What it takes of the system for an exchange to go through in time. *)
Record goes_through (path : list Z) (timeout_ms : Z) (q : Request) (io : ExchangeIo) (end_ : Z) : Prop := {
  gt_deadline : deadline (xi_now io) timeout_ms = Ok end_;
  gt_connect : connect path end_ (xi_connect io) = Some (Ok ());
  gt_writes : Forall (fun p => on_time end_ p.1 /\ exists n, p.2 = Takes (S n)) (xi_writes io);
  gt_room : (length (frame_of (Request_encode q)) <= length (xi_writes io))%nat;
  gt_ticks : Forall (on_time end_) (xi_ticks io);
  gt_reads : (S (reads_weight (xi_reads io)) <= length (xi_ticks io))%nat;
}.

Lemma exchange_completes `{Texts} path timeout_ms q io end_ reply rest :
  goes_through path timeout_ms q io end_ -> small (Request_encode q) -> small (Reply_encode reply) ->
  Reply_wf reply -> expected q reply = true -> wire_bytes (xi_reads io) = response_frame reply ++ rest ->
  exchange_reply path timeout_ms q io = (frame_of (Request_encode q), Some (Ok reply)).
Proof.
  intros [Hd Hc Hw Hr Ht Hrd] Hq Hs Hwf Hexp Hwire. unfold exchange_reply. rewrite Hd, Hc. unfold channel_send.
  rewrite (proj2 (Z.ltb_ge MAX_MESSAGE_BYTES _)) by done.
  rewrite wrap_small by (unfold small, MAX_MESSAGE_BYTES, in_width in *; lia). fold (frame_of (Request_encode q)).
  rewrite send_loop_completes by done. unfold receive_complete.
  rewrite response_frame_eq in Hwire. pose proof (response_payload_small reply) as Hps.
  destruct (receive_completes end_ (response_payload reply) rest (xi_ticks io) [] (frame_of (response_payload reply)) (xi_reads io))
    as (rs' & -> & _); [done..|].
  unfold decoded. rewrite response_decodes by done. rewrite (proj2 (Z.ltb_ge MAX_MESSAGE_BYTES _)) by done.
  by rewrite Hexp.
Qed.

(** ** Properties *)

(** C38. Nothing is lost between the C structures and the Rust values.  A call
    of the client sends exactly the request its arguments mean, and returns
    what the exchange gave, whole: the very answer, address list or status of
    the reply, through the arena the C library stored it in, or the error with
    its number and its text; no read is outside an allocation. *)
Theorem client_sees_the_exchange `{Texts, OsTexts} malloc `{Malloc malloc} path timeout c io :
  LibClient_new path timeout = Ok c ->
  let ask q := exchange_reply path (lc_timeout_ms c) q io in
  let text s := Z.of_nat (length s) <= MAX_TEXT_BYTES /\ utf8_valid s = true in
  (outcome_good (ask QStatus).2 -> client_status malloc c io = ((ask QStatus).1, seen pick_status (ask QStatus).2)) /\
  (outcome_good (ask QFlush).2 -> client_flush malloc c io = ((ask QFlush).1, seen pick_done (ask QFlush).2)) /\
  (forall name family, text name -> outcome_good (ask (QLookup name family)).2 ->
     client_lookup malloc c name family io =
       ((ask (QLookup name family)).1, seen pick_addresses (ask (QLookup name family)).2)) /\
  (forall name rtype no_cache, text name -> outcome_good (ask (QResolve name rtype no_cache)).2 ->
     client_resolve malloc c name rtype no_cache io =
       ((ask (QResolve name rtype no_cache)).1, seen pick_answer (ask (QResolve name rtype no_cache)).2)) /\
  (forall address, IpAddr_wf address -> outcome_good (ask (QReverse address)).2 ->
     client_reverse malloc c (ip_to_string address) io =
       ((ask (QReverse address)).1, seen pick_answer (ask (QReverse address)).2)).
Proof. intros Hc. by apply (client_calls malloc c path timeout Hc io). Qed.

(** C39. The library's channel.  However a reply is cut, interrupted and waited
    for, no byte of the stream is lost or taken twice: what a call that ran out
    of time had received is kept for the next, and a reply is decoded from
    exactly the bytes it announces.  What the daemon gets of a request is a
    start of its frame, and an exchange that goes through in time sends the
    whole frame and ends with the daemon's reply.  One deadline, the timeout
    after the start, covers the whole of an exchange: connecting, sending and
    receiving each return once their clock is past it; what the socket would
    do from the first late look at the clock on has no influence; a send or a
    receive that starts late fails with the timeout and touches no byte; and
    an exchange that succeeds had connected, and begun to send and to receive,
    before it. *)
Theorem library_channel `{Texts} end_ incoming rs ticks path timeout_ms q io reply rest :
  partial incoming ->
  (let '(incoming', rs', r) := receive_loop end_ incoming rs ticks in
   partial incoming' /\
   (incoming ++ wire_bytes rs = incoming' ++ wire_bytes rs' \/
    (exists e, r = Some (Err e) /\ incoming ++ wire_bytes rs = incoming') \/
    exists frame, whole frame /\ incoming ++ wire_bytes rs = frame ++ wire_bytes rs' /\ incoming' = [] /\
      r = Some (decoded (drop 4 frame)))) /\
  (Exists (fun t => end_ < tk_now t) ticks ->
   Forall (fun t => Exists (fun p => end_ < p.1) (tk_polls t)) ticks ->
   (receive_loop end_ incoming rs ticks).2 <> None) /\
  (let '(sent, r) := channel_send q end_ (xi_writes io) in
   exists unsent, (r = Some (Ok ()) -> unsent = []) /\
     (sent = [] \/ frame_of (Request_encode q) = sent ++ unsent)) /\
  (goes_through path timeout_ms q io end_ -> small (Request_encode q) -> small (Reply_encode reply) ->
   Reply_wf reply -> expected q reply = true -> wire_bytes (xi_reads io) = response_frame reply ++ rest ->
   exchange_reply path timeout_ms q io = (frame_of (Request_encode q), Some (Ok reply))) /\
  (let limit := xi_now io + timeout_ms * 1000000 in
   let timed_out := DeadlinePassed (bytes_of "resolvd operation timed out") in
   (Exists (fun p => limit < p.1) (ci_polls (xi_connect io)) -> connect path limit (xi_connect io) <> None) /\
   (Exists (fun x => limit < tk_now x.1) (xi_writes io) -> Forall (fun x => late_polls limit x.1) (xi_writes io) ->
    (channel_send q limit (xi_writes io)).2 <> None) /\
   (runs_out limit io -> (exchange_reply path timeout_ms q io).2 <> None) /\
   (forall t w w' early later later' pending, limit < tk_now t ->
      send_loop limit pending (early ++ (t, w) :: later) = send_loop limit pending (early ++ (t, w') :: later') /\
      (pending <> [] -> send_loop limit pending ((t, w) :: later) = ([], Some (Err timed_out)))) /\
   (forall t t' early later later', limit < tk_now t -> limit < tk_now t' ->
      receive_loop limit incoming rs (early ++ t :: later) = receive_loop limit incoming rs (early ++ t' :: later') /\
      receive_loop limit incoming rs (t :: later) = (incoming, rs, Some (Err timed_out))) /\
   (forall got, (exchange_reply path timeout_ms q io).2 = Some (Ok got) ->
      ci_now (xi_connect io) <= limit /\ Exists (fun x => tk_now x.1 <= limit) (xi_writes io) /\
      Exists (fun t => tk_now t <= limit) (xi_ticks io))).
Proof.
  intros Hp. split; [|split; [|split; [|split]]].
  - by apply receive_conserves.
  - intros. by apply receive_ends.
  - unfold channel_send. destruct (Z.ltb_spec MAX_MESSAGE_BYTES (Z.of_nat (length (Request_encode q)))).
    { exists []. by split; [|left]. }
    rewrite wrap_small by (unfold MAX_MESSAGE_BYTES, in_width in *; lia). fold (frame_of (Request_encode q)).
    pose proof (send_loop_prefix end_ (xi_writes io) (frame_of (Request_encode q))) as Hs.
    destruct (send_loop _ _ _) as [sent r]. destruct Hs as (unsent & Hf & Hr). exists unsent. by split; [|right].
  - by apply exchange_completes.
  - cbv zeta. split; [|split; [|split; [|split; [|split]]]].
    + apply connect_ends.
    + intros Hl Hp'. unfold channel_send. destruct (_ <? _); [done|]. by apply send_ends.
    + apply exchange_ends.
    + intros t w w' early later later' pending Hl. split; [by apply send_cut|by apply send_late].
    + intros t t' early later later' Hl Hl'. split; [by apply receive_cut|by apply receive_late].
    + intros got. apply exchange_in_time.
Qed.

(** ** A call, evaluated *)

(** An allocator: past the last address in use. *)
Definition bump (h : Heap) : Z := 1 + map_fold (fun k _ m => Z.max k m) 0 h.

#[export] Instance bump_fresh : Malloc bump.
Proof.
  assert (forall h : Heap, 0 <= map_fold (fun k (_ : Block) m => Z.max k m) 0 h /\
            forall k, is_Some (h !! k) -> k <= map_fold (fun k (_ : Block) m => Z.max k m) 0 h) as Hmax.
  { intros h. apply (map_fold_weak_ind (fun m h => 0 <= m /\ forall k, is_Some (h !! k) -> k <= m)).
    - split; [done|]. intros k Hk. rewrite lookup_empty in Hk. by destruct Hk.
    - intros i x h' r Hi [H0 Hk]. split; [lia|]. intros k [y Hy]. destruct (decide (k = i)) as [->|Hne]; [lia|].
      rewrite lookup_insert_ne in Hy by done. specialize (Hk k (ex_intro _ y Hy)). lia. }
  intros h. destruct (Hmax h) as [H0 Hk]. unfold bump. split; [lia|].
  apply eq_None_not_Some. intros Hs%Hk. lia.
Qed.

#[local] Instance plain_texts : Texts := mkTexts (fun s => s) (fun _ => bytes_of "i/o error").
#[local] Instance plain_os : OsTexts := fun _ => bytes_of "os error".

Definition lib_client : LibClient := mkLibClient (bytes_of "/run/resolvd/resolv.sock") 10.

Definition lib_reply : Reply :=
  RAddresses (mkWAddresses Found (bytes_of "a.example") [mkAddressOut (V4 3221225985) 60; mkAddressOut (V6 1) 30]
    (bytes_of "dns") Unvalidated).

Definition lib_tick : Tick := mkTick 5 [(5, PollReady false)] 0.

Definition lib_query : Request := QLookup (bytes_of "a.example") WAny.

Definition lib_io : ExchangeIo :=
  mkExchangeIo 0 (mkConnectIo None None [] (Ok None) 1)
    (replicate 200 (lib_tick, Takes 7))
    [ReadWouldBlock; ReadBytes (take 3 (response_frame lib_reply)); ReadInterrupted;
     ReadBytes (drop 3 (response_frame lib_reply))]
    (replicate 800 lib_tick).

Lemma lib_reply_wf : Reply_wf lib_reply.
Proof.
  split_and!; [split; [reflexivity|vm_compute; reflexivity]| |vm_compute; reflexivity|split; [reflexivity|vm_compute; reflexivity]].
  repeat constructor; cbn; unfold in_width; lia.
Qed.

Lemma client_sees_the_exchange_witness :
  (client_lookup bump lib_client (bytes_of "a.example") WAny lib_io).2 =
  Some (Ok (mkWAddresses Found (bytes_of "a.example") [mkAddressOut (V4 3221225985) 60; mkAddressOut (V6 1) 30]
    (bytes_of "dns") Unvalidated)).
Proof.
  assert (LibClient_new (bytes_of "/run/resolvd/resolv.sock") 10000000 = Ok lib_client) as Hc by (vm_compute; reflexivity).
  assert ((exchange_reply (bytes_of "/run/resolvd/resolv.sock") 10 lib_query lib_io).2 = Some (Ok lib_reply)) as Hr
    by (vm_compute; reflexivity).
  pose proof (proj1 (proj2 (proj2 (client_sees_the_exchange bump _ _ _ lib_io Hc)))) as Hl.
  specialize (Hl (bytes_of "a.example") WAny). cbv beta zeta in Hl. fold lib_query in Hl. change (lc_timeout_ms lib_client) with 10 in Hl.
  rewrite Hr in Hl. rewrite Hl; [reflexivity| |].
  - split; [by vm_compute|reflexivity].
  - apply Reply_wf_good, lib_reply_wf.
Defined.

(** A daemon that accepts and never says anything, nor takes a byte. *)
Definition stuck_tick (now : Z) : Tick := mkTick now [(now, PollTimedOut); (10000001, PollTimedOut)] 0.

Definition stuck_io : ExchangeIo :=
  mkExchangeIo 0 (mkConnectIo None (Some EINPROGRESS) [(3, PollInterrupted); (4, PollReady false); (10000001, PollTimedOut)] (Ok None) 4)
    [(stuck_tick 5, WriteWouldBlock); (stuck_tick 10000001, WriteWouldBlock)] [] [stuck_tick 10000001].

Lemma library_channel_witness :
  exchange_reply (bytes_of "/run/resolvd/resolv.sock") 10 lib_query lib_io =
    (frame_of (Request_encode lib_query), Some (Ok lib_reply)) /\
  (exchange_reply (bytes_of "/run/resolvd/resolv.sock") 10 lib_query stuck_io).2 <> None /\
  exchange_reply (bytes_of "/run/resolvd/resolv.sock") 10 lib_query stuck_io =
    ([], Some (Err (DeadlinePassed (bytes_of "resolvd operation timed out")))).
Proof.
  assert (partial []) as Hnil by (unfold partial; simpl; lia). split; [|split].
  - pose proof (library_channel 10000000 [] [] [] (bytes_of "/run/resolvd/resolv.sock") 10 lib_query lib_io lib_reply [] Hnil)
      as (_ & _ & _ & Hdone & _).
    apply Hdone; clear Hdone; [|by vm_compute|by vm_compute|apply lib_reply_wf|reflexivity|by vm_compute]. split.
    + vm_compute. reflexivity.
    + vm_compute. reflexivity.
    + apply Forall_replicate. split; [by vm_compute|]. by exists 6%nat.
    + apply Nat.leb_le. by vm_compute.
    + apply Forall_replicate. by vm_compute.
    + apply Nat.leb_le. by vm_compute.
  - pose proof (library_channel 10000000 [] [] [] (bytes_of "/run/resolvd/resolv.sock") 10 lib_query stuck_io lib_reply [] Hnil)
      as (_ & _ & _ & _ & _ & _ & Hends & _).
    apply Hends. clear Hends. split.
    + right. right. left. by vm_compute.
    + right. left. by vm_compute.
    + repeat (apply Forall_cons; split; [right; left; by vm_compute|]). apply Forall_nil_2.
    + left. by vm_compute.
    + apply Forall_cons. split; [right; left; by vm_compute|apply Forall_nil_2].
  - vm_compute. reflexivity.
Defined.
