(* ===== verification/Tool.v ===== *)
(** * The operator command (resolv/src/main.rs)

    Every verb is one request through the client; a run is what it sends, what
    it prints on the two streams and its exit status.  [None] is a run that
    has not ended. *)

From S2P Require Import Prelude Net Names Message Cache IpText Io Msgpack NativeWire NativeWireProofs Control CViews CViewsProofs CLibrary CLibraryProofs CLibraryProps.
Local Open Scope Z_scope.

(** ** Printing *)

Record Run : Type := mkRun { run_sent : list Z; run_out : Text; run_err : Text; run_code : Z }.

Definition println (parts : list Text) : Text := concat parts ++ [10].

Definition SUCCESS : Z := 0.
Definition FAILURE : Z := 1.
Definition USAGE : Z := 64.

Definition exit_code (o : Outcome) : Z := match o with Found => SUCCESS | NotFound => 2 | Unavailable => 3 end.

(** [slice.join(sep)]. *)
Fixpoint join_text (sep : Text) (parts : list Text) : Text :=
  match parts with
  | [] => []
  | [p] => p
  | p :: parts => p ++ sep ++ join_text sep parts
  end.

Definition scope_flags (sc : ScopeStatus) : list Text :=
  (if ss_default_route sc then [lit "default-route"] else []) ++ (if ss_exclusive sc then [lit "exclusive"] else []).

Definition scope_text (sc : ScopeStatus) : Text :=
  let flags := scope_flags sc in
  println [] ++
  println [ss_interface sc; lit "  metric "; fmt_dec (ss_metric sc);
           if bool_decide (flags = []) then [] else lit "  [" ++ join_text (lit ", ") flags ++ lit "]"] ++
  concat (map (fun server =>
    println [lit "  server   "; server; if bool_decide (server ∈ ss_demoted sc) then lit "  (demoted)" else []]) (ss_servers sc)) ++
  concat (map (fun d => println [lit "  domain   "; d]) (ss_domains sc)) ++
  concat (map (fun n => println [lit "  subnet   "; n]) (ss_subnets sc)).

Definition status_text (s : StatusReport) : Text :=
  println [lit "hostname   "; if bool_decide (sr_hostname s = []) then lit "(unset)" else sr_hostname s] ++
  println [lit "netd       "; if sr_netd s then lit "connected" else lit "not connected"] ++
  println [lit "cache      "; fmt_dec (sr_cache_entries s); lit " entries"] ++
  (if bool_decide (sr_scopes s = []) then println [lit "scopes     (none)"] else []) ++
  concat (map scope_text (sr_scopes s)) ++
  (if bool_decide (sr_fallback_servers s = []) then []
   else println [] ++ println [lit "fallback   "; join_text (lit " ") (sr_fallback_servers s)]) ++
  println [] ++
  (let c := sr_counters s in
   println [lit "queries "; fmt_dec (wc_queries c); lit "  synthetic "; fmt_dec (wc_synthetic c); lit "  cache-hits ";
     fmt_dec (wc_cache_hits c); lit "  upstream sent "; fmt_dec (wc_upstream_sent c); lit " answered ";
     fmt_dec (wc_upstream_answered c); lit " failed "; fmt_dec (wc_upstream_failed c); lit "  refused ";
     fmt_dec (wc_refused c)]).

Definition maybe (prefix : string) (v : option Text) : Text :=
  match v with Some s => bytes_of prefix ++ s | None => [] end.

Definition record_line (r : RecordOut) : Text :=
  println [ro_name r; [9]; fmt_dec (ro_ttl r); [9]; rtype_name (ro_rtype r); [9]; ro_text r].

Definition query_text (a : WAnswer) : Text :=
  println [Outcome_as_str (wa_outcome a); lit "  "; wa_source a; maybe " via " (wa_server a); maybe " on " (wa_interface a);
           lit "  validation "; Validation_as_str (wa_validation a)] ++
  (if bool_decide (wa_outcome a = Found) && negb (wa_rcode a =? 0)
   then println [lit "rcode "; rcode_name (wrap 8 (wa_rcode a))] else []) ++
  concat (map record_line (wa_records a)).

Definition lookup_text (a : WAddresses) : Text :=
  println [Outcome_as_str (wd_outcome a); lit "  "; wd_source a; lit "  canonical "; wd_canonical a] ++
  concat (map (fun x => println [ip_to_string (ao_address x); [9]; fmt_dec (ao_ttl x)]) (wd_addresses a)).

Definition reverse_text (a : WAnswer) : Text :=
  println [Outcome_as_str (wa_outcome a); lit "  "; wa_source a] ++
  concat (map (fun r => println [ro_text r]) (wa_records a)).

(** ** Running *)

Section tool.
Context `{Texts, OsTexts} (malloc : Heap -> Z) (version : Text).

(** A result as [call] hands it on. *)
Definition called {A} (r : list Z * Copy A) (into : A -> Reply) : list Z * option (result Text Reply) :=
  (r.1,
   match r.2 with
   | Some (Ok a) => Some (Ok (into a))
   | Some (Err e) => Some (Err (ce_message e))
   | None => None
   end).

Definition tool_call (request : Request) (io : ExchangeIo) : list Z * option (result Text Reply) :=
  match LibClient_new SOCKET_PATH (from_secs 10) with
  | Err e => ([], Some (Err (ce_message e)))
  | Ok client =>
      match request with
      | QStatus => called (client_status malloc client io) RStatus
      | QFlush => called (client_flush malloc client io) (fun _ => ROk)
      | QLookup name family => called (client_lookup malloc client name family io) RAddresses
      | QResolve name rtype no_cache => called (client_resolve malloc client name rtype no_cache io) RAnswer
      | QReverse address => called (client_reverse malloc client (ip_to_string address) io) RAnswer
      end
  end.

Definition complain (sent : list Z) (message : Text) : Run :=
  mkRun sent [] (println [lit "resolv: "; message]) FAILURE.

(** A verb: its request, and what it does with the reply of its kind. *)
Definition verb (request : Request) (io : ExchangeIo) (handle : Reply -> option (Text * Z)) : option Run :=
  match tool_call request io with
  | (sent, Some (Ok reply)) =>
      Some (match handle reply with
            | Some (text, code) => mkRun sent text [] code
            | None => match reply with RError e => complain sent e | _ => mkRun sent [] [] FAILURE end
            end)
  | (sent, Some (Err e)) => Some (complain sent e)
  | (_, None) => None
  end.

Definition tool_status (io : ExchangeIo) : option Run :=
  verb QStatus io (fun r => match r with RStatus s => Some (status_text s, SUCCESS) | _ => None end).

Definition tool_query (name rtype : Text) (no_cache : bool) (io : ExchangeIo) : option Run :=
  match rtype_parse rtype with
  | None => Some (complain [] (lit "unknown record type " ++ debug rtype))
  | Some rtype =>
      verb (QResolve name rtype no_cache) io
        (fun r => match r with RAnswer a => Some (query_text a, exit_code (wa_outcome a)) | _ => None end)
  end.

Definition tool_lookup (name : Text) (io : ExchangeIo) : option Run :=
  verb (QLookup name WAny) io
    (fun r => match r with RAddresses a => Some (lookup_text a, exit_code (wd_outcome a)) | _ => None end).

Definition tool_reverse (address : Text) (io : ExchangeIo) : option Run :=
  match ip_parse address with
  | None => Some (complain [] (debug address ++ lit " is not an address"))
  | Some address =>
      verb (QReverse address) io
        (fun r => match r with RAnswer a => Some (reverse_text a, exit_code (wa_outcome a)) | _ => None end)
  end.

Definition tool_flush (io : ExchangeIo) : option Run :=
  verb QFlush io (fun r => match r with ROk => Some ([], SUCCESS) | _ => None end).

Definition usage : Run :=
  mkRun [] []
    (println [lit "usage: resolv version | status | query <name> [type] [--no-cache] | lookup <name> | reverse <address> | flush"])
    USAGE.

Definition show_version : Run := mkRun [] (println [lit "resolv "; version]) [] SUCCESS.

Definition is_no_cache (a : Text) : bool := is_ a "--no-cache".

Definition main (args : list Text) (io : ExchangeIo) : option Run :=
  let no_cache := existsb is_no_cache args in
  match List.filter (fun a => negb (is_no_cache a)) args with
  | [v] =>
      if is_ v "version" || is_ v "--version" then Some show_version
      else if is_ v "status" then tool_status io
      else if is_ v "flush" then tool_flush io
      else Some usage
  | [v; a] =>
      if is_ v "query" then tool_query a (lit "A") no_cache io
      else if is_ v "lookup" then tool_lookup a io
      else if is_ v "reverse" then tool_reverse a io
      else Some usage
  | [v; name; rtype] => if is_ v "query" then tool_query name rtype no_cache io else Some usage
  | _ => Some usage
  end.
End tool.
