(* ===== verification/ToolProps.v ===== *)
(** * What the operator command tells *)

From S2P Require Import Prelude Net Names Message Cache IpText Io Msgpack NativeWire NativeWireProofs Control CViews CViewsProofs CLibrary CLibraryProofs CLibraryProps Tool.
Local Open Scope Z_scope.

(** ** The command line *)

(** The request a command line means, if it means one. *)
Definition command (args : list Text) : option Request :=
  let no_cache := existsb is_no_cache args in
  let query name rtype := match rtype_parse rtype with Some t => Some (QResolve name t no_cache) | None => None end in
  match List.filter (fun a => negb (is_no_cache a)) args with
  | [v] => if is_ v "status" then Some QStatus else if is_ v "flush" then Some QFlush else None
  | [v; a] =>
      if is_ v "query" then query a (lit "A")
      else if is_ v "lookup" then Some (QLookup a WAny)
      else if is_ v "reverse" then match ip_parse a with Some a => Some (QReverse a) | None => None end
      else None
  | [v; name; rtype] => if is_ v "query" then query name rtype else None
  | _ => None
  end.

(** The verbs of the version. *)
Definition asks_version (args : list Text) : bool :=
  match List.filter (fun a => negb (is_no_cache a)) args with
  | [v] => is_ v "version" || is_ v "--version"
  | _ => false
  end.

(** A well-formed command line with a record type or an address that is none. *)
Definition bad_argument (args : list Text) : bool :=
  match List.filter (fun a => negb (is_no_cache a)) args with
  | [v; _] => is_ v "reverse"
  | [v; _; _] => is_ v "query"
  | _ => false
  end.

(** Arguments are strings, and no longer than the library takes. *)
Definition request_fits (q : Request) : Prop :=
  match q with
  | QResolve name _ _ | QLookup name _ => Z.of_nat (length name) <= MAX_TEXT_BYTES /\ utf8_valid name = true
  | QReverse address => IpAddr_wf address
  | QStatus | QFlush => True
  end.

(** What a reply amounts to. *)
Definition verdict (reply : Reply) : option Outcome :=
  match reply with
  | RAnswer a => Some (wa_outcome a)
  | RAddresses a => Some (wd_outcome a)
  | RStatus _ | ROk => Some Found
  | RError _ => None
  end.

Section telling.
Context `{Texts, OsTexts} (malloc : Heap -> Z) {Hm : Malloc malloc} (version : Text).

Lemma exchange_expected path timeout_ms q io reply :
  (exchange_reply path timeout_ms q io).2 = Some (Ok reply) -> expected q reply = true.
Proof using.
  unfold exchange_reply, receive_complete. destruct (deadline _ _); [|done]. destruct (connect _ _ _) as [[]|]; try done.
  destruct (channel_send _ _ _) as [sent [[]|]]; try done. cbn [snd].
  destruct (receive_loop _ _ _ _) as [[? ?] [[r|]|]]; try done. destruct (expected q r) eqn:He; cbn [negb]; [|done].
  by intros [=<-].
Qed.

(** What [call] gives of an exchange. *)
Definition told (r : option (result IoErr Reply)) : option (result Text Reply) :=
  match r with
  | None => None
  | Some (Err e) => Some (Err (error_text e))
  | Some (Ok (RError m)) => Some (Err m)
  | Some (Ok reply) => Some (Ok reply)
  end.

Lemma tool_call_told q io :
  let ask := exchange_reply SOCKET_PATH 10000 q io in
  request_fits q -> outcome_good ask.2 -> tool_call malloc q io = (ask.1, told ask.2).
Proof using Hm.
  intros ask Hq Hg. unfold tool_call.
  assert (LibClient_new SOCKET_PATH (from_secs 10) = Ok (mkLibClient SOCKET_PATH 10000)) as Hc by (vm_compute; reflexivity).
  rewrite Hc. destruct (client_calls malloc _ _ _ Hc io) as (Hs & Hf & Hl & Hr & Hv). cbn [lc_timeout_ms] in *.
  pose proof (exchange_expected SOCKET_PATH 10000 q io) as He. fold ask in He.
  destruct q as [name t nc|name f|addr| |]; cbn [request_fits] in Hq;
    [rewrite (Hr name t nc Hq Hg)|rewrite (Hl name f Hq Hg)|rewrite (Hv addr Hq Hg)|rewrite (Hs Hg)|rewrite (Hf Hg)];
    fold ask; unfold called; cbn [fst snd]; f_equal;
    (destruct ask as [sent [[reply|e]|]]; cbn [snd seen told] in *; [|done..]);
    specialize (He reply eq_refl); by destruct reply.
Qed.

Lemma verb_told q io handle :
  let ask := exchange_reply SOCKET_PATH 10000 q io in
  request_fits q -> outcome_good ask.2 ->
  (forall reply, expected q reply = true -> verdict reply <> None -> handle reply <> None) ->
  (forall m, handle (RError m) = None) ->
  verb malloc q io handle =
    match ask.2 with
    | None => None
    | Some (Err e) => Some (complain ask.1 (error_text e))
    | Some (Ok (RError m)) => Some (complain ask.1 m)
    | Some (Ok reply) => match handle reply with Some (text, code) => Some (mkRun ask.1 text [] code) | None => None end
    end.
Proof using Hm.
  intros ask Hq Hg Hh He. unfold verb. rewrite (tool_call_told q io Hq Hg). fold ask.
  pose proof (exchange_expected SOCKET_PATH 10000 q io) as Hx. fold ask in Hx.
  destruct ask as [sent [[reply|e]|]]; cbn [fst snd told] in *; [|done..]. specialize (Hx reply eq_refl).
  specialize (Hh reply Hx).
  destruct reply; [destruct (handle _) as [[]|] eqn:Hd; [done|by destruct Hh]|done|..];
    (destruct (handle _) as [[]|] eqn:Hd; [done|by destruct Hh]).
Qed.

(** What each request does with the reply of its kind. *)
Definition handler (q : Request) : Reply -> option (Text * Z) :=
  match q with
  | QStatus => fun r => match r with RStatus s => Some (status_text s, SUCCESS) | _ => None end
  | QFlush => fun r => match r with ROk => Some ([], SUCCESS) | _ => None end
  | QLookup _ _ => fun r => match r with RAddresses a => Some (lookup_text a, exit_code (wd_outcome a)) | _ => None end
  | QResolve _ _ _ => fun r => match r with RAnswer a => Some (query_text a, exit_code (wa_outcome a)) | _ => None end
  | QReverse _ => fun r => match r with RAnswer a => Some (reverse_text a, exit_code (wa_outcome a)) | _ => None end
  end.

(** A run that asked nothing. *)
Ltac no_request := eexists; split_and!; done.

Lemma main_runs args io :
  match command args with
  | Some q => main malloc version args io = verb malloc q io (handler q)
  | None => exists run, main malloc version args io = Some run /\ run_sent run = [] /\
      if asks_version args then run = show_version version
      else run_out run = [] /\ run_err run <> [] /\ run_code run = if bad_argument args then 1 else 64
  end.
Proof using.
  unfold command, main, asks_version, bad_argument. destruct (List.filter _ args) as [|v [|a [|b [|c l]]]].
  - no_request.
  - destruct (is_ v "version") eqn:E1.
    { apply bool_decide_eq_true in E1 as ->. change (is_ (lit "version") "status") with false.
      change (is_ (lit "version") "flush") with false. no_request. }
    destruct (is_ v "--version") eqn:E2.
    { apply bool_decide_eq_true in E2 as ->. change (is_ (lit "--version") "status") with false.
      change (is_ (lit "--version") "flush") with false. no_request. }
    cbn [orb]. destruct (is_ v "status"); [done|]. destruct (is_ v "flush"); [done|]. no_request.
  - destruct (is_ v "query") eqn:E1; [done|].
    destruct (is_ v "lookup"); [done|]. destruct (is_ v "reverse"); [|no_request].
    unfold tool_reverse. destruct (ip_parse a); [done|no_request].
  - destruct (is_ v "query"); [|no_request]. unfold tool_query. destruct (rtype_parse b); [done|no_request].
  - no_request.
Qed.
End telling.

(** A text that is printed. *)
Definition shown (t out : Text) : Prop := exists before after, out = before ++ t ++ after.

Lemma shown_line t parts ls line : t ∈ parts -> line = println parts -> line ∈ ls -> shown t (concat ls).
Proof.
  intros (p1 & p2 & ->)%list_elem_of_split -> (l1 & l2 & ->)%list_elem_of_split. unfold println.
  rewrite concat_app. cbn [concat]. rewrite concat_app. cbn [concat]. rewrite <- !app_assoc.
  exists (concat l1 ++ concat p1), (concat p2 ++ [10] ++ concat l2). by rewrite <- !app_assoc.
Qed.

Lemma shown_app t out before : shown t out -> shown t (before ++ out).
Proof. intros (x & y & ->). exists (before ++ x), y. by rewrite <- app_assoc. Qed.

(** Everything in a reply that answers the question is printed. *)
Lemma handler_shows q reply text code :
  handler q reply = Some (text, code) ->
  code = match verdict reply with Some Found => 0 | Some NotFound => 2 | Some Unavailable => 3 | None => 1 end /\
  (forall a r, reply = RAnswer a -> r ∈ wa_records a -> shown (ro_text r) text) /\
  (forall a x, reply = RAddresses a -> x ∈ wd_addresses a -> shown (ip_to_string (ao_address x)) text).
Proof.
  destruct q, reply as [|m|v|v|v]; cbn [handler]; try done; intros [= <- <-]; (split; [first [done|by destruct (wa_outcome v)|by destruct (wd_outcome v)]|]);
    (split; [intros a r [= <-] Hr|intros a x [= <-] Hx]); try done; unfold query_text, lookup_text, reverse_text;
    repeat apply shown_app.
  - eapply (shown_line (ro_text r)); [|reflexivity|apply list_elem_of_fmap; by exists r].
    unfold record_line. set_solver.
  - eapply (shown_line (ip_to_string (ao_address x))); [|reflexivity|apply list_elem_of_fmap; by exists x]. set_solver.
  - eapply (shown_line (ro_text r)); [|reflexivity|apply list_elem_of_fmap; by exists r]. set_solver.
Qed.


(** The four ends of a lookup: the daemon's three outcomes, and no daemon. *)
Definition told_reply (o : Outcome) : Reply := RAddresses (mkWAddresses o (bytes_of "a.example") [] (bytes_of "dns") Unvalidated).

Definition told_io (o : Outcome) : ExchangeIo :=
  mkExchangeIo 0 (mkConnectIo None None [] (Ok None) 1) (replicate 20 (lib_tick, Takes 70))
    [ReadBytes (response_frame (told_reply o))] (replicate 20 lib_tick).

Definition refused_io : ExchangeIo := mkExchangeIo 0 (mkConnectIo None (Some 111) [] (Ok None) 1) [] [] [].

Lemma told_reply_good o : reply_good (told_reply o).
Proof.
  apply Reply_wf_good. split_and!; [split; [reflexivity|vm_compute; reflexivity]|constructor|vm_compute; reflexivity|].
  split; [reflexivity|vm_compute; reflexivity].
Qed.

