(* ===== verification/NetdCodec.v ===== *)
(** * netd's control wire (vendor/netd/netd-core/src/lib.rs)

    The requests, replies and their codec.  The MessagePack reader and writer
    netd uses are those of the peios crate, which is not part of the sources:
    they are the class [Peios], what is relied on of them the classes
    [PeiosTyped] and [PeiosRoundTrip].  The repository's own MessagePack is an
    instance. *)

From S2P Require Import Prelude Net IpText Cache EngineState Io Msgpack MsgpackProofs NativeWire NativeWireProofs.
Local Open Scope Z_scope.

(** ** The peios crate's MessagePack *)

(** What is written to a [Writer]. *)
Inductive Token : Type :=
| KNil
| KBool (v : bool)
| KUint (v : Z)
| KStr (s : Str)
| KArray (n : Z)
| KMap (n : Z).

#[export] Instance Token_eq_dec : EqDecision Token.
Proof. solve_decision. Defined.

Abbreviation Writer := (list Token).

Class Peios : Type := mkPeios {
  PError : Type;
  PReader : Type;
  p_new : list Z -> PReader;
  p_remaining : PReader -> nat;
  (** [r.peek() == Some(Type::Nil)]. *)
  p_peek_nil : PReader -> bool;
  p_nil : PReader -> result PError (() * PReader);
  p_bool : PReader -> result PError (bool * PReader);
  p_uint : PReader -> result PError (Z * PReader);
  p_str : PReader -> result PError (Str * PReader);
  p_array : PReader -> result PError (nat * PReader);
  p_map : PReader -> result PError (nat * PReader);
  p_skip : PReader -> result PError (() * PReader);
  p_to_bytes : Writer -> result PError (list Z);
}.

(** Strings are strings: [read_str] returns a [&str]. *)
Class PeiosTyped `{Peios} : Prop := mkPeiosTyped {
  p_str_utf8 : forall r s r', p_str r = Ok (s, r') -> utf8_valid s = true;
}.

(** ** The writer *)

Definition w_nil (w : Writer) : Writer := w ++ [KNil].
Definition w_bool (v : bool) (w : Writer) : Writer := w ++ [KBool v].
Definition w_uint (v : Z) (w : Writer) : Writer := w ++ [KUint v].
Definition w_str (s : Str) (w : Writer) : Writer := w ++ [KStr s].
Definition w_array (n : Z) (w : Writer) : Writer := w ++ [KArray n].
Definition w_map (n : Z) (w : Writer) : Writer := w ++ [KMap n].

Definition w_str_list (key : Str) (items : list Str) (w : Writer) : Writer :=
  fold_left (fun w s => w |> w_str s) items (w |> w_str key |> w_array (count_of items)).

Definition w_opt_str (key : Str) (v : option Str) (w : Writer) : Writer :=
  let w := w |> w_str key in
  match v with Some s => w |> w_str s | None => w |> w_nil end.

(** ** Data *)

Inductive NetdRequest : Type :=
| NStatusQuery
| NRenew (interface : Str)
| NReconcile
| NSubscribe.

Record LeaseStatus : Type := mkLeaseStatus {
  l_server : Str;
  l_expires_in : Z;
  l_state : Str;
  l_duration : Z;
  l_renew_at : Z;
  l_rebind_at : Z;
}.

Record InterfaceStatus : Type := mkInterfaceStatus {
  is_ifid : Str;
  is_name : Str;
  is_index : Z;
  is_mac : Str;
  is_path : Str;
  is_driver : Str;
  is_verdict : option Str;
  is_rule : option Str;
  is_profile : option Str;
  is_network : option Str;
  is_network_name : option Str;
  is_network_trust : option Str;
  is_warning : option Str;
  is_up : bool;
  is_carrier : bool;
  is_level : Level;
  is_addresses : list Str;
  is_gateway : option Str;
  is_gateway6 : option Str;
  is_dns : list Str;
  is_search : list Str;
  is_lease : option LeaseStatus;
}.

Record NetdStatus : Type := mkNetdStatus {
  ns_hostname : Str;
  ns_level : Level;
  ns_refusal : option Str;
  ns_interfaces : list InterfaceStatus;
}.

Record DnsScope : Type := mkDnsScope {
  d_ifid : Str;
  d_name : Str;
  d_servers : list Str;
  d_domains : list Str;
  d_ntp : list Str;
  d_addresses : list Str;
  d_default_route : bool;
  d_exclusive : bool;
  d_metric : Z;
  d_level : Level;
}.

Record Snapshot : Type := mkSnapshot { sn_hostname : Str; sn_scopes : list DnsScope }.

Inductive NetdReply : Type :=
| NOk
| NStatus (s : NetdStatus)
| NSnapshot (s : Snapshot)
| NError (message : Str).

Definition LeaseStatus_default : LeaseStatus := mkLeaseStatus [] 0 [] 0 0 0.
Definition InterfaceStatus_default : InterfaceStatus :=
  mkInterfaceStatus [] [] 0 [] [] [] None None None None None None None false false Absent [] None None [] [] None.
Definition NetdStatus_default : NetdStatus := mkNetdStatus [] Absent None [].
Definition DnsScope_default : DnsScope := mkDnsScope [] [] [] [] [] [] false false 0 Absent.
Definition Snapshot_default : Snapshot := mkSnapshot [] [].

Definition NETWORK_QUERY : Z := 1.
Definition NETWORK_CONTROL : Z := 2.

Definition netd_required_right (q : NetdRequest) : Z :=
  match q with NStatusQuery | NSubscribe => NETWORK_QUERY | NRenew _ | NReconcile => NETWORK_CONTROL end.

(** ** Encoding *)

Definition request_tokens (q : NetdRequest) : Writer :=
  match q with
  | NStatusQuery => [] |> w_map 1 |> w_str (lit "query") |> w_str (lit "status")
  | NRenew interface =>
      [] |> w_map 2 |> w_str (lit "query") |> w_str (lit "renew") |> w_str (lit "interface") |> w_str interface
  | NReconcile => [] |> w_map 1 |> w_str (lit "query") |> w_str (lit "reconcile")
  | NSubscribe => [] |> w_map 1 |> w_str (lit "query") |> w_str (lit "subscribe")
  end.

Definition w_lease (lease : option LeaseStatus) (w : Writer) : Writer :=
  match lease with
  | None => w |> w_nil
  | Some l =>
      w |> w_map 6
        |> w_str (lit "server") |> w_str (l_server l)
        |> w_str (lit "expires_in") |> w_uint (l_expires_in l)
        |> w_str (lit "state") |> w_str (l_state l)
        |> w_str (lit "duration") |> w_uint (l_duration l)
        |> w_str (lit "renew_at") |> w_uint (l_renew_at l)
        |> w_str (lit "rebind_at") |> w_uint (l_rebind_at l)
  end.

Definition encode_interface (w : Writer) (i : InterfaceStatus) : Writer :=
  w |> w_map 22
    |> w_str (lit "ifid") |> w_str (is_ifid i)
    |> w_str (lit "name") |> w_str (is_name i)
    |> w_str (lit "index") |> w_uint (is_index i)
    |> w_str (lit "mac") |> w_str (is_mac i)
    |> w_str (lit "path") |> w_str (is_path i)
    |> w_str (lit "driver") |> w_str (is_driver i)
    |> w_opt_str (lit "verdict") (is_verdict i)
    |> w_opt_str (lit "rule") (is_rule i)
    |> w_opt_str (lit "profile") (is_profile i)
    |> w_opt_str (lit "network") (is_network i)
    |> w_opt_str (lit "network_name") (is_network_name i)
    |> w_opt_str (lit "network_trust") (is_network_trust i)
    |> w_opt_str (lit "warning") (is_warning i)
    |> w_str (lit "up") |> w_bool (is_up i)
    |> w_str (lit "carrier") |> w_bool (is_carrier i)
    |> w_str (lit "level") |> w_str (Level_as_str (is_level i))
    |> w_str_list (lit "addresses") (is_addresses i)
    |> w_opt_str (lit "gateway") (is_gateway i)
    |> w_opt_str (lit "gateway6") (is_gateway6 i)
    |> w_str_list (lit "dns") (is_dns i)
    |> w_str_list (lit "search") (is_search i)
    |> w_str (lit "lease") |> w_lease (is_lease i).

Definition encode_scope (w : Writer) (s : DnsScope) : Writer :=
  w |> w_map 10
    |> w_str (lit "ifid") |> w_str (d_ifid s)
    |> w_str (lit "name") |> w_str (d_name s)
    |> w_str_list (lit "servers") (d_servers s)
    |> w_str_list (lit "domains") (d_domains s)
    |> w_str_list (lit "ntp") (d_ntp s)
    |> w_str_list (lit "addresses") (d_addresses s)
    |> w_str (lit "default_route") |> w_bool (d_default_route s)
    |> w_str (lit "exclusive") |> w_bool (d_exclusive s)
    |> w_str (lit "metric") |> w_uint (d_metric s)
    |> w_str (lit "level") |> w_str (Level_as_str (d_level s)).

Definition reply_tokens (reply : NetdReply) : Writer :=
  match reply with
  | NOk => [] |> w_map 1 |> w_str (lit "ok") |> w_bool true
  | NError message =>
      [] |> w_map 2 |> w_str (lit "ok") |> w_bool false |> w_str (lit "error") |> w_str message
  | NSnapshot s =>
      fold_left encode_scope (sn_scopes s)
        ([] |> w_map 4 |> w_str (lit "ok") |> w_bool true
            |> w_str (lit "kind") |> w_str (lit "snapshot")
            |> w_str (lit "hostname") |> w_str (sn_hostname s)
            |> w_str (lit "scopes") |> w_array (count_of (sn_scopes s)))
  | NStatus s =>
      fold_left encode_interface (ns_interfaces s)
        ([] |> w_map 5 |> w_str (lit "ok") |> w_bool true
            |> w_str (lit "hostname") |> w_str (ns_hostname s)
            |> w_str (lit "level") |> w_str (Level_as_str (ns_level s))
            |> w_opt_str (lit "refusal") (ns_refusal s)
            |> w_str (lit "interfaces") |> w_array (count_of (ns_interfaces s)))
  end.

Section codec.
Context `{Peios}.

(** [w.to_bytes().expect(..)]. *)
Definition NetdRequest_encode (q : NetdRequest) : list Z := expect [] (p_to_bytes (request_tokens q)).
Definition NetdReply_encode (reply : NetdReply) : list Z := expect [] (p_to_bytes (reply_tokens reply)).

(** ** Decoding *)

Inductive NetdError : Type :=
| NEncoding (e : PError)
| NMissing (field : Str)
| NDuplicate (field : Str)
| NUnknownQuery (query : Str)
| NTooLarge (n : nat).

Abbreviation NRead A := (result NetdError (A * PReader)).

(** [?] on a result of the reader. *)
Definition n_lift {A} (r : result PError A) : result NetdError A :=
  match r with Ok a => Ok a | Err e => Err (NEncoding e) end.

Definition n_store {A St} (rd : PReader -> NRead A) (put : A -> St) (r : PReader) : NRead St :=
  let? (v, r) := rd r in Ok (put v, r).

Definition n_str (r : PReader) : NRead Str := n_lift (p_str r).
Definition n_bool (r : PReader) : NRead bool := n_lift (p_bool r).
Definition n_uint (r : PReader) : NRead Z := n_lift (p_uint r).
Definition n_skip (r : PReader) : NRead () := n_lift (p_skip r).
(** [r.read_uint()? as u32]. *)
Definition n_u32 (r : PReader) : NRead Z := n_store n_uint (wrap 32) r.
(** [Level::parse(r.read_str()?).unwrap_or(Level::Absent)]. *)
Definition n_level (r : PReader) : NRead Level := n_store n_str (fun s => default Absent (Level_parse s)) r.

Fixpoint n_items {A} (n : nat) (item : PReader -> NRead A) (out : list A) (r : PReader) : NRead (list A) :=
  match n with
  | O => Ok (out, r)
  | S n => let? (x, r) := item r in n_items n item (out ++ [x]) r
  end.

Definition n_array_of {A} (item : PReader -> NRead A) (out : list A) (r : PReader) : NRead (list A) :=
  let? (n, r) := n_lift (p_array r) in n_items n item out r.

Definition n_str_list (r : PReader) : NRead (list Str) :=
  let? (n, r) := n_lift (p_array r) in
  if (p_remaining r <? n)%nat then Err (NTooLarge n) else n_items n n_str [] r.

Definition n_opt_str (r : PReader) : NRead (option Str) :=
  if p_peek_nil r then let? (_, r) := n_lift (p_nil r) in Ok (None, r)
  else n_store n_str Some r.

Fixpoint n_fields_loop {St} (n : nat) (seen : list Str) (f : Str -> St -> PReader -> NRead St) (st : St)
    (r : PReader) : NRead St :=
  match n with
  | O => Ok (st, r)
  | S n =>
      let? (key, r) := n_lift (p_str r) in
      if existsb (fun s => bool_decide (s = key)) seen then Err (NDuplicate key)
      else
        let? (st, r) := f key st r in
        n_fields_loop n (seen ++ [key]) f st r
  end.

Definition n_for_each_field {St} (f : Str -> St -> PReader -> NRead St) (st : St) (r : PReader) : NRead St :=
  let? (n, r) := n_lift (p_map r) in n_fields_loop n [] f st r.

Definition netd_request_field (key : Str) (s : option Str * option Str) (r : PReader)
  : NRead (option Str * option Str) :=
  let '(query, interface) := s in
  if is_ key "query" then n_store n_str (fun v => (Some v, interface)) r
  else if is_ key "interface" then n_store n_str (fun v => (query, Some v)) r
  else n_store n_skip (fun _ => s) r.

Definition NetdRequest_decode (bytes : list Z) : result NetdError NetdRequest :=
  let? (s, _) := n_for_each_field netd_request_field (None, None) (p_new bytes) in
  let '(query, interface) := s in
  match query with
  | None => Err (NMissing (lit "query"))
  | Some q =>
      if is_ q "status" then Ok NStatusQuery
      else if is_ q "reconcile" then Ok NReconcile
      else if is_ q "subscribe" then Ok NSubscribe
      else if is_ q "renew" then
        let? interface := ok_or interface (NMissing (lit "interface")) in Ok (NRenew interface)
      else Err (NUnknownQuery q)
  end.

Definition lease_field (key : Str) (l : LeaseStatus) (r : PReader) : NRead LeaseStatus :=
  let '(mkLeaseStatus server expires_in state duration renew_at rebind_at) := l in
  if is_ key "server" then
    n_store n_str (fun v => mkLeaseStatus v expires_in state duration renew_at rebind_at) r
  else if is_ key "expires_in" then
    n_store n_uint (fun v => mkLeaseStatus server v state duration renew_at rebind_at) r
  else if is_ key "state" then
    n_store n_str (fun v => mkLeaseStatus server expires_in v duration renew_at rebind_at) r
  else if is_ key "duration" then
    n_store n_uint (fun v => mkLeaseStatus server expires_in state v renew_at rebind_at) r
  else if is_ key "renew_at" then
    n_store n_uint (fun v => mkLeaseStatus server expires_in state duration v rebind_at) r
  else if is_ key "rebind_at" then
    n_store n_uint (fun v => mkLeaseStatus server expires_in state duration renew_at v) r
  else n_store n_skip (fun _ => l) r.

(** A nil lease leaves the field as it was, which a first one finds [None]. *)
Definition n_lease (r : PReader) : NRead (option LeaseStatus) :=
  if p_peek_nil r then let? (_, r) := n_lift (p_nil r) in Ok (None, r)
  else n_store (n_for_each_field lease_field LeaseStatus_default) Some r.

Definition interface_field (key : Str) (s : InterfaceStatus) (r : PReader) : NRead InterfaceStatus :=
  let '(mkInterfaceStatus x1 x2 x3 x4 x5 x6 x7 x8 x9 x10 x11 x12 x13 x14 x15 x16 x17 x18 x19 x20 x21 x22) := s in
  if is_ key "ifid" then
    n_store n_str (fun v => mkInterfaceStatus v x2 x3 x4 x5 x6 x7 x8 x9 x10 x11 x12 x13 x14 x15 x16 x17 x18 x19 x20 x21 x22) r
  else if is_ key "name" then
    n_store n_str (fun v => mkInterfaceStatus x1 v x3 x4 x5 x6 x7 x8 x9 x10 x11 x12 x13 x14 x15 x16 x17 x18 x19 x20 x21 x22) r
  else if is_ key "index" then
    n_store n_u32 (fun v => mkInterfaceStatus x1 x2 v x4 x5 x6 x7 x8 x9 x10 x11 x12 x13 x14 x15 x16 x17 x18 x19 x20 x21 x22) r
  else if is_ key "mac" then
    n_store n_str (fun v => mkInterfaceStatus x1 x2 x3 v x5 x6 x7 x8 x9 x10 x11 x12 x13 x14 x15 x16 x17 x18 x19 x20 x21 x22) r
  else if is_ key "path" then
    n_store n_str (fun v => mkInterfaceStatus x1 x2 x3 x4 v x6 x7 x8 x9 x10 x11 x12 x13 x14 x15 x16 x17 x18 x19 x20 x21 x22) r
  else if is_ key "driver" then
    n_store n_str (fun v => mkInterfaceStatus x1 x2 x3 x4 x5 v x7 x8 x9 x10 x11 x12 x13 x14 x15 x16 x17 x18 x19 x20 x21 x22) r
  else if is_ key "verdict" then
    n_store n_opt_str (fun v => mkInterfaceStatus x1 x2 x3 x4 x5 x6 v x8 x9 x10 x11 x12 x13 x14 x15 x16 x17 x18 x19 x20 x21 x22) r
  else if is_ key "rule" then
    n_store n_opt_str (fun v => mkInterfaceStatus x1 x2 x3 x4 x5 x6 x7 v x9 x10 x11 x12 x13 x14 x15 x16 x17 x18 x19 x20 x21 x22) r
  else if is_ key "profile" then
    n_store n_opt_str (fun v => mkInterfaceStatus x1 x2 x3 x4 x5 x6 x7 x8 v x10 x11 x12 x13 x14 x15 x16 x17 x18 x19 x20 x21 x22) r
  else if is_ key "network" then
    n_store n_opt_str (fun v => mkInterfaceStatus x1 x2 x3 x4 x5 x6 x7 x8 x9 v x11 x12 x13 x14 x15 x16 x17 x18 x19 x20 x21 x22) r
  else if is_ key "network_name" then
    n_store n_opt_str (fun v => mkInterfaceStatus x1 x2 x3 x4 x5 x6 x7 x8 x9 x10 v x12 x13 x14 x15 x16 x17 x18 x19 x20 x21 x22) r
  else if is_ key "network_trust" then
    n_store n_opt_str (fun v => mkInterfaceStatus x1 x2 x3 x4 x5 x6 x7 x8 x9 x10 x11 v x13 x14 x15 x16 x17 x18 x19 x20 x21 x22) r
  else if is_ key "warning" then
    n_store n_opt_str (fun v => mkInterfaceStatus x1 x2 x3 x4 x5 x6 x7 x8 x9 x10 x11 x12 v x14 x15 x16 x17 x18 x19 x20 x21 x22) r
  else if is_ key "up" then
    n_store n_bool (fun v => mkInterfaceStatus x1 x2 x3 x4 x5 x6 x7 x8 x9 x10 x11 x12 x13 v x15 x16 x17 x18 x19 x20 x21 x22) r
  else if is_ key "carrier" then
    n_store n_bool (fun v => mkInterfaceStatus x1 x2 x3 x4 x5 x6 x7 x8 x9 x10 x11 x12 x13 x14 v x16 x17 x18 x19 x20 x21 x22) r
  else if is_ key "level" then
    n_store n_level (fun v => mkInterfaceStatus x1 x2 x3 x4 x5 x6 x7 x8 x9 x10 x11 x12 x13 x14 x15 v x17 x18 x19 x20 x21 x22) r
  else if is_ key "addresses" then
    n_store n_str_list (fun v => mkInterfaceStatus x1 x2 x3 x4 x5 x6 x7 x8 x9 x10 x11 x12 x13 x14 x15 x16 v x18 x19 x20 x21 x22) r
  else if is_ key "gateway" then
    n_store n_opt_str (fun v => mkInterfaceStatus x1 x2 x3 x4 x5 x6 x7 x8 x9 x10 x11 x12 x13 x14 x15 x16 x17 v x19 x20 x21 x22) r
  else if is_ key "gateway6" then
    n_store n_opt_str (fun v => mkInterfaceStatus x1 x2 x3 x4 x5 x6 x7 x8 x9 x10 x11 x12 x13 x14 x15 x16 x17 x18 v x20 x21 x22) r
  else if is_ key "dns" then
    n_store n_str_list (fun v => mkInterfaceStatus x1 x2 x3 x4 x5 x6 x7 x8 x9 x10 x11 x12 x13 x14 x15 x16 x17 x18 x19 v x21 x22) r
  else if is_ key "search" then
    n_store n_str_list (fun v => mkInterfaceStatus x1 x2 x3 x4 x5 x6 x7 x8 x9 x10 x11 x12 x13 x14 x15 x16 x17 x18 x19 x20 v x22) r
  else if is_ key "lease" then
    n_store n_lease (fun v => mkInterfaceStatus x1 x2 x3 x4 x5 x6 x7 x8 x9 x10 x11 x12 x13 x14 x15 x16 x17 x18 x19 x20 x21 v) r
  else n_store n_skip (fun _ => s) r.

Definition decode_interface : PReader -> NRead InterfaceStatus :=
  n_for_each_field interface_field InterfaceStatus_default.

Definition dns_scope_field (key : Str) (s : DnsScope) (r : PReader) : NRead DnsScope :=
  let '(mkDnsScope ifid name servers domains ntp addresses droute excl metric level) := s in
  if is_ key "ifid" then
    n_store n_str (fun v => mkDnsScope v name servers domains ntp addresses droute excl metric level) r
  else if is_ key "name" then
    n_store n_str (fun v => mkDnsScope ifid v servers domains ntp addresses droute excl metric level) r
  else if is_ key "servers" then
    n_store n_str_list (fun v => mkDnsScope ifid name v domains ntp addresses droute excl metric level) r
  else if is_ key "domains" then
    n_store n_str_list (fun v => mkDnsScope ifid name servers v ntp addresses droute excl metric level) r
  else if is_ key "ntp" then
    n_store n_str_list (fun v => mkDnsScope ifid name servers domains v addresses droute excl metric level) r
  else if is_ key "addresses" then
    n_store n_str_list (fun v => mkDnsScope ifid name servers domains ntp v droute excl metric level) r
  else if is_ key "default_route" then
    n_store n_bool (fun v => mkDnsScope ifid name servers domains ntp addresses v excl metric level) r
  else if is_ key "exclusive" then
    n_store n_bool (fun v => mkDnsScope ifid name servers domains ntp addresses droute v metric level) r
  else if is_ key "metric" then
    n_store n_u32 (fun v => mkDnsScope ifid name servers domains ntp addresses droute excl v level) r
  else if is_ key "level" then
    n_store n_level (fun v => mkDnsScope ifid name servers domains ntp addresses droute excl metric v) r
  else n_store n_skip (fun _ => s) r.

Definition decode_scope : PReader -> NRead DnsScope := n_for_each_field dns_scope_field DnsScope_default.

(** The locals of [Reply::decode]. *)
Record NetdFields : Type := mkNetdFields {
  nf_ok : option bool;
  nf_error : option Str;
  nf_status : NetdStatus;
  nf_has_status : bool;
  nf_snapshot : Snapshot;
  nf_kind : option Str;
}.

Definition NetdFields_init : NetdFields :=
  mkNetdFields None None NetdStatus_default false Snapshot_default None.

Definition netd_reply_field (key : Str) (s : NetdFields) (r : PReader) : NRead NetdFields :=
  let '(mkNetdFields okv error status has snapshot kind) := s in
  let '(mkNetdStatus hostname level refusal interfaces) := status in
  if is_ key "ok" then n_store n_bool (fun v => mkNetdFields (Some v) error status has snapshot kind) r
  else if is_ key "error" then n_store n_str (fun v => mkNetdFields okv (Some v) status has snapshot kind) r
  else if is_ key "kind" then n_store n_str (fun v => mkNetdFields okv error status has snapshot (Some v)) r
  else if is_ key "scopes" then
    n_store (n_array_of decode_scope (sn_scopes snapshot))
      (fun v => mkNetdFields okv error status has (mkSnapshot (sn_hostname snapshot) v) kind) r
  else if is_ key "hostname" then
    n_store n_str (fun v => mkNetdFields okv error (mkNetdStatus v level refusal interfaces) true
      (mkSnapshot v (sn_scopes snapshot)) kind) r
  else if is_ key "level" then
    n_store n_level (fun v => mkNetdFields okv error (mkNetdStatus hostname v refusal interfaces) true snapshot kind) r
  else if is_ key "refusal" then
    n_store n_opt_str (fun v =>
      mkNetdFields okv error (mkNetdStatus hostname level v interfaces) true snapshot kind) r
  else if is_ key "interfaces" then
    n_store (n_array_of decode_interface interfaces) (fun v =>
      mkNetdFields okv error (mkNetdStatus hostname level refusal v) true snapshot kind) r
  else n_store n_skip (fun _ => s) r.

Definition NetdReply_of (s : NetdFields) : result NetdError NetdReply :=
  match nf_ok s with
  | Some true =>
      if bool_decide (nf_kind s = Some (lit "snapshot")) then Ok (NSnapshot (nf_snapshot s))
      else if nf_has_status s then Ok (NStatus (nf_status s))
      else Ok NOk
  | Some false => Ok (NError (default (lit "unspecified error") (nf_error s)))
  | None => Err (NMissing (lit "ok"))
  end.

Definition NetdReply_decode (bytes : list Z) : result NetdError NetdReply :=
  let? (s, _) := n_for_each_field netd_reply_field NetdFields_init (p_new bytes) in
  NetdReply_of s.

(** What resolvd's side of the channel makes of a message. *)
Definition netd_decode (bytes : list Z) : option NetdReply := ok (NetdReply_decode bytes).
End codec.
