(* ===== verification/NetdCodecProofs.v ===== *)
(** * netd's control wire: what decodes is typed, and replies are read back

    The first half needs only that the reader's strings are strings; the
    second is the contract of reader and writer, composed over the fields of
    the maps.  The repository's MessagePack meets both. *)

From S2P Require Import Prelude Net IpText Cache EngineState Io Msgpack MsgpackProofs NativeWire NativeWireProofs NetdCodec.
Local Open Scope Z_scope.

(** ** What decodes is typed *)

Definition utf8 (s : Str) : Prop := utf8_valid s = true.

Record DnsScope_typed (d : DnsScope) : Prop := mk_DnsScope_typed {
  dt_ifid : utf8 (d_ifid d);
  dt_name : utf8 (d_name d);
  dt_servers : Forall utf8 (d_servers d);
  dt_domains : Forall utf8 (d_domains d);
  dt_ntp : Forall utf8 (d_ntp d);
  dt_addresses : Forall utf8 (d_addresses d);
  dt_metric : is_u32 (d_metric d);
}.

Definition Snapshot_typed (s : Snapshot) : Prop :=
  utf8 (sn_hostname s) /\ Forall DnsScope_typed (sn_scopes s).

Section typed.
Context `{PeiosTyped}.

(** [yields rd P]: what [rd] reads satisfies [P]. *)
Definition yields {A} (rd : PReader -> result NetdError (A * PReader)) (P : A -> Prop) : Prop :=
  forall r v r', rd r = Ok (v, r') -> P v.

Lemma n_lift_ok {A} (x : result PError A) v : n_lift x = Ok v -> x = Ok v.
Proof using Type. destruct x; cbn; [by intros [= <-]|done]. Qed.

Lemma n_str_yields : yields n_str utf8.
Proof using Type*. intros r v r' E%n_lift_ok. by eapply p_str_utf8. Qed.

Lemma n_store_yields {A St} (rd : PReader -> result NetdError (A * PReader)) (put : A -> St) P Q :
  yields rd P -> (forall v, P v -> Q (put v)) -> yields (n_store rd put) Q.
Proof using Type.
  intros Hr Hp r v r' E. unfold n_store in E. destruct (rd r) as [[x r1]|] eqn:E1; [|done].
  injection E as <- <-. by eapply Hp, Hr.
Qed.

(** Nothing is known of what is read. *)
Lemma yields_any {A} (rd : PReader -> result NetdError (A * PReader)) : yields rd (fun _ => True).
Proof using Type. done. Qed.

Lemma n_u32_yields : yields n_u32 is_u32.
Proof using Type. apply (n_store_yields _ _ _ _ (yields_any _)). intros v _. by apply wrap_in_width. Qed.

Lemma n_items_yields {A} (item : PReader -> result NetdError (A * PReader)) P : yields item P ->
  forall n out, Forall P out -> yields (n_items n item out) (Forall P).
Proof using Type.
  intros Hi. induction n as [|n IH]; intros out Ho r v r' E; cbn [n_items] in E.
  { by injection E as <- <-. }
  destruct (item r) as [[x r1]|] eqn:E1; [|done]. apply (IH (out ++ [x])) in E; [done|].
  apply Forall_app. split; [done|]. apply Forall_singleton. by eapply Hi.
Qed.

Lemma n_array_of_yields {A} (item : PReader -> result NetdError (A * PReader)) P out : yields item P ->
  Forall P out -> yields (n_array_of item out) (Forall P).
Proof using Type.
  intros Hi Ho r v r' E. unfold n_array_of in E. destruct (n_lift (p_array r)) as [[n r1]|]; [|done].
  by apply (n_items_yields item P Hi n out Ho) in E.
Qed.

Lemma n_str_list_yields : yields n_str_list (Forall utf8).
Proof using Type*.
  intros r v r' E. unfold n_str_list in E. destruct (n_lift (p_array r)) as [[n r1]|]; [|done].
  cbn [result_bind] in E. destruct (_ <? _)%nat; [done|].
  by apply (n_items_yields n_str utf8 n_str_yields n [] ltac:(constructor)) in E.
Qed.

Lemma n_fields_inv {St} (P : St -> Prop) (f : Str -> St -> PReader -> result NetdError (St * PReader)) :
  (forall key st, P st -> yields (f key st) P) -> forall n seen st, P st -> yields (n_fields_loop n seen f st) P.
Proof using Type.
  intros Hf. induction n as [|n IH]; intros seen st Hst r v r' E; cbn [n_fields_loop] in E.
  { by injection E as <- <-. }
  destruct (n_lift (p_str r)) as [[key r1]|]; [|done]. cbn [result_bind] in E. destruct (existsb _ _); [done|].
  destruct (f key st r1) as [[st1 r2]|] eqn:E1; [|done]. eapply IH; [|exact E]. by eapply Hf.
Qed.

Lemma n_for_each_inv {St} (P : St -> Prop) (f : Str -> St -> PReader -> result NetdError (St * PReader)) st :
  (forall key st, P st -> yields (f key st) P) -> P st -> yields (n_for_each_field f st) P.
Proof using Type.
  intros Hf Hst r v r' E. unfold n_for_each_field in E. destruct (n_lift (p_map r)) as [[n r1]|]; [|done].
  exact (n_fields_inv P f Hf n [] st Hst r1 v r' E).
Qed.

Lemma decode_scope_yields : yields decode_scope DnsScope_typed.
Proof using Type*.
  apply n_for_each_inv.
  2: { split; simpl; try done. }
  intros key [ifid name servers domains ntp addresses droute excl metric level] [H1 H2 H3 H4 H5 H6 H7].
  unfold dns_scope_field. simpl in *.
  repeat case_match; (eapply n_store_yields;
    [first [apply n_str_yields|apply n_str_list_yields|apply n_u32_yields|apply yields_any]|]);
    intros v Hv; split; simpl; done.
Qed.

Lemma NetdReply_fields_typed :
  yields (n_for_each_field netd_reply_field NetdFields_init) (fun s => Snapshot_typed (nf_snapshot s)).
Proof using Type*.
  apply n_for_each_inv; [|by repeat constructor].
  intros key [okv error [hostname level refusal interfaces] has [h scopes] kind] [H1 H2].
  unfold netd_reply_field. simpl in *.
  repeat case_match; (eapply n_store_yields;
    [first [apply n_str_yields|apply (n_array_of_yields _ _ _ decode_scope_yields H2)|apply yields_any]|]);
    intros v Hv; split; simpl; done.
Qed.

(** A snapshot that reaches the daemon is strings and words. *)
Lemma netd_decode_typed payload s : netd_decode payload = Some (NSnapshot s) -> Snapshot_typed s.
Proof using Type*.
  unfold netd_decode, NetdReply_decode. destruct (n_for_each_field _ _ _) as [[fs r]|] eqn:E; [|done].
  apply NetdReply_fields_typed in E. cbn [result_bind]. unfold NetdReply_of.
  destruct (nf_ok fs) as [[]|]; [|done|done]. destruct (bool_decide _); [|by destruct (nf_has_status fs)].
  cbn [ok]. by intros [= <-].
Qed.
End typed.

(** ** The contract of reader and writer *)

Definition token_ok (t : Token) : Prop :=
  match t with
  | KNil | KBool _ => True
  | KUint v => 0 <= v < 2 ^ 63
  | KStr s => str_ok s
  | KArray n | KMap n => 0 <= n < 2 ^ 32
  end.

(** The values that follow a token and belong to it. *)
Definition children (t : Token) : nat :=
  match t with KArray n => Z.to_nat n | KMap n => 2 * Z.to_nat n | _ => 0 end.

(** How many values are lacking after the tokens, of [n] at first. *)
Fixpoint lacking (n : nat) (ts : list Token) : option nat :=
  match ts with
  | [] => Some n
  | t :: ts => match n with O => None | S n => lacking (children t + n) ts end
  end.

(** [gets]: from the bytes of what was written, [rd] returns it and stops
    behind them. *)
Definition gets `{Peios} {E A} (rest : PReader -> list Z) (rd : PReader -> result E (A * PReader))
    (bytes : list Z) (ok_tail : list Z -> Prop) (v : A) : Prop :=
  forall r tail, rest r = bytes ++ tail -> ok_tail tail -> exists r', rd r = Ok (v, r') /\ rest r' = tail.

(** One whole value is written without an error, as the bytes of its tokens,
    and every reader returns what was written.  Counts must not exceed what
    follows. *)
Class PeiosRoundTrip `{Peios} : Type := mkPeiosRoundTrip {
  p_rest : PReader -> list Z;
  p_enc : Token -> list Z;
  p_enc_some : forall t, (1 <= length (p_enc t))%nat;
  p_writes : forall w, Forall token_ok w -> lacking 1 w = Some 0%nat -> p_to_bytes w = Ok (concat (map p_enc w));
  p_rest_new : forall bytes, p_rest (p_new bytes) = bytes;
  p_remaining_rest : forall r, p_remaining r = length (p_rest r);
  p_peeks : forall r t tail, token_ok t -> p_rest r = p_enc t ++ tail -> p_peek_nil r = bool_decide (t = KNil);
  p_nil_gets : gets p_rest p_nil (p_enc KNil) (fun _ => True) ();
  p_bool_gets : forall v, gets p_rest p_bool (p_enc (KBool v)) (fun _ => True) v;
  p_uint_gets : forall v, 0 <= v < 2 ^ 63 -> gets p_rest p_uint (p_enc (KUint v)) (fun _ => True) v;
  p_str_gets : forall s, str_ok s -> gets p_rest p_str (p_enc (KStr s)) (fun _ => True) s;
  p_array_gets : forall n, 0 <= n < 2 ^ 32 ->
    gets p_rest p_array (p_enc (KArray n)) (fun tail => n <= Z.of_nat (length tail)) (Z.to_nat n);
  p_map_gets : forall n, 0 <= n < 2 ^ 32 ->
    gets p_rest p_map (p_enc (KMap n)) (fun tail => 2 * n <= Z.of_nat (length tail)) (Z.to_nat n);
}.

Section roundtrip.
Context `{PeiosRoundTrip}.

Definition enc_all (ts : list Token) : list Z := concat (map p_enc ts).

Lemma enc_all_app ts us : enc_all (ts ++ us) = enc_all ts ++ enc_all us.
Proof using Type. unfold enc_all. by rewrite map_app, concat_app. Qed.

Lemma enc_all_cons t ts : enc_all (t :: ts) = p_enc t ++ enc_all ts.
Proof using Type. done. Qed.

Lemma enc_all_length ts : (length ts <= length (enc_all ts))%nat.
Proof using Type.
  induction ts as [|t ts IH]; [done|]. unfold enc_all in *. cbn [map concat length]. rewrite length_app.
  pose proof (p_enc_some t). lia.
Qed.

(** [carries rd ts v]: the tokens are one value, which [rd] reads as [v]. *)
Record carries {A} (rd : PReader -> result NetdError (A * PReader)) (ts : list Token) (v : A) : Prop := mk_carries {
  ca_reads : gets p_rest rd (enc_all ts) (fun _ => True) v;
  ca_tokens : Forall token_ok ts;
  ca_value : forall k us, lacking (S k) (ts ++ us) = lacking k us;
}.

Lemma ca_some {A} (rd : PReader -> result NetdError (A * PReader)) ts v : carries rd ts v -> (1 <= length ts)%nat.
Proof using Type.
  intros [_ _ Hv]. destruct ts; simpl; [|lia]. specialize (Hv 0%nat []). done.
Qed.

Lemma gets_lift {A} (rd : PReader -> result PError (A * PReader)) t (P : list Z -> Prop) v :
  gets p_rest rd (p_enc t) P v -> gets p_rest (fun r => n_lift (rd r)) (p_enc t) P v.
Proof using Type.
  intros Hg r tail Hr Hp.
  destruct (Hg r tail Hr Hp) as (r' & -> & Hr'). by exists r'.
Qed.

(** A token that is a value by itself. *)
Lemma carries_leaf {A} (rd : PReader -> result PError (A * PReader)) t v :
  gets p_rest rd (p_enc t) (fun _ => True) v -> token_ok t -> children t = 0%nat ->
  carries (fun r => n_lift (rd r)) [t] v.
Proof using Type.
  intros Hg Ht Hc. split; [rewrite enc_all_cons, app_nil_r; by apply gets_lift|by apply Forall_singleton|].
  intros k us. cbn [app lacking]. by rewrite Hc.
Qed.

Lemma carries_str s : str_ok s -> carries n_str [KStr s] s.
Proof using Type. intros Hs. by apply carries_leaf; [apply p_str_gets| |]. Qed.

Lemma carries_bool v : carries n_bool [KBool v] v.
Proof using Type. by apply carries_leaf; [apply p_bool_gets| |]. Qed.

Lemma carries_uint v : 0 <= v < 2 ^ 63 -> carries n_uint [KUint v] v.
Proof using Type. intros Hv. by apply carries_leaf; [apply p_uint_gets| |]. Qed.

Lemma carries_store {A St} (rd : PReader -> result NetdError (A * PReader)) (put : A -> St) ts v :
  carries rd ts v -> carries (n_store rd put) ts (put v).
Proof using Type.
  intros [Hr Ht Hv]. split; [|done|done]. intros r tail E Hp.
  destruct (Hr r tail E Hp) as (r' & E1 & Hr'). exists r'. split; [|done]. unfold n_store. by rewrite E1.
Qed.

Lemma carries_u32 v : is_u32 v -> carries n_u32 [KUint v] v.
Proof using Type.
  intros Hv. pose proof (carries_store n_uint (wrap 32) [KUint v] v) as Hc. rewrite wrap_small in Hc by done.
  apply Hc, carries_uint. unfold in_width in Hv. lia.
Qed.

Lemma Level_roundtrip l : str_ok (Level_as_str l) /\ Level_parse (Level_as_str l) = Some l.
Proof using Type. destruct l; (split; [by_decide|done]). Qed.

Lemma carries_level l : carries n_level [KStr (Level_as_str l)] l.
Proof using Type.
  destruct (Level_roundtrip l) as [Hs Hp].
  pose proof (carries_store n_str (fun s => default Absent (Level_parse s)) _ _ (carries_str _ Hs)) as Hc.
  cbv beta in Hc. by rewrite Hp in Hc.
Qed.

(** Peeking tells a nil from what a value starts with. *)
Lemma carries_optional {A} (rd : PReader -> result NetdError (A * PReader)) ts v :
  match v with Some x => carries rd ts x /\ head ts <> Some KNil | None => ts = [KNil] end ->
  carries (fun r => if p_peek_nil r then let? (_, r) := n_lift (p_nil r) in Ok (None, r) else n_store rd Some r) ts v.
Proof using Type.
  destruct v as [x|].
  - intros [Hc Hn]. pose proof (carries_store rd Some ts x Hc) as [Hr Ht Hv]. split; [|done|done].
    intros r tail E Hp. destruct ts as [|t ts]; [by apply ca_some in Hc; simpl in Hc; lia|].
    pose proof E as E0. rewrite enc_all_cons, <- app_assoc in E.
    apply Forall_cons in Ht as [Ht _]. rewrite (p_peeks r t _ Ht E), bool_decide_eq_false_2 by naive_solver.
    by apply Hr.
  - intros ->. split; [|by apply Forall_singleton|done]. intros r tail E Hp.
    rewrite enc_all_cons, app_nil_r in E.
    rewrite (p_peeks r KNil tail I E), bool_decide_eq_true_2 by done.
    destruct (p_nil_gets r tail E I) as (r' & -> & Hr'). by exists r'.
Qed.

Definition opt_tokens (v : option Str) : list Token := match v with Some s => [KStr s] | None => [KNil] end.

Lemma carries_opt_str v : (forall s, v = Some s -> str_ok s) -> carries n_opt_str (opt_tokens v) v.
Proof using Type.
  intros Hv. apply (carries_optional n_str). destruct v as [s|]; [|done].
  split; [by apply carries_str, Hv|done].
Qed.

(** ** Arrays *)

Lemma n_items_gets {A B} (item : PReader -> result NetdError (B * PReader)) (toks : A -> list Token) (val : A -> B) xs :
  Forall (fun x => carries item (toks x) (val x)) xs ->
  forall out, gets p_rest (n_items (length xs) item out) (enc_all (concat (map toks xs))) (fun _ => True) (out ++ map val xs).
Proof using Type.
  induction 1 as [|x xs Hx _ IH]; intros out r tail E Hp; cbn [length n_items map concat] in *.
  { exists r. rewrite app_nil_r. by split. }
  rewrite enc_all_app, <- app_assoc in E. destruct (ca_reads _ _ _ Hx r _ E I) as (r1 & E1 & Hr1).
  rewrite E1. cbn [result_bind]. destruct (IH (out ++ [val x]) r1 tail Hr1 I) as (r2 & E2 & Hr2).
  exists r2. split; [|done]. rewrite E2. by rewrite <- app_assoc.
Qed.

Lemma items_missing {A B} (item : PReader -> result NetdError (B * PReader)) (toks : A -> list Token) (val : A -> B) xs :
  Forall (fun x => carries item (toks x) (val x)) xs ->
  forall k us, lacking (length xs + k) (concat (map toks xs) ++ us) = lacking k us.
Proof using Type.
  induction 1 as [|x xs Hx _ IH]; intros k us; [done|]. cbn [length map concat Nat.add].
  by rewrite <- app_assoc, (ca_value _ _ _ Hx), IH.
Qed.

Lemma items_length {A B} (item : PReader -> result NetdError (B * PReader)) (toks : A -> list Token) (val : A -> B) xs :
  Forall (fun x => carries item (toks x) (val x)) xs -> (length xs <= length (concat (map toks xs)))%nat.
Proof using Type.
  induction 1 as [|x xs Hx _ IH]; [done|]. cbn [length map concat]. rewrite length_app.
  pose proof (ca_some _ _ _ Hx). lia.
Qed.

Lemma items_tokens {A B} (item : PReader -> result NetdError (B * PReader)) (toks : A -> list Token) (val : A -> B) xs :
  Forall (fun x => carries item (toks x) (val x)) xs -> Forall token_ok (concat (map toks xs)).
Proof using Type.
  induction 1 as [|x xs Hx _ IH]; [constructor|]. cbn [map concat]. apply Forall_app. split; [apply Hx|done].
Qed.

Definition array_tokens {A} (toks : A -> list Token) (xs : list A) : list Token :=
  KArray (count_of xs) :: concat (map toks xs).

(** The head of an array and then [k], which is to read the items. *)
Lemma carries_array {A B C} (item : PReader -> result NetdError (B * PReader)) (toks : A -> list Token) (val : A -> B) xs
    (k : nat -> PReader -> result NetdError (C * PReader)) v :
  Forall (fun x => carries item (toks x) (val x)) xs -> Z.of_nat (length xs) < 2 ^ 32 ->
  gets p_rest (k (length xs)) (enc_all (concat (map toks xs))) (fun _ => True) v ->
  carries (fun r => let? (n, r) := n_lift (p_array r) in k n r) (array_tokens toks xs) v.
Proof using Type.
  intros Hx Hl Hk. unfold array_tokens, count_of. rewrite wrap_small by (unfold in_width; lia). split.
  - intros r tail E _. rewrite enc_all_cons, <- app_assoc in E.
    destruct (gets_lift p_array _ _ _ (p_array_gets (Z.of_nat (length xs)) ltac:(lia)) r _ E) as (r1 & E1 & Hr1).
    { rewrite length_app. pose proof (enc_all_length (concat (map toks xs))). pose proof (items_length _ _ _ _ Hx). lia. }
    cbv beta in E1. rewrite E1. cbn [result_bind]. rewrite Nat2Z.id. by apply Hk.
  - constructor; [simpl; lia|by eapply items_tokens].
  - intros j us. cbn [app lacking children]. rewrite Nat2Z.id. by eapply items_missing.
Qed.

Lemma carries_array_of {A B} (item : PReader -> result NetdError (B * PReader)) (toks : A -> list Token) (val : A -> B) xs out :
  Forall (fun x => carries item (toks x) (val x)) xs -> Z.of_nat (length xs) < 2 ^ 32 ->
  carries (n_array_of item out) (array_tokens toks xs) (out ++ map val xs).
Proof using Type.
  intros Hx Hl. by eapply (carries_array item toks val xs (fun n r => n_items n item out r)), n_items_gets.
Qed.

Lemma carries_str_list l : strs_ok l -> carries n_str_list (array_tokens (fun s => [KStr s]) l) l.
Proof using Type.
  intros [Hs Hl].
  assert (Forall (fun s => carries n_str [KStr s] (id s)) l) as Hx.
  { eapply Forall_impl; [exact Hs|]. apply carries_str. }
  apply (carries_array n_str (fun s => [KStr s]) id l
    (fun n r => if (p_remaining r <? n)%nat then Err (NTooLarge n) else n_items n n_str [] r) l Hx Hl).
  intros r tail E Hp. rewrite p_remaining_rest, E, length_app.
  pose proof (enc_all_length (concat (map (fun s => [KStr s]) l))). pose proof (items_length _ _ _ _ Hx).
  rewrite (proj2 (Nat.ltb_ge _ _)) by lia.
  destruct (n_items_gets n_str (fun s => [KStr s]) id l Hx [] r tail E Hp) as (r' & E1 & Hr').
  exists r'. split; [|done]. rewrite E1. by rewrite map_id.
Qed.

(** ** Maps *)

Inductive fields {St} (f : Str -> St -> PReader -> result NetdError (St * PReader)) : St -> list (Str * list Token) -> St -> Prop :=
| fields_nil st : fields f st [] st
| fields_cons st key ts st1 fs st2 :
    carries (f key st) ts st1 -> fields f st1 fs st2 -> fields f st ((key, ts) :: fs) st2.

Definition field_tokens (kt : Str * list Token) : list Token := KStr kt.1 :: kt.2.
Definition map_tokens (fs : list (Str * list Token)) : list Token :=
  KMap (Z.of_nat (length fs)) :: concat (map field_tokens fs).

Lemma fields_loop_gets {St} (f : Str -> St -> PReader -> result NetdError (St * PReader)) st fs st' :
  fields f st fs st' -> forall seen, NoDup (seen ++ map fst fs) -> Forall str_ok (map fst fs) ->
  gets p_rest (n_fields_loop (length fs) seen f st) (enc_all (concat (map field_tokens fs))) (fun _ => True) st'.
Proof using Type.
  induction 1 as [st|st key ts st1 fs st2 Hk _ IH]; intros seen Hnd Hok r tail E Hp.
  { by exists r. }
  cbn [length n_fields_loop map concat fst] in *. apply Forall_cons in Hok as [Hkey Hok].
  unfold field_tokens at 1 in E. cbn [fst snd] in E.
  rewrite enc_all_app, enc_all_cons, <- !app_assoc in E.
  destruct (gets_lift p_str _ _ _ (p_str_gets key Hkey) r _ E I) as (r1 & E1 & Hr1). cbv beta in E1. rewrite E1.
  cbn [result_bind].
  assert (existsb (fun s => bool_decide (s = key)) seen = false) as ->.
  { apply not_true_is_false. intros (x & Hx & Eq)%existsb_exists. bool_simpl. subst x.
    apply NoDup_app in Hnd as (_ & Hn & _). apply (Hn key); [by apply list_elem_of_In|set_solver]. }
  destruct (ca_reads _ _ _ Hk r1 _ Hr1 I) as (r2 & E2 & Hr2). rewrite E2. cbn [result_bind].
  apply (IH (seen ++ [key])); [by rewrite <- app_assoc|done|done|done].
Qed.

Lemma fields_shape {St} (f : Str -> St -> PReader -> result NetdError (St * PReader)) st fs st' :
  fields f st fs st' -> Forall str_ok (map fst fs) ->
  Forall token_ok (concat (map field_tokens fs)) /\ (2 * length fs <= length (concat (map field_tokens fs)))%nat /\
  forall k us, lacking (2 * length fs + k) (concat (map field_tokens fs) ++ us) = lacking k us.
Proof using Type.
  induction 1 as [st|st key ts st1 fs st2 Hk _ IH]; intros Hok; [by split_and!|].
  cbn [map fst] in Hok. apply Forall_cons in Hok as [Hkey Hok]. destruct (IH Hok) as (H1 & H2 & H3).
  cbn [map concat length]. unfold field_tokens at 1 3 5. cbn [fst snd]. split_and!.
  - apply Forall_app. split; [|done]. constructor; [done|apply Hk].
  - rewrite length_app. cbn [length]. pose proof (ca_some _ _ _ Hk). lia.
  - intros k us. replace (2 * S (length fs) + k)%nat with (S (S (2 * length fs + k))) by lia.
    rewrite <- app_assoc. cbn [app lacking children Nat.add]. rewrite (ca_value _ _ _ Hk). apply H3.
Qed.

Lemma carries_map {St} (f : Str -> St -> PReader -> result NetdError (St * PReader)) st fs st' :
  fields f st fs st' -> NoDup (map fst fs) -> Forall str_ok (map fst fs) -> Z.of_nat (length fs) < 2 ^ 32 ->
  carries (n_for_each_field f st) (map_tokens fs) st'.
Proof using Type.
  intros Hf Hnd Hok Hl. destruct (fields_shape f st fs st' Hf Hok) as (Ht & Hn & Hm). unfold map_tokens. split.
  - intros r tail E _. rewrite enc_all_cons, <- app_assoc in E. unfold n_for_each_field.
    destruct (gets_lift p_map _ _ _ (p_map_gets (Z.of_nat (length fs)) ltac:(lia)) r _ E) as (r1 & E1 & Hr1).
    { rewrite length_app. pose proof (enc_all_length (concat (map field_tokens fs))). lia. }
    cbv beta in E1. rewrite E1. cbn [result_bind]. rewrite Nat2Z.id.
    by apply (fields_loop_gets f st fs st' Hf []).
  - constructor; [simpl; lia|done].
  - intros k us. cbn [app lacking children]. rewrite Nat2Z.id. apply Hm.
Qed.

(** ** The replies and requests *)

Lemma w_str_list_tokens key l w :
  w_str_list key l w = w ++ KStr key :: array_tokens (fun s => [KStr s]) l.
Proof using Type.
  unfold w_str_list, array_tokens, w_array, w_str. rewrite <- app_assoc.
  change ([KStr key] ++ [KArray (count_of l)]) with [KStr key; KArray (count_of l)].
  revert w. generalize (KArray (count_of l)).
  intros t w. replace (KStr key :: t :: concat (map (fun s => [KStr s]) l)) with
    ([KStr key; t] ++ concat (map (fun s => [KStr s]) l)) by done.
  rewrite app_assoc. generalize (w ++ [KStr key; t]). clear. induction l as [|s l IH]; intros w; simpl;
    [by rewrite app_nil_r|]. rewrite IH. by rewrite <- app_assoc.
Qed.

Lemma fold_tokens {A} (enc : list Token -> A -> list Token) (toks : A -> list Token) xs :
  (forall w x, enc w x = w ++ toks x) -> forall w, fold_left enc xs w = w ++ concat (map toks xs).
Proof using Type.
  intros He. induction xs as [|x xs IH]; intros w; simpl; [by rewrite app_nil_r|].
  by rewrite IH, He, <- app_assoc.
Qed.

Definition opt_ok (v : option Str) : Prop := forall s, v = Some s -> str_ok s.

Record DnsScope_wf (d : DnsScope) : Prop := mk_DnsScope_wf {
  dw_ifid : str_ok (d_ifid d);
  dw_name : str_ok (d_name d);
  dw_servers : strs_ok (d_servers d);
  dw_domains : strs_ok (d_domains d);
  dw_ntp : strs_ok (d_ntp d);
  dw_addresses : strs_ok (d_addresses d);
  dw_metric : is_u32 (d_metric d);
}.

Definition is_seconds (v : Z) : Prop := 0 <= v < 2 ^ 63.

Record LeaseStatus_wf (l : LeaseStatus) : Prop := mk_LeaseStatus_wf {
  lw_server : str_ok (l_server l);
  lw_expires_in : is_seconds (l_expires_in l);
  lw_state : str_ok (l_state l);
  lw_duration : is_seconds (l_duration l);
  lw_renew_at : is_seconds (l_renew_at l);
  lw_rebind_at : is_seconds (l_rebind_at l);
}.

Record InterfaceStatus_wf (i : InterfaceStatus) : Prop := mk_InterfaceStatus_wf {
  iw_ifid : str_ok (is_ifid i);
  iw_name : str_ok (is_name i);
  iw_index : is_u32 (is_index i);
  iw_mac : str_ok (is_mac i);
  iw_path : str_ok (is_path i);
  iw_driver : str_ok (is_driver i);
  iw_verdict : opt_ok (is_verdict i);
  iw_rule : opt_ok (is_rule i);
  iw_profile : opt_ok (is_profile i);
  iw_network : opt_ok (is_network i);
  iw_network_name : opt_ok (is_network_name i);
  iw_network_trust : opt_ok (is_network_trust i);
  iw_warning : opt_ok (is_warning i);
  iw_addresses : strs_ok (is_addresses i);
  iw_gateway : opt_ok (is_gateway i);
  iw_gateway6 : opt_ok (is_gateway6 i);
  iw_dns : strs_ok (is_dns i);
  iw_search : strs_ok (is_search i);
  iw_lease : forall l, is_lease i = Some l -> LeaseStatus_wf l;
}.

Definition NetdReply_wf (reply : NetdReply) : Prop :=
  match reply with
  | NOk => True
  | NError message => str_ok message
  | NSnapshot s =>
      str_ok (sn_hostname s) /\ Forall DnsScope_wf (sn_scopes s) /\ Z.of_nat (length (sn_scopes s)) < 2 ^ 32
  | NStatus s =>
      str_ok (ns_hostname s) /\ opt_ok (ns_refusal s) /\ Forall InterfaceStatus_wf (ns_interfaces s) /\
      Z.of_nat (length (ns_interfaces s)) < 2 ^ 32
  end.

Definition scope_fields (d : DnsScope) : list (Str * list Token) :=
  [(lit "ifid", [KStr (d_ifid d)]);
   (lit "name", [KStr (d_name d)]);
   (lit "servers", array_tokens (fun s => [KStr s]) (d_servers d));
   (lit "domains", array_tokens (fun s => [KStr s]) (d_domains d));
   (lit "ntp", array_tokens (fun s => [KStr s]) (d_ntp d));
   (lit "addresses", array_tokens (fun s => [KStr s]) (d_addresses d));
   (lit "default_route", [KBool (d_default_route d)]);
   (lit "exclusive", [KBool (d_exclusive d)]);
   (lit "metric", [KUint (d_metric d)]);
   (lit "level", [KStr (Level_as_str (d_level d))])].

Definition lease_fields (l : LeaseStatus) : list (Str * list Token) :=
  [(lit "server", [KStr (l_server l)]);
   (lit "expires_in", [KUint (l_expires_in l)]);
   (lit "state", [KStr (l_state l)]);
   (lit "duration", [KUint (l_duration l)]);
   (lit "renew_at", [KUint (l_renew_at l)]);
   (lit "rebind_at", [KUint (l_rebind_at l)])].

Definition lease_tokens (l : option LeaseStatus) : list Token :=
  match l with Some l => map_tokens (lease_fields l) | None => [KNil] end.

Definition interface_fields (i : InterfaceStatus) : list (Str * list Token) :=
  [(lit "ifid", [KStr (is_ifid i)]);
   (lit "name", [KStr (is_name i)]);
   (lit "index", [KUint (is_index i)]);
   (lit "mac", [KStr (is_mac i)]);
   (lit "path", [KStr (is_path i)]);
   (lit "driver", [KStr (is_driver i)]);
   (lit "verdict", opt_tokens (is_verdict i));
   (lit "rule", opt_tokens (is_rule i));
   (lit "profile", opt_tokens (is_profile i));
   (lit "network", opt_tokens (is_network i));
   (lit "network_name", opt_tokens (is_network_name i));
   (lit "network_trust", opt_tokens (is_network_trust i));
   (lit "warning", opt_tokens (is_warning i));
   (lit "up", [KBool (is_up i)]);
   (lit "carrier", [KBool (is_carrier i)]);
   (lit "level", [KStr (Level_as_str (is_level i))]);
   (lit "addresses", array_tokens (fun s => [KStr s]) (is_addresses i));
   (lit "gateway", opt_tokens (is_gateway i));
   (lit "gateway6", opt_tokens (is_gateway6 i));
   (lit "dns", array_tokens (fun s => [KStr s]) (is_dns i));
   (lit "search", array_tokens (fun s => [KStr s]) (is_search i));
   (lit "lease", lease_tokens (is_lease i))].

Lemma w_opt_str_tokens key v w : w_opt_str key v w = w ++ KStr key :: opt_tokens v.
Proof using Type. unfold w_opt_str, w_str, w_nil. by destruct v; rewrite <- app_assoc. Qed.

(** The writes, as the tokens of the fields. *)
Ltac by_tokens :=
  unfold w_map, w_str, w_bool, w_uint, w_nil, w_array;
  rewrite ?w_opt_str_tokens, ?w_str_list_tokens; unfold map_tokens, field_tokens;
  cbn [map concat fst snd length app]; rewrite <- ?app_assoc; cbn [app]; rewrite ?app_nil_r; reflexivity.

Lemma encode_scope_tokens w d : encode_scope w d = w ++ map_tokens (scope_fields d).
Proof using Type. unfold encode_scope, scope_fields. by_tokens. Qed.

Lemma w_lease_tokens w l : w_lease l w = w ++ lease_tokens l.
Proof using Type. destruct l as [[]|]; unfold w_lease, lease_tokens, lease_fields; by_tokens. Qed.

(** One field: its branch stores what its reader returns. *)
Ltac one_field unf tac :=
  eapply fields_cons; [unf; cbv beta iota; keys; eapply carries_store; tac|cbv beta].

Ltac read_value :=
  first [apply carries_str; assumption|apply carries_str; by_decide|apply carries_bool|apply carries_u32; assumption
        |apply carries_uint; assumption|apply carries_level|apply carries_str_list; assumption
        |apply carries_opt_str; assumption].

Lemma scope_carries d : DnsScope_wf d -> carries decode_scope (map_tokens (scope_fields d)) d.
Proof using Type.
  destruct d as [ifid name servers domains ntp addresses droute excl metric level]. intros [H1 H2 H3 H4 H5 H6 H7].
  unfold scope_fields. cbn in H1, H2, H3, H4, H5, H6, H7 |- *.
  apply carries_map; [|by_decide|by_decide|simpl; lia].
  unfold DnsScope_default. do 10 one_field ltac:(unfold dns_scope_field) read_value. constructor.
Qed.

Lemma lease_carries l : (forall x, l = Some x -> LeaseStatus_wf x) -> carries n_lease (lease_tokens l) l.
Proof using Type.
  intros Hl. apply (carries_optional (n_for_each_field lease_field LeaseStatus_default)).
  destruct l as [[server expires state duration renew rebind]|]; [|done]. split; [|done].
  destruct (Hl _ eq_refl) as [H1 H2 H3 H4 H5 H6]. cbn in H1, H2, H3, H4, H5, H6.
  unfold lease_tokens, lease_fields. cbn [l_server l_expires_in l_state l_duration l_renew_at l_rebind_at].
  apply carries_map; [|by_decide|by_decide|simpl; lia].
  unfold LeaseStatus_default. do 6 one_field ltac:(unfold lease_field) read_value. constructor.
Qed.

Lemma encode_interface_tokens w i : encode_interface w i = w ++ map_tokens (interface_fields i).
Proof using Type. unfold encode_interface, interface_fields. rewrite w_lease_tokens. by_tokens. Qed.

Lemma interface_carries i : InterfaceStatus_wf i -> carries decode_interface (map_tokens (interface_fields i)) i.
Proof using Type.
  destruct i as [x1 x2 x3 x4 x5 x6 x7 x8 x9 x10 x11 x12 x13 x14 x15 x16 x17 x18 x19 x20 x21 x22].
  intros [H1 H2 H3 H4 H5 H6 H7 H8 H9 H10 H11 H12 H13 H17 H18 H19 H20 H21 H22].
  unfold interface_fields.
  cbn [is_ifid is_name is_index is_mac is_path is_driver is_verdict is_rule is_profile is_network is_network_name
       is_network_trust is_warning is_up is_carrier is_level is_addresses is_gateway is_gateway6 is_dns is_search
       is_lease] in *.
  apply carries_map; [|by_decide|by_decide|simpl; lia].
  unfold InterfaceStatus_default. do 21 one_field ltac:(unfold interface_field) read_value.
  one_field ltac:(unfold interface_field) ltac:(by apply lease_carries). constructor.
Qed.

Definition reply_fields (reply : NetdReply) : list (Str * list Token) :=
  match reply with
  | NOk => [(lit "ok", [KBool true])]
  | NError message => [(lit "ok", [KBool false]); (lit "error", [KStr message])]
  | NSnapshot s =>
      [(lit "ok", [KBool true]); (lit "kind", [KStr (lit "snapshot")]); (lit "hostname", [KStr (sn_hostname s)]);
       (lit "scopes", array_tokens (fun d => map_tokens (scope_fields d)) (sn_scopes s))]
  | NStatus s =>
      [(lit "ok", [KBool true]); (lit "hostname", [KStr (ns_hostname s)]);
       (lit "level", [KStr (Level_as_str (ns_level s))]); (lit "refusal", opt_tokens (ns_refusal s));
       (lit "interfaces", array_tokens (fun i => map_tokens (interface_fields i)) (ns_interfaces s))]
  end.

Lemma reply_tokens_fields reply : reply_tokens reply = map_tokens (reply_fields reply).
Proof using Type.
  destruct reply as [|[host level refusal itfs]|[host scopes]|message]; unfold reply_tokens, reply_fields;
    cbn [ns_hostname ns_level ns_refusal ns_interfaces sn_hostname sn_scopes];
    rewrite ?(fold_tokens _ _ _ encode_scope_tokens), ?(fold_tokens _ _ _ encode_interface_tokens);
    unfold array_tokens; by_tokens.
Qed.

(** The locals of the decoder once the fields are read. *)
Definition reply_state (reply : NetdReply) : NetdFields :=
  match reply with
  | NOk => mkNetdFields (Some true) None NetdStatus_default false Snapshot_default None
  | NError message => mkNetdFields (Some false) (Some message) NetdStatus_default false Snapshot_default None
  | NSnapshot s =>
      mkNetdFields (Some true) None (mkNetdStatus (sn_hostname s) Absent None []) true s (Some (lit "snapshot"))
  | NStatus s => mkNetdFields (Some true) None s true (mkSnapshot (ns_hostname s) []) None
  end.

Lemma reply_fields_read reply : NetdReply_wf reply ->
  fields netd_reply_field NetdFields_init (reply_fields reply) (reply_state reply).
Proof using Type.
  unfold NetdFields_init, NetdStatus_default, Snapshot_default.
  destruct reply as [|[host level refusal itfs]|[host scopes]|message]; cbn [NetdReply_wf reply_fields reply_state
    ns_hostname ns_level ns_refusal ns_interfaces sn_hostname sn_scopes]; intros Hwf.
  - one_field ltac:(unfold netd_reply_field) read_value. constructor.
  - destruct Hwf as (Hh & Hr & Hi & Hl).
    do 4 one_field ltac:(unfold netd_reply_field) read_value.
    one_field ltac:(unfold netd_reply_field) ltac:(apply (carries_array_of decode_interface _ id); [|exact Hl];
      eapply Forall_impl; [exact Hi|exact interface_carries]).
    rewrite map_id. constructor.
  - destruct Hwf as (Hh & Hs & Hl).
    do 3 one_field ltac:(unfold netd_reply_field) read_value.
    one_field ltac:(unfold netd_reply_field) ltac:(apply (carries_array_of decode_scope _ id); [|exact Hl];
      eapply Forall_impl; [exact Hs|exact scope_carries]).
    rewrite map_id. constructor.
  - do 2 one_field ltac:(unfold netd_reply_field) read_value. constructor.
Qed.

Definition request_fields (q : NetdRequest) : list (Str * list Token) :=
  match q with
  | NStatusQuery => [(lit "query", [KStr (lit "status")])]
  | NRenew interface => [(lit "query", [KStr (lit "renew")]); (lit "interface", [KStr interface])]
  | NReconcile => [(lit "query", [KStr (lit "reconcile")])]
  | NSubscribe => [(lit "query", [KStr (lit "subscribe")])]
  end.

Lemma request_fields_read q : (forall itf, q = NRenew itf -> str_ok itf) ->
  exists s, fields netd_request_field (None, None) (request_fields q) s /\
    s = match q with
        | NStatusQuery => (Some (lit "status"), None)
        | NRenew itf => (Some (lit "renew"), Some itf)
        | NReconcile => (Some (lit "reconcile"), None)
        | NSubscribe => (Some (lit "subscribe"), None)
        end.
Proof using Type.
  intros Hq. eexists. split; [|reflexivity].
  destruct q as [|itf| |]; cbn [request_fields]; [|pose proof (Hq itf eq_refl)| |];
    repeat one_field ltac:(unfold netd_request_field) read_value; constructor.
Qed.

(** A map written whole is read whole. *)
Lemma map_read_back {St} (f : Str -> St -> PReader -> result NetdError (St * PReader)) st fs st' :
  fields f st fs st' -> NoDup (map fst fs) -> Forall str_ok (map fst fs) -> Z.of_nat (length fs) < 2 ^ 32 ->
  exists bytes r', p_to_bytes (map_tokens fs) = Ok bytes /\ n_for_each_field f st (p_new bytes) = Ok (st', r').
Proof using Type.
  intros Hf Hnd Hok Hl. destruct (carries_map f st fs st' Hf Hnd Hok Hl) as [Hr Ht Hv].
  exists (enc_all (map_tokens fs)).
  destruct (Hr (p_new (enc_all (map_tokens fs))) []) as (r' & E & _); [by rewrite p_rest_new, app_nil_r|done|].
  exists r'. split; [|done]. apply p_writes; [done|]. specialize (Hv 0%nat []). by rewrite app_nil_r in Hv.
Qed.

(** A reply that is sent is the reply that arrives. *)
Lemma NetdReply_roundtrip reply : NetdReply_wf reply ->
  exists bytes, p_to_bytes (reply_tokens reply) = Ok bytes /\ NetdReply_decode bytes = Ok reply.
Proof using Type*.
  intros Hwf. rewrite reply_tokens_fields.
  destruct (map_read_back _ _ _ _ (reply_fields_read reply Hwf)) as (bytes & r' & Ew & Er).
  1-3: destruct reply; solve [by_decide|simpl; lia].
  exists bytes. split; [done|]. unfold NetdReply_decode. rewrite Er. cbn [result_bind].
  by destruct reply as [|[]|[]|].
Qed.

Lemma NetdRequest_roundtrip q : (forall itf, q = NRenew itf -> str_ok itf) ->
  exists bytes, p_to_bytes (request_tokens q) = Ok bytes /\ NetdRequest_decode bytes = Ok q.
Proof using Type*.
  intros Hq. destruct (request_fields_read q Hq) as (s & Hf & Hs).
  assert (request_tokens q = map_tokens (request_fields q)) as -> by (by destruct q).
  destruct (map_read_back _ _ _ _ Hf) as (bytes & r' & Ew & Er).
  1-3: destruct q; solve [by_decide|simpl; lia].
  exists bytes. split; [done|]. unfold NetdRequest_decode. rewrite Er, Hs. by destruct q.
Qed.
End roundtrip.

(** ** The repository's MessagePack is an instance *)

Definition token_wire (t : Token) : list Z :=
  match t with
  | KNil => write_nil []
  | KBool v => write_bool v []
  | KUint v => write_uint v []
  | KStr s => write_str s []
  | KArray n => write_array n []
  | KMap n => write_map n []
  end.

Definition peek_nil (r : Reader) : bool := bool_decide (peek r = Some TNil).
Definition skip_one_value (r : Reader) : Read () := let? r := skip r in Ok ((), r).

(** [to_bytes] refuses what is not one whole value. *)
Definition whole_bytes (w : Writer) : result MError (list Z) :=
  if bool_decide (lacking 1 w = Some 0%nat) then Ok (concat (map token_wire w)) else Err MUnsupported.

Definition msgpack_peios : Peios := {|
  PError := MError;
  PReader := Reader;
  p_new := Reader_new;
  p_remaining := remaining;
  p_peek_nil := peek_nil;
  p_nil := read_nil;
  p_bool := read_bool;
  p_uint := read_uint;
  p_str := read_str;
  p_array := read_array;
  p_map := read_map;
  p_skip := skip_one_value;
  p_to_bytes := whole_bytes;
|}.


Lemma msgpack_typed : PeiosTyped (H := msgpack_peios).
Proof.
  split. intros r s r' E. cbn in E. unfold read_str in E. destruct (byte r) as [[b r1]|]; [|done].
  cbn [result_bind] in E. match type of E with result_bind ?x _ = _ => destruct x as [[n r2]|]; [|done] end. cbn [result_bind] in E.
  destruct (take_ _ r2) as [[x r3]|]; [|done]. cbn [result_bind] in E.
  destruct (utf8_valid x) eqn:Hu; [|done]. by injection E as <- <-.
Qed.

(** A reader with something to read is within its buffer. *)
Lemma next_some_ok r bytes tail : next r = bytes ++ tail -> (1 <= length bytes)%nat -> Reader_ok r.
Proof.
  intros Hn Hl. unfold Reader_ok. destruct (Nat.le_gt_cases (rd_pos r) (length (rd_buf r))) as [|Hgt]; [done|].
  unfold next in Hn. rewrite drop_ge in Hn by lia. destruct bytes; [simpl in Hl; lia|done].
Qed.

Lemma token_wire_some t : (1 <= length (token_wire t))%nat.
Proof.
  destruct t; cbn [token_wire]; [simpl; lia|simpl; lia|apply write_uint_nonempty|apply write_str_nonempty| |];
    unfold write_array, write_map; repeat case_match; simpl; lia.
Qed.

Lemma reads_gets {A} (rd : Reader -> Read A) t v :
  reads rd (token_wire t) v -> gets (H := msgpack_peios) next rd (token_wire t) (fun _ => True) v.
Proof.
  intros Hr r tail E _. pose proof (next_some_ok r _ _ E (token_wire_some t)) as Hok.
  exists (forward (length (token_wire t)) r). split; [by eapply Hr|].
  by apply forward_over.
Qed.

(** Nil is told from everything else by its first byte. *)
Lemma token_peek r t tail : token_ok t -> next r = token_wire t ++ tail ->
  peek_nil r = bool_decide (t = KNil).
Proof.
  intros Ht E. unfold peek_nil.
  assert (exists m tl, token_wire t = m :: tl /\ ((m =? 192) = bool_decide (t = KNil))) as (m & tl & Em & Hm).
  { destruct t as [|[]|v|s|n|n]; cbn [token_wire token_ok] in *; try (by eexists _, _).
    - unfold write_uint. repeat case_match; bool_simpl; cbn [app]; eexists _, _; (split; [reflexivity|]);
        rewrite bool_decide_eq_false_2 by done; try done. by apply Z.eqb_neq; lia.
    - destruct (str_head_marker s) as (m & tl & -> & _ & Hs); [apply Ht|]. exists m, tl. split; [done|].
      rewrite bool_decide_eq_false_2 by done. destruct (Z.eqb_spec m 192) as [->|]; [by vm_compute in Hs|done].
    - destruct (array_head_marker n Ht) as (m & tl & -> & Hs). exists m, tl. split; [done|].
      rewrite bool_decide_eq_false_2 by done. destruct (Z.eqb_spec m 192) as [->|]; [by vm_compute in Hs|done].
    - destruct (map_head_marker n Ht) as (m & tl & -> & _ & Hs). exists m, tl. split; [done|].
      rewrite bool_decide_eq_false_2 by done. destruct (Z.eqb_spec m 192) as [->|]; [by vm_compute in Hs|done]. }
  unfold peek. rewrite (head_next r m (tl ++ tail)) by (by rewrite E, Em). rewrite Hm.
  destruct (bool_decide (t = KNil)); [done|]. apply bool_decide_eq_false_2. repeat case_match; congruence.
Qed.

Definition msgpack_roundtrip : PeiosRoundTrip (H := msgpack_peios).
Proof.
  refine (@mkPeiosRoundTrip msgpack_peios next token_wire token_wire_some _ next_new _ token_peek _ _ _ _ _ _).
  - intros w _ Hm. cbn. unfold whole_bytes. by rewrite bool_decide_eq_true_2.
  - intros r. symmetry. apply length_next.
  - apply (reads_gets read_nil KNil), read_nil_reads.
  - intros v. apply (reads_gets read_bool (KBool v)), read_bool_reads.
  - intros v Hv. by apply (reads_gets read_uint (KUint v)), read_uint_reads.
  - intros s [Hu Hl]. by apply (reads_gets read_str (KStr s)), read_str_reads.
  - intros n Hn r tail E Ht. pose proof (next_some_ok r _ _ E (token_wire_some (KArray n))) as Hok.
    exists (forward (length (write_array n [])) r). split; [by eapply read_array_reads|by apply forward_over].
  - intros n Hn r tail E Ht. pose proof (next_some_ok r _ _ E (token_wire_some (KMap n))) as Hok.
    exists (forward (length (write_map n [])) r). split; [by eapply read_map_reads|by apply forward_over].
Defined.
