(* ===== verification/NetdLink.v ===== *)
(** * The channel from netd (resolvd/src/netd_link.rs)

    A subscription that is reconnected with backoff and read as a stream of
    whole snapshots.  What is proved of the channel holds for any decoder of
    the messages, [decode]; the daemon's is [netd_decode]. *)

From S2P Require Import Prelude Framing Net Cache EngineState Io NativeWire NetdCodec.
Local Open Scope Z_scope.

(** ** The link *)

Definition MIN_BACKOFF : Z := 500000000.
Definition MAX_BACKOFF : Z := from_secs 10.

Record NetdLink : Type := mkNetdLink {
  nl_stream : option Z;
  nl_buf : list Z;
  nl_next_try : Z;
  nl_backoff : Z;
  nl_warned : bool;
}.

Definition NetdLink_new (now : Z) : NetdLink := mkNetdLink None [] now MIN_BACKOFF false.

Definition connected (l : NetdLink) : bool := bool_decide (is_Some (nl_stream l)).

Definition netd_fd (l : NetdLink) : option Z := nl_stream l.

Definition netd_next_deadline (l : NetdLink) : option Z :=
  match nl_stream l with None => Some (nl_next_try l) | Some _ => None end.

(** [connect] is what connecting and subscribing gives. *)
Definition maintain (l : NetdLink) (now : Z) (connect : option Z) : NetdLink :=
  if bool_decide (is_Some (nl_stream l)) || (now <? nl_next_try l) then l
  else
    match connect with
    | Some stream => mkNetdLink (Some stream) [] (nl_next_try l) (nl_backoff l) false
    | None =>
        mkNetdLink (nl_stream l) (nl_buf l) (now + nl_backoff l)
          (Z.min (nl_backoff l * 2) MAX_BACKOFF) true
    end.

Definition READ_LIMIT : Z := MAX_MESSAGE_BYTES + 4.

(** The read loop: the buffer, whether the channel is lost, and what the
    stream has yet to yield. *)
Fixpoint fill_buffer (fuel : nat) (buf : list Z) (rs : list ReadTcp) : list Z * bool * list ReadTcp :=
  match fuel with
  | O => (buf, false, rs)
  | S fuel =>
      if Z.of_nat (length buf) <? READ_LIMIT then
        match read_some (Z.to_nat (Z.min 8192 (READ_LIMIT - Z.of_nat (length buf)))) rs with
        | (ReadEof, rs) | (ReadError, rs) => (buf, true, rs)
        | (ReadBytes chunk, rs) => fill_buffer fuel (buf ++ chunk) rs
        | (ReadWouldBlock, rs) => (buf, false, rs)
        | (ReadInterrupted, rs) => fill_buffer fuel buf rs
        end
      else (buf, false, rs)
  end.

Section link.
(** netd's [Reply::decode]. *)
Variable decode : list Z -> option NetdReply.

(** The message loop, on the buffer, the backoff and the loss flag so far:
    its snapshots and the three.  A message is at least four bytes. *)
Fixpoint take_messages (fuel : nat) (buf : list Z) (backoff : Z) (lost : bool)
  : list Snapshot * list Z * Z * bool :=
  match fuel with
  | O => ([], buf, backoff, lost)
  | S fuel =>
      if (length buf <? 4)%nat then ([], buf, backoff, lost)
      else
        let len := from_le (take 4 buf) in
        if MAX_MESSAGE_BYTES <? len then ([], buf, backoff, true)
        else if (length buf <? 4 + Z.to_nat len)%nat then ([], buf, backoff, lost)
        else
          let payload := take (Z.to_nat len) (drop 4 buf) in
          let buf := drop (4 + Z.to_nat len) buf in
          match decode payload with
          | Some (NSnapshot s) =>
              let '(out, buf, backoff, lost) := take_messages fuel buf MIN_BACKOFF lost in
              (s :: out, buf, backoff, lost)
          | Some (NError _) | None => take_messages fuel buf backoff true
          | Some NOk | Some (NStatus _) => take_messages fuel buf backoff lost
          end
  end.

Definition drop_link (l : NetdLink) (backoff now : Z) : NetdLink :=
  mkNetdLink None [] (now + backoff) (Z.min (backoff * 2) MAX_BACKOFF) true.

(** The last result is what the stream has yet to yield. *)
Definition netd_service (l : NetdLink) (now : Z) (rs : list ReadTcp)
  : NetdLink * list Snapshot * list ReadTcp :=
  match nl_stream l with
  | None => (l, [], rs)
  | Some stream =>
      let '(buf, lost, rs) := fill_buffer (S (reads_weight rs)) (nl_buf l) rs in
      let '(out, buf, backoff, lost) := take_messages (length buf) buf (nl_backoff l) lost in
      if lost then (drop_link l backoff now, out, rs)
      else (mkNetdLink (Some stream) buf (nl_next_try l) backoff (nl_warned l), out, rs)
  end.

(** ** Reference: the messages of the stream *)

#[local] Existing Instance u32_framing.

Definition small_message (p : list Z) : Prop := Z.of_nat (length p) <= MAX_MESSAGE_BYTES.

Lemma small_fits p : small_message p -> fits p.
Proof using Type. unfold small_message, fits, MAX_MESSAGE_BYTES. cbn. unfold in_width. lia. Qed.

(** The stretch that is left over is not the start of an oversized message. *)
Definition waits (s : list Z) : Prop :=
  incomplete s /\ ((4 <= length s)%nat -> from_le (take 4 s) <= MAX_MESSAGE_BYTES).

Lemma waits_prefix p x : waits (p ++ x) -> waits p.
Proof using Type.
  intros [Hi Hs]. split; [by eapply incomplete_prefix|]. intros H4.
  rewrite <- (take_app_le p x) by done. apply Hs. rewrite length_app. lia.
Qed.

Definition snapshots_of (ps : list (list Z)) : list Snapshot :=
  omap (fun p => match decode p with Some (NSnapshot s) => Some s | _ => None end) ps.

(** A message that does not end the subscription. *)
Definition readable (p : list Z) : Prop :=
  small_message p /\ match decode p with Some (NError _) | None => False | _ => True end.

Definition backoff_after (ps : list (list Z)) (backoff : Z) : Z :=
  match snapshots_of ps with [] => backoff | _ => MIN_BACKOFF end.

Lemma waits_nil : waits [].
Proof using Type. split; [apply incomplete_nil; simpl; lia|simpl; lia]. Qed.

Lemma waits_room s : waits s -> Z.of_nat (length s) < READ_LIMIT.
Proof using Type.
  intros [Hi Hs]. unfold incomplete, READ_LIMIT, MAX_MESSAGE_BYTES in *. cbn [head_length head_dec u32_framing] in Hi.
  destruct (Nat.lt_ge_cases (length s) 4) as [|H4]; [lia|]. specialize (Hs H4). lia.
Qed.

Lemma take_messages_waits s fuel backoff lost : waits s ->
  take_messages fuel s backoff lost = ([], s, backoff, lost).
Proof using Type.
  intros [Hi Hs]. destruct fuel as [|fuel]; [done|]. cbn [take_messages].
  destruct (Nat.ltb_spec (length s) 4) as [|H4]; [done|].
  destruct (Z.ltb_spec MAX_MESSAGE_BYTES (from_le (take 4 s))); [specialize (Hs H4); lia|].
  destruct Hi as [Hi|Hi]; cbn [head_length head_dec u32_framing] in Hi; [lia|].
  by destruct (Nat.ltb_spec (length s) (4 + Z.to_nat (from_le (take 4 s)))); [|lia].
Qed.

Lemma backoff_after_cons p ps backoff :
  backoff_after (p :: ps) backoff =
    backoff_after ps (match decode p with Some (NSnapshot _) => MIN_BACKOFF | _ => backoff end).
Proof using Type.
  unfold backoff_after, snapshots_of. cbn [omap list_omap].
  destruct (decode p) as [[]|]; try done. by destruct (omap _ ps).
Qed.

Lemma take_messages_stream ps rest lost : Forall readable ps -> waits rest ->
  forall fuel backoff, (length ps <= fuel)%nat ->
  take_messages fuel (stream_of ps ++ rest) backoff lost =
    (snapshots_of ps, rest, backoff_after ps backoff, lost).
Proof using Type.
  intros Hps Hr. induction Hps as [|p ps [Hsm Hd] Hps IH]; intros fuel backoff Hf.
  { by apply take_messages_waits. }
  destruct fuel as [|fuel]; [simpl in Hf; lia|]. cbn [length] in Hf.
  rewrite stream_of_cons, <- app_assoc, backoff_after_cons. cbn [take_messages].
  destruct (framed_header p (stream_of ps ++ rest) (small_fits p Hsm)) as (Ht & Hp & Hn).
  cbn [head_length head_enc head_dec u32_framing] in Ht, Hp, Hn.
  assert (from_le (le_bytes 4 (Z.of_nat (length p))) = Z.of_nat (length p)) as Hle.
  { apply le_roundtrip. apply (small_fits p Hsm). }
  rewrite Ht, Hp, Hle, Nat2Z.id, length_app, length_framed. cbn [head_length u32_framing].
  destruct (Nat.ltb_spec (4 + length p + length (stream_of ps ++ rest)) 4); [lia|].
  destruct (Z.ltb_spec MAX_MESSAGE_BYTES (Z.of_nat (length p))); [unfold small_message in Hsm; lia|].
  destruct (Nat.ltb_spec (4 + length p + length (stream_of ps ++ rest)) (4 + length p)); [lia|].
  rewrite take_app_length.
  assert (drop (4 + length p) (framed p ++ stream_of ps ++ rest) = stream_of ps ++ rest) as ->.
  { change (4 + length p)%nat with (head_length + length p)%nat. rewrite <- length_framed. apply drop_app_length. }
  unfold snapshots_of. cbn [omap list_omap]. fold (snapshots_of ps).
  destruct (decode p) as [[|st|sn|e]|]; try done; by rewrite IH by lia.
Qed.

Lemma fill_buffer_steady fuel : forall buf rs, Forall steady rs -> (reads_weight rs < fuel)%nat ->
  exists got rs', fill_buffer fuel buf rs = (buf ++ got, false, rs') /\ got ++ arrived rs' = arrived rs /\
    Forall steady rs' /\
    (Z.of_nat (length buf) < READ_LIMIT -> rs <> [] -> (reads_weight rs' < reads_weight rs)%nat) /\
    (reads_weight rs' <= reads_weight rs)%nat.
Proof using Type.
  induction fuel as [|fuel IH]; intros buf rs Hok Hf; [lia|]. cbn [fill_buffer].
  destruct (Z.ltb_spec (Z.of_nat (length buf)) READ_LIMIT) as [Hl|Hl].
  2: { exists [], rs. rewrite app_nil_r. split_and!; try done; lia. }
  destruct (decide (rs = [])) as [->|Hne].
  { exists [], []. rewrite app_nil_r. split_and!; try done. }
  destruct (read_some_steady (Z.to_nat (Z.min 8192 (READ_LIMIT - Z.of_nat (length buf)))) rs []) as
    (chunk & rs' & Hrd & _ & Ha & Hok' & Hw); [lia|done|done|].
  rewrite !app_nil_r in Hrd.
  assert (exists got rs2, fill_buffer fuel (buf ++ chunk) rs' = (buf ++ got, false, rs2) /\
    got ++ arrived rs2 = arrived rs /\ Forall steady rs2 /\ (reads_weight rs2 <= reads_weight rs')%nat)
    as (got & rs2 & Hfill & Hgot & Hok2 & Hw2).
  { destruct (IH (buf ++ chunk) rs' Hok') as (got & rs2 & Hfill & Hgot & Hok2 & _ & Hw2); [lia|].
    exists (chunk ++ got), rs2. rewrite Hfill, <- !app_assoc, Hgot. by rewrite Ha. }
  exists got, rs2. destruct Hrd as [[-> _]|[-> ->]]; rewrite ?app_nil_r in Hfill;
    split_and!; try done; lia.
Qed.

(** The part of a stream of readable messages that a buffer holds waits. *)
Lemma readable_waits ps rest r x :
  Forall readable ps -> waits rest -> incomplete r -> r ++ x = stream_of ps ++ rest -> waits r.
Proof using Type.
  intros Hps Hr Hi Heq. split; [done|]. intros H4.
  destruct ps as [|p ps].
  - simpl in Heq. apply (waits_prefix r x); [by rewrite Heq|done].
  - apply Forall_cons in Hps as [[Hp _] _]. rewrite stream_of_cons, <- app_assoc in Heq.
    destruct (framed_header p (stream_of ps ++ rest) (small_fits p Hp)) as (Ht & _ & _).
    cbn [head_length head_enc u32_framing] in Ht. rewrite <- Heq, take_app_le in Ht by done.
    rewrite Ht, le_roundtrip; [done|]. apply (small_fits p Hp).
Qed.

(** One call takes the next messages and leaves the rest for later ones. *)
Lemma netd_service_steady l stream now rs ps rest :
  nl_stream l = Some stream -> Forall readable ps -> waits rest -> Forall steady rs -> waits (nl_buf l) ->
  nl_buf l ++ arrived rs = stream_of ps ++ rest ->
  exists ps1 ps2 buf rs', ps = ps1 ++ ps2 /\
    netd_service l now rs =
      (mkNetdLink (Some stream) buf (nl_next_try l) (backoff_after ps1 (nl_backoff l)) (nl_warned l),
       snapshots_of ps1, rs') /\
    waits buf /\ buf ++ arrived rs' = stream_of ps2 ++ rest /\ Forall steady rs' /\
    (rs <> [] -> (reads_weight rs' < reads_weight rs)%nat) /\ (rs = [] -> ps2 = [] /\ rs' = []).
Proof using Type.
  intros Hs Hps Hr Hok Hw Heq. unfold netd_service. rewrite Hs.
  destruct (fill_buffer_steady (S (reads_weight rs)) (nl_buf l) rs Hok) as (got & rs' & -> & Hgot & Hok' & Hlt & Hle); [lia|].
  rewrite <- Hgot, app_assoc in Heq.
  assert (Forall fits ps) as Hfits by (apply (Forall_impl _ _ _ Hps); intros p [? _]; by apply small_fits).
  destruct (stream_prefix ps rest _ _ Hfits (proj1 Hr) Heq) as (ps1 & ps2 & r & -> & Hbuf & Hi & Hx).
  apply Forall_app in Hps as [Hp1 Hp2].
  pose proof (readable_waits ps2 rest r _ Hp2 Hr Hi Hx) as Hwr.
  rewrite Hbuf, take_messages_stream; [|done|done|].
  2: { rewrite length_app. pose proof (length_stream_of ps1). simpl in *. lia. }
  exists ps1, ps2, r, rs'. split_and!; try done.
  - intros Hne. apply Hlt; [by apply waits_room|done].
  - intros ->. destruct rs' as [|r1 rs'].
    + split; [|done]. change (arrived []) with (@nil Z) in Hx. rewrite app_nil_r in Hx.
      destruct ps2 as [|p ps2]; [done|]. exfalso. apply Forall_cons in Hp2 as [[Hp _] _].
      rewrite Hx, stream_of_cons, <- app_assoc in Hi.
      destruct (framed_header p (stream_of ps2 ++ rest) (small_fits p Hp)) as (Ht & _ & Hn).
      unfold incomplete in Hi. rewrite Ht, Hn, length_app, length_framed in Hi. lia.
    + rewrite reads_weight_cons in Hle. change (reads_weight []) with 0%nat in Hle.
      assert (1 <= read_weight r1)%nat by (destruct r1; simpl; lia). lia.
Qed.

(** The channel is level-triggered: it is serviced again while there is more. *)
Fixpoint netd_serve (n : nat) (l : NetdLink) (now : Z) (rs : list ReadTcp)
  : NetdLink * list Snapshot * list ReadTcp :=
  match n with
  | O => (l, [], rs)
  | S n =>
      let '(l, out, rs) := netd_service l now rs in
      let '(l, out', rs) := netd_serve n l now rs in
      (l, out ++ out', rs)
  end.

Lemma backoff_after_app ps ps' b : backoff_after (ps ++ ps') b = backoff_after ps' (backoff_after ps b).
Proof using Type.
  revert b. induction ps as [|p ps IH]; intros b; [done|]. simpl. by rewrite !backoff_after_cons, IH.
Qed.

Lemma netd_serve_steady n now rest : waits rest -> forall l stream rs ps,
  nl_stream l = Some stream -> Forall readable ps -> Forall steady rs -> waits (nl_buf l) ->
  nl_buf l ++ arrived rs = stream_of ps ++ rest -> (reads_weight rs < n)%nat ->
  netd_serve n l now rs =
    (mkNetdLink (Some stream) rest (nl_next_try l) (backoff_after ps (nl_backoff l)) (nl_warned l),
     snapshots_of ps, []).
Proof using Type.
  intros Hr. induction n as [|n IH]; intros l stream rs ps Hs Hps Hok Hw Heq Hn; [lia|]. cbn [netd_serve].
  destruct (netd_service_steady l stream now rs ps rest Hs Hps Hr Hok Hw Heq)
    as (ps1 & ps2 & buf & rs' & -> & -> & Hw' & Heq' & Hok' & Hlt & Hend).
  apply Forall_app in Hps as [_ Hp2].
  assert (snapshots_of (ps1 ++ ps2) = snapshots_of ps1 ++ snapshots_of ps2) as -> by apply omap_app.
  rewrite backoff_after_app.
  destruct (decide (rs = [])) as [->|Hne].
  - destruct (Hend eq_refl) as [-> ->]. simpl in Heq'. rewrite app_nil_r in Heq'. subst buf.
    assert (forall k l', nl_stream l' = Some stream -> nl_buf l' = rest -> netd_serve k l' now [] =
      (mkNetdLink (Some stream) rest (nl_next_try l') (nl_backoff l') (nl_warned l'), [], [])) as Hidle.
    { induction k as [|k IHk]; intros l' Hl Hb; [destruct l'; simpl in *; by subst|]. cbn [netd_serve].
      unfold netd_service. rewrite Hl, Hb. cbn [reads_weight map sum_list fill_buffer].
      destruct (Z.ltb_spec (Z.of_nat (length rest)) READ_LIMIT); [|by apply waits_room in Hr; lia].
      cbn [read_some]. rewrite take_messages_waits by done. by rewrite IHk. }
    by rewrite Hidle.
  - specialize (Hlt Hne). by rewrite (IH _ stream rs' ps2) by (done || lia).
Qed.

(** ** Any stream *)

Definition backoff_ok (b : Z) : Prop := MIN_BACKOFF <= b <= MAX_BACKOFF.

(** The backoff is within its bounds and what is buffered waits for more. *)
Record Netd_ok (l : NetdLink) : Prop := mk_Netd_ok {
  no_backoff : backoff_ok (nl_backoff l);
  no_buf : waits (nl_buf l);
  no_idle : nl_stream l = None -> nl_buf l = [];
}.

Lemma backoff_min : backoff_ok MIN_BACKOFF.
Proof using Type. vm_compute. by split. Qed.

Lemma backoff_double b : backoff_ok b -> backoff_ok (Z.min (b * 2) MAX_BACKOFF).
Proof using Type. unfold backoff_ok, MIN_BACKOFF, MAX_BACKOFF, from_secs, NANOS. lia. Qed.

Lemma take_messages_ok fuel : forall buf backoff lost out buf' backoff' lost',
  (length buf <= fuel)%nat ->
  take_messages fuel buf backoff lost = (out, buf', backoff', lost') ->
  backoff' = match out with [] => backoff | _ => MIN_BACKOFF end /\ (lost' = false -> lost = false /\ waits buf').
Proof using Type.
  induction fuel as [|fuel IH]; intros buf backoff lost out buf' backoff' lost' Hf.
  { destruct buf; [|simpl in Hf; lia]. intros [= <- <- <- <-]. split; [done|]. intros ->.
    split; [done|apply waits_nil]. }
  cbn [take_messages]. destruct (Nat.ltb_spec (length buf) 4) as [H4|H4].
  { intros [= <- <- <- <-]. split; [done|]. intros ->. split; [done|]. split; [by left|lia]. }
  destruct (Z.ltb_spec MAX_MESSAGE_BYTES (from_le (take 4 buf))) as [Hm|Hm].
  { intros [= <- <- <- <-]. by split. }
  destruct (Nat.ltb_spec (length buf) (4 + Z.to_nat (from_le (take 4 buf)))) as [Hl|Hl].
  { intros [= <- <- <- <-]. split; [done|]. intros ->. split; [done|]. by split; [right|]. }
  set (rest := drop (4 + Z.to_nat (from_le (take 4 buf))) buf).
  assert (length rest <= fuel)%nat as Hf' by (unfold rest; rewrite length_drop; lia).
  destruct (decode _) as [[|st|sn|e]|]; intros E.
  - by apply (IH _ _ _ _ _ _ _ Hf' E).
  - by apply (IH _ _ _ _ _ _ _ Hf' E).
  - destruct (take_messages fuel rest MIN_BACKOFF lost) as [[[o b1] k] lo] eqn:E'.
    injection E as <- <- <- <-. destruct (IH _ _ _ _ _ _ _ Hf' E') as [-> Hw]. split; [by destruct o|done].
  - destruct (IH _ _ _ _ _ _ _ Hf' E) as [-> Hw]. split; [done|]. intros ?%Hw. naive_solver.
  - destruct (IH _ _ _ _ _ _ _ Hf' E) as [-> Hw]. split; [done|]. intros ?%Hw. naive_solver.
Qed.

Lemma maintain_ok l now connect : Netd_ok l -> Netd_ok (maintain l now connect).
Proof using Type.
  intros [Hb Hw Hi]. unfold maintain. destruct (_ || _) eqn:E; [done|]. destruct connect as [s|].
  - split; simpl; [done|apply waits_nil|done].
  - split; simpl; [by apply backoff_double|done|done].
Qed.

Lemma netd_service_ok l now rs : Netd_ok l -> Netd_ok (netd_service l now rs).1.1.
Proof using Type.
  intros [Hb Hw Hi]. unfold netd_service. destruct (nl_stream l) as [stream|] eqn:Hs.
  2: { exact (mk_Netd_ok l Hb Hw (fun _ => Hi eq_refl)). }
  destruct (fill_buffer _ _ _) as [[buf lost] rs'].
  destruct (take_messages _ _ _ _) as [[[out buf'] b'] lost'] eqn:E.
  apply take_messages_ok in E as [Hb' Hw']; [|done].
  assert (backoff_ok b') as Hok.
  { destruct out; subst b'; [done|apply backoff_min]. }
  destruct lost'; simpl.
  - split; simpl; [by apply backoff_double|apply waits_nil|done].
  - split; simpl; [done|by apply Hw'|done].
Qed.

(** ** Properties *)

(** The subscription is read faithfully.  When netd's stream is messages
    that are readable and within the ceiling, then however the stream is cut,
    with interruptions and more than one buffer's worth, servicing it while
    there is something to read hands up exactly the snapshots, once each and
    in order, leaves the stretch of the unfinished message in the buffer, and
    resets the backoff exactly when there was a snapshot. *)
Lemma netd_snapshots_in_order n now rest l stream rs ps :
  waits rest -> nl_stream l = Some stream -> Forall readable ps -> Forall steady rs -> waits (nl_buf l) ->
  nl_buf l ++ arrived rs = stream_of ps ++ rest -> (reads_weight rs < n)%nat ->
  netd_serve n l now rs =
    (mkNetdLink (Some stream) rest (nl_next_try l) (backoff_after ps (nl_backoff l)) (nl_warned l),
     snapshots_of ps, []).
Proof using Type. intros. by apply netd_serve_steady. Qed.

(** The channel stays healthy whatever netd sends and whenever it goes
    away: after connecting or servicing, the backoff is between half a second
    and ten seconds, and the buffer never holds a whole message, so there is
    always room to read; when servicing loses the channel, the next attempt is
    due after exactly the link's backoff, or half a second if it handed up a
    snapshot just before, and the following one doubles; likewise when
    connecting fails. *)
Lemma netd_link_recovers l now rs connect :
  Netd_ok l ->
  Netd_ok (maintain l now connect) /\ Netd_ok (netd_service l now rs).1.1 /\
  Z.of_nat (length (nl_buf (netd_service l now rs).1.1)) < READ_LIMIT /\
  (nl_stream l <> None -> nl_stream (netd_service l now rs).1.1 = None ->
   let b := match (netd_service l now rs).1.2 with [] => nl_backoff l | _ => 500000000 end in
   netd_next_deadline (netd_service l now rs).1.1 = Some (now + b) /\
   nl_backoff (netd_service l now rs).1.1 = Z.min (b * 2) 10000000000) /\
  (forall rs', rs = ReadEof :: rs' \/ rs = ReadError :: rs' -> nl_stream (netd_service l now rs).1.1 = None) /\
  (nl_stream l = None ->
   (now < nl_next_try l -> maintain l now connect = l) /\
   (nl_next_try l <= now ->
    match connect with
    | Some stream => nl_stream (maintain l now connect) = Some stream /\ nl_backoff (maintain l now connect) = nl_backoff l
    | None => netd_next_deadline (maintain l now connect) = Some (now + nl_backoff l) /\
        nl_backoff (maintain l now connect) = Z.min (nl_backoff l * 2) 10000000000
    end)).
Proof using Type.
  intros Hok. pose proof (netd_service_ok l now rs Hok) as Hok'.
  split_and!; [by apply maintain_ok|done|by apply waits_room, (no_buf _ Hok')| | |].
  - clear Hok'. unfold netd_service. destruct (nl_stream l) as [stream|] eqn:Hs; [|done].
    intros _. destruct (fill_buffer _ _ _) as [[buf lost] rs'].
    destruct (take_messages _ _ _ _) as [[[out buf'] b'] lost'] eqn:E.
    apply take_messages_ok in E as [Hb' _]; [|done].
    destruct lost'; simpl; [|done]. intros _. by destruct out; subst b'.
  - intros rs' Hrs. unfold netd_service. destruct (nl_stream l) as [stream|] eqn:Hs; [|done].
    assert (fill_buffer (S (reads_weight rs)) (nl_buf l) rs = (nl_buf l, true, rs')) as ->.
    { cbn [fill_buffer]. rewrite (proj2 (Z.ltb_lt _ _)) by apply waits_room, (no_buf _ Hok). by destruct Hrs as [-> | ->]. }
    destruct (take_messages _ _ _ _) as [[[out buf'] b'] lost'] eqn:E.
    apply take_messages_ok in E as [_ Hl]; [|done]. destruct lost'; [done|]. by destruct Hl.
  - intros Hs. unfold maintain. rewrite Hs, bool_decide_eq_false_2 by (by intros [? ?]). cbn [orb]. split; intros Hn.
    + by rewrite (proj2 (Z.ltb_lt _ _) Hn).
    + rewrite (proj2 (Z.ltb_ge _ _) Hn). destruct connect; [done|]. unfold netd_next_deadline. cbn [nl_stream]. done.
Qed.
End link.
