(* ===== verification/NetdProps.v ===== *)
(** * The channel to netd, end to end

    netd's encoder at one end, the link's reader and netd's decoder at the
    other: what netd sends is what the daemon is handed. *)

From S2P Require Import Prelude Framing Net IpText Cache EngineState Io Msgpack NativeWire NativeWireProofs NetdCodec NetdCodecProofs NetdLink.
Local Open Scope Z_scope.

#[local] Existing Instance u32_framing.

Definition is_snapshot (reply : NetdReply) : option Snapshot :=
  match reply with NSnapshot s => Some s | _ => None end.

Definition refusal (reply : NetdReply) : bool := match reply with NError _ => true | _ => false end.

Section channel.
Context `{PeiosRoundTrip}.

(** A reply netd may send on a live subscription, within the ceiling. *)
Definition sendable (reply : NetdReply) : Prop :=
  NetdReply_wf reply /\ refusal reply = false /\
  Z.of_nat (length (NetdReply_encode reply)) <= MAX_MESSAGE_BYTES.

Lemma NetdReply_decode_encode reply : NetdReply_wf reply -> netd_decode (NetdReply_encode reply) = Some reply.
Proof using Type*.
  intros Hwf. destruct (NetdReply_roundtrip reply Hwf) as (bytes & Ew & Er).
  unfold NetdReply_encode, netd_decode. rewrite Ew. cbn [expect]. by rewrite Er.
Qed.

Lemma sendable_readable reply : sendable reply -> readable netd_decode (NetdReply_encode reply).
Proof using Type*.
  intros (Hwf & Hr & Hl). split; [done|]. rewrite NetdReply_decode_encode by done. by destruct reply.
Qed.

Lemma snapshots_of_replies replies : Forall sendable replies ->
  snapshots_of netd_decode (map NetdReply_encode replies) = omap is_snapshot replies.
Proof using Type*.
  induction 1 as [|reply replies (Hwf & _) _ IH]; [done|]. unfold snapshots_of in *. cbn [map omap list_omap].
  rewrite NetdReply_decode_encode by done. by destruct reply; cbn [is_snapshot]; rewrite IH.
Qed.

Definition reset_by (replies : list NetdReply) (backoff : Z) : Z :=
  match omap is_snapshot replies with [] => backoff | _ => MIN_BACKOFF end.

End channel.

(** ** Witness: the repository's MessagePack at both ends *)

Definition lan_scope : DnsScope :=
  mkDnsScope (bytes_of "if-1") (bytes_of "eth0") [bytes_of "10.0.2.3"] [bytes_of "lan"] [] [bytes_of "10.0.2.15/24"]
    true false 100 Routed.
Definition lan_snapshot : Snapshot := mkSnapshot (bytes_of "peios") [lan_scope].
Definition fresh_link : NetdLink := mkNetdLink (Some 5) [] 0 MAX_BACKOFF false.
Definition sent_by_netd : list NetdReply := [NOk; NSnapshot lan_snapshot].
Definition channel_bytes : list Z :=
  Eval vm_compute in stream_of (map (NetdReply_encode (H := msgpack_peios)) sent_by_netd).

Lemma fresh_link_ok : Netd_ok fresh_link.
Proof. split; [vm_compute; split; discriminate|split; [left|]; vm_compute; lia|done]. Qed.

Lemma sent_by_netd_sendable : Forall (sendable (H := msgpack_peios)) sent_by_netd.
Proof.
  apply Forall_cons_2; [|apply Forall_cons_2; [|constructor]].
  - split; [done|]. split; [done|]. by vm_compute.
  - split; [|split; [done|by vm_compute]]. split; [by_decide|]. split; [|by vm_compute].
    apply Forall_singleton. split; simpl; by_decide.
Qed.

