(* ===== verification/Sockets.v ===== *)
(** * Opening sockets (upstream.rs connect_nonblocking and send; netd_link.rs connect)

    The system calls that open a socket to a server or to netd, with the
    address as the bytes the kernel reads.  What each call returns comes in as
    data; the calls made come out as a list, closing by a dropped descriptor
    included. *)

From S2P Require Import Prelude Net IpText Cache EngineState Io NativeWire Upstream NetdLink.
Local Open Scope Z_scope.

(** ** Addresses as the kernel reads them *)

Definition FAMILY_UNIX : Z := 1.
Definition FAMILY_INET : Z := 2.
Definition FAMILY_INET6 : Z := 10.

Definition address_family (addr : SocketAddr) : Z := match sa_ip addr with V4 _ => FAMILY_INET | V6 _ => FAMILY_INET6 end.

(** The structures of a little-endian machine; ports and addresses are in
    network order. *)
Definition sockaddr (addr : SocketAddr) : list Z :=
  match sa_ip addr with
  | V4 a => le_bytes 2 FAMILY_INET ++ be_bytes 2 (sa_port addr) ++ octets_v4 a ++ replicate 8 0
  | V6 a =>
      le_bytes 2 FAMILY_INET6 ++ be_bytes 2 (sa_port addr) ++ le_bytes 4 0 ++ octets_v6 a ++
      le_bytes 4 (sa_scope_id addr)
  end.

(** The offsets of [sockaddr_in] and [sockaddr_in6]. *)
Definition sockaddr_read (s : list Z) : option SocketAddr :=
  let family := from_le (take 2 s) in
  let port := from_be (take 2 (drop 2 s)) in
  if (family =? FAMILY_INET) && (length s =? 16)%nat then
    Some (mkSocketAddr (V4 (from_be (take 4 (drop 4 s)))) port 0)
  else if (family =? FAMILY_INET6) && (length s =? 28)%nat then
    Some (mkSocketAddr (V6 (from_be (take 16 (drop 8 s)))) port (from_le (drop 24 s)))
  else None.

(** ** System calls *)

Inductive Kcall : Type :=
| KSocket (family fd : Z)
| KBind (fd : Z) (addr : list Z)
| KConnect (fd : Z) (addr : list Z) (len : Z)
| KNonblocking (fd : Z)
| KWriteTimeout (fd timeout : Z)
| KSend (fd : Z) (bytes : list Z)
| KClose (fd : Z).

(** The descriptors that are open after some calls. *)
Definition open_after (calls : list Kcall) : list Z :=
  fold_left (fun fds c => match c with
    | KSocket _ fd => fds ++ [fd]
    | KClose fd => List.filter (fun x => negb (x =? fd)) fds
    | _ => fds
    end) calls [].

(** One more call on an owned descriptor: an error closes it. *)
Definition then_call (r : list Kcall * result NetError Z) (call : Z -> Kcall) (error : option Z)
  : list Kcall * result NetError Z :=
  match r with
  | (calls, Err e) => (calls, Err e)
  | (calls, Ok fd) =>
      match error with
      | None => (calls ++ [call fd], Ok fd)
      | Some e => (calls ++ [call fd; KClose fd], Err (RawOs e))
      end
  end.

Definition open_fd (family : Z) (socket : result Z Z) : list Kcall * result NetError Z :=
  match socket with Ok fd => ([KSocket family fd], Ok fd) | Err e => ([], Err (RawOs e)) end.

(** ** To a server *)

Definition IN_PROGRESS : Z := 115.

(** A connection that is still being made is not an error. *)
Definition connect_error (e : option Z) : option Z :=
  match e with Some e => if e =? IN_PROGRESS then None else Some e | None => None end.

Record TcpIo : Type := mkTcpIo { ti_socket : result Z Z; ti_connect : option Z }.

Definition connect_nonblocking (addr : SocketAddr) (io : TcpIo) : list Kcall * result NetError Z :=
  then_call (open_fd (address_family addr) (ti_socket io))
    (fun fd => KConnect fd (sockaddr addr) (Z.of_nat (length (sockaddr addr)))) (connect_error (ti_connect io)).

Record UdpIo : Type := mkUdpIo {
  ui_socket : result Z Z;
  ui_bind : option Z;
  ui_connect : option Z;
  ui_nonblocking : option Z;
  ui_send : option Z;
}.

(** The unspecified address of the server's family, any port. *)
Definition any_address (server : IpAddr) : SocketAddr :=
  match server with V4 _ => mkSocketAddr (V4 0) 0 0 | V6 _ => mkSocketAddr (V6 0) 0 0 end.

Definition open_udp (server : IpAddr) (addr : SocketAddr) (payload : list Z) (io : UdpIo)
  : list Kcall * result NetError Z :=
  let r := open_fd (address_family (any_address server)) (ui_socket io) in
  let r := then_call r (fun fd => KBind fd (sockaddr (any_address server))) (ui_bind io) in
  let r := then_call r (fun fd => KConnect fd (sockaddr addr) (Z.of_nat (length (sockaddr addr)))) (ui_connect io) in
  let r := then_call r KNonblocking (ui_nonblocking io) in
  then_call r (fun fd => KSend fd payload) (ui_send io).

(** What [send] opens for a transaction. *)
Definition open_socket (if_nametoindex : Str -> Z) (server : IpAddr) (interface : option Str) (tcp : bool)
    (payload : list Z) (tio : TcpIo) (uio : UdpIo) : list Kcall * result NetError Z :=
  match server_address if_nametoindex server interface with
  | Err e => ([], Err e)
  | Ok addr => if tcp then connect_nonblocking addr tio else open_udp server addr payload uio
  end.

(** ** To netd *)

Definition CONTROL_SOCKET_PATH : Text := bytes_of "/run/netd/control.sock".
Definition SUN_PATH_LEN : nat := 108.

(** [sockaddr_un], zeroed before the path goes in. *)
Definition sockaddr_un (path : list Z) : list Z :=
  le_bytes 2 FAMILY_UNIX ++ path ++ replicate (SUN_PATH_LEN - length path) 0.

(** A C program's reading of the path: up to the first zero. *)
Fixpoint c_path (s : list Z) : list Z :=
  match s with [] => [] | b :: s => if b =? 0 then [] else b :: c_path s end.

Record NetdIo : Type := mkNetdIo {
  ni_socket : result Z Z;
  ni_connect : option Z;
  ni_timeout : option Z;
  ni_write : option Z;
  ni_nonblocking : option Z;
}.

Definition netd_connect_socket (path : list Z) (io : NetdIo) : list Kcall * result NetError Z :=
  if bool_decide (path = []) || (SUN_PATH_LEN <=? length path)%nat || existsb (Z.eqb 0) path
  then ([], Err InvalidInput)
  else
    then_call (open_fd FAMILY_UNIX (ni_socket io))
      (fun fd => KConnect fd (sockaddr_un path) (2 + Z.of_nat (length path) + 1)) (ni_connect io).

(** [subscribe] is the one request, in netd's encoding; [send] frames it. *)
Definition netd_connect (subscribe : list Z) (io : NetdIo) : list Kcall * result NetError Z :=
  let r := netd_connect_socket CONTROL_SOCKET_PATH io in
  let r := then_call r (fun fd => KWriteTimeout fd (from_secs 2)) (ni_timeout io) in
  let r :=
    match r with
    | (calls, Ok fd) =>
        match send_frame subscribe with
        | Err _ => (calls ++ [KClose fd], Err InvalidInput)
        | Ok frame => then_call r (fun fd => KSend fd frame) (ni_write io)
        end
    | r => r
    end in
  then_call r KNonblocking (ni_nonblocking io).

(** ** Descriptors do not leak *)

(** What is open is exactly what was returned. *)
Definition clean (r : list Kcall * result NetError Z) : Prop :=
  open_after r.1 = match r.2 with Ok fd => [fd] | Err _ => [] end.

(** A call that neither opens nor closes. *)
Definition keeps_open (call : Z -> Kcall) : Prop :=
  forall fd, match call fd with KSocket _ _ | KClose _ => False | _ => True end.

Lemma open_after_app calls more fds :
  open_after calls = fds ->
  open_after (calls ++ more) = fold_left (fun fds c => match c with
    | KSocket _ fd => fds ++ [fd]
    | KClose fd => List.filter (fun x => negb (x =? fd)) fds
    | _ => fds
    end) more fds.
Proof. intros <-. unfold open_after. by rewrite fold_left_app. Qed.

Lemma then_call_clean r call e : keeps_open call -> clean r -> clean (then_call r call e).
Proof.
  intros Hk. destruct r as [calls [fd|e0]]; [|done]. unfold clean. simpl. intros Hc. specialize (Hk fd).
  destruct e as [e|]; cbn [fst snd]; rewrite (open_after_app _ _ _ Hc); cbn [fold_left];
    destruct (call fd); try done; cbn [List.filter]; by rewrite Z.eqb_refl.
Qed.

Lemma open_fd_clean family socket : clean (open_fd family socket).
Proof. by destruct socket. Qed.

(** The kernel was asked to connect the returned descriptor to an address. *)
Definition connects (bytes : list Z) (len : Z) (r : list Kcall * result NetError Z) : Prop :=
  forall fd, r.2 = Ok fd -> KConnect fd bytes len ∈ r.1.

Lemma then_connects bytes len r call e : connects bytes len r -> connects bytes len (then_call r call e).
Proof.
  intros Hc. destruct r as [calls [fd|e0]]; [|done]. destruct e as [e|]; [by intros ?|].
  intros fd' [= <-]. simpl. apply elem_of_app. left. by apply Hc.
Qed.

Lemma now_connects bytes len r e : connects bytes len (then_call r (fun fd => KConnect fd bytes len) e).
Proof.
  destruct r as [calls [fd|e0]]; [|by intros ?]. destruct e as [e|]; [by intros ?|].
  intros fd' [= <-]. simpl. apply elem_of_app. right. by left.
Qed.

Ltac opened := repeat first [apply then_call_clean; [by intros ?|]|apply open_fd_clean].

Lemma open_socket_clean idx server interface tcp payload tio uio :
  clean (open_socket idx server interface tcp payload tio uio).
Proof.
  unfold open_socket. destruct (server_address idx server interface) as [addr|]; [|done].
  destruct tcp; unfold connect_nonblocking, open_udp; opened.
Qed.

Lemma netd_socket_clean path io : clean (netd_connect_socket path io).
Proof. unfold netd_connect_socket. case_match; [done|]. opened. Qed.

Lemma netd_connect_clean subscribe io : clean (netd_connect subscribe io).
Proof.
  unfold netd_connect. apply then_call_clean; [by intros ?|].
  pose proof (then_call_clean _ (fun fd => KWriteTimeout fd (from_secs 2)) (ni_timeout io)
    (fun _ => I) (netd_socket_clean CONTROL_SOCKET_PATH io)) as Hc.
  destruct (then_call _ _ (ni_timeout io)) as [calls [fd|e]]; [|done].
  destruct (send_frame subscribe); [apply then_call_clean; [by intros ?|done]|].
  unfold clean in *. cbn [fst snd] in *. rewrite (open_after_app _ _ _ Hc). cbn [fold_left List.filter].
  by rewrite Z.eqb_refl.
Qed.

(** ** The kernel reads the address that was meant *)

Definition SocketAddr_wf (a : SocketAddr) : Prop :=
  IpAddr_wf (sa_ip a) /\ is_u16 (sa_port a) /\
  match sa_ip a with V4 _ => sa_scope_id a = 0 | V6 _ => is_u32 (sa_scope_id a) end.

Lemma sockaddr_roundtrip a : SocketAddr_wf a -> sockaddr_read (sockaddr a) = Some a.
Proof.
  destruct a as [[ip|ip] port scope]; intros (Hip & Hp & Hs); cbn [sa_ip sa_port sa_scope_id] in *.
  - subst scope. transitivity (Some (mkSocketAddr (V4 (from_be (be_bytes 4 ip))) (from_be (be_bytes 2 port)) 0));
      [reflexivity|]. by rewrite !be_roundtrip.
  - transitivity (Some (mkSocketAddr (V6 (from_be (be_bytes 16 ip))) (from_be (be_bytes 2 port))
      (from_le (le_bytes 4 scope)))); [reflexivity|]. by rewrite !be_roundtrip, le_roundtrip.
Qed.

Lemma server_address_wf idx server interface addr :
  (forall s, is_u32 (idx s)) -> IpAddr_wf server -> server_address idx server interface = Ok addr ->
  SocketAddr_wf addr.
Proof.
  intros Hi Hs H. assert (is_u16 DNS_PORT) by by_decide. assert (is_u32 0) by by_decide.
  destruct server as [ip|ip]; cbn [server_address] in H; [by simplify_eq|].
  destruct (is_unicast_link_local ip); [|by simplify_eq].
  inv_ok H. simplify_eq. split_and!; try done. cbn. unfold interface_index in E0.
  repeat case_step_in E0. by simplify_eq.
Qed.

Lemma connects_ok bytes len r fd : connects bytes len r -> r.2 = Ok fd -> KConnect fd bytes len ∈ r.1.
Proof. auto. Qed.

Lemma open_socket_connects idx server interface tcp payload tio uio fd :
  (open_socket idx server interface tcp payload tio uio).2 = Ok fd ->
  exists addr, server_address idx server interface = Ok addr /\
    KConnect fd (sockaddr addr) (Z.of_nat (length (sockaddr addr))) ∈
      (open_socket idx server interface tcp payload tio uio).1 /\
    (tcp = false -> last (open_socket idx server interface tcp payload tio uio).1 = Some (KSend fd payload)).
Proof.
  unfold open_socket. destruct (server_address idx server interface) as [addr|]; [|done]. intros H. exists addr.
  split; [done|]. destruct tcp.
  - split; [|done]. revert H. apply connects_ok, now_connects.
  - split; [revert H; apply connects_ok; unfold open_udp; do 2 apply then_connects; apply now_connects|].
    intros _. unfold open_udp in *. destruct (then_call _ KNonblocking _) as [calls [fd'|]]; [|done].
    destruct (ui_send uio); [done|]. simpl in *. simplify_eq. by rewrite last_snoc.
Qed.

Lemma c_path_zeros path n : existsb (Z.eqb 0) path = false -> (0 < n)%nat -> c_path (path ++ replicate n 0) = path.
Proof.
  intros Hz Hn. induction path as [|b path IH]; [by destruct n; [lia|]|]. cbn [existsb] in Hz.
  apply orb_false_iff in Hz as [Hb Hz]. cbn [app c_path]. rewrite Z.eqb_sym, Hb. f_equal. by apply IH.
Qed.

Lemma netd_connect_calls subscribe io fd :
  (netd_connect subscribe io).2 = Ok fd ->
  KConnect fd (sockaddr_un CONTROL_SOCKET_PATH) (2 + Z.of_nat (length CONTROL_SOCKET_PATH) + 1) ∈
    (netd_connect subscribe io).1 /\
  exists frame, send_frame subscribe = Ok frame /\ KSend fd frame ∈ (netd_connect subscribe io).1.
Proof.
  unfold netd_connect. intros H. set (r0 := then_call (netd_connect_socket _ _) _ _) in *.
  assert (connects (sockaddr_un CONTROL_SOCKET_PATH) (2 + Z.of_nat (length CONTROL_SOCKET_PATH) + 1) r0) as Hc.
  { unfold r0. apply then_connects. unfold netd_connect_socket. case_match; try done; apply now_connects. }
  destruct r0 as [calls [fd0|]]; [|done]. specialize (Hc fd0 eq_refl). cbn [fst] in Hc.
  destruct (send_frame subscribe) as [frame|]; [|done]. unfold then_call in *.
  destruct (ni_write io); [done|]. destruct (ni_nonblocking io); [done|]. cbn [fst snd] in *. injection H as ->.
  split; [rewrite <- app_assoc; apply elem_of_app; by left|]. exists frame. split; [done|].
  rewrite <- app_assoc. apply elem_of_app. right. by left.
Qed.

(** C30. Sockets are opened for the address meant and never leaked.  Whatever
    the system calls of opening a socket return: an error leaves no descriptor
    open; a descriptor that is returned is the only one left, it is the one
    the transaction's entry holds, the kernel was asked to connect it to bytes
    it reads as the server's address, port 53 and the interface's index, and
    over UDP the query was the last thing sent on it.  To netd the path is
    read back whole and the subscription is sent in its frame. *)
Theorem opening_is_clean idx server interface tcp payload tio uio u tx subscribe io :
  (forall s, is_u32 (idx s)) -> IpAddr_wf server ->
  let r := open_socket idx server interface tcp payload tio uio in
  let u' := (upstream_send idx u tx server interface tcp payload r.2).1 in
  let n := netd_connect subscribe io in
  (clean r /\
   (forall fd, r.2 = Ok fd ->
      (if tcp then tcp_stream <$> up_tcp u' !! tx else up_udp u' !! tx) = Some fd /\
      (exists addr bytes, server_address idx server interface = Ok addr /\
         sa_ip addr = server /\ sa_port addr = DNS_PORT /\
         KConnect fd bytes (Z.of_nat (length bytes)) ∈ r.1 /\ sockaddr_read bytes = Some addr) /\
      (tcp = false -> last r.1 = Some (KSend fd payload))) /\
   (forall e, r.2 = Err e -> u' = u)) /\
  clean n /\
  (forall fd, n.2 = Ok fd ->
     (exists bytes len, KConnect fd bytes len ∈ n.1 /\ c_path (drop 2 bytes) = CONTROL_SOCKET_PATH /\
        2 + Z.of_nat (length CONTROL_SOCKET_PATH) < len <= Z.of_nat (length bytes)) /\
     (exists frame, send_frame subscribe = Ok frame /\ KSend fd frame ∈ n.1)).
Proof.
  intros Hi Hs r u' n. split_and!.
  - apply open_socket_clean.
  - intros fd Hfd. destruct (open_socket_connects _ _ _ _ _ _ _ _ Hfd) as (addr & Ha & Hk & Hl).
    pose proof (server_address_wf idx server interface addr Hi Hs Ha) as Hwf. split_and!; [| |done].
    + unfold u', upstream_send. rewrite Ha. fold r in Hfd. rewrite Hfd.
      destruct tcp; cbn [fst up_tcp up_udp]; by rewrite lookup_insert_eq.
    + exists addr, (sockaddr addr). split_and!; [done| | |done|by apply sockaddr_roundtrip];
        unfold server_address in Ha; destruct server as [ip|ip]; try (by simplify_eq);
        destruct (is_unicast_link_local ip); try (by simplify_eq); inv_ok Ha; by simplify_eq.
  - intros e He. unfold u', upstream_send. rewrite He. by destruct (server_address _ _ _).
  - apply netd_connect_clean.
  - intros fd Hfd. destruct (netd_connect_calls subscribe io fd Hfd) as [Hk Hf]. split; [|exact Hf].
    eexists _, _. split; [exact Hk|]. by vm_compute.
Qed.

Definition sockets_tcp : TcpIo := mkTcpIo (Ok 5) (Some IN_PROGRESS).
Definition sockets_udp : UdpIo := mkUdpIo (Ok 6) None (Some 101) None None.
Definition sockets_netd : NetdIo := mkNetdIo (Ok 7) None None None None.

Lemma opening_is_clean_witness :
  (open_socket (fun _ => 3) (V6 (2 ^ 127 + 2 ^ 126 + 9)) None true [1; 2] sockets_tcp sockets_udp).2 = Ok 5 /\
  open_after (open_socket (fun _ => 3) (V6 (2 ^ 127 + 2 ^ 126 + 9)) None true [1; 2] sockets_tcp sockets_udp).1 = [5] /\
  clean (open_socket (fun _ => 3) (V4 1) None false [1; 2] sockets_tcp sockets_udp) /\
  clean (netd_connect [1] sockets_netd) /\ (netd_connect [1] sockets_netd).2 = Ok 7.
Proof.
  split; [vm_compute; reflexivity|]. split; [|split; [|split; [|vm_compute; reflexivity]]].
  - refine (proj1 (proj1 (opening_is_clean (fun _ => 3) (V6 (2 ^ 127 + 2 ^ 126 + 9)) None true [1; 2] sockets_tcp
      sockets_udp Upstream_new 1 [1] sockets_netd _ _))); [intros; by_decide|by_decide].
  - refine (proj1 (proj1 (opening_is_clean (fun _ => 3) (V4 1) None false [1; 2] sockets_tcp
      sockets_udp Upstream_new 1 [1] sockets_netd _ _))); [intros; by_decide|by_decide].
  - refine (proj1 (proj2 (opening_is_clean (fun _ => 3) (V4 1) None false [1; 2] sockets_tcp
      sockets_udp Upstream_new 1 [1] sockets_netd _ _))); [intros; by_decide|by_decide].
Defined.
