(* ===== verification/RegistryConfig.v ===== *)
(** * Configuration (resolvd/src/config.rs, registry_reader.rs)

    What the registry tells resolvd: fallback servers, extra search domains,
    the hosts table and the control object's descriptor.  The registry itself
    is behind the trait [Reader], here a class; a key's failed query becomes
    [None] only when the key or value is absent. *)

From S2P Require Import Prelude Net Names Message MessageProofs Cache EngineState Routing EngineInv EngineRun EngineMachine Io IpText Msgpack.
Local Open Scope Z_scope.

(** ** Reading the registry *)

Inductive ValueType : Set := BINARY | SZ | EXPAND_SZ | MULTI_SZ | OtherType.

#[export] Instance ValueType_eq_dec : EqDecision ValueType.
Proof. solve_decision. Defined.

(** The fields of [RegValue] and [ValueRecord] that are read. *)
Record RegValue : Type := mkRegValue { rv_ty : ValueType; rv_data : list Z }.
Record ValueRecord : Type := mkValueRecord { vr_name : list Z; vr_ty : ValueType; vr_data : list Z }.

(** An I/O error: of the system, or [invalid] data. *)
Inductive ReadFailure : Type := SystemError (errno : Z) | InvalidData.

Class RegistryReader (R : Type) : Type := mkRegistryReader {
  reg_value : R -> Str -> result ReadFailure (option RegValue);
  reg_values : R -> result ReadFailure (list ValueRecord);
  reg_child : R -> Str -> result ReadFailure (option R);
}.

(** A query of the registry: a value, absence, or an error. *)
Inductive Queried (T : Type) : Type := Present (v : T) | NotThere | QueryError (errno : Z).
Arguments Present {T} v.
Arguments NotThere {T}.
Arguments QueryError {T} errno.

Definition optional {T} (v : Queried T) : result ReadFailure (option T) :=
  match v with
  | Present v => Ok (Some v)
  | NotThere => Ok None
  | QueryError e => Err (SystemError e)
  end.

(** A key is what it answers to a query; enumerating has no absence. *)
Record RegKey (K : Type) : Type := mkRegKey {
  query_value : K -> Str -> Queried RegValue;
  query_values_batch : K -> result ReadFailure (list ValueRecord);
  open_key : K -> Str -> Queried K;
}.
Arguments query_value {K} r k name.
Arguments query_values_batch {K} r k.
Arguments open_key {K} r k name.

Definition key_reader {K} (k : RegKey K) : RegistryReader K := {|
  reg_value key name := optional (query_value k key name);
  reg_values key := query_values_batch k key;
  reg_child key name := optional (open_key k key name);
|}.

Definition text (bytes : list Z) : result ReadFailure Str :=
  if utf8_valid bytes then Ok bytes else Err InvalidData.

(** [collect] into a [Result]: the first error wins. *)
Fixpoint collect {E A} (rs : list (result E A)) : result E (list A) :=
  match rs with
  | [] => Ok []
  | r :: rs => let? a := r in let? l := collect rs in Ok (a :: l)
  end.

Fixpoint before_nul (s : list Z) : list Z :=
  match s with [] => [] | b :: s => if b =? 0 then [] else b :: before_nul s end.

Definition multi (value : RegValue) : result ReadFailure (option (list Str)) :=
  match rv_ty value with
  | MULTI_SZ =>
      let? parts := collect (map text (List.filter (fun part => negb (bool_decide (part = [])))
                                         (split_on 0 (rv_data value)))) in
      Ok (Some parts)
  | SZ | EXPAND_SZ => let? s := text (before_nul (rv_data value)) in Ok (Some [s])
  | _ => Ok None
  end.

Definition strings `{RegistryReader R} (reader : R) (name : Str) : result ReadFailure (option (list Str)) :=
  let? v := reg_value reader name in
  match v with Some v => multi v | None => Ok None end.

(** ** [str::trim]: the characters of Unicode's White_Space, as UTF-8 *)

Definition whitespace : list (list Z) :=
  [[9]; [10]; [11]; [12]; [13]; [32]; [194; 133]; [194; 160]; [225; 154; 128]]
  ++ map (fun b => [226; 128; b]) [128; 129; 130; 131; 132; 133; 134; 135; 136; 137; 138; 168; 169; 175]
  ++ [[226; 129; 159]; [227; 128; 128]].

Fixpoint strip (p s : list Z) : option (list Z) :=
  match p, s with
  | [], s => Some s
  | a :: p, b :: s => if a =? b then strip p s else None
  | _, _ => None
  end.

Fixpoint trim_with (fuel : nat) (ws : list (list Z)) (s : list Z) : list Z :=
  match fuel with
  | O => s
  | S fuel => match omap (fun w => strip w s) ws with s' :: _ => trim_with fuel ws s' | [] => s end
  end.

Definition trim_start (s : list Z) : list Z := trim_with (length s) whitespace s.
Definition trim_end (s : list Z) : list Z := rev (trim_with (length s) (map (@rev Z) whitespace) (rev s)).
Definition trim (s : list Z) : list Z := trim_end (trim_start s).

(** ** The configuration *)

Record Config : Type := mkConfig_ {
  g_servers : list IpAddr;
  g_search : list Name;
  g_hosts : gmap Name (Name * list IpAddr);
  g_control_security : option (list Z);
}.

Definition Config_default : Config := mkConfig_ [] [] ∅ None.

Definition addresses_ (strings : list Str) : list IpAddr := omap (fun s => ip_parse (trim s)) strings.

Definition non_root (n : Name) : option Name := if is_root n then None else Some n.

Definition search_of (domains : list Str) : list Name :=
  omap (fun d => ok (Name_parse d) ≫= non_root) domains.

(** [HashMap::insert] on keys that compare without case: the value is
    replaced, the key that is there stays. *)
Definition hosts_insert (name : Name) (addrs : list IpAddr) (m : gmap Name (Name * list IpAddr))
  : gmap Name (Name * list IpAddr) :=
  let key := match m !! to_lowercase name with Some (k, _) => k | None => name end in
  <[to_lowercase name := (key, addrs)]> m.

Fixpoint load_hosts (vs : list ValueRecord) (m : gmap Name (Name * list IpAddr))
  : result ReadFailure (gmap Name (Name * list IpAddr)) :=
  match vs with
  | [] => Ok m
  | v :: vs =>
      let? name := text (vr_name v) in
      match ok (Name_parse name) with
      | None => load_hosts vs m
      | Some name =>
          if is_root name then load_hosts vs m
          else
            let? parts := multi (mkRegValue (vr_ty v) (vr_data v)) in
            let addrs := addresses_ (default [] parts) in
            load_hosts vs (if bool_decide (addrs = []) then m else hosts_insert name addrs m)
      end
  end.

Definition load_from `{RegistryReader R} (root : option R) : result ReadFailure Config :=
  match root with
  | None => Ok Config_default
  | Some root =>
      let? servers := strings root (bytes_of "FallbackServers") in
      let? search := strings root (bytes_of "ExtraSearchDomains") in
      let? security := reg_value root (bytes_of "ControlSecurity") in
      let control_security :=
        match security with
        | Some v =>
            if bool_decide (rv_ty v = BINARY) && negb (bool_decide (rv_data v = [])) then Some (rv_data v)
            else None
        | None => None
        end in
      let? hosts := reg_child root (bytes_of "Hosts") in
      let? hosts :=
        match hosts with
        | Some hosts => let? vs := reg_values hosts in load_hosts vs ∅
        | None => Ok ∅
        end in
      Ok (mkConfig_ (addresses_ (default [] servers)) (search_of (default [] search)) hosts control_security)
  end.

(** [load]: [root] is what opening the resolver's key gave. *)
Definition load {K} (k : RegKey K) (root : Queried K) : result ReadFailure Config :=
  let? root := optional root in
  load_from (H := key_reader k) root.

(** ** The registry watch *)

Definition NETWORK_KEY : Str := bytes_of "Machine\System\Network".
Definition RESOLVER_KEY : Str := NETWORK_KEY ++ bytes_of "\Dns".

Inductive KeyCall : Type :=
| KeyOpen (path : Str)
| KeyNotify (key : Z) (subtree : bool)
| KeyNonblocking (key : Z)
| KeyClose (key : Z).

(** What the three calls that arm a watch return: a key or an error number. *)
Record WatchIo : Type := mkWatchIo {
  wi_open : result Z Z;
  wi_notify : option Z;
  wi_nonblocking : option Z;
}.

(** The calls made, a key that is dropped on an error included. *)
Definition watch (io : WatchIo) : list KeyCall * result Z Z :=
  match wi_open io with
  | Err e => ([KeyOpen NETWORK_KEY], Err e)
  | Ok key =>
      let opened := [KeyOpen NETWORK_KEY; KeyNotify key true] in
      match wi_notify io with
      | Some e => (opened ++ [KeyClose key], Err e)
      | None =>
          match wi_nonblocking io with
          | Some e => (opened ++ [KeyNonblocking key; KeyClose key], Err e)
          | None => (opened ++ [KeyNonblocking key], Ok key)
          end
      end
  end.

Definition armed (io : WatchIo) : bool := match (watch io).2 with Ok _ => true | Err _ => false end.

(** The derived [PartialEq]: names, and so the keys of [hosts], compare
    without case. *)
Definition names_eqb (xs ys : list Name) : bool := bool_decide (map to_lowercase xs = map to_lowercase ys).

Definition Config_eqb (a b : Config) : bool :=
  bool_decide (g_servers a = g_servers b) && names_eqb (g_search a) (g_search b) &&
  bool_decide (snd <$> g_hosts a = snd <$> g_hosts b) &&
  bool_decide (g_control_security a = g_control_security b).

(** ** What is loaded *)

Lemma in_range_u8 lo hi b : 0 <= lo -> hi <= 255 -> in_range lo hi b = true -> is_u8 b.
Proof. unfold in_range, in_width. intros ? ? H. bool_simpl. lia. Qed.

Ltac byte_in_range :=
  match goal with
  | H : in_range ?lo ?hi ?b = true |- is_u8 ?b =>
      apply (in_range_u8 lo hi); [repeat case_match; lia|repeat case_match; lia|exact H]
  end.

Lemma utf8_valid_bytes s : utf8_valid s = true -> bytes_ok s.
Proof.
  induction s as [s IH] using (induction_ltof1 _ (@length Z)). unfold ltof in IH.
  destruct s as [|a s1]; [constructor|]. cbn [utf8_valid]. unfold is_cont.
  destruct (in_range 0 127 a) eqn:Ha.
  { intros Hv. apply bytes_ok_cons. split; [byte_in_range|]. apply IH; [simpl; lia|done]. }
  destruct s1 as [|b s2]; [done|]. destruct (in_range 194 223 a) eqn:Ha2.
  { intros [Hb Hv]%andb_true_iff. repeat (apply bytes_ok_cons; split; [byte_in_range|]).
    apply IH; [simpl; lia|done]. }
  destruct s2 as [|c s3]; [done|]. destruct (in_range 224 239 a) eqn:Ha3.
  { intros [[Hb Hc]%andb_true_iff Hv]%andb_true_iff. repeat (apply bytes_ok_cons; split; [byte_in_range|]).
    apply IH; [simpl; lia|done]. }
  destruct s3 as [|d s4]; [done|].
  intros [[[[Ha4 Hb]%andb_true_iff Hc]%andb_true_iff Hd]%andb_true_iff Hv]%andb_true_iff.
  repeat (apply bytes_ok_cons; split; [byte_in_range|]). apply IH; [simpl; lia|done].
Qed.

Lemma text_ok bytes t : text bytes = Ok t -> bytes_ok t.
Proof. unfold text. destruct (utf8_valid bytes) eqn:E; [|done]. intros [= <-]. by apply utf8_valid_bytes. Qed.

Lemma collect_Forall {E A} (P : A -> Prop) (rs : list (result E A)) l :
  Forall (fun r => forall a, r = Ok a -> P a) rs -> collect rs = Ok l -> Forall P l.
Proof.
  intros Hrs. revert l. induction Hrs as [|r rs Hr _ IH]; intros l; cbn [collect].
  { intros [= <-]. constructor. }
  destruct r as [a|]; [|done]. cbn [result_bind]. destruct (collect rs) as [l'|]; [|done].
  intros [= <-]. constructor; [by apply Hr|by apply IH].
Qed.

Lemma multi_ok v l : multi v = Ok (Some l) -> Forall bytes_ok l.
Proof.
  unfold multi. destruct (rv_ty v); try done.
  - destruct (text _) as [t|] eqn:E; [|done]. intros [= <-]. constructor; [by eapply text_ok|constructor].
  - destruct (text _) as [t|] eqn:E; [|done]. intros [= <-]. constructor; [by eapply text_ok|constructor].
  - destruct (collect _) as [parts|] eqn:E; [|done]. intros [= <-].
    eapply collect_Forall; [|exact E]. apply Forall_forall. intros r Hr a ->.
    apply list_elem_of_In, in_map_iff in Hr as (x & Hx & _). by eapply text_ok.
Qed.

Lemma strings_ok `{RegistryReader R} (reader : R) name l : strings reader name = Ok l -> Forall bytes_ok (default [] l).
Proof.
  unfold strings. destruct (reg_value reader name) as [[v|]|]; cbn [result_bind]; [| |done].
  - destruct l as [l|]; [apply multi_ok|intros _; constructor].
  - intros [= <-]. constructor.
Qed.

Definition usable (n : Name) : Prop := Name_wf n /\ is_root n = false.

Lemma search_of_ok domains : Forall bytes_ok domains -> Forall usable (search_of domains).
Proof.
  intros Hd. unfold search_of. induction Hd as [|d ds Hd _ IH]; [constructor|]. cbn [omap list_omap].
  destruct (Name_parse d) as [n|] eqn:E; cbn [ok mbind option_bind]; [|done].
  unfold non_root. destruct (is_root n) eqn:Hr; [done|]. constructor; [|done].
  split; [by eapply Name_parse_wf|done].
Qed.

(** ** What the registry holds, read without regard to failure

    The pieces of a value, whether they are text or not; a value can be read
    when all of them are. *)

Definition pieces (v : RegValue) : list (list Z) :=
  match rv_ty v with
  | MULTI_SZ => List.filter (fun part => negb (bool_decide (part = []))) (split_on 0 (rv_data v))
  | SZ | EXPAND_SZ => [before_nul (rv_data v)]
  | _ => []
  end.

Definition readable_value (v : RegValue) : Prop := Forall (fun p => utf8_valid p = true) (pieces v).

Definition pieces_of (v : option RegValue) : list (list Z) := match v with Some v => pieces v | None => [] end.

Lemma collect_text ps :
  match collect (map text ps) with
  | Ok l => Forall (fun p => utf8_valid p = true) ps /\ l = ps
  | Err _ => ~ Forall (fun p => utf8_valid p = true) ps
  end.
Proof.
  induction ps as [|p ps IH]; [by split|]. cbn [map collect]. unfold text at 1.
  destruct (utf8_valid p) eqn:E; cbn [result_bind]; [|intros [Hp _]%Forall_cons; congruence].
  destruct (collect (map text ps)) as [l|]; cbn [result_bind].
  - destruct IH as [Hf ->]. split; [by constructor|done].
  - by intros [_ ?]%Forall_cons.
Qed.

Lemma multi_pieces v :
  match multi v with
  | Ok parts => readable_value v /\ default [] parts = pieces v
  | Err _ => ~ readable_value v
  end.
Proof.
  unfold multi, readable_value, pieces. destruct (rv_ty v); try (by split).
  3: { pose proof (collect_text (List.filter (fun part => negb (bool_decide (part = []))) (split_on 0 (rv_data v)))) as H.
       destruct (collect _); cbn [result_bind]; [by destruct H as [? ->]|done]. }
  all: unfold text; destruct (utf8_valid _) eqn:E; cbn [result_bind];
    [split; [by apply Forall_singleton|done]|rewrite Forall_singleton; congruence].
Qed.

Lemma strings_pieces `{RegistryReader R} (reader : R) name :
  match strings reader name with
  | Ok parts => exists v, reg_value reader name = Ok v /\
      Forall (fun p => utf8_valid p = true) (pieces_of v) /\ default [] parts = pieces_of v
  | Err _ => forall v, reg_value reader name = Ok v -> ~ Forall (fun p => utf8_valid p = true) (pieces_of v)
  end.
Proof.
  unfold strings. destruct (reg_value reader name) as [[v|]|]; cbn [result_bind]; [| |done].
  - pose proof (multi_pieces v) as Hm. destruct (multi v); [by exists (Some v)|]. by intros ? [= <-].
  - by exists None.
Qed.

(** A value of the hosts key: its name, and the addresses it gives to a host. *)
Definition host_name (v : ValueRecord) : option Name := ok (Name_parse (vr_name v)) ≫= non_root.
Definition host_value (v : ValueRecord) : RegValue := mkRegValue (vr_ty v) (vr_data v).

Definition readable_host (v : ValueRecord) : Prop :=
  utf8_valid (vr_name v) = true /\ (is_Some (host_name v) -> readable_value (host_value v)).

(** The entries of the hosts table as a list, one per value with addresses. *)
Definition host_entry (v : ValueRecord) : option (Name * list IpAddr) :=
  name ← host_name v;
  let addrs := addresses_ (pieces (host_value v)) in if bool_decide (addrs = []) then None else Some (name, addrs).

Definition host_entries (vs : list ValueRecord) : list (Name * list IpAddr) := omap host_entry vs.

Definition hosts_wf (m : gmap Name (Name * list IpAddr)) : Prop :=
  map_Forall (fun k v => k = to_lowercase v.1 /\ Name_wf v.1) m.

(** The entry that counts for a name: the last one, keys without case. *)
Definition host_addresses (n : Name) (es : list (Name * list IpAddr)) : option (list IpAddr) :=
  snd <$> last (List.filter (fun e => Name_eqb e.1 n) es).

Lemma host_addresses_cons n e es :
  host_addresses n (e :: es) =
    match host_addresses n es with Some a => Some a | None => if Name_eqb e.1 n then Some e.2 else None end.
Proof.
  unfold host_addresses. cbn [List.filter]. destruct (Name_eqb e.1 n); [|by destruct (last _)].
  rewrite last_cons. by destruct (last _).
Qed.

Lemma Name_eqb_lower a b : Name_eqb a b = true <-> to_lowercase a = to_lowercase b.
Proof. by rewrite Name_eqb_spec, to_lowercase_eq. Qed.

Lemma hosts_insert_lookup name addrs m n :
  snd <$> hosts_insert name addrs m !! to_lowercase n =
    if Name_eqb name n then Some addrs else snd <$> m !! to_lowercase n.
Proof.
  unfold hosts_insert. destruct (Name_eqb name n) eqn:E.
  - apply Name_eqb_lower in E. rewrite E. by rewrite lookup_insert_eq.
  - rewrite lookup_insert_ne; [done|]. intros Heq%Name_eqb_lower. congruence.
Qed.

Lemma hosts_insert_wf name addrs m : Name_wf name -> hosts_wf m -> hosts_wf (hosts_insert name addrs m).
Proof.
  intros Hn Hm. unfold hosts_insert. apply map_Forall_insert_2; [|done]. simpl.
  destruct (m !! to_lowercase name) as [[k a]|] eqn:E; [|done]. by apply (Hm _ _ E).
Qed.

Lemma load_hosts_spec vs : forall m m', load_hosts vs m = Ok m' -> hosts_wf m ->
  hosts_wf m' /\ forall n, snd <$> m' !! to_lowercase n =
    match host_addresses n (host_entries vs) with Some a => Some a | None => snd <$> m !! to_lowercase n end.
Proof.
  induction vs as [|v vs IH]; intros m m'; cbn [load_hosts].
  { by intros [= ->]. }
  destruct (text (vr_name v)) as [t|] eqn:Ht; [|done]. cbn [result_bind].
  pose proof (text_ok _ _ Ht) as Hok. unfold text in Ht. destruct (utf8_valid _); [|done].
  injection Ht as <-. unfold host_entries. cbn [omap list_omap]. unfold host_entry at 1, host_name.
  destruct (Name_parse (vr_name v)) as [name|] eqn:Hp; cbn [ok mbind option_bind]; [|apply IH].
  unfold non_root. destruct (is_root name) eqn:Hr; [apply IH|]. cbn [mbind option_bind].
  fold (host_value v). pose proof (multi_pieces (host_value v)) as Hpc.
  destruct (multi _) as [parts|]; cbn [result_bind]; [|done]. destruct Hpc as [_ ->].
  case_bool_decide as Ha; [apply IH|]. intros Hl Hm.
  assert (hosts_wf (hosts_insert name (addresses_ (pieces (host_value v))) m)) as Hins.
  { apply hosts_insert_wf; [by eapply Name_parse_wf|done]. }
  destruct (IH _ _ Hl Hins) as [Hw Hs]. split; [done|]. intros n.
  rewrite host_addresses_cons, Hs. unfold host_entries. destruct (host_addresses n _); [done|].
  rewrite hosts_insert_lookup. cbn [fst snd]. by destruct (Name_eqb name n).
Qed.

(** One value that cannot be read fails the table. *)
Lemma load_hosts_readable vs : forall m,
  match load_hosts vs m with Ok _ => Forall readable_host vs | Err _ => ~ Forall readable_host vs end.
Proof.
  induction vs as [|v vs IH]; intros m; cbn [load_hosts]; [constructor|]. unfold text.
  destruct (utf8_valid (vr_name v)) eqn:Hu; cbn [result_bind]; [|intros [[? _] _]%Forall_cons; congruence].
  assert (forall m, (is_Some (host_name v) -> readable_value (host_value v)) ->
    match load_hosts vs m with Ok _ => Forall readable_host (v :: vs) | Err _ => ~ Forall readable_host (v :: vs) end) as Hnext.
  { intros m' Hv. specialize (IH m'). destruct (load_hosts vs m'); [by constructor; [split|]|]. by intros [_ ?]%Forall_cons. }
  unfold readable_host, host_name in *. destruct (Name_parse (vr_name v)) as [name|] eqn:Hp; cbn [ok mbind option_bind] in *.
  2: { apply Hnext. by intros [? ?]. }
  unfold non_root in *. destruct (is_root name) eqn:Hr; [apply Hnext; by intros [? ?]|].
  fold (host_value v). pose proof (multi_pieces (host_value v)) as Hpc.
  destruct (multi _) as [parts|]; cbn [result_bind]; [apply Hnext; intros _; apply Hpc|].
  intros [[_ Hv] _]%Forall_cons. apply Hpc, Hv. exists name. unfold host_name, non_root.
  rewrite Hp. cbn. by rewrite Hr.
Qed.

(** An armed watch waits for any change under the network key, the resolver's
    own key below it included, and does not block; a watch that could not be
    armed leaves no key open. *)
Lemma watch_whole io :
  match (watch io).2 with
  | Ok key => (watch io).1 = [KeyOpen NETWORK_KEY; KeyNotify key true; KeyNonblocking key]
  | Err _ => forall key, wi_open io = Ok key -> KeyClose key ∈ (watch io).1
  end /\ exists below, RESOLVER_KEY = NETWORK_KEY ++ below.
Proof.
  split; [|by eexists]. unfold watch. destruct (wi_open io) as [key|]; [|done].
  destruct (wi_notify io); [simpl; intros ? [= <-]; set_solver|].
  destruct (wi_nonblocking io); [simpl; intros ? [= <-]; set_solver|done].
Qed.

(** ** Property *)

(** Everything a configuration is made of was there to be read: the values, the
    hosts key and its values, and every one of their pieces is text. *)
Record reads_whole `{RegistryReader R} (root : R) (servers search security : option RegValue) (vs : list ValueRecord)
  : Prop := mk_reads_whole {
  rw_servers : reg_value root (bytes_of "FallbackServers") = Ok servers;
  rw_search : reg_value root (bytes_of "ExtraSearchDomains") = Ok search;
  rw_security : reg_value root (bytes_of "ControlSecurity") = Ok security;
  rw_hosts : exists child, reg_child root (bytes_of "Hosts") = Ok child /\
    match child with Some hosts => reg_values hosts = Ok vs | None => vs = [] end;
  rw_text : Forall (fun p => utf8_valid p = true) (pieces_of servers ++ pieces_of search);
  rw_host_text : Forall readable_host vs;
}.


(** A registry of two keys: the resolver's, and its hosts. *)
Definition sample_registry : RegKey bool := mkRegKey bool
  (fun root name =>
     if root && bool_decide (name = bytes_of "FallbackServers")
     then Present (mkRegValue MULTI_SZ (bytes_of " 9.9.9.9" ++ [0] ++ bytes_of "junk" ++ [0; 0]))
     else NotThere)
  (fun _ => Ok [mkValueRecord (bytes_of "Nas") SZ (bytes_of "10.0.0.1" ++ [0]);
                mkValueRecord (bytes_of "nas") SZ (bytes_of "10.0.0.2")])
  (fun _ name => if bool_decide (name = bytes_of "Hosts") then Present false else NotThere).

Definition sample_config : Config := expect Config_default (load sample_registry (Present true)).

(** The same with a piece of one host's value that is not text. *)
Definition broken_registry : RegKey bool := mkRegKey bool
  (fun root name =>
     if root && bool_decide (name = bytes_of "FallbackServers")
     then Present (mkRegValue MULTI_SZ (bytes_of " 9.9.9.9" ++ [0] ++ bytes_of "junk" ++ [0; 0]))
     else NotThere)
  (fun _ => Ok [mkValueRecord (bytes_of "Nas") SZ (bytes_of "10.0.0.1" ++ [0]);
                mkValueRecord (bytes_of "nas") MULTI_SZ (bytes_of "10.0.0.2" ++ [0; 255; 0])])
  (fun _ name => if bool_decide (name = bytes_of "Hosts") then Present false else NotThere).

