(* ===== verification/Present.v ===== *)
(** * Answers as text (dns/src/lib.rs rdata_text; resolvd/src/main.rs to_record, to_answer, to_addresses)

    How an engine's answer becomes a reply of the native wire, and that every
    such reply can be read back by a client: all its text is UTF-8. *)

From S2P Require Import Prelude Net Names Message MessageProofs Cache EngineState EngineInv EngineMachine IpText Msgpack MsgpackProofs NativeWire NativeWireProofs Stub StubProps.
Local Open Scope Z_scope.

(** ** [String::from_utf8_lossy] *)

Definition REPLACEMENT : list Z := [239; 191; 189].

(** The second byte a three- or four-byte character may have. *)
Definition second3 (a b : Z) : bool :=
  in_range (if a =? 224 then 160 else 128) (if a =? 237 then 159 else 191) b.
Definition second4 (a b : Z) : bool :=
  in_range (if a =? 240 then 144 else 128) (if a =? 244 then 143 else 191) b.

(** The longest start of a character that is cut short is replaced as one. *)
Fixpoint from_utf8_lossy (s : list Z) : list Z :=
  match s with
  | [] => []
  | a :: s1 =>
      if in_range 0 127 a then a :: from_utf8_lossy s1
      else if in_range 194 223 a then
        match s1 with
        | b :: s2 => if is_cont b then [a; b] ++ from_utf8_lossy s2 else REPLACEMENT ++ from_utf8_lossy s1
        | [] => REPLACEMENT
        end
      else if in_range 224 239 a then
        match s1 with
        | b :: s2 =>
            if second3 a b then
              match s2 with
              | c :: s3 =>
                  if is_cont c then [a; b; c] ++ from_utf8_lossy s3 else REPLACEMENT ++ from_utf8_lossy s2
              | [] => REPLACEMENT
              end
            else REPLACEMENT ++ from_utf8_lossy s1
        | [] => REPLACEMENT
        end
      else if in_range 240 244 a then
        match s1 with
        | b :: s2 =>
            if second4 a b then
              match s2 with
              | c :: s3 =>
                  if is_cont c then
                    match s3 with
                    | d :: s4 =>
                        if is_cont d then [a; b; c; d] ++ from_utf8_lossy s4
                        else REPLACEMENT ++ from_utf8_lossy s3
                    | [] => REPLACEMENT
                    end
                  else REPLACEMENT ++ from_utf8_lossy s2
              | [] => REPLACEMENT
              end
            else REPLACEMENT ++ from_utf8_lossy s1
        | [] => REPLACEMENT
        end
      else REPLACEMENT ++ from_utf8_lossy s1
  end.

(** [replace]: a double quote gets a backslash. *)
Definition escape_quotes (s : list Z) : list Z := concat (map (fun b => if b =? 34 then [92; 34] else [b]) s).

(** ** Presentation of record data *)

Definition words (ws : list (list Z)) : list Z := join_with 32 ws.

Definition fmt_hex2 (b : Z) : list Z := [fmt_nibble (Z.shiftr b 4); fmt_nibble (Z.land b 15)].

Definition rdata_text (r : Record_) : list Z :=
  match r_rdata r with
  | RA a => ip_to_string (V4 a)
  | RAaaa a => ip_to_string (V6 a)
  | RCname n | RPtr n | RNs n => Name_to_string n
  | RSoa mname rname serial refresh retry expire minimum =>
      words ([Name_to_string mname; Name_to_string rname] ++
             map fmt_dec [serial; refresh; retry; expire; minimum])
  | RMx preference exchange => words [fmt_dec preference; Name_to_string exchange]
  | RSrv priority weight port target =>
      words [fmt_dec priority; fmt_dec weight; fmt_dec port; Name_to_string target]
  | RTxt strings => words (map (fun s => [34] ++ escape_quotes (from_utf8_lossy s) ++ [34]) strings)
  | ROpt b | RUnknown b =>
      words [bytes_of "\#"; fmt_dec (Z.of_nat (length b)); concat (map fmt_hex2 b)]
  end.

(** ** Replies of the native wire *)

Definition to_record (r : Record_) : RecordOut :=
  mkRecordOut (Name_to_string (r_name r)) (r_rtype r) (r_ttl r) (rdata_bytes r) (rdata_text r).

Definition to_answer (a : Answer) : WAnswer :=
  mkWAnswer (a_outcome a) (map to_record (a_records a)) (Source_as_str (a_source a))
    (ip_to_string <$> a_server a) (a_interface a) Unvalidated (a_rcode a).

Definition to_addresses (a : Addresses) : WAddresses :=
  mkWAddresses (ad_outcome a) (Name_to_string (ad_canonical a))
    (map (fun x => mkAddressOut x.1 x.2) (ad_addresses a)) (Source_as_str (ad_source a)) Unvalidated.

(** ** UTF-8 as a sequence of characters *)

(** A character of more than one byte. *)
Definition multibyte (c : list Z) : Prop :=
  utf8_valid c = true /\ Forall (fun b => 128 <= b) c /\ forall s, utf8_valid (c ++ s) = utf8_valid s.

Inductive Utf8 : list Z -> Prop :=
| utf8_nil : Utf8 []
| utf8_one a s : 0 <= a <= 127 -> Utf8 s -> Utf8 (a :: s)
| utf8_more c s : multibyte c -> Utf8 s -> Utf8 (c ++ s).

Lemma in_range_spec lo hi b : in_range lo hi b = true <-> lo <= b <= hi.
Proof. unfold in_range. rewrite andb_true_iff, !Z.leb_le. lia. Qed.

Lemma Utf8_valid s : Utf8 s -> utf8_valid s = true.
Proof.
  induction 1 as [|a s Ha _ IH|c s (_ & _ & Hc) _ IH]; [done| |by rewrite Hc].
  cbn [utf8_valid]. by rewrite (proj2 (in_range_spec 0 127 a) Ha).
Qed.

Ltac out_of_range lo hi a :=
  let E := fresh in
  destruct (in_range lo hi a) eqn:E; [apply in_range_spec in E; exfalso; lia|clear E].

Lemma multibyte_2 a b : in_range 194 223 a = true -> is_cont b = true -> multibyte [a; b].
Proof.
  intros Ha Hb. pose proof Ha as Ha'. pose proof Hb as Hb'.
  apply in_range_spec in Ha'. unfold is_cont in Hb'. apply in_range_spec in Hb'.
  assert (forall s, utf8_valid ([a; b] ++ s) = utf8_valid s) as Hs.
  { intros s. cbn [app utf8_valid]. out_of_range 0 127 a. by rewrite Ha, Hb. }
  split_and!; [by rewrite <- (app_nil_r [a; b]), Hs|repeat constructor; lia|done].
Qed.

Lemma multibyte_3 a b c : in_range 224 239 a = true -> second3 a b = true -> is_cont c = true ->
  multibyte [a; b; c].
Proof.
  intros Ha Hb Hc. pose proof Ha as Ha'. apply in_range_spec in Ha'.
  assert (128 <= b /\ 128 <= c) as [? ?].
  { unfold second3, is_cont in *. apply in_range_spec in Hb, Hc. destruct (a =? 224), (a =? 237); lia. }
  assert (forall s, utf8_valid ([a; b; c] ++ s) = utf8_valid s) as Hs.
  { intros s. cbn [app utf8_valid]. out_of_range 0 127 a. out_of_range 194 223 a.
    unfold second3 in Hb. by rewrite Ha, Hb, Hc. }
  split_and!; [by rewrite <- (app_nil_r [a; b; c]), Hs|repeat constructor; lia|done].
Qed.

Lemma multibyte_4 a b c d : in_range 240 244 a = true -> second4 a b = true -> is_cont c = true ->
  is_cont d = true -> multibyte [a; b; c; d].
Proof.
  intros Ha Hb Hc Hd. pose proof Ha as Ha'. apply in_range_spec in Ha'.
  assert (128 <= b /\ 128 <= c /\ 128 <= d) as (? & ? & ?).
  { unfold second4, is_cont in *. apply in_range_spec in Hb, Hc, Hd. destruct (a =? 240), (a =? 244); lia. }
  assert (forall s, utf8_valid ([a; b; c; d] ++ s) = utf8_valid s) as Hs.
  { intros s. cbn [app utf8_valid]. out_of_range 0 127 a. out_of_range 194 223 a. out_of_range 224 239 a.
    unfold second4 in Hb. by rewrite Ha, Hb, Hc, Hd. }
  split_and!; [by rewrite <- (app_nil_r [a; b; c; d]), Hs|repeat constructor; lia|done].
Qed.

Lemma multibyte_replacement : multibyte REPLACEMENT.
Proof. by apply multibyte_3. Qed.

Lemma lossy_utf8 s : Utf8 (from_utf8_lossy s).
Proof.
  induction s as [s IH] using (induction_ltof1 _ (@length Z)). unfold ltof in IH.
  assert (forall t, (length t < length s)%nat -> Utf8 (REPLACEMENT ++ from_utf8_lossy t)) as Hbad.
  { intros t Ht. apply utf8_more; [apply multibyte_replacement|by apply IH]. }
  assert (Utf8 REPLACEMENT) as Hend.
  { rewrite <- (app_nil_r REPLACEMENT). apply utf8_more; [apply multibyte_replacement|constructor]. }
  destruct s as [|a s1]; [constructor|]. cbn [from_utf8_lossy].
  destruct (in_range 0 127 a) eqn:Ha.
  { apply in_range_spec in Ha. apply utf8_one; [done|]. apply IH. simpl; lia. }
  destruct (in_range 194 223 a) eqn:Ha2.
  { destruct s1 as [|b s2]; [done|]. destruct (is_cont b) eqn:Hb; [|apply Hbad; simpl; lia].
    apply (utf8_more [a; b]); [by apply multibyte_2|]. apply IH; simpl; lia. }
  destruct (in_range 224 239 a) eqn:Ha3.
  { destruct s1 as [|b s2]; [done|]. destruct (second3 a b) eqn:Hb; [|apply Hbad; simpl; lia].
    destruct s2 as [|c s3]; [done|]. destruct (is_cont c) eqn:Hc; [|apply Hbad; simpl; lia].
    apply (utf8_more [a; b; c]); [by apply multibyte_3|]. apply IH; simpl; lia. }
  destruct (in_range 240 244 a) eqn:Ha4; [|apply Hbad; simpl; lia].
  destruct s1 as [|b s2]; [done|]. destruct (second4 a b) eqn:Hb; [|apply Hbad; simpl; lia].
  destruct s2 as [|c s3]; [done|]. destruct (is_cont c) eqn:Hc; [|apply Hbad; simpl; lia].
  destruct s3 as [|d s4]; [done|]. destruct (is_cont d) eqn:Hd; [|apply Hbad; simpl; lia].
  apply (utf8_more [a; b; c; d]); [by apply multibyte_4|]. apply IH; simpl; lia.
Qed.

Lemma utf8_app s t : Utf8 s -> Utf8 t -> Utf8 (s ++ t).
Proof.
  intros Hs Ht. induction Hs as [|a s Ha _ IH|c s Hc _ IH]; [done|by apply utf8_one|].
  rewrite <- app_assoc. by apply utf8_more.
Qed.

Lemma utf8_of_ascii s : ascii_text s -> Utf8 s.
Proof. induction 1; [constructor|by apply utf8_one]. Qed.

Lemma utf8_join c ws : 0 <= c <= 127 -> Forall Utf8 ws -> Utf8 (join_with c ws).
Proof.
  intros Hc. induction 1 as [|w ws Hw Hws IH]; [constructor|]. destruct ws as [|w' ws]; [done|].
  change (join_with c (w :: w' :: ws)) with (w ++ c :: join_with c (w' :: ws)).
  apply utf8_app; [done|]. by apply utf8_one.
Qed.

Lemma escape_quotes_app s t : escape_quotes (s ++ t) = escape_quotes s ++ escape_quotes t.
Proof. unfold escape_quotes. by rewrite map_app, concat_app. Qed.

Lemma utf8_escape s : Utf8 s -> Utf8 (escape_quotes s).
Proof.
  induction 1 as [|a s Ha _ IH|c s Hc _ IH]; [constructor| |].
  - change (escape_quotes (a :: s)) with ((if a =? 34 then [92; 34] else [a]) ++ escape_quotes s).
    apply utf8_app; [|done]. apply utf8_of_ascii. destruct (a =? 34); repeat constructor; lia.
  - rewrite escape_quotes_app. assert (escape_quotes c = c) as ->; [|by apply utf8_more].
    destruct Hc as (_ & Hb & _). induction Hb as [|b c Hb _ IHc]; [done|].
    unfold escape_quotes in *. cbn [map concat]. rewrite IHc. by destruct (Z.eqb_spec b 34); [lia|].
Qed.

(** ** Sizes *)

Lemma length_escape s : (length (escape_quotes s) <= 2 * length s)%nat.
Proof.
  induction s as [|b s IH]; [done|]. unfold escape_quotes in *. cbn [map concat length].
  rewrite length_app. destruct (b =? 34); simpl; lia.
Qed.

Lemma length_lossy s : (length (from_utf8_lossy s) <= 3 * length s)%nat.
Proof.
  induction s as [s IH] using (induction_ltof1 _ (@length Z)). unfold ltof in IH.
  destruct s as [|a s1]; [done|]. cbn [from_utf8_lossy].
  repeat case_match; subst; cbn [length app REPLACEMENT] in *; try lia;
    match goal with |- context [from_utf8_lossy ?t] => specialize (IH t); cbn [length] in IH; lia end.
Qed.

Lemma length_join c ws : (length (join_with c ws) <= sum_list (map (fun w => 1 + length w) ws))%nat.
Proof.
  induction ws as [|w [|w' ws] IH]; [done|simpl; lia|].
  change (join_with c (w :: w' :: ws)) with (w ++ c :: join_with c (w' :: ws)).
  rewrite length_app. cbn [length]. revert IH.
  set (rest := sum_list _). change (sum_list _) with (1 + length w + rest)%nat. lia.
Qed.

Lemma length_fmt_dec z : (length (fmt_dec z) <= 40)%nat.
Proof.
  unfold fmt_dec. assert (forall n z acc, (length (dec_go n z acc) <= n + length acc)%nat) as Hgo.
  { induction n as [|n IH]; intros z' acc; [done|]. cbn [dec_go].
    destruct (z' <? 10); [simpl; lia|]. specialize (IH (z' / 10) ((48 + z' mod 10) :: acc)). simpl in IH. lia. }
  pose proof (Hgo 40%nat z []) as Hlen. cbn [length] in Hlen. rewrite Nat.add_0_r in Hlen. exact Hlen.
Qed.

Lemma fmt_dec_ascii z : 0 <= z -> ascii_text (fmt_dec z).
Proof.
  intros Hz. unfold fmt_dec. assert (forall n z acc, ascii_text acc -> ascii_text (dec_go n z acc)) as Hgo.
  { induction n as [|n IH]; intros z' acc Hacc; [done|]. cbn [dec_go].
    assert (ascii_text ((48 + z' mod 10) :: acc)).
    { constructor; [|done]. pose proof (Z.mod_pos_bound z' 10). lia. }
    destruct (z' <? 10); [done|by apply IH]. }
  apply Hgo. constructor.
Qed.

Lemma fmt_label_byte_ascii b : is_u8 b -> ascii_text (fmt_label_byte b) /\ (length (fmt_label_byte b) <= 4)%nat.
Proof. intros Hb%is_u8_le. unfold ascii_text. pattern b. by_range (256%nat). Qed.

Lemma fmt_label_ascii l : bytes_ok l ->
  ascii_text (concat (map fmt_label_byte l)) /\ (length (concat (map fmt_label_byte l)) <= 4 * length l)%nat.
Proof.
  induction 1 as [|b l Hb _ [IH1 IH2]]; [by split; [constructor|]|]. cbn [map concat length].
  destruct (fmt_label_byte_ascii b Hb) as [H1 H2]. split; [by apply Forall_app|]. rewrite length_app. lia.
Qed.

Lemma Name_text_small n : Name_wf n -> ascii_text (Name_to_string n) /\ (length (Name_to_string n) <= 2000)%nat.
Proof.
  intros Hwf. pose proof (Name_wf_bytes n Hwf) as Hb. destruct Hwf as [_ Hl].
  unfold Name_to_string. case_bool_decide; [by split; [by_decide|simpl; lia]|].
  set (ws := map (fun l => concat (map fmt_label_byte l)) (labels n)).
  assert (ascii_text (join_with 46 ws) /\
    (sum_list (map (fun w => 1 + length w)%nat ws) <= 4 * sum_list (map (fun l => length l + 1)%nat (labels n)))%nat)
    as [Ha Hs].
  { unfold ws. clear -Hb. induction Hb as [|l ls Hl Hls [IH1 IH2]]; [by split; [constructor|simpl; lia]|].
    destruct (fmt_label_ascii l Hl) as [H1 H2]. split.
    - destruct ls as [|l' ls]; [done|]. cbn [map].
      change (join_with 46 (?w :: ?w' :: ?ws)) with (w ++ 46 :: join_with 46 (w' :: ws)).
      apply Forall_app. split; [done|]. constructor; [lia|done].
    - cbn [map]. set (a := sum_list (map _ _)) in IH2. set (b := sum_list (map _ _)) in IH2.
      change (sum_list (_ :: _)) with (1 + length (concat (map fmt_label_byte l)) + a)%nat at 1.
      change (sum_list (_ :: _)) with (length l + 1 + b)%nat. lia. }
  split; [done|]. pose proof (length_join 46 ws). unfold wire_len, MAX_NAME_LEN in Hl. lia.
Qed.

Lemma fmt_hex2_ascii b : is_u8 b -> ascii_text (fmt_hex2 b).
Proof. intros Hb%is_u8_le. unfold ascii_text. pattern b. by_range (256%nat). Qed.

(** ** Replies can be read *)

Lemma utf8_str_ok s : Utf8 s -> (Z.of_nat (length s) < 2 ^ 32) -> str_ok s.
Proof. intros Hs Hl. split; [by apply Utf8_valid|done]. Qed.

Lemma Name_str_ok n : Name_wf n -> str_ok (Name_to_string n).
Proof.
  intros Hn. destruct (Name_text_small n Hn) as [Ha Hl].
  apply utf8_str_ok; [by apply utf8_of_ascii|]. lia.
Qed.

(** A short line of short words. *)
Lemma words_str_ok ws : Forall (fun w => ascii_text w /\ (length w <= 2000)%nat) ws -> (length ws <= 10)%nat ->
  str_ok (words ws).
Proof.
  intros Hws Hl. apply utf8_str_ok.
  - apply utf8_join; [lia|]. apply (Forall_impl _ _ _ Hws). intros w [Hw _]. by apply utf8_of_ascii.
  - pose proof (length_join 32 ws) as Hj.
    assert (sum_list (map (fun w => 1 + length w)%nat ws) <= 2001 * length ws)%nat as Hs.
    { clear -Hws. induction Hws as [|w ws [_ Hw] _ IH]; [simpl; lia|]. cbn [map length].
      set (a := sum_list (map _ ws)) in IH. change (sum_list (_ :: _)) with (1 + length w + a)%nat. lia. }
    unfold words. lia.
Qed.

Lemma dec_word z : 0 <= z -> ascii_text (fmt_dec z) /\ (length (fmt_dec z) <= 2000)%nat.
Proof. intros Hz. split; [by apply fmt_dec_ascii|]. pose proof (length_fmt_dec z). lia. Qed.

Lemma length_write_txt strings : Forall txt_ok strings -> forall out,
  length (foldl write_txt out strings) = (length out + sum_list (map (fun s => 1 + length s) strings))%nat.
Proof.
  induction 1 as [|s ss Hs _ IH]; intros out; [simpl; lia|]. cbn [foldl map]. rewrite IH.
  set (a := sum_list (map _ ss)). change (sum_list (_ :: _)) with (1 + length s + a)%nat.
  unfold write_txt. destruct Hs as [Hl _]. rewrite Nat.min_l by lia.
  rewrite !length_app, length_take. simpl. lia.
Qed.

(** Record data that a message can hold. *)
Definition rdata_shaped (r : Record_) : Prop := Z.of_nat (length (rdata_bytes r)) <= 65535.

Lemma txt_text_ok strings : Forall txt_ok strings ->
  Z.of_nat (length (write_rdata [] (RTxt strings))) <= 65535 ->
  str_ok (words (map (fun s => [34] ++ escape_quotes (from_utf8_lossy s) ++ [34]) strings)).
Proof.
  intros Hs Hl. cbn [write_rdata] in Hl. rewrite length_write_txt in Hl by done. cbn [length] in Hl.
  apply utf8_str_ok.
  - apply utf8_join; [lia|]. apply Forall_map, Forall_forall. intros s _.
    apply utf8_app; [by apply utf8_of_ascii; by_decide|].
    apply utf8_app; [apply utf8_escape, lossy_utf8|by apply utf8_of_ascii; by_decide].
  - set (ws := map _ strings). pose proof (length_join 32 ws) as Hj.
    assert (sum_list (map (fun w => 1 + length w)%nat ws) <= 9 * sum_list (map (fun s => 1 + length s)%nat strings))%nat.
    { unfold ws. clear. induction strings as [|s ss IH]; [simpl; lia|]. cbn [map].
      set (a := sum_list (map _ (map _ ss))) in IH. set (b := sum_list (map _ ss)) in IH.
      set (w := [34] ++ _). change (sum_list (_ :: _)) with (1 + length w + a)%nat at 1.
      change (sum_list (_ :: _)) with (1 + length s + b)%nat.
      assert (length w <= 2 + 2 * (3 * length s))%nat; [|lia]. unfold w. rewrite !length_app. cbn [length].
      pose proof (length_escape (from_utf8_lossy s)). pose proof (length_lossy s). lia. }
    unfold words. lia.
Qed.

Lemma hex_text_ok b : bytes_ok b -> Z.of_nat (length b) <= 65535 ->
  str_ok (words [bytes_of "\#"; fmt_dec (Z.of_nat (length b)); concat (map fmt_hex2 b)]).
Proof.
  intros Hb Hl.
  assert (ascii_text (concat (map fmt_hex2 b)) /\ length (concat (map fmt_hex2 b)) = (2 * length b)%nat) as [Ha Hn].
  { clear Hl. induction Hb as [|x b Hx _ [IH1 IH2]]; [by split; [constructor|]|]. cbn [map concat].
    split; [apply Forall_app; split; [by apply fmt_hex2_ascii|done]|]. rewrite length_app, IH2. simpl. lia. }
  apply utf8_str_ok.
  - apply utf8_join; [lia|]. repeat (apply Forall_cons; split); [..|by apply Forall_nil];
      apply utf8_of_ascii; [by_decide|apply fmt_dec_ascii; lia|done].
  - pose proof (length_join 32 [bytes_of "\#"; fmt_dec (Z.of_nat (length b)); concat (map fmt_hex2 b)]) as Hj.
    pose proof (length_fmt_dec (Z.of_nat (length b))) as Hd. revert Hj.
    change (sum_list _) with (3 + (1 + length (fmt_dec (Z.of_nat (length b))) +
      (1 + length (concat (map fmt_hex2 b)) + 0)))%nat.
    unfold words. rewrite Hn. lia.
Qed.

Ltac words_ok :=
  apply words_str_ok; [|simpl; lia];
  repeat match goal with
  | |- Forall _ (_ :: _) => apply Forall_cons; split
  | |- Forall _ [] => constructor
  | |- ascii_text (Name_to_string _) /\ _ => by apply Name_text_small
  | |- ascii_text (fmt_dec _) /\ _ => apply dec_word; unfold in_width in *; lia
  end.

Lemma rdata_text_ok r : Record_wf r -> rdata_shaped r -> str_ok (rdata_text r).
Proof.
  intros (_ & _ & _ & _ & Hrd) Hfit. unfold rdata_shaped, rdata_bytes in Hfit. unfold rdata_text.
  destruct (r_rdata r); cbn [rdata_wf] in Hrd.
  - apply ip_to_string_ok, Hrd.
  - apply ip_to_string_ok, Hrd.
  - apply Name_str_ok, Hrd.
  - apply Name_str_ok, Hrd.
  - apply Name_str_ok, Hrd.
  - destruct Hrd as (_ & Hm & Hr & Hn). rewrite !Forall_cons in Hn. destruct Hn as (? & ? & ? & ? & ? & _).
    cbn [app map]. words_ok.
  - destruct Hrd as (_ & Hp & Hn). words_ok.
  - destruct Hrd as (_ & Hp & Hn). rewrite !Forall_cons in Hp. destruct Hp as (? & ? & ? & _). words_ok.
  - apply txt_text_ok; [apply Hrd|done].
  - apply hex_text_ok; [apply Hrd|done].
  - apply hex_text_ok; [apply Hrd|done].
Qed.

Lemma to_record_wf r : Record_wf r -> rdata_shaped r -> RecordOut_wf (to_record r).
Proof.
  intros Hr Hf. split_and!; [by apply Name_str_ok, Hr|apply Hr|apply Hr| |by apply rdata_text_ok].
  unfold rdata_shaped in Hf. simpl. lia.
Qed.

(** ** Answers *)

Definition record_good (r : Record_) : Prop := Record_wf r /\ rdata_shaped r.

(** An answer any door can render: also what its wire forms need. *)
Record Answer_good (a : Answer) : Prop := mk_Answer_good {
  ag_records : Forall record_good (a_records a);
  ag_count : Z.of_nat (length (a_records a)) < 2 ^ 32;
  ag_server : forall s, a_server a = Some s -> IpAddr_wf s;
  ag_interface : forall i, a_interface a = Some i -> str_ok i;
  ag_rcode : is_u16 (a_rcode a);
  ag_name : forall n, a_resolved_name a = Some n -> Name_wf n;
  ag_ttl : is_u32 (a_negative_ttl a);
}.

Record Addresses_good (a : Addresses) : Prop := mk_Addresses_good {
  dg_canonical : Name_wf (ad_canonical a);
  dg_addresses : Forall (fun x => IpAddr_wf x.1 /\ is_u32 x.2) (ad_addresses a);
  dg_count : Z.of_nat (length (ad_addresses a)) < 2 ^ 32;
}.

Lemma Source_str_ok s : str_ok (Source_as_str s).
Proof. destruct s; by_decide. Qed.

Lemma to_answer_wf a : Answer_good a -> Reply_wf (RAnswer (to_answer a)).
Proof.
  intros [Hr Hc Hs Hi Hrc _ _]. simpl. split_and!; simpl.
  - apply Forall_map. apply (Forall_impl _ _ _ Hr). intros r [? ?]. by apply to_record_wf.
  - by rewrite length_map.
  - apply Source_str_ok.
  - intros s. destruct (a_server a) as [ip|]; [|done]. intros [= <-]. apply ip_to_string_ok. by apply Hs.
  - done.
  - done.
Qed.

Lemma to_addresses_wf a : Addresses_good a -> Reply_wf (RAddresses (to_addresses a)).
Proof.
  intros [Hn Ha Hc]. simpl. split_and!; simpl.
  - by apply Name_str_ok.
  - by apply Forall_map.
  - by rewrite length_map.
  - apply Source_str_ok.
Qed.

(** Type and data determine the record data. *)
Lemma rdata_bytes_inj r r' : Record_wf r -> Record_wf r' -> r_rtype r = r_rtype r' ->
  rdata_bytes r = rdata_bytes r' -> r_rdata r = r_rdata r'.
Proof.
  intros (_ & _ & _ & _ & H1) (_ & _ & _ & _ & H2) Ht Hb. unfold rdata_bytes in Hb.
  rewrite (write_rdata_wire _ _ _ H1), (write_rdata_wire _ _ _ H2) in Hb. simpl in Hb.
  pose proof (read_rdata_wire [] [] _ _ H1) as R1. pose proof (read_rdata_wire [] [] _ _ H2) as R2.
  rewrite Hb, Ht, R2 in R1. by injection R1.
Qed.

(** Records that look the same in a reply are the same record, their class
    aside. *)
Lemma to_record_inj r r' : Record_wf r -> Record_wf r' -> to_record r = to_record r' ->
  r_name r = r_name r' /\ r_rtype r = r_rtype r' /\ r_ttl r = r_ttl r' /\ r_rdata r = r_rdata r'.
Proof.
  intros Hr Hr'. unfold to_record. intros [= Hn Ht Hl Hb _]. split_and!; try done.
  - by apply Name_to_string_inj; [apply Hr|apply Hr'|].
  - by apply rdata_bytes_inj.
Qed.
