(* ===== verification/EngineAnswers.v ===== *)
(** * Every answer of the engine is presentable

    An invariant of the engine's data that the structural one leaves open:
    what the cache, the open lookups and the transactions hold is typed, an
    absence carries no records, and every record is IN-class.  It makes every
    completion an answer both doors can render.  The invariant also keeps
    time: no transaction outlives its deadline by more than one timeout. *)

From S2P Require Import Prelude Net Names Message MessageProofs Cache EngineState Records Routing Engine EngineInv EngineStep EngineRun EngineMachine EngineFacts Msgpack MsgpackProofs NativeWire NativeWireProofs Present.
Local Open Scope Z_scope.

(** ** Decoded records *)

#[local] Strategy 1000 [name_at Name_read u16_at u32_at slice_get from_be].

Lemma length_name_wire_le n : Name_wf n -> (length (name_wire n) <= 255)%nat.
Proof. intros [_ Hw]. rewrite length_name_wire. exact Hw. Qed.

Lemma read_txt_length fuel : forall data p acc ss,
  (p <= length data)%nat -> read_txt fuel data p acc = Some (Ok ss) ->
  (length (concat (map txt_wire ss)) <= length (concat (map txt_wire acc)) + (length data - p))%nat.
Proof.
  induction fuel as [|fuel IH]; intros data p acc ss Hp H; cbn [read_txt] in H;
    destruct (Nat.ltb_spec p (length data)); simplify_eq; try lia.
  destruct (slice_get data (p + 1) (p + 1 + Z.to_nat (octet data p))) as [s|] eqn:E; [|done].
  pose proof (slice_get_length _ _ _ _ E) as Hs. apply slice_get_Some in E as [? _]. apply IH in H; [|lia].
  rewrite map_app, concat_app, length_app in H. simpl in H. rewrite app_nil_r in H. lia.
Qed.

Lemma read_rdata_length msg rt start len rd :
  bytes_ok msg -> read_rdata msg rt start len = Ok rd ->
  (length (rdata_wire rd) <= Nat.max len 600)%nat.
Proof.
  intros Hm H. pose proof (read_rdata_wf _ _ _ _ _ Hm H) as Hwf.
  assert (exists data, slice_get msg start (start + len) = Some data /\ length data = len) as (data & Hs & Hl).
  { unfold read_rdata in H. inv_ok H. exists a. split; [done|]. rewrite (slice_get_length _ _ _ _ E). lia. }
  destruct rd; simpl in Hwf |- *; destruct_and?; unfold octets_v4, octets_v6;
    rewrite ?length_app, ?length_be_bytes;
    repeat match goal with Hn : Name_wf ?n |- _ => apply length_name_wire_le in Hn end; simpl length; try lia;
    [subst rt; unfold read_rdata in H; rewrite Hs in H; simpl in H..|].
  - destruct (read_txt (length data) data 0 []) as [[ss|]|] eqn:Er; simpl in H; try done. injection H as <-.
    apply read_txt_length in Er; [|lia]. simpl in Er. lia.
  - simplify_eq. lia.
  - rewrite (read_unknown _ _ _ _ data) in H by done. simplify_eq. lia.
Qed.

Lemma record_good_intro name rt class ttl rd n :
  Name_wf name -> is_u16 rt -> is_u16 class -> is_u32 ttl -> rdata_wf rt rd -> is_u16 (Z.of_nat n) ->
  (length (rdata_wire rd) <= Nat.max n 600)%nat -> record_good (mkRecord name rt class ttl rd).
Proof.
  intros ? ? ? ? Hw Hn Hl. split; [by split_and!|]. unfold rdata_shaped, rdata_bytes. cbn [r_rdata].
  rewrite (write_rdata_wire _ _ _ Hw), app_nil_l. unfold is_u16, in_width in Hn. lia.
Qed.

Lemma read_section_good count : forall msg p acc rs next,
  bytes_ok msg -> Forall record_good acc -> read_section count msg p acc = Ok (rs, next) ->
  Forall record_good rs /\ length rs = (length acc + count)%nat.
Proof.
  induction count as [|count IH]; intros msg p acc rs next Hm Hacc H; cbn [read_section] in H.
  { simplify_eq. split; [done|lia]. }
  inv_ok H. destruct a as [name nx]. inv_ok H.
  apply Name_read_inv in E as [Hn _]; [|done].
  pose proof (slice_get_forall _ _ _ _ _ Hm E0) as Hb. pose proof (u16_of_u16 a 8 Hb) as Hl.
  apply IH in H as [Hg Hc]; [|done|].
  - split; [done|]. rewrite length_app in Hc. simpl in Hc. lia.
  - apply Forall_app. split; [done|]. apply Forall_singleton.
    apply (record_good_intro _ _ _ _ _ (Z.to_nat (u16_of a 8))); try by apply u16_of_u16.
    + done.
    + by apply u32_of_u32.
    + exact (read_rdata_wf _ _ _ _ _ Hm E1).
    + rewrite Z2Nat.id; [exact Hl|]. unfold is_u16, in_width in Hl. lia.
    + exact (read_rdata_length _ _ _ _ _ Hm E1).
Qed.

Lemma decode_good bytes m :
  bytes_ok bytes -> Message_decode bytes = Ok m ->
  Forall record_good (answers m) /\ Z.of_nat (length (answers m)) <= 65535.
Proof.
  intros Hm H. unfold Message_decode in H. case_step_in H. inv_ok H. destruct a as [qs p1].
  inv_ok H. destruct a as [an p2]. inv_ok H. destruct a as [au p3]. inv_ok H. destruct a as [ad p4].
  simplify_eq/=. apply read_section_good in E1 as [Hg Hl]; [|done|constructor].
  split; [done|]. simpl in Hl. pose proof (u16_of_u16 bytes 6 Hm) as Hc. unfold is_u16, in_width in Hc.
  lia.
Qed.

(** ** Sound answers *)

(** More records than any message or configuration of the daemon yields. *)
Definition answer_limit : Z := 2 ^ 20.

Definition in_class (r : Record_) : Prop := r_class r = class_IN.

Record Answer_sound (a : Answer) : Prop := mk_Answer_sound {
  as_good : Answer_good a;
  as_count : Z.of_nat (length (a_records a)) <= answer_limit;
  as_class : Forall in_class (a_records a);
  as_empty : a_outcome a <> Found -> a_records a = [];
}.

Record Addresses_sound (a : Addresses) : Prop := mk_Addresses_sound {
  ds_good : Addresses_good a;
  ds_empty : ad_outcome a <> Found -> ad_addresses a = [];
}.

Definition completion_sound (c : Completion) : Prop :=
  match c with CAnswer a => Answer_sound a | CAddresses a => Addresses_sound a end.

Definition action_sound (a : Action) : Prop :=
  match a with
  | Send _ server interface _ _ => IpAddr_wf server /\ forall i, interface = Some i -> str_ok i
  | Cancel _ => True
  | Done _ c => completion_sound c
  end.

Lemma bare_sound o i : (forall x, i = Some x -> str_ok x) -> Answer_sound (bare_answer o i).
Proof.
  intros Hi. by split.
Qed.

Lemma found_sound name records src :
  Name_wf name -> Forall (fun r => record_good r /\ in_class r) records ->
  Z.of_nat (length records) <= answer_limit -> Answer_sound (found_answer name records src).
Proof.
  intros Hn Hr Hl. apply Forall_and in Hr as [Hg Hc]. split; simpl; try done.
  split; simpl; try done; [unfold answer_limit in Hl; lia|by intros ? [= <-]].
Qed.

(** ** Typed configuration *)

Definition scope_typed (s : Scope) : Prop :=
  Forall IpAddr_wf (s_servers s) /\ str_ok (s_interface s) /\ Forall (fun a => IpAddr_wf a.1) (s_addresses s).

#[export] Instance IpAddr_wf_dec a : Decision (IpAddr_wf a).
Proof. destruct a; simpl; apply _. Defined.

#[export] Instance scope_typed_dec s : Decision (scope_typed s).
Proof. unfold scope_typed. apply _. Defined.

Definition host_typed (v : Name * list IpAddr) : Prop :=
  Forall IpAddr_wf v.2 /\ Z.of_nat (length v.2) <= answer_limit.

Record Config_typed (e : Engine) : Prop := mk_Config_typed {
  ct_scopes : Forall scope_typed (scopes e);
  ct_own : Z.of_nat (length (flat_map s_addresses (scopes e))) <= answer_limit;
  ct_fallback : Forall IpAddr_wf (fallback_servers e);
  ct_hosts : map_Forall (fun _ => host_typed) (hosts e);
  ct_hostname : forall h, hostname e = Some h -> Name_wf h;
}.

Lemma Config_typed_same e e' : same_config e e' -> Config_typed e -> Config_typed e'.
Proof.
  intros [Hs Hf _ Hn Hh _] []. split; rewrite ?Hs, ?Hf, ?Hn, ?Hh; done.
Qed.


Lemma record_new_good name rd :
  Name_wf name -> rdata_wf (rdata_rtype rd) rd -> is_u16 (rdata_rtype rd) ->
  (length (rdata_wire rd) <= 600)%nat -> record_good (Record_new name 0 rd).
Proof.
  intros Hn Hr Ht Hl. by apply (record_good_intro _ _ _ _ _ 0).
Qed.

Lemma address_record_sound name rt a r :
  Name_wf name -> IpAddr_wf a -> address_record name rt a = Some r -> record_good r /\ in_class r.
Proof.
  intros Hn Ha H. unfold address_record in H.
  destruct a as [a|a]; case_step_in H; simplify_eq; (split; [|done]); apply record_new_good; try done;
    try by_decide; simpl rdata_wire; unfold octets_v4, octets_v6; rewrite length_be_bytes; lia.
Qed.

Lemma ptr_record_sound name target :
  Name_wf name -> Name_wf target -> record_good (Record_new name 0 (RPtr target)).
Proof.
  intros Hn Ht. apply record_new_good; try done; try by_decide.
  apply length_name_wire_le in Ht. simpl. lia.
Qed.

Lemma omap_length_le {A B} (f : A -> option B) l : (length (omap f l) <= length l)%nat.
Proof.
  induction l as [|x l IH]; [done|]. change (omap f (x :: l)) with
    (match f x with Some y => y :: omap f l | None => omap f l end). destruct (f x); simpl; lia.
Qed.

Lemma filter_length_le {A} (p : A -> bool) l : (length (List.filter p l) <= length l)%nat.
Proof. induction l as [|x l IH]; simpl; [lia|]. destruct (p x); simpl; lia. Qed.

Lemma dedup_length_le {A} `{EqDecision A} (l : list A) : (length (dedup l) <= length l)%nat.
Proof.
  induction l as [|x l IH]; simpl; [lia|]. destruct (dedup l) as [|y r]; simpl in *; [lia|].
  case_decide; simpl; lia.
Qed.

Lemma addresses_answer_sound name rt addrs src :
  Name_wf name -> Forall IpAddr_wf addrs -> Z.of_nat (length addrs) <= answer_limit ->
  Answer_sound (addresses_answer name rt addrs src).
Proof.
  intros Hn Ha Hl. apply found_sound; [done| |].
  - apply Forall_forall. intros r (a & Hin & Hr)%list_elem_of_omap.
    rewrite Forall_forall in Ha. by eapply address_record_sound; [|apply Ha|].
  - pose proof (omap_length_le (address_record name rt) addrs). lia.
Qed.

Lemma ptr_answer_sound name target src :
  Name_wf name -> Name_wf target -> Answer_sound (ptr_answer name target src).
Proof.
  intros Hn Ht. apply found_sound; [done| |unfold answer_limit; simpl; lia].
  apply Forall_singleton. split; [by apply ptr_record_sound|done].
Qed.

Lemma flat_map_filter_length {A B} (p : A -> bool) (f : A -> list B) l :
  (length (flat_map f (List.filter p l)) <= length (flat_map f l))%nat.
Proof. induction l as [|x l IH]; simpl; [lia|]. destruct (p x); simpl; rewrite ?length_app; lia. Qed.

Lemma own_addresses_typed e :
  Config_typed e -> Forall IpAddr_wf (own_addresses e) /\ Z.of_nat (length (own_addresses e)) <= answer_limit.
Proof.
  intros [Hs Ho _ _ _]. unfold own_addresses. rewrite Forall_forall in Hs. split.
  - apply Forall_forall. intros a. rewrite dedup_elem, elem_of_filter_b, list_elem_of_In, in_flat_map.
    intros [(s & Hin & Ha) _]. apply list_elem_of_In, elem_of_filter_b in Hin as [Hin _].
    apply in_map_iff in Ha as (x & <- & Hx%list_elem_of_In).
    destruct (Hs s Hin) as (_ & _ & Hw). rewrite Forall_forall in Hw. by apply Hw.
  - set (l := List.filter (fun s => Level_ge (s_level s) Addressed) (scopes e)).
    assert (forall ss, flat_map (fun s => map fst (s_addresses s)) ss = map fst (flat_map s_addresses ss)) as Hm.
    { induction ss as [|s ss IH]; simpl; [done|]. by rewrite map_app, IH. }
    rewrite Hm. etrans; [apply inj_le, dedup_length_le|]. etrans; [apply inj_le, filter_length_le|].
    rewrite length_map. etrans; [apply inj_le, flat_map_filter_length|done].
Qed.

Lemma min_by_elem {A} (lt : A -> A -> bool) l m : min_by lt l = Some m -> m ∈ l.
Proof.
  revert m. induction l as [|x l IH] using rev_ind; intros m; [done|]. rewrite min_by_snoc.
  intros [= <-]. apply elem_of_app. destruct (min_by lt l) as [m|]; [|right; by left].
  destruct (lt x m); [right; by left|left; by apply IH].
Qed.

Lemma synthetic_sound `{MapOrder} e name rt a :
  Config_typed e -> Config_inv e -> Name_wf name -> synthetic e name rt = Some a -> Answer_sound a.
Proof.
  intros Ht Hc Hn. pose proof (own_addresses_typed e Ht) as [Ho Hl]. destruct Ht as [_ _ _ Hh Hhn].
  assert (Forall IpAddr_wf LOOPBACKS) as Hlo by (forall_list; simpl; unfold is_u32, is_u128, in_width; lia).
  assert (Z.of_nat (length LOOPBACKS) <= answer_limit) as Hll by by_decide.
  assert (Name_wf localhost) as Hlh by by_decide.
  unfold synthetic. destruct (_ || _); [intros [= <-]; by apply addresses_answer_sound|].
  destruct (hosts e !! to_lowercase name) as [[host addrs]|] eqn:Eh.
  { intros [= <-]. destruct (Hh _ _ Eh). by apply addresses_answer_sound. }
  destruct (is_hostname e name).
  { intros [= <-]. case_bool_decide; by apply addresses_answer_sound. }
  destruct (ends_with name local_).
  { intros [= <-]. by split. }
  destruct (reverse_address name) as [addr|]; [|done]. case_match; [done|]. unfold synthetic_reverse.
  destruct (is_loopback addr); [intros [= <-]; by apply ptr_answer_sound|].
  destruct (reverse_host e addr) as [host|] eqn:Er.
  - intros [= <-]. apply ptr_answer_sound; [done|]. unfold reverse_host in Er.
    apply fmap_Some in Er as ([k v] & Hm & ->). apply min_by_elem in Hm.
    apply elem_of_filter_b in Hm as [Hm%map_iter_elem _]. apply (cf_hosts _ Hc _ _ Hm).
  - destruct (hostname e) as [h|]; [|done]. case_bool_decide; [|done].
    intros [= <-]. apply ptr_answer_sound; [done|by apply Hhn].
Qed.

(** ** Lookups *)

(** What a lookup has gathered so far: one answer per family at most. *)
Record lookup_sound (l : Lookup_) : Prop := mk_lookup_sound {
  ls_name : Name_wf (l_name l);
  ls_results : Forall (fun res => Answer_sound res.2) (l_results l);
  ls_count : (length (l_results l) + length (l_pending l) <= 2)%nat;
}.

Lemma find_In {A} (f : A -> bool) l x : List.find f l = Some x -> x ∈ l.
Proof. intros [Hin _]%find_some. by apply list_elem_of_In. Qed.

Lemma chase_loop_wf n records rt : forall name,
  Forall record_good records -> Name_wf name -> Name_wf (chase_loop n records rt name).
Proof.
  induction n as [|n IH]; intros name Hr Hn; cbn [chase_loop]; [done|].
  destruct (List.find _ records) as [r|] eqn:Ef; [|done]. simpl.
  apply find_In in Ef. destruct (cname_target r) as [t|] eqn:Et; [|done]. case_match; [|done].
  apply IH; [done|]. rewrite Forall_forall in Hr. destruct (Hr r Ef) as [(_ & _ & _ & _ & Hw) _].
  unfold cname_target in Et. destruct (r_rdata r); simplify_eq. by destruct Hw.
Qed.

Lemma address_of_wf rt r x : record_good r -> address_of rt r = Some x -> IpAddr_wf x.1 /\ is_u32 x.2.
Proof.
  intros [(_ & _ & _ & Ht & Hw) _] H. unfold address_of in H.
  destruct (r_rdata r); case_all_in H; simplify_eq; by destruct Hw.
Qed.

Lemma chase_sound records start rt :
  Forall record_good records -> Name_wf start ->
  Name_wf (chase records start rt).1 /\
  Forall (fun x => IpAddr_wf x.1 /\ is_u32 x.2) (chase records start rt).2 /\
  (length (chase records start rt).2 <= length records)%nat.
Proof.
  intros Hr Hs. unfold chase. pose proof (chase_loop_wf 16 records rt start Hr Hs) as Hw.
  set (name := chase_loop 16 records rt start) in *. cbn [fst snd]. split_and!; [done|..].
  - apply Forall_forall. intros x (r & [Hin _]%elem_of_filter_b & Hx)%list_elem_of_omap.
    rewrite Forall_forall in Hr. by apply (address_of_wf rt r); [apply Hr|].
  - etrans; [apply omap_length_le|apply filter_length_le].
Qed.

(** What the found answers contribute, each typed and bounded. *)
Lemma contributions_sound name rs :
  Name_wf name -> Forall (fun res => Answer_sound res.2) rs ->
  Forall (fun res => Name_wf (contribution name res).1) rs /\
  Forall (fun x => IpAddr_wf x.1 /\ is_u32 x.2) (mjoin (map (fun res => (contribution name res).2) rs)) /\
  Z.of_nat (length (mjoin (map (fun res => (contribution name res).2) rs)))
    <= Z.of_nat (length rs) * answer_limit.
Proof.
  intros Hn. induction 1 as [|res rs Ha _ (IH1 & IH2 & IH3)]; [by split_and!|].
  destruct (chase_sound (a_records res.2) (default name (a_resolved_name res.2)) res.1)
    as (Hc & Hx & Hl).
  { apply Ha. }
  { destruct (a_resolved_name res.2) as [n|] eqn:En; [|done]. by apply (ag_name _ (as_good _ Ha)). }
  pose proof (as_count _ Ha). split_and!; [by constructor|by apply Forall_app|].
  rewrite map_cons. change (mjoin (?a :: ?l)) with (a ++ mjoin l). rewrite length_app.
  change (length (chase _ _ _).2) with (length (contribution name res).2) in Hl. cbn [length].
  unfold answer_limit in *. lia.
Qed.

Lemma combine_sound l : lookup_sound l -> l_pending l = [] -> Addresses_sound (combine l).
Proof.
  intros [Hn Hr Hc] Hp. rewrite Hp in Hc. rewrite combine_refines. unfold combine_spec.
  set (found := List.filter is_found (l_results l)).
  assert (Forall (fun res => Answer_sound res.2) found) as Hf.
  { apply Forall_forall. intros res [Hin _]%elem_of_filter_b. rewrite Forall_forall in Hr. by apply Hr. }
  assert (length found <= 2)%nat as Hl.
  { pose proof (filter_length_le is_found (l_results l)). fold found in H. simpl in Hc. lia. }
  destruct (contributions_sound (l_name l) found Hn Hf) as (Hn' & Hx & Hlen).
  split; [split|]; cbn [ad_canonical ad_addresses ad_outcome].
  - destruct (min_by _ found) as [best|] eqn:Eb; [|done].
    apply min_by_elem in Eb.
    rewrite Forall_forall in Hn'. by apply Hn'.
  - done.
  - unfold answer_limit in Hlen. nia.
  - by destruct found.
Qed.

(** ** The invariant

    [T] bounds the instants the engine has seen. *)

Record entry_sound (en : Entry) : Prop := mk_entry_sound {
  es_records : Forall (fun r => record_good r /\ in_class r) (e_records en);
  es_count : Z.of_nat (length (e_records en)) <= answer_limit;
  es_server : IpAddr_wf (e_server en);
  es_rcode : is_u16 (e_rcode en);
  es_empty : e_outcome en <> Found -> e_records en = [];
}.

Record Truth (T : Z) (e : Engine) : Prop := mk_Truth {
  tr_cache : map_Forall (fun _ => entry_sound) (cache e);
  tr_lookups : map_Forall (fun _ => lookup_sound) (lookups e);
  tr_txs : map_Forall (fun _ x => IpAddr_wf (x_server x) /\ x_deadline x <= T + SERVER_TIMEOUT) (txs e);
  tr_tasks : map_Forall (fun _ t => t_tx t <> None -> (1 <= t_attempt t)%nat) (tasks e);
  tr_config : Config_typed e;
}.

Definition truthful (T : Z) (r : Engine * list Action) : Prop :=
  Truth T r.1 /\ Forall action_sound r.2.

Lemma truthful_nothing T e : Truth T e -> truthful T (e, []).
Proof. intros. by split. Qed.

Lemma Truth_later T T' e : T <= T' -> Truth T e -> Truth T' e.
Proof.
  intros Ht [? ? Hx ? ?]. split; try done. intros tx x Hxx. destruct (Hx tx x Hxx). split; [done|lia].
Qed.

(** Changes to fields the invariant does not mention. *)
Lemma Truth_frame T e e' :
  cache e' ⊆ cache e -> lookups e' = lookups e -> txs e' ⊆ txs e -> tasks e' = tasks e ->
  same_config e e' -> Truth T e -> Truth T e'.
Proof.
  intros Hc Hl Hx Ht Hs [Tc Tl Tx Tt Tg]. split.
  - intros k en Hk. by apply (Tc k), (lookup_weaken _ _ _ _ Hk Hc).
  - by rewrite Hl.
  - intros k x Hk. by apply (Tx k), (lookup_weaken _ _ _ _ Hk Hx).
  - by rewrite Ht.
  - by apply (Config_typed_same e).
Qed.

Lemma Truth_update T e id f :
  (forall t, tasks e !! id = Some t -> t_tx (f t) <> None -> (1 <= t_attempt (f t))%nat) ->
  Truth T e -> Truth T (update_task id f e).
Proof.
  intros Hf [Tc Tl Tx Tt Tg]. split; try done; [|by apply (Config_typed_same e)]. intros j t. unfold update_task. simpl.
  rewrite lookup_alter. case_decide as Hj; [|by apply Tt].
  subst j. intros (t0 & Ht0 & ->)%fmap_Some. by apply Hf.
Qed.

Lemma Truth_put_cache T e c :
  map_Forall (fun _ => entry_sound) c -> Truth T e -> Truth T (put_cache c e).
Proof. intros Hc [Tc Tl Tx Tt Tg]. split; try done. by apply (Config_typed_same e). Qed.

Lemma Truth_put_lookups T e ls :
  map_Forall (fun _ => lookup_sound) ls -> Truth T e -> Truth T (put_lookups ls e).
Proof. intros Hl [Tc Tl Tx Tt Tg]. split; try done. by apply (Config_typed_same e). Qed.

Lemma Truth_count T e f : Truth T e -> Truth T (count f e).
Proof. by apply Truth_frame. Qed.

(** A lookup still waits for the task it owns. *)
Definition awaits (e : Engine) (id : TaskId) : Prop :=
  forall t q l, tasks e !! id = Some t -> t_owner t = OLookup q -> lookups e !! q = Some l -> id ∈ l_pending l.

Lemma Inv_awaits idle e id : Inv idle e -> awaits e id.
Proof.
  intros HI t q l Ht Ho Hl. destruct (co_lookup _ _ _ _ _ (inv_core _ _ HI) _ _ _ Ht Ho) as (l' & ? & ?).
  congruence.
Qed.

Lemma awaits_update e id f : (forall t, t_owner (f t) = t_owner t) -> awaits e id -> awaits (update_task id f e) id.
Proof.
  intros Hf Ha t q l. unfold update_task. simpl. rewrite lookup_alter_eq.
  intros (t0 & Ht0 & ->)%fmap_Some. rewrite Hf. by apply Ha.
Qed.

(** ** Steps on a task *)

Lemma filter_lt {A} (p : A -> bool) l x : x ∈ l -> p x = false -> (length (List.filter p l) < length l)%nat.
Proof.
  intros Hin Hp. induction Hin as [x l|x y l _ IH]; simpl.
  - rewrite Hp. pose proof (filter_length_le p l). lia.
  - specialize (IH Hp). destruct (p y); simpl; lia.
Qed.

Lemma settle_truth T e id a :
  Truth T e -> awaits e id -> Answer_sound a -> truthful T (settle e id a).
Proof.
  intros HT Haw Ha. unfold settle. destruct (tasks e !! id) as [t|] eqn:Ht; [|by apply truthful_nothing].
  set (e1 := match t_tx t with Some tx => _ | None => _ end).
  assert (Truth T e1 /\ lookups e1 = lookups e) as [H1 Hl1].
  { destruct HT as [Tc Tl Tx Tt Tg]. unfold e1. destruct (t_tx t); (split; [|done]); split; simpl; try done;
      first [by apply map_Forall_delete|by apply (Config_typed_same e)]. }
  destruct (t_owner t) as [q|q] eqn:Eo; [split; [done|by apply Forall_singleton]|].
  rewrite Hl1. destruct (lookups e !! q) as [l|] eqn:El; [|by apply truthful_nothing].
  destruct (tr_lookups _ _ HT _ _ El) as [Hn Hr Hc]. specialize (Haw t q l Ht Eo El).
  set (l' := mkLookup _ _ _).
  assert (lookup_sound l') as Hl'.
  { split; simpl; [done|apply Forall_app; split; [done|by apply Forall_singleton]|].
    rewrite length_app. simpl.
    pose proof (filter_lt (fun t => negb (t =? id)) _ _ Haw) as Hlt.
    specialize (Hlt ltac:(simpl; by rewrite Z.eqb_refl)). lia. }
  cbn [lookups put_lookups]. case_bool_decide as Hp; simpl negb; cbv iota; rewrite <- Hl1.
  - split; [apply Truth_put_lookups; [|done]; apply map_Forall_delete, H1|].
    apply Forall_singleton. by apply combine_sound.
  - split; [apply Truth_put_lookups; [|done]; apply map_Forall_insert_2; [done|apply H1]|constructor].
Qed.

Section steps.
Context (T now : Z) (Hnow : now <= T).

Lemma interface_typed e scope i : Config_typed e -> interface_of e scope = Some i -> str_ok i.
Proof using Type.
  intros [Hs _ _ _ _]. unfold interface_of. intros (s & Hf & ->)%fmap_Some. apply find_In in Hf.
  rewrite Forall_forall in Hs. apply (Hs s Hf).
Qed.

Lemma scope_servers_typed e scope : Config_typed e -> Forall IpAddr_wf (scope_servers e scope).
Proof using Type.
  intros [Hs _ Hf _ _]. unfold scope_servers. case_bool_decide; [done|].
  destruct (List.find _ (scopes e)) as [s|] eqn:Ef; simpl; [|constructor]. apply find_In in Ef.
  rewrite Forall_forall in Hs. apply (Hs s Ef).
Qed.

Lemma settle_bare_truth e id o scope :
  Truth T e -> awaits e id -> truthful T (settle e id (bare_answer o (interface_of e scope))).
Proof using Type.
  intros HT Ha. apply settle_truth; [done..|]. apply bare_sound. intros i. apply interface_typed, HT.
Qed.

Lemma settle_none_truth e id o :
  Truth T e -> awaits e id -> truthful T (settle e id (bare_answer o None)).
Proof using Type. intros HT Ha. apply settle_truth; [done..|]. by apply bare_sound. Qed.

Lemma send_truth e id server tcp :
  Truth T e -> awaits e id -> IpAddr_wf server -> truthful T (send e id server tcp now).
Proof using Hnow.
  intros HT Ha Hs. unfold send. destruct (tasks e !! id) as [t|] eqn:Ht; [|by apply truthful_nothing].
  destruct (_ <=? _)%nat; [by apply settle_bare_truth|].
  destruct (_ <=? _)%nat; [apply settle_none_truth; [by apply (Truth_frame _ e)|done]|].
  destruct (entropy e (drawn e)) as [r|]; [|apply settle_none_truth; [by apply (Truth_frame _ e)|done]].
  cbn [Engine.fresh_id]. split; [|apply Forall_singleton; split; [done|]].
  - cbn [fst]. apply Truth_count, Truth_update; [intros ? ? _; simpl; lia|].
    destruct HT as [Tc Tl Tx Tt Tg]. split; try done; [|by apply (Config_typed_same e)].
    apply map_Forall_insert_2; [|done]. split; [done|]. simpl. lia.
  - intros i. destruct (t_scope t) as [sc|]; [|done]. simpl. apply (interface_typed e), HT.
Qed.

Lemma next_attempt_truth e id :
  Truth T e -> awaits e id -> truthful T (next_attempt e id now).
Proof using Hnow.
  intros HT Ha. unfold next_attempt. destruct (tasks e !! id) as [t|] eqn:Ht; [|by apply truthful_nothing].
  destruct (_ <=? _)%nat; [by apply settle_bare_truth|].
  pose proof (servers_of_subset e (scope_or_default t) now) as Hsub.
  destruct (servers_of e (scope_or_default t) now) as [|first rest]; [by apply settle_none_truth|].
  apply send_truth.
  - apply Truth_update; [|done]. intros t0 Ht0. exact (tr_tasks _ _ HT _ _ Ht0).
  - by apply awaits_update.
  - pose proof (scope_servers_typed e (scope_or_default t) (tr_config _ _ HT)) as Hw.
    rewrite Forall_forall in Hw. apply Hw, Hsub, chosen_server_elem.
Qed.


(** A hit's records carry the time that is left; nothing else changes. *)
Lemma hit_sound c key cc out :
  map_Forall (fun _ => entry_sound) c -> Cache_get c key now = (cc, Some out) -> entry_sound out.
Proof using Type.
  intros Hc (en & Hk & _ & Hlt & ->)%Cache_get_Some. destruct (Hc _ _ Hk) as [Hr Hl Hs Hrc He].
  split; simpl; try done.
  - apply Forall_map. apply (Forall_impl _ _ _ Hr). intros r [[(? & ? & ? & Ht & ?) Hsh] Hi].
    split; [|done]. split; [|done]. split_and!; try done. unfold min_ttl. cbn [r_ttl].
    pose proof (wrap_in_width 32 (as_secs (e_expires en - now)) ltac:(lia)).
    unfold is_u32, in_width in *. lia.
  - by rewrite length_map.
  - intros Hf. by rewrite He.
Qed.

Lemma cached_sound e candidate scope entry :
  Truth T e -> Name_wf candidate -> entry_sound entry ->
  Answer_sound (mkAnswer (e_outcome entry) (e_records entry) FromCache (Some (e_server entry))
    (interface_of e scope) (e_rcode entry) (Some candidate)
    (if bool_decide (e_records entry = [])
     then wrap 32 (as_secs (saturating_duration_since (e_expires entry) now)) else 0)).
Proof using Type.
  intros HT Hn [Hr Hc Hs Hrc He]. apply Forall_and in Hr as [Hg Hi]. split; simpl; try done.
  split; simpl; try done.
  - unfold answer_limit in Hc. lia.
  - by intros ? [= <-].
  - intros i. apply (interface_typed e), HT.
  - by intros ? [= <-].
  - case_bool_decide; [by apply wrap_in_width|by_decide].
Qed.

Lemma next_candidate_from_truth cs : forall e id,
  Truth T e -> awaits e id -> Forall Name_wf cs -> truthful T (next_candidate_from cs e id now).
Proof using Hnow.
  induction cs as [|c rest IH]; intros e id HT Ha Hcs; cbn [next_candidate_from];
    (destruct (tasks e !! id) as [t|] eqn:Ht; [|by apply truthful_nothing]); [by apply settle_none_truth|].
  apply Forall_cons in Hcs as [Hc Hrest].
  set (e1 := update_task id (take_candidate c rest) e).
  assert (Truth T e1 /\ awaits e1 id) as [H1 Ha1].
  { split; [|by apply awaits_update]. apply Truth_update; [|done]. intros t0 Ht0. exact (tr_tasks _ _ HT _ _ Ht0). }
  destruct (route e1 c) as [scope|]; [|by apply settle_none_truth].
  set (e2 := update_task id (set_scope (Some scope)) e1).
  assert (Truth T e2 /\ awaits e2 id) as [H2 Ha2].
  { split; [|by apply awaits_update]. apply Truth_update; [|done]. intros t0 Ht0. exact (tr_tasks _ _ H1 _ _ Ht0). }
  destruct (t_no_cache t); [by apply next_attempt_truth|].
  pose proof (Cache_get_subseteq (cache e2) (CacheKey_new c (t_rtype t) scope) now) as Hsub.
  destruct (Cache_get _ _ _) as [cc hit] eqn:Eg. simpl in Hsub.
  assert (Truth T (put_cache cc e2)) as H3.
  { apply Truth_put_cache; [|done]. intros k en Hk.
    by apply (tr_cache _ _ H2 k), (lookup_weaken _ _ _ _ Hk Hsub). }
  destruct hit as [entry|]; [|by apply next_attempt_truth].
  assert (entry_sound entry) as He by (eapply hit_sound; [apply H2|exact Eg]).
  apply (Truth_count _ _ add_cache_hits) in H3. case_match; [by apply IH|].
  apply settle_truth; [done..|]. by apply cached_sound.
Qed.

Lemma next_candidate_truth e id :
  Truth T e -> awaits e id -> (forall t, tasks e !! id = Some t -> Forall Name_wf (t_candidates t)) ->
  truthful T (next_candidate e id now).
Proof using Hnow.
  intros HT Ha Hc. unfold next_candidate. destruct (tasks e !! id) as [t|] eqn:Ht; [|by apply truthful_nothing].
  apply next_candidate_from_truth; [done..|by apply Hc].
Qed.

Lemma advance_truth `{MapOrder} e id :
  Truth T e -> awaits e id -> Config_inv e ->
  (forall t, tasks e !! id = Some t -> task_ok t) -> truthful T (advance e id now).
Proof using Hnow.
  intros HT Ha Hc Hok. unfold advance. destruct (tasks e !! id) as [t|] eqn:Ht; [|by apply truthful_nothing].
  specialize (Hok t eq_refl) as [Hn _ Hcs _ _].
  destruct (_ && _ && _)%bool.
  - destruct (synthetic e (t_original t) (t_rtype t)) as [a|] eqn:Es.
    + apply settle_truth; [by apply Truth_count|done|]. by apply (synthetic_sound e (t_original t) (t_rtype t)); [apply HT|..].
    + destruct (bool_decide (candidates e _ = [])); [by apply settle_none_truth|]. apply next_candidate_truth.
      * apply Truth_update; [|done]. intros t0 Ht0. exact (tr_tasks _ _ HT _ _ Ht0).
      * by apply awaits_update.
      * intros t'. unfold update_task. simpl. rewrite lookup_alter_eq, Ht. intros [= <-]. simpl.
        apply candidates_wf; [apply Hc|done].
  - apply next_candidate_truth; [done..|]. intros t' Ht'. simplify_eq.
    apply (Forall_impl _ _ _ Hcs). by intros n [? _].
Qed.

Lemma reply_records_typed m c rt code :
  Forall record_good (answers m) -> Z.of_nat (length (answers m)) <= 65535 -> Name_wf c ->
  Forall (fun r => record_good r /\ in_class r) (reply_records m c rt code) /\
  Z.of_nat (length (reply_records m c rt code)) <= 65535.
Proof using Type.
  intros Hg Hl Hc. split.
  - apply Forall_forall. intros r (_ & r0 & -> & Hin & Hi & _)%reply_records_sound.
    rewrite Forall_forall in Hg. destruct (Hg r0 Hin) as [(? & ? & ? & ? & ?) ?].
    unfold recase. case_match; (split; [|done]); (split; [|done]); by split_and!.
  - unfold reply_records. destruct (relevant_records (answers m) c rt) as [kept name] eqn:E.
    apply relevant_records_sound in E as (Hsub & _). apply sublist_length in Hsub.
    rewrite length_map. etrans; [apply inj_le, filter_length_le|]. lia.
Qed.

Lemma list_min_nonneg l d : 0 <= d -> Forall (fun x => 0 <= x) l -> 0 <= default d (list_min l).
Proof using Type.
  intros Hd Hl. destruct (list_min l) as [m|] eqn:E; simpl; [|done].
  apply list_min_Some in E as [Hin _]. rewrite Forall_forall in Hl. by apply Hl.
Qed.

Lemma ttls_nonneg rs : Forall record_good rs -> Forall (fun x => 0 <= x) (map r_ttl rs).
Proof using Type.
  intros Hr. apply Forall_map. apply (Forall_impl _ _ _ Hr).
  intros r [(_ & _ & _ & [Ht _] & _) _]. exact Ht.
Qed.

Lemma reply_ttl_u32 m c rt code :
  Message_wf m -> Forall record_good (answers m) -> Z.of_nat (length (answers m)) <= 65535 -> Name_wf c ->
  is_u32 (reply_ttl m c rt code).
Proof using Type.
  intros (_ & _ & _ & Hau & _) Hg Hl Hc. destruct (reply_records_typed m c rt code Hg Hl Hc) as [Hr _].
  apply Forall_and in Hr as [Hr _]. unfold reply_ttl.
  destruct (relevant_records (answers m) c rt) as [kept name] eqn:E.
  assert (Forall record_good (List.filter is_cname kept)) as Hk.
  { apply relevant_records_sound in E as (Hsub & _). apply Forall_forall. intros r [Hin _]%elem_of_filter_b.
    rewrite Forall_forall in Hg. apply Hg. by eapply (sublist_subseteq _ _ Hsub). }
  pose proof (list_min_nonneg _ 0 ltac:(lia) (ttls_nonneg _ Hr)).
  pose proof (list_min_nonneg _ U32_MAX ltac:(by_decide) (ttls_nonneg _ Hk)).
  pose proof (negative_ttl_nonneg _ name Hau). pose proof (negative_ttl_le (authority m) name).
  unfold is_u32, in_width, MAX_POSITIVE_TTL, MAX_NEGATIVE_TTL in *. case_match; lia.
Qed.

Lemma received_answer_truth `{MapOrder} e id t server m code :
  Truth T e -> awaits e id -> tasks e !! id = Some t -> t_tx t = None -> task_ok t ->
  IpAddr_wf server -> Message_wf m -> Forall record_good (answers m) ->
  Z.of_nat (length (answers m)) <= 65535 -> 0 <= code < 16 ->
  truthful T (received_answer e id t server m code now).
Proof using Hnow.
  intros HT Ha Ht Hx [Hn _ Hcs Hcur _] Hs Hw Hg Hl Hcode. unfold received_answer.
  assert (Name_wf (current_or_original t)) as Hc.
  { unfold current_or_original. destruct (t_current t) as [c|]; [|done]. by apply Hcur. }
  set (c := current_or_original t) in *.
  destruct (reply_records_typed m c (t_rtype t) code Hg Hl Hc) as [Hr Hrl].
  assert (reply_outcome code <> Found -> reply_records m c (t_rtype t) code = []) as He.
  { intros Ho. destruct (reply_records m c (t_rtype t) code) as [|r rs] eqn:E; [done|].
    destruct (reply_records_sound m c (t_rtype t) code r) as [Hf _]; [rewrite E; by left|done]. }
  pose proof (reply_ttl_u32 m c (t_rtype t) code Hw Hg Hl Hc) as Httl.
  set (records := reply_records m c (t_rtype t) code) in *. set (ttl := reply_ttl m c (t_rtype t) code) in *.
  set (entry := mkEntry _ _ _ _ _).
  assert (is_u16 code) as Hc16 by (unfold is_u16, in_width; lia).
  assert (entry_sound entry) as Hen by (split; simpl; try done; unfold answer_limit; lia).
  set (e1 := if (0 <? ttl) && _ then _ else _).
  assert (Truth T e1 /\ tasks e1 = tasks e /\ lookups e1 = lookups e) as (H1 & Ht1 & Hl1).
  { assert (Truth T (put_demoted (delete (server_key server (scope_or_default t)) (demoted e)) e)) as H0
      by (by apply (Truth_frame _ e)).
    unfold e1. case_match; [|done]. split; [|done]. apply Truth_put_cache; [|done].
    intros k en. unfold Cache_insert. rewrite lookup_insert_Some. intros [[_ <-]|[_ Hk]]; [done|].
    apply (tr_cache _ _ HT k), (lookup_weaken _ _ _ _ Hk), make_room_subseteq. }
  assert (awaits e1 id) as Ha1 by (unfold awaits; by rewrite Ht1, Hl1).
  destruct (_ && negb (bool_decide (t_candidates t = []))).
  - apply next_candidate_truth.
    + apply Truth_update; [|done]. intros t0. rewrite Ht1, Ht. intros [= <-]. simpl. by rewrite Hx.
    + by apply awaits_update.
    + intros t'. unfold update_task. simpl. rewrite lookup_alter_eq, Ht1, Ht. intros [= <-]. simpl.
      apply (Forall_impl _ _ _ Hcs). by intros n [? _].
  - apply settle_truth; [done..|]. apply Forall_and in Hr as [Hgr Hir]. split; simpl; try done;
      [|unfold answer_limit; lia]. split; simpl; try done.
    + lia.
    + by intros ? [= <-].
    + intros i. apply (interface_typed e1), H1.
    + by intros ? [= <-].
    + case_bool_decide; [done|by_decide].
Qed.

(** ** Events *)

(** The states an event passes through before its step. *)
Lemma Truth_dropped e tx : Truth T e -> Truth T (put_txs (delete tx (txs e)) e).
Proof using Type. apply Truth_frame; try done. apply delete_subseteq. Qed.

Lemma Truth_idle e id : Truth T e -> Truth T (update_task id (set_tx None) e).
Proof using Type. by apply Truth_update. Qed.

Lemma Message_rcode_nonneg m : Message_wf m -> 0 <= Message_rcode m.
Proof using Type.
  intros ((_ & _ & Hr) & _). unfold Message_rcode. apply Z.lor_nonneg. split; [|lia].
  apply wrap_in_width. lia.
Qed.

Lemma received_truth `{MapOrder} e tx bytes :
  Inv ∅ e -> Truth T e -> bytes_ok bytes -> truthful T (received e tx bytes now).
Proof using Hnow.
  intros HI HT Hb. unfold received. destruct (txs e !! tx) as [x|] eqn:Hx; [|by apply truthful_nothing].
  destruct (matching_response e tx bytes) as [m|] eqn:Em; [|by apply truthful_nothing].
  destruct (tr_txs _ _ HT _ _ Hx) as [Hs _].
  assert (Message_decode bytes = Ok m) as Hd.
  { unfold matching_response in Em. rewrite Hx in Em. destruct (Message_decode bytes); [|done].
    simpl in Em. by case_all_in Em; simplify_eq. }
  pose proof (decode_message_wf _ _ Hb Hd) as Hw. destruct (decode_good _ _ Hb Hd) as [Hg Hl].
  cbn [tasks put_txs]. destruct (tasks e !! x_task x) as [t|] eqn:Ht;
    [|apply truthful_nothing; by apply Truth_dropped].
  set (e1 := count add_answered _).
  assert (Truth T e1) as H1 by (by apply Truth_count, Truth_idle, Truth_dropped).
  assert (awaits e1 (x_task x)) as Ha1.
  { apply (awaits_update (put_txs (delete tx (txs e)) e)); [done|]. exact (Inv_awaits _ _ (x_task x) HI). }
  destruct (_ && negb (x_tcp x)); [by apply send_truth|].
  pose proof (Message_rcode_nonneg m Hw).
  destruct (_ && (Message_rcode m <? 16)) eqn:Ec; bool_simpl.
  - apply received_answer_truth; try done.
    + unfold e1, update_task. simpl. by rewrite lookup_alter_eq, Ht.
    + pose proof (co_tasks _ _ _ _ _ (inv_core _ _ HI) _ _ Ht) as Hok. by destruct Hok; split.
  - apply next_attempt_truth; [|done]. by apply (Truth_frame _ e1).
Qed.

Lemma failed_truth e tx : Inv ∅ e -> Truth T e -> truthful T (failed e tx now).
Proof using Hnow.
  intros HI HT. unfold failed. destruct (txs e !! tx) as [x|]; [|by apply truthful_nothing].
  apply next_attempt_truth.
  - apply Truth_idle. eapply (Truth_frame _ (put_txs (delete tx (txs e)) e)); try done. by apply Truth_dropped.
  - apply awaits_update; [done|]. exact (Inv_awaits _ _ (x_task x) HI).
Qed.

Lemma local_failed_truth e tx : Inv ∅ e -> Truth T e -> truthful T (local_failed e tx now).
Proof using Hnow.
  intros HI HT. unfold local_failed. destruct (txs e !! tx) as [x|]; [|by apply truthful_nothing].
  apply next_attempt_truth.
  - by apply Truth_idle, Truth_count, Truth_dropped.
  - apply awaits_update; [done|]. exact (Inv_awaits _ _ (x_task x) HI).
Qed.

Lemma expire_all_truth ids : forall e,
  Inv ∅ e -> Truth T e -> truthful T (for_each (expire_one now) ids e).
Proof using Hnow.
  induction ids as [|tx ids IH]; intros e HI HT; [by apply truthful_nothing|]. cbn [for_each].
  pose proof (expire_one_keeps e tx now HI) as [HI1 _]. unfold expire_one in *.
  pose proof (failed_truth e tx HI HT) as [H1 Ha1]. destruct (failed e tx now) as [e1 a1]. simpl in *.
  destruct (IH e1 HI1 H1) as [H2 Ha2]. destruct (for_each _ ids e1) as [e2 a2].
  split; [done|]. constructor; [done|]. by apply Forall_app.
Qed.

Lemma tick_truth `{MapOrder} e : Inv ∅ e -> Truth T e -> truthful T (tick e now).
Proof using Hnow. apply expire_all_truth. Qed.
End steps.
