(* ===== verification/EngineTruth.v ===== *)
(** * Presentable answers over whole runs

    The invariant of [EngineAnswers] through questions, abandonment and
    configuration, over whole runs; and the time a silent network takes. *)

From S2P Require Import Prelude Net Names Message MessageProofs Cache EngineState Records Routing Engine EngineInv EngineStep EngineRun EngineMachine EngineFacts Msgpack MsgpackProofs NativeWire NativeWireProofs Present EngineAnswers.
Local Open Scope Z_scope.

(** ** Questions *)

Section questions.
Context `{MapOrder} (T now : Z) (Hnow : now <= T).

Lemma advance_inv_truth idle e id :
  Inv idle e -> Truth T e -> truthful T (advance e id now).
Proof using Hnow.
  intros HI HT. apply advance_truth; [done..|by eapply Inv_awaits|apply HI|].
  intros t Ht. by apply (co_tasks _ _ _ _ _ (inv_core _ _ HI) id).
Qed.

Lemma advance_all_truth ids : forall e,
  NoDup ids -> Inv (list_to_set ids) e -> Forall (is_fresh e) ids -> Truth T e ->
  truthful T (for_each (fun e id => advance e id now) ids e).
Proof using Hnow.
  induction ids as [|id ids IH]; intros e Hnd HI Hfr HT; [by apply truthful_nothing|].
  apply NoDup_cons in Hnd as [Hni Hnd]. apply Forall_cons in Hfr as [Hf Hfr]. cbn [for_each].
  pose proof (advance_inv_truth _ e id HI HT) as [H1 A1].
  destruct (advance_fresh_rest id ids e now HI Hni Hf Hfr) as [HI1 Hfr1].
  destruct (advance e id now) as [e1 a1]. cbn [fst snd] in *.
  destruct (IH e1 Hnd HI1 Hfr1 H1) as [H2 A2]. destruct (for_each _ ids e1) as [e2 a2].
  split; [done|]. by apply Forall_app.
Qed.

Lemma resolve_name_truth e q name rt nc :
  Inv ∅ e -> ~ live e q -> Name_wf name -> is_u16 rt -> Truth T e ->
  truthful T (resolve_name e q name rt nc now).
Proof using Hnow.
  intros HI Hq Hn Hrt HT. unfold resolve_name, start_task. cbn [Engine.fresh_id].
  set (id := next_id e). set (t := fresh_task (OResolve q) name rt nc). set (e1 := put_tasks _ _).
  assert (tasks e1 = <[id := t]> (tasks e)) as Hts by done.
  apply advance_truth.
  - done.
  - destruct HT as [Tc Tl Tx Tt Tg]. split; try done; [|by apply (Config_typed_same e)].
    rewrite Hts. by apply map_Forall_insert_2.
  - intros t0 q0 l. rewrite Hts, lookup_insert_eq. by intros [= <-].
  - apply (Config_same e); [done|apply HI].
  - intros t0. rewrite Hts, lookup_insert_eq. intros [= <-]. by apply fresh_task_ok.
Qed.

Lemma resolve_truth e q name rt nc :
  Inv ∅ e -> ~ live e q -> bytes_ok name -> is_u16 rt -> Truth T e ->
  truthful T (resolve e q name rt nc now).
Proof using Hnow.
  intros HI Hq Hn Hrt HT. unfold resolve.
  destruct (Name_parse name) as [n|] eqn:Hp; cbn [ok].
  - apply Name_parse_wf in Hp; [|done].
    apply resolve_name_truth; try done; [by apply (Inv_frame _ e)|by apply Truth_count].
  - split; [by apply Truth_count|]. apply Forall_singleton. by apply bare_sound.
Qed.

Lemma resolve_question_truth e q question :
  Inv ∅ e -> ~ live e q -> Question_wf question -> Truth T e ->
  truthful T (resolve_question e q question now).
Proof using Hnow.
  intros HI Hq (Hn & Hrt & _) HT. unfold resolve_question.
  apply resolve_name_truth; try done; [by apply (Inv_frame _ e)|by apply Truth_count].
Qed.

Lemma reverse_truth e q address :
  Inv ∅ e -> ~ live e q -> Truth T e -> truthful T (reverse e q address now).
Proof using Hnow.
  intros HI Hq HT. apply resolve_truth; try done. apply Name_to_string_ok, reverse_name_wf.
Qed.

Lemma lookup_truth e q name family :
  Inv ∅ e -> ~ live e q -> bytes_ok name -> Truth T e -> truthful T (lookup_ e q name family now).
Proof using Hnow.
  intros HI Hq Hn HT. unfold lookup_.
  assert (Inv ∅ (count add_queries e)) as HI0 by (by apply (Inv_frame _ e)).
  destruct (Name_parse name) as [n|] eqn:Hp; cbn [ok].
  2:{ split; [by apply Truth_count|]. apply Forall_singleton. split; [|done].
      split; [apply Name_root_wf|constructor|done]. }
  apply Name_parse_wf in Hp; [|done].
  pose proof (lookup_started (count add_queries e) q n (family_types family) HI0 Hq Hp
    (family_types_u16 family) (family_types_ne family)) as Hst.
  destruct (start_tasks _ _ _ _) as [e1 ids].
  destruct Hst as [HI2 Hnd Hfr Hlen _ _ Hback Hl Hc Hcf Hx _]. set (e2 := put_lookups _ e1) in *.
  apply advance_all_truth; [done..|]. destruct HT as [Tc Tl Tx Tt Tg]. split.
  - by rewrite Hc.
  - rewrite Hl. apply map_Forall_insert_2; [|done]. split; [done|constructor|].
    simpl. rewrite Hlen. destruct family; simpl; lia.
  - by rewrite Hx.
  - intros j t Hj. destruct (Hback j t Hj) as [Hold|[Hin _]]; [exact (Tt _ _ Hold)|].
    destruct (co_idle_live _ _ _ _ _ (inv_core _ _ HI2) j) as (t' & Ht' & Hn'); [set_solver|].
    simplify_eq. by rewrite Hn'.
  - apply (Config_typed_same (count add_queries e)); [done|]. by apply (Config_typed_same e).
Qed.
End questions.

(** ** Abandonment *)

Lemma abandon_truth `{MapOrder} T e q : Inv ∅ e -> Truth T e -> truthful T (abandon e q).
Proof.
  intros HI [Tc Tl Tx Tt Tg].
  destruct (abandon_without e q HI) as (e1 & [Hts Hxs Hls _ Hca Hcf Ha] & E). split.
  - rewrite E. split; simpl.
    + by rewrite Hca.
    + by apply map_Forall_delete.
    + intros tx x [Hx _]%Hxs. exact (Tx _ _ Hx).
    + intros j t. rewrite Hts. case_decide; [done|]. exact (Tt j t).
    + apply (Config_typed_same e1); [done|by apply (Config_typed_same e)].
  - apply Forall_forall. by intros a (tx & x & -> & _)%Ha.
Qed.

(** ** Configuration *)

Definition own_limited (ss : list Scope) : Prop :=
  Z.of_nat (length (flat_map s_addresses ss)) <= answer_limit.

#[export] Instance own_limited_dec ss : Decision (own_limited ss).
Proof. unfold own_limited. apply _. Defined.

Lemma invalidate_truth T scope e : Truth T e -> Truth T (invalidate_scope_cache scope e).
Proof.
  intros [Tc Tl Tx Tt Tg]. split; try done; simpl; [| |by apply (Config_typed_same e)].
  - intros k en Hk. apply (Tc k), (lookup_weaken _ _ _ _ Hk), flush_scope_subseteq.
  - intros j t. rewrite lookup_fmap. intros (t0 & Ht0 & ->)%fmap_Some.
    specialize (Tt j t0 Ht0). by case_bool_decide.
Qed.

Lemma put_scopes_truth T ss e :
  Forall scope_typed ss -> own_limited ss -> Truth T e -> Truth T (put_scopes ss e).
Proof. intros Hs Ho [Tc Tl Tx Tt [? ? ? ? ?]]. by split. Qed.

Lemma set_scopes_truth T ss e :
  Forall scope_typed ss -> own_limited ss -> Truth T e -> Truth T (set_scopes ss e).
Proof.
  intros Hs Ho HT. unfold set_scopes. apply put_scopes_truth; [done..|].
  set (ids := invalidated_scopes (scopes e) ss). clearbody ids. revert e HT.
  induction ids as [|i ids IH]; intros e HT; [done|]. apply IH. by apply invalidate_truth.
Qed.

Lemma set_fallback_truth T servers domains e :
  Forall IpAddr_wf servers -> Truth T e -> Truth T (set_fallback servers domains e).
Proof.
  intros Hs HT. unfold set_fallback.
  assert (Truth T (if bool_decide (servers = fallback_servers e) then e
    else invalidate_scope_cache FALLBACK_SCOPE e)) as [Tc Tl Tx Tt [? ? ? ? ?]].
  { case_bool_decide; [done|by apply invalidate_truth]. }
  by split.
Qed.

Lemma set_hostname_truth T h e :
  (forall s, h = Some s -> bytes_ok s) -> Truth T e -> Truth T (set_hostname h e).
Proof.
  intros Hh [Tc Tl Tx Tt [? ? ? ? Hn]]. split; try done. split; try done. simpl.
  intros n Hn'. destruct h as [s|]; [|done]. destruct (Name_parse s) as [n0|] eqn:Ep; simpl in Hn'; [|done].
  apply Name_parse_wf in Ep; [|by apply Hh]. by case_all_in Hn'; simplify_eq.
Qed.

Lemma set_hosts_truth T h e :
  map_Forall (fun _ => host_typed) h -> Truth T e -> Truth T (set_hosts h e).
Proof. intros Hh [Tc Tl Tx Tt [? ? ? ? ?]]. by split. Qed.

Lemma flush_truth T e : Truth T e -> Truth T (flush e).
Proof.
  intros [Tc Tl Tx Tt Tg]. split; try done; simpl; [|by apply (Config_typed_same e)].
  intros j t. rewrite lookup_fmap. intros (t0 & Ht0 & ->)%fmap_Some. exact (Tt j t0 Ht0).
Qed.

(** ** Steps and runs *)

(** What the types of the arguments promise beyond [input_wf]. *)
Definition input_typed (i : Input) : Prop :=
  match i with
  | IReceived _ bytes _ => bytes_ok bytes
  | ISetScopes ss => Forall scope_typed ss /\ own_limited ss
  | ISetFallback servers _ => Forall IpAddr_wf servers
  | ISetHostname h => forall s, h = Some s -> bytes_ok s
  | ISetHosts h => map_Forall (fun _ => host_typed) h
  | _ => True
  end.

Definition input_time (i : Input) : option Z :=
  match i with
  | IResolve _ _ _ _ now | IQuestion _ _ now | ILookup _ _ _ now | IReverse _ _ now
  | IReceived _ _ now | IFailed _ now | ILocalFailed _ now | ITick now => Some now
  | _ => None
  end.

Definition until (T : Z) (i : Input) : Prop := forall now, input_time i = Some now -> now <= T.

Lemma until_exists ins : exists T, Forall (until T) ins.
Proof.
  induction ins as [|i ins [T IH]]; [by exists 0|].
  exists (Z.max T (default 0 (input_time i))). constructor.
  - intros now Hi. rewrite Hi. simpl. lia.
  - apply (Forall_impl _ _ _ IH). intros j Hj now Hn. specialize (Hj now Hn). lia.
Qed.

Section run.
Context `{MapOrder}.

Lemma step_truth T e i :
  Inv ∅ e -> input_wf i -> input_typed i -> until T i -> (forall q, opened i = Some q -> ~ live e q) ->
  Truth T e -> truthful T (step e i).
Proof.
  intros HI Hwf Hty Hu Hfr HT.
  destruct i as [q n rt nc now|q x now|q n f now|q a now|q|tx b now|tx now|tx now|now|ss|sv ds|h|h|];
    cbn [input_wf input_typed step] in *; try specialize (Hu now eq_refl); try specialize (Hfr q eq_refl).
  - destruct Hwf. by apply resolve_truth.
  - by apply resolve_question_truth.
  - by apply lookup_truth.
  - by apply reverse_truth.
  - by apply abandon_truth.
  - by apply received_truth.
  - by apply failed_truth.
  - by apply local_failed_truth.
  - by apply tick_truth.
  - apply truthful_nothing. destruct Hty. by apply set_scopes_truth.
  - by apply truthful_nothing, set_fallback_truth.
  - by apply truthful_nothing, set_hostname_truth.
  - by apply truthful_nothing, set_hosts_truth.
  - by apply truthful_nothing, flush_truth.
Qed.

Lemma run_truth T ins : forall e,
  Inv ∅ e -> run_wf e ins -> Forall input_typed ins -> Forall (until T) ins -> Truth T e ->
  truthful T (run e ins).
Proof.
  induction ins as [|i ins IH]; intros e HI (Hwf & Hnd & Hfr) Hty Hu HT; [by apply truthful_nothing|].
  apply Forall_cons in Hwf as [Hi Hwf], Hty as [Hti Hty], Hu as [Hui Hu]. cbn [run].
  assert (forall q, opened i = Some q -> ~ live e q) as Hfi.
  { intros q Hq. apply Hfr. apply elem_of_omap_cons. by left. }
  destruct (step_accounted e i HI Hi Hfi) as [HI1 _ Hf1 _ _].
  destruct (step_truth T e i HI Hi Hti Hui Hfi HT) as [H1 A1].
  destruct (step e i) as [e1 a1]. cbn [fst snd] in *.
  assert (NoDup (omap opened ins) /\ forall q, opened i = Some q -> q ∉ omap opened ins) as [Hnd' Hne].
  { revert Hnd. simpl. destruct (opened i) as [q|]; [|done].
    rewrite NoDup_cons. intros [? ?]. split; [done|]. by intros q' [= <-]. }
  destruct (IH e1 HI1) as [H2 A2]; try done.
  { split; [done|]. split; [done|]. intros q Hq Hl. destruct (Hf1 q (or_introl Hl)) as [Hl'|Hop].
    - apply (Hfr q); [|done]. apply elem_of_omap_cons. by right.
    - by apply (Hne q Hop). }
  destruct (run e1 ins) as [e2 a2]. split; [done|]. by apply Forall_app.
Qed.
End run.

Lemma with_entropy_truth T entropy : Truth T (with_entropy entropy).
Proof.
  split; try apply map_Forall_empty. split; simpl; try done; apply map_Forall_empty.
Qed.

(** ** How long silence takes *)

Definition min_attempt (k : nat) (e : Engine) : Prop :=
  forall id t, tasks e !! id = Some t -> (k <= t_attempt t)%nat.

Lemma settle_gone e id a : tasks (settle e id a).1 !! id = None.
Proof.
  unfold settle. destruct (tasks e !! id) as [t|] eqn:Ht; [|done].
  repeat case_match; simpl; by rewrite lookup_delete_eq.
Qed.

Lemma next_attempt_raises e id now t t' :
  tasks e !! id = Some t -> tasks (next_attempt e id now).1 !! id = Some t' ->
  t_attempt t' = S (t_attempt t).
Proof.
  intros Ht. unfold next_attempt. rewrite Ht.
  destruct (_ <=? _)%nat; [by rewrite settle_gone|].
  destruct (servers_of _ _ _) as [|first rest]; [by rewrite settle_gone|].
  set (server := match List.find _ _ with Some s => s | None => _ end). clearbody server.
  set (f := fun t => set_tried _ t). unfold send.
  assert (tasks (update_task id f e) !! id = Some (f t)) as ->.
  { unfold update_task. simpl. by rewrite lookup_alter_eq, Ht. }
  destruct (_ <=? _)%nat; [by rewrite settle_gone|]. destruct (_ <=? _)%nat; [by rewrite settle_gone|].
  destruct (entropy _ _); [|by rewrite settle_gone]. cbn [Engine.fresh_id fst]. unfold update_task. simpl.
  rewrite !lookup_alter_eq, Ht. simpl. intros [= <-]. simpl. lia.
Qed.

Lemma failed_raises e tx x now t t' :
  txs e !! tx = Some x -> tasks e !! x_task x = Some t -> tasks (failed e tx now).1 !! x_task x = Some t' ->
  t_attempt t' = S (t_attempt t).
Proof.
  intros Hx Ht. unfold failed. rewrite Hx.
  apply (next_attempt_raises _ _ _ (set_tx None t)). unfold update_task. simpl. by rewrite lookup_alter_eq, Ht.
Qed.

(** Every timeout of a tick uses up an attempt of its task. *)
Lemma expire_all_raises k now ids : forall e,
  Inv ∅ e ->
  (forall id t, tasks e !! id = Some t -> (k <= t_attempt t)%nat /\
     ((exists tx, t_tx t = Some tx /\ tx ∈ ids) \/ (S k <= t_attempt t)%nat)) ->
  min_attempt (S k) (for_each (expire_one now) ids e).1.
Proof.
  induction ids as [|tx ids IH]; intros e HI Hk; cbn [for_each].
  { intros id t Ht. destruct (Hk id t Ht) as [_ [(? & _ & ?%elem_of_nil)|?]]; done. }
  pose proof (expire_one_keeps e tx now HI) as [HI1 _]. unfold expire_one in *.
  destruct (txs e !! tx) as [x|] eqn:Hx.
  - pose proof (failed_event e tx x now HI Hx) as [_ _ _ Ho _].
    destruct (co_tx _ _ _ _ _ (inv_core _ _ HI) _ _ Hx) as (t0 & Ht0 & Htx0 & _).
    pose proof (fun t' => failed_raises e tx x now t0 t' Hx Ht0) as Hr.
    destruct (failed e tx now) as [e1 a1]. cbn [fst snd] in *.
    assert (min_attempt (S k) (for_each (expire_one now) ids e1).1) as Hm.
    { apply IH; [done|]. intros id t Ht. destruct (decide (id = x_task x)) as [->|Hne].
      - specialize (Hr t Ht). destruct (Hk _ _ Ht0). lia.
      - rewrite Ho in Ht by done. destruct (Hk id t Ht) as [? [(tx' & Htx' & Hin)|?]]; [|lia].
        split; [done|]. left. exists tx'. split; [done|]. apply elem_of_cons in Hin as [->|?]; [|done].
        destruct (co_task _ _ _ _ _ (inv_core _ _ HI) _ _ _ Ht Htx') as (x' & ? & ?). congruence. }
    by destruct (for_each _ ids e1).
  - rewrite failed_absent in * by done. cbn [fst snd] in *.
    assert (min_attempt (S k) (for_each (expire_one now) ids e).1) as Hm.
    { apply IH; [done|]. intros id t Ht. destruct (Hk id t Ht) as [? [(tx' & Htx' & Hin)|?]]; [|lia].
      split; [done|]. left. exists tx'. split; [done|]. apply elem_of_cons in Hin as [->|?]; [|done].
      destruct (co_task _ _ _ _ _ (inv_core _ _ HI) _ _ _ Ht Htx') as (x' & ? & ?). congruence. }
    by destruct (for_each _ ids e).
Qed.

Section silence.
Context `{MapOrder}.

(** One server timeout later every transaction has expired. *)
Lemma tick_raises T k e now :
  Inv ∅ e -> Truth T e -> T + SERVER_TIMEOUT <= now -> min_attempt k e -> min_attempt (S k) (tick e now).1.
Proof.
  intros HI HT Hnow Hk. apply expire_all_raises; [done|]. intros id t Ht. split; [by eapply Hk|]. left.
  destruct (t_tx t) as [tx|] eqn:Htx.
  - exists tx. split; [done|]. destruct (co_task _ _ _ _ _ (inv_core _ _ HI) _ _ _ Ht Htx) as (x & Hx & _).
    apply elem_of_expired. exists x. split; [done|]. destruct (tr_txs _ _ HT _ _ Hx). lia.
  - by apply (co_idle _ _ _ _ _ (inv_core _ _ HI) _ _ Ht), elem_of_empty in Htx.
Qed.

Lemma attempts_spent e : Inv ∅ e -> min_attempt 4 e -> tasks e = ∅.
Proof using Type.
  intros HI Hm. apply map_empty. intros id. destruct (tasks e !! id) as [t|] eqn:Ht; [|done]. exfalso.
  pose proof (tk_attempt _ (co_tasks _ _ _ _ _ (inv_core _ _ HI) _ _ Ht)). specialize (Hm id t Ht).
  unfold MAX_ATTEMPTS in *. lia.
Qed.

Lemma live_attempted T e : Inv ∅ e -> Truth T e -> min_attempt 1 e.
Proof using Type.
  intros HI HT id t Ht. apply (tr_tasks _ _ HT _ _ Ht). intros Htx.
  by apply (co_idle _ _ _ _ _ (inv_core _ _ HI) _ _ Ht), elem_of_empty in Htx.
Qed.

(** Ticks at the given instants, with nothing else happening. *)
Fixpoint ticks (nows : list Z) (e : Engine) : Engine * list Action :=
  match nows with
  | [] => (e, [])
  | now :: nows =>
      let '(e, acts) := tick e now in
      let '(e, acts') := ticks nows e in
      (e, acts ++ acts')
  end.

(** Each instant at least one server timeout after the one before. *)
Fixpoint spaced (T : Z) (nows : list Z) : Prop :=
  match nows with
  | [] => True
  | now :: nows => T + SERVER_TIMEOUT <= now /\ spaced now nows
  end.

Lemma ticks_spent k : forall nows T e,
  Inv ∅ e -> Truth T e -> min_attempt k e -> spaced T nows ->
  keeps e (ticks nows e) /\ min_attempt (length nows + k) (ticks nows e).1 /\
  Forall action_sound (ticks nows e).2.
Proof.
  intros nows. revert k. induction nows as [|now nows IH]; intros k T e HI HT Hk Hs; cbn [ticks].
  { split; [by apply keeps_nothing|]. split; [done|constructor]. }
  destruct Hs as [Hn Hs]. pose proof (tick_keeps e now HI) as [HI1 Hb1].
  pose proof (tick_raises T k e now HI HT Hn Hk) as Hk1.
  assert (truthful now (tick e now)) as [H1 A1].
  { apply tick_truth; [done|done|]. apply (Truth_later T); [|done]. unfold SERVER_TIMEOUT, from_secs, NANOS in *. lia. }
  destruct (tick e now) as [e1 a1]. cbn [fst snd] in *.
  destruct (IH (S k) now e1 HI1 H1 Hk1 Hs) as ([HI2 Hb2] & Hk2 & A2). destruct (ticks nows e1) as [e2 a2].
  split; [split; [done|by eapply balanced_app]|]. split; [|by apply Forall_app].
  simpl in *. by rewrite Nat.add_succ_r in Hk2.
Qed.

Lemma three_ticks nows T e :
  Inv ∅ e -> Truth T e -> spaced T nows -> (3 <= length nows)%nat ->
  tasks (ticks nows e).1 = ∅ /\ keeps e (ticks nows e) /\ Forall action_sound (ticks nows e).2.
Proof.
  intros HI HT Hs Hl. destruct (ticks_spent 1 nows T e HI HT (live_attempted T e HI HT) Hs) as (Hkp & Hm & Ha).
  split; [|done]. apply attempts_spent; [apply Hkp|]. intros id t Ht. specialize (Hm id t Ht). lia.
Qed.
End silence.
