(* ===== verification/AnswersProps.v ===== *)
(** * What the engine hands to the doors

    The engine's runs together with the replies the two doors build from its
    completions, and how long a question may take. *)

From S2P Require Import Prelude Net Names Message MessageProofs Cache EngineState Routing Engine EngineInv EngineStep EngineRun EngineMachine EngineFlow EngineProps IpText Msgpack NativeWire NativeWireProofs Stub StubProps Present EngineAnswers EngineTruth.
Local Open Scope Z_scope.

(** What a client may count on in a completion, at either door. *)
Definition presentable (c : Completion) : Prop :=
  match c with
  | CAnswer a =>
      (a_outcome a <> Found -> a_records a = []) /\
      Reply_decode (Reply_encode (RAnswer (to_answer a))) = Ok (RAnswer (to_answer a)) /\
      (forall r r', r ∈ a_records a -> r' ∈ a_records a -> to_record r = to_record r' -> r = r') /\
      (forall query bytes, Message_wf query -> Message_encode (build_reply query a) = Ok bytes ->
         Message_decode bytes = Ok (build_reply query a))
  | CAddresses d =>
      (ad_outcome d <> Found -> ad_addresses d = []) /\
      Reply_decode (Reply_encode (RAddresses (to_addresses d))) = Ok (RAddresses (to_addresses d))
  end.

Lemma sound_presentable c : completion_sound c -> presentable c.
Proof.
  destruct c as [a|d]; cbn [completion_sound presentable]; [intros [Hg _ Hc He]|intros [Hg He]].
  - split_and!; [done|by apply Reply_decode_encode, to_answer_wf| |].
    + intros r r' Hr Hr' E. pose proof (ag_records a Hg) as Hrs. rewrite Forall_forall in Hrs, Hc.
      destruct (Hrs r Hr) as [Hwf _], (Hrs r' Hr') as [Hwf' _].
      destruct (to_record_inj r r' Hwf Hwf' E) as (E1 & E2 & E3 & E4).
      pose proof (Hc r Hr) as E5. pose proof (Hc r' Hr') as E6. unfold in_class in *.
      destruct r, r'. simpl in *. congruence.
    + intros query bytes Hq Hb. apply encode_decode; [|done]. apply build_reply_wf; [done|].
      destruct Hg as [Hr _ _ _ _ Hn Ht]. split_and!; [|done|done].
      apply (Forall_impl _ _ _ Hr). by intros r [? _].
  - split; [done|]. by apply Reply_decode_encode, to_addresses_wf.
Qed.

(** The state a run of typed inputs ends in. *)
Lemma run_reaches `{MapOrder} T entropy ins :
  (forall k r, entropy k = Some r -> length r = 34%nat /\ bytes_ok r) ->
  Forall input_wf ins -> NoDup (omap opened ins) -> Forall input_typed ins -> Forall (until T) ins ->
  Inv ∅ (run (with_entropy entropy) ins).1 /\ truthful T (run (with_entropy entropy) ins).
Proof.
  intros He Hw Hn Hty Hu. assert (run_wf (with_entropy entropy) ins) as Hrw.
  { split; [done|]. split; [done|]. intros q _. apply with_entropy_live. }
  pose proof (with_entropy_inv entropy He) as HI. split; [apply (run_all ins _ HI Hrw)|].
  by apply run_truth; [..|apply with_entropy_truth].
Qed.

(** C35. Every completion can be shown.  Whatever questions, replies, failures
    and configuration the engine is fed, a completion it hands out reaches
    its client at either door as it is: only found answers hold records; the
    native reply decodes at the client to the very reply that was built, all
    its text being valid UTF-8 whatever bytes the records hold; two records of
    an answer that look the same there are the same; and the DNS reply to any
    query, when it encodes, decodes to itself. *)
Theorem completions_presentable `{MapOrder} entropy ins q c :
  (forall k r, entropy k = Some r -> length r = 34%nat /\ bytes_ok r) ->
  Forall input_wf ins -> NoDup (omap opened ins) -> Forall input_typed ins ->
  Done q c ∈ (run (with_entropy entropy) ins).2 -> presentable c.
Proof.
  intros He Hw Hn Hty Hd. destruct (until_exists ins) as [T Hu].
  destruct (run_reaches T entropy ins He Hw Hn Hty Hu) as [_ [_ Ha]]. rewrite Forall_forall in Ha.
  apply sound_presentable. exact (Ha _ Hd).
Qed.

Lemma questions_typed : Forall input_typed questions_ /\ Forall (until 0) questions_.
Proof.
  split; unfold questions_; forall_list; cbn; try done; try by intros ? [= <-].
  by_decide.
Qed.

Lemma completions_presentable_witness :
  exists a, Done 3 (CAnswer a) ∈ (run (H := canonical_order) (with_entropy zeros) questions_).2 /\
    length (a_records a) = 1%nat /\ presentable (CAnswer a).
Proof.
  set (acts := (run (H := canonical_order) (with_entropy zeros) questions_).2).
  destruct (omap (fun x => match x with Done q c => if q =? 3 then Some c else None | _ => None end) acts)
    as [|[a|] l] eqn:E; [vm_compute in E; discriminate E| |vm_compute in E; discriminate E].
  assert (CAnswer a ∈ CAnswer a :: l) as Hin by (left; done). rewrite <- E in Hin.
  apply list_elem_of_omap in Hin as (x & Hx & Hc). destruct x as [| |q c]; try discriminate Hc.
  destruct (Z.eqb_spec q 3); [|discriminate Hc]. injection Hc as ->. subst q. exists a.
  split; [exact Hx|]. split; [vm_compute in E; injection E as <- _; vm_compute; reflexivity|].
  apply (completions_presentable (H := canonical_order) zeros questions_ 3 (CAnswer a) zeros_ok);
    [apply questions_wf|apply questions_wf|apply questions_typed|exact Hx].
Defined.

(** C14. No question hangs, and none for long.  From any state a run of the
    engine reaches, with a network that never answers again: sleeping to the
    next deadline and ticking, at most as often as there is work, or any
    three ticks a server timeout apart after the last input, leaves no task
    and no transaction, and has completed every live question exactly once
    with an answer that can be shown. *)
Theorem silence_bounded `{MapOrder} entropy ins T nows :
  (forall k r, entropy k = Some r -> length r = 34%nat /\ bytes_ok r) ->
  Forall input_wf ins -> NoDup (omap opened ins) -> Forall input_typed ins -> Forall (until T) ins ->
  spaced T nows -> (3 <= length nows)%nat ->
  let e := (run (with_entropy entropy) ins).1 in
  let drained r := tasks r.1 = ∅ /\ txs r.1 = ∅ /\ NoDup (dones r.2) /\ forall q, live e q <-> q ∈ dones r.2 in
  drained (run_silent (total_work (tasks e)) e) /\
  drained (ticks nows e) /\ (forall q c, Done q c ∈ (ticks nows e).2 -> presentable c).
Proof.
  intros He Hw Hn Hty Hu Hs Hl e drained. destruct (run_reaches T entropy ins He Hw Hn Hty Hu) as [HI [HT _]].
  fold e in HI, HT. destruct (drain_all (total_work (tasks e)) e HI (le_n _)) as [Hk Ht].
  destruct (three_ticks nows T e HI HT Hs Hl) as (Ht3 & Hk3 & Ha3).
  split; [split; [done|by apply keeps_drained]|]. split; [split; [done|by apply keeps_drained]|].
  intros q c Hd. rewrite Forall_forall in Ha3. apply sound_presentable. exact (Ha3 _ Hd).
Qed.

Lemma silence_bounded_witness :
  tasks (ticks (H := canonical_order) [from_secs 2; from_secs 4; from_secs 7] asked_engine).1 = ∅ /\
  dones (ticks (H := canonical_order) [from_secs 2; from_secs 4; from_secs 7] asked_engine).2 = [2].
Proof.
  split; [|vm_compute; reflexivity].
  destruct (silence_bounded (H := canonical_order) zeros questions_ 0 [from_secs 2; from_secs 4; from_secs 7] zeros_ok
    (proj1 questions_wf) (proj2 questions_wf) (proj1 questions_typed) (proj2 questions_typed)) as (_ & (Ht & _) & _);
    [by_decide|vm_compute; lia|exact Ht].
Defined.
