(* ===== verification/FuzzEngine.v ===== *)
(** * The engine's fuzz target (fuzz/fuzz_targets/engine_ops.rs)

    A script of questions, scope changes, replies, failures and time, run
    against the engine with the target's own assertions.  A failed assertion,
    an index out of range or an [unwrap] of an error is [None].
    [FuzzEngineProofs] shows that no script of well-typed values gives it. *)

From S2P Require Import Prelude Net Names Message MessageProofs Cache EngineState Records Routing Engine IpText.
Local Open Scope Z_scope.

(** ** Scripts *)

Inductive Op : Type :=
| OpResolve (name rtype : Z) (no_cache : bool)
| OpLookup (name family : Z)
| OpReverse (addr : Z)
| OpAnswer (which code records : Z) (truncated soa : bool) (ttl : Z)
| OpRaw (which : Z) (bytes : list Z)
| OpWrong (which : Z)
| OpFail (which : Z)
| OpTick (ms : Z)
| OpScopes (variant : Z)
| OpFallback (on : bool)
| OpHosts (on : bool)
| OpFlush.

Record Script : Type := mkScript { seed : Z; ops : list Op }.

Definition NAMES : list Str :=
  map bytes_of
    ["example.com"; "www.example.com"; "printer"; "localhost"; "box"; "git.corp.example";
     "thing.local"; "1.2.0.10.in-addr.arpa"; "a.b.c.d.e.f.g.h.example"; "x"; ""; "..";
     "EXAMPLE.COM."; "loop.example.com"]%string.

Definition TYPES : list Z :=
  [rtype.A; rtype.AAAA; rtype.PTR; rtype.CNAME; rtype.TXT; rtype.ANY; 65; rtype.SOA].

(** [l[i as usize % l.len()]]; the lists are not empty. *)
Definition nth_mod {A} (d : A) (l : list A) (i : Z) : A := default d (l !! (Z.to_nat i mod length l)%nat).

Definition fuzz_name (i : Z) : Str := nth_mod [] NAMES i.

(** [Name::parse(..).unwrap()] and [.parse().unwrap()] of the constants. *)
Definition name_of (s : string) : Name := expect Name_root (Name_parse (bytes_of s)).
Definition ip_of (s : string) : IpAddr := default LOCALHOST_V4 (ip_parse (bytes_of s)).

Definition fuzz_scope (id : string) (servers domains : list string) (default_route exclusive : bool)
    (metric : Z) : Scope :=
  mkScope (bytes_of id) (bytes_of id) (map ip_of servers) (map name_of domains)
    [(ip_of "10.0.2.15", 24)] default_route exclusive metric Routed.

Definition fuzz_scopes (variant : Z) : list Scope :=
  let v := variant mod 5 in
  if v =? 0 then []
  else if v =? 1 then [fuzz_scope "lan" ["10.0.2.3"] ["lan"] true false 100]%string
  else if v =? 2 then
    [fuzz_scope "lan" ["10.0.2.3"; "10.0.2.4"] ["lan"] true false 100;
     fuzz_scope "vpn" ["10.8.0.1"] ["corp.example"] false false 50]%string
  else if v =? 3 then
    [fuzz_scope "lan" ["10.0.2.3"] ["lan"] true false 100;
     fuzz_scope "vpn" ["10.8.0.1"] ["corp.example"] false true 50]%string
  else
    [fuzz_scope "lan" ["10.0.2.9"] ["a.example"; "b.example"; "c.example"] false false 100]%string.

(** ** Replies that match *)

(** The [i]-th record of an answer to [qn]. *)
Definition fuzz_record (qn : Name) (ttl : Z) (i : nat) : Record_ :=
  match (i mod 3)%nat with
  | 0%nat => Record_new qn ttl (RA (from_be [10; 0; 0; Z.of_nat i]))
  | 1%nat => Record_new qn ttl (RCname (name_of "loop.example.com"))
  | _ => Record_new (name_of "loop.example.com") ttl (RCname qn)
  end.

Definition soa_record (ttl : Z) : Record_ :=
  Record_new (name_of "example.com") ttl (RSoa (name_of "a") (name_of "b") 1 1 1 1 ttl).

(** [None] is the index [q.questions[0]] out of range. *)
Definition answer_for (sent : list Z) (code records : Z) (tc soa : bool) (ttl : Z) : option (list Z) :=
  match Message_decode sent with
  | Err _ => Some []
  | Ok q =>
      let m := reply_to q in
      let h := header m in
      let h := mkHeader (h_id h) (response h) (opcode h) (authoritative h) tc (recursion_desired h)
                 (recursion_available h) (authentic_data h) (checking_disabled h) (code mod 6) in
      match questions q with
      | [] => None
      | question :: _ =>
          let qn := q_name question in
          let answers := map (fuzz_record qn ttl) (seq 0 (Z.to_nat (records mod 4))) in
          let authority := if soa then [soa_record ttl] else [] in
          Some (expect [] (Message_encode
            (mkMessage h (questions m) answers authority (additional m))))
      end
  end.

(** ** The harness *)

(** The target's generator: one byte per step. *)
Definition lcg (state : Z) : Z := wrap 64 (wrap 64 (state * 6364136223846793005) + 1).

Fixpoint lcg_fill (n : nat) (state : Z) : list Z * Z :=
  match n with
  | O => ([], state)
  | S n =>
      let state := lcg state in
      let '(bytes, last) := lcg_fill n state in
      (wrap 8 (Z.shiftr state 32) :: bytes, last)
  end.

(** What the engine's [k]-th draw of 34 bytes gets. *)
Definition fuzz_entropy (seed : Z) (k : nat) : option (list Z) :=
  Some (lcg_fill 34 (Nat.iter k (fun s => (lcg_fill 34 s).2) seed)).1.

Record Fuzz : Type := mkFuzz {
  fz_engine : Engine;
  fz_now : Z;
  fz_open : gmap Txid (list Z);
  fz_asked : gset Qid;
  fz_answered : gmap Qid Z;
  fz_qid : Z;
}.

Definition with_engine (e : Engine) (s : Fuzz) : Fuzz :=
  mkFuzz e (fz_now s) (fz_open s) (fz_asked s) (fz_answered s) (fz_qid s).
Definition with_open (o : gmap Txid (list Z)) (s : Fuzz) : Fuzz :=
  mkFuzz (fz_engine s) (fz_now s) o (fz_asked s) (fz_answered s) (fz_qid s).
Definition with_now (now : Z) (s : Fuzz) : Fuzz :=
  mkFuzz (fz_engine s) now (fz_open s) (fz_asked s) (fz_answered s) (fz_qid s).

(** The assertions on a completion. *)
Definition completion_holds (c : Completion) : bool :=
  match c with
  | CAnswer a =>
      (bool_decide (a_outcome a = Found) || bool_decide (a_records a = [])) &&
      forallb (fun r => r_class r =? class_IN) (a_records a)
  | CAddresses a => bool_decide (ad_outcome a = Found) || bool_decide (ad_addresses a = [])
  end.

Fixpoint apply_actions (acts : list Action) (open : gmap Txid (list Z)) (answered : gmap Qid Z)
  : option (gmap Txid (list Z) * gmap Qid Z) :=
  match acts with
  | [] => Some (open, answered)
  | Send tx _ _ _ payload :: acts =>
      if bool_decide (is_Some (open !! tx)) then None
      else apply_actions acts (<[tx := payload]> open) answered
  | Cancel tx :: acts => apply_actions acts (delete tx open) answered
  | Done qid c :: acts =>
      if completion_holds c
      then apply_actions acts open (<[qid := default 0 (answered !! qid) + 1]> answered)
      else None
  end.

Definition fuzz_family (family : Z) : Family :=
  if family mod 3 =? 0 then FAny else if family mod 3 =? 1 then FV4 else FV6.

Section harness.
Context `{MapOrder}.

Definition pick (which : Z) (open : gmap Txid (list Z)) : option Txid :=
  let keys := sort_by_key (fun k => k) (map fst (map_iter open)) in
  keys !! (Z.to_nat which mod length keys)%nat.

(** What one operation does before its actions are applied: it panics, skips
    the rest of its iteration, or yields actions. *)
Inductive Flow : Type := Panic | Continue | Acts (s : Fuzz) (acts : list Action).

Definition ask (s : Fuzz) (question : Engine -> Qid -> Engine * list Action) : Flow :=
  let qid := fz_qid s + 1 in
  let '(e, acts) := question (fz_engine s) qid in
  Acts (mkFuzz e (fz_now s) (fz_open s) ({[qid]} ∪ fz_asked s) (fz_answered s) qid) acts.

(** [e.received(tx, bytes, now)], and the transaction is closed when that did
    something. *)
Definition deliver_reply (s : Fuzz) (tx : Txid) (bytes : list Z) : Flow :=
  let '(e, acts) := received (fz_engine s) tx bytes (fz_now s) in
  let open := if bool_decide (acts = []) then fz_open s else delete tx (fz_open s) in
  Acts (with_open open (with_engine e s)) acts.

Definition configure (s : Fuzz) (f : Engine -> Engine) : Flow :=
  Acts (with_engine (f (fz_engine s)) s) [].

Definition op_flow (op : Op) (s : Fuzz) : Flow :=
  match op with
  | OpResolve n rt no_cache =>
      ask s (fun e qid => resolve e qid (fuzz_name n) (nth_mod 0 TYPES rt) no_cache (fz_now s))
  | OpLookup n family =>
      ask s (fun e qid => lookup_ e qid (fuzz_name n) (fuzz_family family) (fz_now s))
  | OpReverse addr => ask s (fun e qid => reverse e qid (V4 addr) (fz_now s))
  | OpAnswer which code records tc soa ttl =>
      match pick which (fz_open s) with
      | None => Acts s []
      | Some tx =>
          match fz_open s !! tx ≫= (fun sent => answer_for sent code records tc soa ttl) with
          | None => Panic
          | Some bytes => deliver_reply s tx bytes
          end
      end
  | OpRaw which bytes =>
      match pick which (fz_open s) with
      | None => Acts s []
      | Some tx => deliver_reply s tx bytes
      end
  | OpWrong which =>
      match pick which (fz_open s) with
      | None => Acts s []
      | Some tx =>
          match fz_open s !! tx with
          | None => Panic
          | Some sent =>
              match Message_decode sent with
              | Err _ => Continue
              | Ok q =>
                  match questions q with
                  | [] => Panic
                  | x :: xs =>
                      let x := mkQuestion (q_name x) (Z.lxor (q_rtype x) 1) (q_class x) in
                      let q := mkMessage (header q) (x :: xs) (answers q) (authority q) (additional q) in
                      match Message_encode (reply_to q) with
                      | Err _ => Panic
                      | Ok bytes =>
                          let '(e, acts) := received (fz_engine s) tx bytes (fz_now s) in
                          if bool_decide (acts = []) then Acts (with_engine e s) acts else Panic
                      end
                  end
              end
          end
      end
  | OpFail which =>
      match pick which (fz_open s) with
      | None => Acts s []
      | Some tx =>
          let '(e, acts) := failed (fz_engine s) tx (fz_now s) in
          Acts (with_open (delete tx (fz_open s)) (with_engine e s)) acts
      end
  | OpTick ms =>
      let now := fz_now s + ms * 1000000 in
      let '(e, acts) := tick (fz_engine s) now in
      Acts (with_now now (with_engine e s)) acts
  | OpScopes variant => configure s (set_scopes (fuzz_scopes variant))
  | OpFallback on =>
      configure s (if on then set_fallback [ip_of "9.9.9.9"] [name_of "fb.example"]
                   else set_fallback [] [])
  | OpHosts on =>
      configure s (set_hosts
        (if on then {[to_lowercase (name_of "printer") := (name_of "printer", [ip_of "10.0.2.9"])]} else ∅))
  | OpFlush => configure s flush
  end.

(** One iteration of the script's loop. *)
Definition fuzz_op (op : Op) (s : Fuzz) : option Fuzz :=
  match op_flow op s with
  | Panic => None
  | Continue => Some s
  | Acts s acts =>
      match apply_actions acts (fz_open s) (fz_answered s) with
      | None => None
      | Some (open, answered) =>
          if (in_flight (fz_engine s) <=? MAX_IN_FLIGHT)%nat && (size open <=? MAX_IN_FLIGHT + 1)%nat
          then Some (mkFuzz (fz_engine s) (fz_now s) open (fz_asked s) answered (fz_qid s))
          else None
      end
  end.

Fixpoint fuzz_script (ops : list Op) (s : Fuzz) : option Fuzz :=
  match ops with
  | [] => Some s
  | op :: ops => fuzz_op op s ≫= fuzz_script ops
  end.

(** Time alone: one server timeout per iteration. *)
Fixpoint fuzz_drain (n : nat) (s : Fuzz) : option Fuzz :=
  match n with
  | O => Some s
  | S n =>
      let now := fz_now s + SERVER_TIMEOUT in
      let '(e, acts) := tick (fz_engine s) now in
      match apply_actions acts (fz_open s) (fz_answered s) with
      | None => None
      | Some (open, answered) => fuzz_drain n (mkFuzz e now open (fz_asked s) answered (fz_qid s))
      end
  end.

Definition fuzz_start (seed start : Z) : Fuzz :=
  let e := with_entropy (fuzz_entropy seed) in
  let e := set_scopes (fuzz_scopes 1) e in
  let e := set_hostname (Some (bytes_of "box")) e in
  mkFuzz e start ∅ ∅ ∅ 0.

(** The whole target; [start] is [Instant::now()]. *)
Definition engine_ops (script : Script) (start : Z) : option unit :=
  s ← fuzz_script (take 400 (ops script)) (fuzz_start (seed script) start);
  s ← fuzz_drain (3 * 4 + 2) s;
  if (in_flight (fz_engine s) =? 0)%nat &&
     forallb (fun q => default 0 (fz_answered s !! q) =? 1) (elements (fz_asked s))
  then Some () else None.
End harness.
