(* ===== verification/EngineTests.v ===== *)
(** * The engine's unit tests (resolvd/src/engine.rs, mod tests)

    The tests of the crate, run on the model: each is a program over the
    engine that stops at a failed assertion.  They tie the model to the
    behaviour the authors wrote down.  The three tests that fill the cache or
    the table of transactions to their limits, thousands of entries, are left
    out: those bounds are theorems about every state. *)

From S2P Require Import Prelude Net Names Message Cache EngineState Records Routing Engine Stub IpText FuzzEngine.
Local Open Scope Z_scope.

(** ** Test programs *)

#[local] Existing Instance canonical_order.

Definition Test (A : Type) : Type := Engine -> option (A * Engine).

Definition ret {A} (a : A) : Test A := fun e => Some (a, e).
Definition bind {A B} (m : Test A) (f : A -> Test B) : Test B :=
  fun e => match m e with Some (a, e) => f a e | None => None end.

Declare Scope test_scope.
Delimit Scope test_scope with test.
Local Open Scope test_scope.
Notation "'let!' x ':=' m 'in' k" := (bind m (fun x => k))
  (at level 10, x pattern, m at level 100, k at level 200) : test_scope.
Notation "m ;; k" := (bind m (fun _ => k)) (at level 100, right associativity) : test_scope.

Definition panic {A} : Test A := fun _ => None.
Definition the {A} (o : option A) : Test A := match o with Some a => ret a | None => panic end.
Definition check (b : bool) : Test () := if b then ret () else panic.
Definition act (f : Engine -> Engine * list Action) : Test (list Action) :=
  fun e => let '(e, acts) := f e in Some (acts, e).
Definition change (f : Engine -> Engine) : Test () := fun e => Some ((), f e).
Definition look {A} (f : Engine -> A) : Test A := fun e => Some (f e, e).
(** A fresh engine in place of the one before. *)
Definition fresh (e : Engine) : Test () := fun _ => Some ((), e).

(** [for x in xs]. *)
Fixpoint each {A} (xs : list A) (f : A -> Test ()) : Test () :=
  match xs with [] => ret () | x :: xs => f x;; each xs f end.

Notation "a == b" := (check (bool_decide (a = b))) (at level 70) : test_scope.

(** ** Helpers of the tests *)

Definition n (s : string) : Name := name_of s.
Definition ip (s : string) : IpAddr := ip_of s.
Definition rd_addr (s : string) : RData := match ip_of s with V4 a => RA a | V6 a => RAaaa a end.

Definition scope (id : string) (servers domains : list string) (default_route : bool) : Scope :=
  fuzz_scope id servers domains default_route false 100.

(** [Engine::new], the seeded generator of the tests. *)
Definition Engine_new (seed : Z) : Engine := with_entropy (fuzz_entropy seed).

Definition engine : Engine :=
  set_hostname (Some (bytes_of "box")) (set_scopes [scope "lan" ["10.0.2.3"] ["lan"] true] (Engine_new 42)).

Fixpoint sent (acts : list Action) : Test (Txid * IpAddr * Message) :=
  match acts with
  | [] => panic
  | Send tx server _ _ payload :: _ => let! m := the (ok (Message_decode payload)) in ret (tx, server, m)
  | _ :: acts => sent acts
  end.

Fixpoint done_ (acts : list Action) : Test Answer :=
  match acts with
  | [] => panic
  | Done _ (CAnswer a) :: _ => ret a
  | _ :: acts => done_ acts
  end.

Definition with_answers (rs : list Record_) (m : Message) : Message :=
  mkMessage (header m) (questions m) rs (authority m) (additional m).

Definition with_authority (rs : list Record_) (m : Message) : Message :=
  mkMessage (header m) (questions m) (answers m) rs (additional m).

Definition with_question (f : Question -> Question) (m : Message) : Message :=
  mkMessage (header m) (match questions m with q :: qs => f q :: qs | [] => [] end) (answers m) (authority m)
    (additional m).

Definition with_header (f : Header -> Header) (m : Message) : Message :=
  mkMessage (f (header m)) (questions m) (answers m) (authority m) (additional m).

Definition set_response (b : bool) (h : Header) : Header :=
  mkHeader (h_id h) b (opcode h) (authoritative h) (truncated h) (recursion_desired h)
    (recursion_available h) (authentic_data h) (checking_disabled h) (h_rcode h).

Definition set_id (id : Z) (h : Header) : Header :=
  mkHeader id (response h) (opcode h) (authoritative h) (truncated h) (recursion_desired h)
    (recursion_available h) (authentic_data h) (checking_disabled h) (h_rcode h).

(** [m.encode().unwrap()]. *)
Definition encoded (m : Message) : Test (list Z) := the (ok (Message_encode m)).

Definition reply_for (query : Message) (records : list Record_) (code : Z) : Test (list Z) :=
  encoded (with_answers records (set_rcode code (reply_to query))).

Definition resolve_text (q : Qid) (name : Str) (rt now : Z) : Test (list Action) :=
  act (fun e => resolve e q name rt false now).
Definition resolve_ (q : Qid) (name : string) (rt now : Z) : Test (list Action) := resolve_text q (bytes_of name) rt now.
Definition question_ (q : Qid) (name : Name) (rt now : Z) : Test (list Action) :=
  act (fun e => resolve_question e q (Question_new name rt) now).
Definition received_ (tx : Txid) (bytes : list Z) (now : Z) : Test (list Action) :=
  act (fun e => received e tx bytes now).
Definition tick_ (now : Z) : Test (list Action) := act (fun e => tick e now).

(** [sent(&e.resolve(..))] and [done(&e.resolve(..))]. *)
Definition sends (q : Qid) (name : string) (rt now : Z) : Test (Txid * IpAddr * Message) :=
  let! acts := resolve_ q name rt now in sent acts.
Definition answers_ (q : Qid) (name : string) (rt now : Z) : Test Answer :=
  let! acts := resolve_ q name rt now in done_ acts.
(** [done(&e.received(tx, &bytes, now))]. *)
Definition settles (tx : Txid) (bytes : list Z) (now : Z) : Test Answer :=
  let! acts := received_ tx bytes now in done_ acts.

(** Names compare without case. *)
Definition same_name (a b : Name) : Test () := check (Name_eqb a b).
Definition asked (m : Message) : Test Name :=
  match questions m with q :: _ => ret (q_name q) | [] => panic end.
Definition asks (m : Message) (name : string) : Test () := let! x := asked m in same_name x (n name).

Definition first {A} (l : list A) : Test A := the (head l).

Definition soa (owner : string) (ttl : Z) (mname rname : string) (minimum : Z) : Record_ :=
  Record_new (n owner) ttl (RSoa (n mname) (n rname) 1 1 1 1 minimum).

Definition a_record (name : string) (ttl : Z) (addr : string) : Record_ := Record_new (n name) ttl (rd_addr addr).
Definition cname (name : string) (ttl : Z) (target : string) : Record_ := Record_new (n name) ttl (RCname (n target)).

(** [Answer { outcome, records, source, resolved_name, ..Default::default() }]. *)
Definition answer (o : Outcome) (rs : list Record_) (src : Source) (name : string) : Answer :=
  mkAnswer o rs src None None 0 (Some (n name)) 0.

Definition millis (k : Z) : Z := k * 1000000.

Definition put_entropy (f : nat -> option (list Z)) (e : Engine) : Engine :=
  mkEngine (scopes e) (fallback_servers e) (fallback_domains e) (hostname e) (hosts e) (cache e) (demoted e) (tasks e)
    (txs e) (lookups e) (next_id e) f (drawn e) (counters e).

(** [Instant::now()]. *)
Definition now : Z := 0.

(** ** Names and lookups *)

Definition stub_names_preserve_wire_labels_and_count_once : Test () :=
  each [[bytes_of "dot.label"; bytes_of "example"];
        [bytes_of "back\slash" ++ [0; 1; 255]; bytes_of "example"];
        [replicate 63 195; bytes_of "example"];
        replicate 5 (replicate 15 1)] (fun ls =>
    fresh engine;;
    let! name := the (ok (Name_from_labels ls)) in
    let! actions := question_ 1 name rtype.A now in
    let! (_, _, query) := sent actions in
    let! actual := asked query in
    map lower (labels actual) == ls;;
    let! c := look counters in
    c_queries c == 1).

Definition empty_lookup_keeps_expansion_and_cname_target : Test () :=
  each [[]; [cname "printer.lan" 30 "target.lan"]] (fun records =>
    let expected := if bool_decide (records = []) then n "printer.lan" else n "target.lan" in
    let out := combine (mkLookup (n "printer") [] [(rtype.AAAA, answer Found records Dns "printer.lan")]) in
    same_name (ad_canonical out) expected;;
    ad_source out == Dns;;
    ad_outcome out == Found;;
    ad_addresses out == []).

Definition stub_single_label_with_embedded_dot_uses_search_domain : Test () :=
  fresh engine;;
  let! name := the (ok (Name_from_labels [bytes_of "dot.label"])) in
  let! actions := question_ 1 name rtype.A now in
  let! (_, _, query) := sent actions in
  let! actual := asked query in
  map lower (labels actual) == [bytes_of "dot.label"; bytes_of "lan"].

Definition lookup_metadata_prefers_addresses_then_a_in_either_completion_order : Test () :=
  each [false; true] (fun a_has_addresses =>
  each [false; true] (fun aaaa_has_addresses =>
  each [false; true] (fun reverse =>
    let results :=
      [(rtype.A, answer Found (if a_has_addresses then [a_record "a.lan" 11 "10.0.2.9"] else []) FromCache "a.lan");
       (rtype.AAAA, answer Found (if aaaa_has_addresses then [a_record "aaaa.lan" 22 "fd00::9"] else []) Dns "aaaa.lan")] in
    let results := if reverse then rev results else results in
    let out := combine (mkLookup (n "printer") [] results) in
    let prefer_a := a_has_addresses || negb aaaa_has_addresses in
    same_name (ad_canonical out) (n (if prefer_a then "a.lan" else "aaaa.lan"));;
    ad_source out == (if prefer_a then FromCache else Dns);;
    length (ad_addresses out) == (Nat.b2n a_has_addresses + Nat.b2n aaaa_has_addresses)%nat;;
    if a_has_addresses && aaaa_has_addresses then
      let! x := first (ad_addresses out) in
      x.2 == (if reverse then 22 else 11)
    else ret ()))).

(** ** Relevant records and lifetimes *)

Definition unrelated_zero_ttl_records_do_not_escape_or_prevent_caching : Test () :=
  fresh engine;;
  let! (tx, _, q) := sends 1 "wanted.example" rtype.A now in
  let good := a_record "wanted.example" 60 "10.0.2.9" in
  let! bytes := reply_for q [a_record "elsewhere.example" 0 "10.0.2.99"; good; a_record "wanted.example" 0 "fd00::99"]
                  rcode.NOERROR in
  let! a := settles tx bytes now in
  a_records a == [good];;
  let! cached := answers_ 2 "wanted.example" rtype.A (now + from_secs 1) in
  a_source cached == FromCache;;
  map r_ttl (a_records cached) == [59].

Definition other_class (r : Record_) : Record_ := with_class 3 r.

Definition relevant_chain_preserves_server_order_and_stops_explicit_cname_and_any : Test () :=
  let alias := cname "alias.example" 30 "target.example" in
  let target := a_record "target.example" 60 "10.0.2.9" in
  let other := a_record "elsewhere.example" 0 "10.0.2.99" in
  let records := [target; other; other_class alias; alias] in
  let '(kept, end_) := relevant_records records (n "alias.example") rtype.A in
  kept == [target; alias];;
  same_name end_ (n "target.example");;
  each [rtype.CNAME; rtype.ANY] (fun qtype =>
    let '(kept, end_) := relevant_records records (n "alias.example") qtype in
    kept == [alias];;
    same_name end_ (n "alias.example")).

(** [format!("n{i}.example")]. *)
Definition numbered (prefix : string) (i : nat) (suffix : string) : Str :=
  bytes_of prefix ++ fmt_dec (Z.of_nat i) ++ bytes_of suffix.
Definition numbered_name (prefix : string) (i : nat) (suffix : string) : Name :=
  expect Name_root (Name_parse (numbered prefix i suffix)).

Definition relevant_chain_is_bounded_and_does_not_revisit_aliases : Test () :=
  let link i := numbered_name "n" i ".example" in
  let records := map (fun i => Record_new (link i) 60 (RCname (link (S i)))) (seq 0 20) in
  let '(kept, end_) := relevant_records records (n "n0.example") rtype.A in
  length kept == 16%nat;;
  same_name end_ (n "n16.example");;
  let records := [cname "a.example" 60 "b.example"; cname "b.example" 60 "a.example"] in
  let '(kept, end_) := relevant_records records (n "a.example") rtype.A in
  kept == records;;
  same_name end_ (n "a.example").

Definition negative_soa_must_have_the_right_class_and_enclose_the_effective_name : Test () :=
  let soa owner ttl := soa owner ttl "ns.example" "hostmaster.example" 60 in
  let records := [soa "other.example" 0; other_class (soa "example" 0); soa "example" 30] in
  negative_ttl records (n "host.example") == 30;;
  negative_ttl records (n "host.notexample") == 0;;
  negative_ttl [soa "." 30] (n "anywhere") == 30;;
  fresh engine;;
  let! (tx, _, query) := sends 1 "alias.example" rtype.A now in
  let response := set_rcode rcode.NXDOMAIN (reply_to query) in
  let response := with_answers [cname "alias.example" 10 "missing.other"] response in
  let! bytes := encoded (with_authority [soa "other" 30] response) in
  let! a := settles tx bytes now in
  a_outcome a == NotFound;;
  a_records a == [];;
  let! a := answers_ 2 "alias.example" rtype.A (now + from_secs 9) in
  a_source a == FromCache;;
  let! _ := sends 3 "alias.example" rtype.A (now + from_secs 10) in ret ().

(** ** Entropy *)

Definition is_send (a : Action) : bool := match a with Send _ _ _ _ _ => true | _ => false end.

Definition entropy_failure_sends_nothing_and_releases_the_lookup : Test () :=
  fresh engine;;
  change (put_entropy (fun k => if (k =? 0)%nat then None else Some (replicate 34 170)));;
  let! actions := resolve_ 1 "entropy.example." rtype.A now in
  let! a := done_ actions in
  a_outcome a == Unavailable;;
  check (negb (existsb is_send actions));;
  let! e := look id in
  check (bool_decide (size (tasks e) = 0)%nat && bool_decide (size (txs e) = 0)%nat &&
         bool_decide (size (lookups e) = 0)%nat);;
  c_upstream_sent (counters e) == 0;;
  c_refused (counters e) == 1;;
  let! (_, _, query) := sends 2 "entropy.example." rtype.A now in
  h_id (header query) == 43690;;
  let! c := look counters in
  c_upstream_sent c == 1.

(** Four labels of the greatest length in all: 63, 63, 63 and 61 bytes. *)
Definition longest_name (a b c d : Z) : Str :=
  replicate 63 a ++ [46] ++ replicate 63 b ++ [46] ++ replicate 63 c ++ [46] ++ replicate 61 d ++ [46].

Definition each_attempt_draws_fresh_id_and_case_bytes_including_long_names : Test () :=
  fresh engine;;
  change (put_entropy (fun k => Some (le_bytes 2 (Z.of_nat (S k)) ++ replicate 32 (if (k =? 0)%nat then 0 else 255))));;
  let! lower_name := the (ok (Name_parse (longest_name 97 98 99 100))) in
  let! upper_name := the (ok (Name_parse (longest_name 65 66 67 68))) in
  let! actions := resolve_text 1 (longest_name 97 98 99 100) rtype.A now in
  let! (_, _, m1) := sent actions in
  h_id (header m1) == 1;;
  let! n1 := asked m1 in
  same_name n1 lower_name;;
  let! actions := tick_ (now + SERVER_TIMEOUT) in
  let! (_, _, m2) := sent actions in
  h_id (header m2) == 2;;
  let! n2 := asked m2 in
  labels n2 == labels upper_name;;
  labels n1 == labels lower_name.

Definition case_entropy_consumes_low_bits_only_for_ascii_letters : Test () :=
  fresh engine;;
  change (put_entropy (fun _ => Some (le_bytes 2 4660 ++ [133; 2] ++ replicate 30 0)));;
  let! (_, _, query) := sends 1 "a1b-c.d2ef3gh-i4jk." rtype.A now in
  h_id (header query) == 4660;;
  let! name := asked query in
  labels name == labels (n "A1b-C.d2ef3gH-i4Jk.").

Definition local_answers_do_not_need_upstream_entropy : Test () :=
  fresh engine;;
  change (put_entropy (fun _ => None));;
  let! a := answers_ 1 "localhost" rtype.A now in
  a_outcome a == Found;;
  let! d := look drawn in
  d == 0%nat.

(** ** Synthetic names and hosts *)

Definition rdata0 (a : Answer) : Test RData := let! r := first (a_records a) in ret (r_rdata r).

Definition host_table (names : list (string * list string)) : gmap Name (Name * list IpAddr) :=
  list_to_map (map (fun x => (to_lowercase (n x.1), (n x.1, map ip x.2))) names).

Definition localhost_hostname_and_hosts_are_synthetic : Test () :=
  fresh engine;;
  let! a := answers_ 1 "localhost" rtype.A now in
  a_source a == Synthetic;;
  let! d := rdata0 a in
  d == rd_addr "127.0.0.1";;
  let! a := answers_ 2 "foo.localhost" rtype.AAAA now in
  let! d := rdata0 a in
  d == rd_addr "::1";;
  let! a := answers_ 3 "BOX" rtype.A now in
  let! d := rdata0 a in
  d == rd_addr "10.0.2.15";;
  change (set_hosts (host_table [("printer", ["10.0.2.9"])]%string));;
  let! a := answers_ 4 "printer" rtype.A now in
  a_source a == Hosts;;
  let! a := answers_ 5 "9.2.0.10.in-addr.arpa" rtype.PTR now in
  let! d := rdata0 a in
  d == RPtr (n "printer");;
  let! a := answers_ 6 "1.0.0.127.in-addr.arpa" rtype.PTR now in
  let! d := rdata0 a in
  d == RPtr (n "localhost");;
  let! a := answers_ 7 "thing.local" rtype.A now in
  a_outcome a == NotFound;;
  let! c := look counters in
  c_upstream_sent c == 0.

(** One table is like another here, so one rebuild stands for thirty-two. *)
Definition shared_static_reverse_is_stable_across_host_table_rebuilds : Test () :=
  let addresses := ["10.0.2.9"; "fd99::9"]%string in
  fresh engine;;
  each [["Zulu.home"; "alpha.home"; "ALPHA-1.home"]; ["ALPHA-1.home"; "alpha.home"; "Zulu.home"]]%string (fun names =>
    change (set_hosts (host_table (map (fun name => (name, addresses)) names)));;
    each addresses (fun address =>
      let! actions := act (fun e => reverse e 1 (ip address) now) in
      let! a := done_ actions in
      a_source a == Hosts;;
      length (a_records a) == 1%nat;;
      let! d := rdata0 a in
      d == RPtr (n "ALPHA-1.home");;
      let name := match ip address with V4 x => reverse_v4 x | V6 x => reverse_v6 x end in
      let! actions := resolve_text 2 (Name_to_string name) rtype.ANY now in
      let! any := done_ actions in
      a_records any == a_records a);;
    let! c := look counters in
    c_upstream_sent c == 0).

(** ** Answers, the cache and forgeries *)

Definition an_upstream_answer_is_returned_and_cached_per_scope : Test () :=
  fresh engine;;
  let! (tx, server, q) := sends 1 "www.example.com" rtype.A now in
  server == ip "10.0.2.3";;
  asks q "www.example.com";;
  check (recursion_desired (header q));;
  let rec_ := a_record "www.example.com" 60 "1.2.3.4" in
  let! bytes := reply_for q [rec_] rcode.NOERROR in
  let! a := settles tx bytes now in
  a_outcome a == Found;;
  a_source a == Dns;;
  a_records a == [rec_];;
  a_interface a == Some (bytes_of "lan");;
  let! a := answers_ 2 "WWW.EXAMPLE.COM" rtype.A (now + from_secs 10) in
  a_source a == FromCache;;
  let! c := look counters in
  c_cache_hits c == 1;;
  change (set_scopes [scope "lan" ["10.0.2.4"] ["lan"] true]);;
  let! _ := sends 3 "www.example.com" rtype.A now in ret ().

Definition an_expired_answer_is_removed_from_the_cache_count_on_lookup : Test () :=
  fresh engine;;
  let! (tx, _, q) := sends 1 "expire.example.com" rtype.A now in
  let! bytes := reply_for q [a_record "expire.example.com" 10 "1.2.3.4"] rcode.NOERROR in
  let! _ := settles tx bytes now in
  let! k := look cache_entries in
  k == 1%nat;;
  let! _ := sends 2 "expire.example.com" rtype.A (now + from_secs 10) in
  let! e := look id in
  cache_entries e == 0%nat;;
  c_cache_hits (counters e) == 0;;
  c_upstream_sent (counters e) == 2.

Definition ignored (tx : Txid) (bytes : list Z) (now : Z) : Test () :=
  let! actions := received_ tx bytes now in actions == [].

Definition rename (name : Name) (q : Question) : Question := mkQuestion name (q_rtype q) (q_class q).

Definition a_forged_reply_is_ignored : Test () :=
  fresh engine;;
  let! (tx, _, q) := sends 1 "www.example.com" rtype.A now in
  let! b := reply_for (with_header (fun h => set_id (Z.lxor (h_id h) 1) h) q) [] 0 in
  ignored tx b now;;
  let! name := asked q in
  let wrong := if same_case (n "www.example.com") name then n "WWW.EXAMPLE.COM" else n "www.example.com" in
  let! b := reply_for (with_question (rename wrong) q) [] 0 in
  ignored tx b now;;
  ignored tx (bytes_of "garbage") now;;
  let! k := look in_flight in
  k == 1%nat.

(** [e.demoted(now)]. *)
Definition demoted_ (now : Z) : Test (list IpAddr) := look (fun e => demoted_servers e now).

Definition local_failed_ (tx : Txid) (now : Z) : Test (list Action) := act (fun e => local_failed e tx now).

Fixpoint local_failures (attempts : list nat) (first_server : IpAddr) (actions : list Action) : Test (list Action) :=
  match attempts with
  | [] => ret actions
  | attempt :: attempts =>
      let! (tx, server, _) := sent actions in
      check (negb (attempt =? 1)%nat || negb (bool_decide (server = first_server)));;
      let! actions := local_failed_ tx now in
      let! d := demoted_ now in
      d == [];;
      let! again := local_failed_ tx now in
      again == [];;
      local_failures attempts first_server actions
  end.

Definition local_send_failures_preserve_bounded_retries_without_server_demotion : Test () :=
  fresh engine;;
  change (set_scopes [scope "lan" ["10.0.2.3"; "10.0.2.4"] [] true]);;
  let! actions := resolve_ 1 "example.com" rtype.A now in
  let! (_, first_server, _) := sent actions in
  let! actions := local_failures (seq 0 MAX_ATTEMPTS) first_server actions in
  let! a := done_ actions in
  a_outcome a == Unavailable;;
  let! e := look id in
  in_flight e == 0%nat;;
  c_upstream_sent (counters e) == Z.of_nat MAX_ATTEMPTS;;
  c_upstream_failed (counters e) == Z.of_nat MAX_ATTEMPTS;;
  let! (_, retried, _) := sends 2 "example.com" rtype.A now in
  retried == first_server.

(** ** Time, retries and negative answers *)

Definition differ {A} `{EqDecision A} (a b : A) : Test () := check (negb (bool_decide (a = b))).

Definition timeouts_walk_servers_then_give_up_unavailable : Test () :=
  fresh (Engine_new 1);;
  change (set_scopes [scope "lan" ["10.0.2.3"; "10.0.2.4"] [] true]);;
  let! (tx1, s1, _) := sends 1 "example.com" rtype.A now in
  let! d := look next_deadline in
  d == Some (now + SERVER_TIMEOUT);;
  let! actions := tick_ (now + SERVER_TIMEOUT) in
  check (bool_decide (Cancel tx1 ∈ actions));;
  let! (_, s2, _) := sent actions in
  differ s1 s2;;
  let! actions := tick_ (now + 2 * SERVER_TIMEOUT) in
  let! (_, s3, _) := sent actions in
  s3 == s1;;
  let! actions := tick_ (now + 3 * SERVER_TIMEOUT) in
  let! a := done_ actions in
  a_outcome a == Unavailable;;
  let! k := look in_flight in
  k == 0%nat;;
  let! d := demoted_ (now + 3 * SERVER_TIMEOUT) in
  length d == 2%nat;;
  let! _ := sends 2 "example.com" rtype.A (now + 3 * SERVER_TIMEOUT) in ret ().

Definition expanded_nodata_cname_uses_the_negative_lifetime_and_ages_with_the_cache : Test () :=
  each [(Some (80, 30), 30); (Some (20, 90), 20); (Some (86400, 86400), MAX_NEGATIVE_TTL); (None, 0)]
    (fun '(record, expected) =>
    fresh engine;;
    let! (tx, _, q) := sends 1 "PrInTeR" rtype.AAAA now in
    let! bytes := encoded (with_authority
      (match record with Some (ttl, minimum) => [soa "lan" ttl "ns.lan" "hostmaster.lan" minimum] | None => [] end)
      (reply_to q)) in
    let! a := settles tx bytes now in
    a_outcome a == Found;;
    a_records a == [];;
    a_negative_ttl a == expected;;
    let query := Message_query 9 (Question_new (n "PrInTeR") rtype.AAAA) in
    let! rendered := first (answers (build_reply query a)) in
    length (answers (build_reply query a)) == 1%nat;;
    labels (r_name rendered) == labels (n "PrInTeR");;
    check (match r_rdata rendered with RCname target => Name_eqb target (n "printer.lan") | _ => false end);;
    r_ttl rendered == expected;;
    (if 0 <? expected then
       each [millis 2500; from_secs expected - millis 1] (fun elapsed =>
         let! cached := answers_ 2 "PrInTeR" rtype.AAAA (now + elapsed) in
         a_source cached == FromCache;;
         let remaining := as_secs (from_secs expected - elapsed) in
         a_negative_ttl cached == remaining;;
         let! r := first (answers (build_reply query cached)) in
         r_ttl r == remaining)
     else ret ());;
    let! _ := sends 3 "PrInTeR" rtype.AAAA (now + from_secs expected) in ret ()).

Definition nxdomain_is_negative_cached_and_servfail_moves_on : Test () :=
  fresh (Engine_new 1);;
  change (set_scopes [scope "lan" ["10.0.2.3"; "10.0.2.4"] [] true]);;
  let! (tx, _, q) := sends 1 "nope.example.com" rtype.A now in
  let! bytes := encoded (with_authority [soa "example.com" 3600 "ns" "h" 60] (set_rcode rcode.NXDOMAIN (reply_to q))) in
  let! a := settles tx bytes now in
  a_outcome a == NotFound;;
  let! a := answers_ 2 "nope.example.com" rtype.A (now + from_secs 30) in
  a_source a == FromCache;;
  a_outcome a == NotFound;;
  let! _ := sends 3 "nope.example.com" rtype.A (now + from_secs 61) in
  let! (tx, s1, q) := sends 4 "x.example.com" rtype.A now in
  let! bytes := reply_for q [] rcode.SERVFAIL in
  let! actions := received_ tx bytes now in
  let! (_, s2, _) := sent actions in
  differ s1 s2;;
  let! d := demoted_ now in
  check (bool_decide (s1 ∈ d)).

(** The first action is a send, over TCP or not, on an interface. *)
Definition sent_over (tcp : bool) (interface : option string) (actions : list Action) : Test () :=
  match actions with
  | Send _ _ itf over _ :: _ =>
      over == tcp;;
      match interface with Some i => itf == Some (bytes_of i) | None => ret () end
  | _ => panic
  end.

Definition truncated_reply (q : Message) : Test (list Z) := encoded (with_header set_truncated (reply_to q)).

Definition truncation_retries_over_tcp : Test () :=
  fresh engine;;
  let! (tx, _, q) := sends 1 "big.example.com" rtype.TXT now in
  let! bytes := truncated_reply q in
  let! actions := received_ tx bytes now in
  sent_over true None actions.

Definition nxdomain_moves_to_the_next_candidate_without_spending_the_budget : Test () :=
  fresh (Engine_new 1);;
  change (set_scopes [scope "lan" ["10.0.2.3"] ["one.test"; "two.test"] true]);;
  let! (tx, _, q) := sends 1 "printer" rtype.A now in
  asks q "printer.one.test";;
  let! bytes := reply_for q [] rcode.NXDOMAIN in
  let! actions := received_ tx bytes now in
  let! (_, _, q) := sent actions in
  asks q "printer.two.test";;
  let! actions := tick_ (now + SERVER_TIMEOUT) in
  let! _ := sent actions in
  let! actions := tick_ (now + 2 * SERVER_TIMEOUT) in
  let! _ := sent actions in
  let! actions := tick_ (now + 3 * SERVER_TIMEOUT) in
  let! a := done_ actions in
  a_outcome a == Unavailable;;
  let! e := look id in
  c_upstream_sent (counters e) == 4;;
  in_flight e == 0%nat.

Fixpoint walk_domains (domains : list string) (actions : list Action) : Test (list Action) :=
  match domains with
  | [] => ret actions
  | domain :: domains =>
      let! (tx, _, q) := sent actions in
      asks q ("printer." ++ domain);;
      let! bytes := reply_for q [] rcode.NXDOMAIN in
      let! actions := received_ tx bytes now in
      walk_domains domains actions
  end.

Definition more_search_candidates_than_attempts_are_all_asked : Test () :=
  let domains := ["a.test"; "b.test"; "c.test"; "d.test"; "e.test"]%string in
  fresh (Engine_new 1);;
  change (set_scopes [scope "lan" ["10.0.2.3"] domains true]);;
  let! actions := resolve_ 1 "printer" rtype.A now in
  let! actions := walk_domains (take 4 domains) actions in
  let! (tx, _, q) := sent actions in
  asks q "printer.e.test";;
  let! bytes := reply_for q [a_record "printer.e.test" 60 "10.0.2.50"] rcode.NOERROR in
  let! a := settles tx bytes now in
  a_outcome a == Found;;
  let! c := look counters in
  c_upstream_sent c == 5.

Definition truncation_retry_consumes_the_question_budget : Test () :=
  fresh engine;;
  let! (tx, server, q) := sends 1 "large.example" rtype.TXT now in
  let! bytes := truncated_reply q in
  let! actions := received_ tx bytes now in
  let! (_, tcp_server, _) := sent actions in
  server == tcp_server;;
  sent_over true None actions;;
  let! actions := tick_ (now + SERVER_TIMEOUT) in
  let! (tx, _, q) := sent actions in
  let! bytes := truncated_reply q in
  let! a := settles tx bytes (now + SERVER_TIMEOUT) in
  a_outcome a == Unavailable;;
  let! e := look id in
  c_upstream_sent (counters e) == 3;;
  in_flight e == 0%nat.

Definition final_budgeted_attempt_can_still_complete_successfully : Test () :=
  each [rcode.NOERROR; rcode.NXDOMAIN] (fun code =>
    fresh engine;;
    let! _ := sends 1 "last.example" rtype.A now in
    let! actions := tick_ (now + SERVER_TIMEOUT) in
    let! _ := sent actions in
    let! actions := tick_ (now + 2 * SERVER_TIMEOUT) in
    let! (tx, _, q) := sent actions in
    let! bytes := reply_for q [] code in
    let! a := settles tx bytes (now + 2 * SERVER_TIMEOUT) in
    a_outcome a == (if code =? rcode.NXDOMAIN then NotFound else Found);;
    let! c := look counters in
    c_upstream_sent c == 3).

(** ** Search and routing *)

Definition single_labels_are_expanded_and_never_sent_bare : Test () :=
  fresh engine;;
  let! (tx, _, q) := sends 1 "printer" rtype.A now in
  asks q "printer.lan";;
  let! bytes := reply_for q [a_record "printer.lan" 60 "10.0.2.9"] 0 in
  let! a := settles tx bytes now in
  let! name := the (a_resolved_name a) in
  same_name name (n "printer.lan");;
  fresh (Engine_new 1);;
  change (set_scopes [scope "lan" ["10.0.2.3"] [] true]);;
  let! a := answers_ 1 "printer" rtype.A now in
  a_outcome a == NotFound;;
  let! c := look counters in
  c_upstream_sent c == 0;;
  fresh (Engine_new 1);;
  change (set_scopes [scope "lan" ["10.0.2.3"] ["a.example"; "b.example"] true]);;
  let! (tx, _, q) := sends 1 "printer" rtype.A now in
  asks q "printer.a.example";;
  let! bytes := reply_for q [] rcode.NXDOMAIN in
  let! actions := received_ tx bytes now in
  let! (_, _, q2) := sent actions in
  asks q2 "printer.b.example".

Definition set_metric (m : Z) (s : Scope) : Scope :=
  mkScope (s_id s) (s_interface s) (s_servers s) (s_domains s) (s_addresses s) (s_default_route s) (s_exclusive s) m
    (s_level s).
Definition set_exclusive (s : Scope) : Scope :=
  mkScope (s_id s) (s_interface s) (s_servers s) (s_domains s) (s_addresses s) (s_default_route s) true (s_metric s)
    (s_level s).
Definition exclusive_if (b : bool) (s : Scope) : Scope := if b then set_exclusive s else s.
Definition set_level (l : Level) (s : Scope) : Scope :=
  mkScope (s_id s) (s_interface s) (s_servers s) (s_domains s) (s_addresses s) (s_default_route s) (s_exclusive s)
    (s_metric s) l.
Definition set_addresses (xs : list (IpAddr * Z)) (s : Scope) : Scope :=
  mkScope (s_id s) (s_interface s) (s_servers s) (s_domains s) xs (s_default_route s) (s_exclusive s) (s_metric s)
    (s_level s).

(** The server a question goes to. *)
Definition served_by (q : Qid) (name : string) (rt now : Z) (server : string) : Test () :=
  let! (_, s, _) := sends q name rt now in s == ip server.

Definition routing_prefers_domain_match_then_default_route_then_exclusive_takes_all : Test () :=
  let vpn := set_metric 50 (scope "vpn" ["10.8.0.1"] ["corp.example"] false) in
  let lan := scope "lan" ["10.0.2.3"] ["lan"] true in
  fresh (Engine_new 1);;
  change (set_scopes [lan; vpn]);;
  served_by 1 "git.corp.example" rtype.A now "10.8.0.1";;
  served_by 2 "www.example.com" rtype.A now "10.0.2.3";;
  let vpn2 := set_addresses [(ip "10.8.0.2", 24)] vpn in
  change (set_scopes [lan; vpn2]);;
  served_by 3 "7.0.8.10.in-addr.arpa" rtype.PTR now "10.8.0.1";;
  change (set_scopes [lan; set_exclusive vpn2]);;
  served_by 4 "printer.lan" rtype.A now "10.8.0.1";;
  let! (_, _, q) := sends 5 "printer" rtype.A now in
  asks q "printer.corp.example".

Definition fallback_servers_only_when_no_interface_supplies_any : Test () :=
  fresh (Engine_new 1);;
  change (set_fallback [ip "9.9.9.9"] [n "fb.example"]);;
  served_by 1 "example.com" rtype.A now "9.9.9.9";;
  change (set_scopes [scope "lan" ["10.0.2.3"] [] true]);;
  served_by 2 "example.com" rtype.A now "10.0.2.3";;
  fresh (Engine_new 1);;
  let! a := answers_ 1 "example.com" rtype.A now in
  a_outcome a == Unavailable.

(** The question is answered at once, without a packet now or later. *)
Definition assert_local_resolution (name : string) (rt : Z) (outcome : Outcome) (now : Z) : Test () :=
  let! actions := resolve_ 1 name rt now in
  actions == [Done 1 (CAnswer (mkAnswer outcome [] SrcLocal None None 0 None 0))];;
  let! e := look id in
  c_upstream_sent (counters e) == 0;;
  next_deadline e == None;;
  let! actions := tick_ (now + SERVER_TIMEOUT * 4) in
  actions == [];;
  let! c := look counters in
  c_upstream_sent c == 0.

(** [e.scopes()[0].clone()] and some others. *)
Definition rescope (f : Scope -> list Scope) : Test () :=
  let! ss := look scopes in
  let! s := first ss in
  change (set_scopes (f s)).

Definition quad9 (domains : list string) : Test () := change (set_fallback [ip "9.9.9.9"] (map n domains)).

Definition serverless_exclusive_scope_blocks_other_scopes_and_fallback : Test () :=
  let vpn := set_metric 50 (set_level Addressed (set_exclusive (scope "vpn" [] ["corp.example"] false))) in
  let other := set_metric 200 (set_exclusive (scope "other" ["10.9.0.1"] ["eng.corp.example"] true)) in
  each [("www.example.com", rtype.A); ("git.eng.corp.example", rtype.AAAA); ("printer.lan", rtype.A);
        ("7.2.0.10.in-addr.arpa", rtype.PTR)]%string (fun '(name, rt) =>
    fresh engine;;
    rescope (fun s => [s; other; vpn]);;
    quad9 ["extra.example"]%string;;
    assert_local_resolution name rt Unavailable now).

Definition serverless_link_scope_wins_longest_matching_domain : Test () :=
  let shorter := set_metric 1 (scope "shorter" ["10.9.0.1"] ["example"] false) in
  let vpn := set_metric 200 (set_level Link (scope "vpn" [] ["corp.example"] false)) in
  fresh engine;;
  rescope (fun s => [s; shorter; vpn]);;
  quad9 [];;
  assert_local_resolution "git.corp.example" rtype.A Unavailable now.

Definition serverless_subnet_winner_does_not_use_another_scope : Test () :=
  let addresses := [(ip "10.8.0.2", 24)] in
  let vpn := set_metric 50 (set_addresses addresses (scope "vpn" [] [] false)) in
  let other := set_metric 200 (set_addresses addresses (scope "other" ["10.9.0.1"] [] false)) in
  fresh engine;;
  rescope (fun s => [s; other; vpn]);;
  quad9 [];;
  assert_local_resolution "7.0.8.10.in-addr.arpa" rtype.PTR Unavailable now.

Definition serverless_default_claimant_blocks_lower_metric_nonclaimant : Test () :=
  fresh (Engine_new 1);;
  change (set_scopes [set_metric 50 (scope "vpn" ["10.8.0.1"] [] false); scope "lan" [] [] true]);;
  quad9 [];;
  assert_local_resolution "www.example.com" rtype.A Unavailable now.

Definition serverless_lower_metric_default_claimant_still_wins : Test () :=
  fresh (Engine_new 1);;
  change (set_scopes [set_metric 200 (scope "vpn" ["10.8.0.1"] [] true); scope "lan" [] [] true]);;
  assert_local_resolution "www.example.com" rtype.A Unavailable now.

(** Domains, default route, exclusive, name and type of the four steps. *)
Definition routing_steps : list (list string * bool * bool * string * Z) :=
  [([], false, true, "www.example.com", rtype.A); (["corp.example"], false, false, "git.corp.example", rtype.A);
   ([], false, false, "7.2.0.10.in-addr.arpa", rtype.PTR); ([], true, false, "www.example.com", rtype.A)]%string.

Definition serverless_earlier_winner_blocks_fallback_even_without_other_interfaces : Test () :=
  each routing_steps (fun '(domains, default_route, exclusive, name, rt) =>
    fresh (Engine_new 1);;
    change (set_scopes [exclusive_if exclusive (scope "serverless" [] domains default_route)]);;
    quad9 [];;
    assert_local_resolution name rt Unavailable now).

Definition serverless_search_domain_ends_expansion_without_trying_later_domains : Test () :=
  fresh engine;;
  rescope (fun s => [s; set_metric 50 (set_level Link (scope "vpn" [] ["corp.example"] false))]);;
  quad9 ["extra.example"]%string;;
  assert_local_resolution "printer" rtype.A Unavailable now.

Definition serverless_exclusive_search_ignores_other_and_extra_domains : Test () :=
  fresh engine;;
  rescope (fun s => [s; set_metric 200 (set_level Addressed (set_exclusive (scope "vpn" [] ["corp.example"] false)))]);;
  quad9 ["extra.example"]%string;;
  assert_local_resolution "printer" rtype.A Unavailable now.

Definition serverless_exclusive_without_domains_keeps_single_label_notfound : Test () :=
  fresh engine;;
  rescope (fun s => [s; set_level Addressed (set_exclusive (scope "vpn" [] [] false))]);;
  quad9 ["extra.example"]%string;;
  assert_local_resolution "printer" rtype.A NotFound now.

(** One action, a send to the server. *)
Definition only_sent_to (name : string) (rt now : Z) (server : string) : Test Message :=
  let! actions := resolve_ 1 name rt now in
  length actions == 1%nat;;
  let! (_, s, q) := sent actions in
  s == ip server;;
  ret q.

Definition serverless_routing_ties_keep_snapshot_order : Test () :=
  each routing_steps (fun '(domains, default_route, exclusive, name, rt) =>
    let first_ := exclusive_if exclusive (scope "first" [] domains default_route) in
    let second := exclusive_if exclusive (scope "second" ["10.9.0.1"]%string domains default_route) in
    fresh (Engine_new 1);;
    change (set_scopes [first_; second]);;
    assert_local_resolution name rt Unavailable now;;
    fresh (Engine_new 1);;
    change (set_scopes [second; first_]);;
    let! _ := only_sent_to name rt now "10.9.0.1" in ret ()).

Definition serverless_nonclaimant_is_skipped_at_lowest_metric_step : Test () :=
  fresh (Engine_new 1);;
  change (set_scopes [set_metric 1 (scope "serverless" [] [] false); set_metric 200 (scope "usable" ["10.8.0.1"] [] false)]);;
  quad9 [];;
  let! _ := only_sent_to "www.example.com" rtype.A now "10.8.0.1" in ret ().

Definition serverless_nonclaimant_allows_fallback_when_no_earlier_step_matches : Test () :=
  fresh (Engine_new 1);;
  change (set_scopes [scope "serverless" [] ["corp.example"] false]);;
  quad9 ["extra.example"]%string;;
  let! _ := only_sent_to "www.example.com" rtype.A now "9.9.9.9" in ret ().

Definition below_link_scopes_do_not_route_or_expand_names : Test () :=
  each [[]; ["10.8.0.1"]]%string (fun servers =>
    let ignored := set_exclusive (set_metric 1 (set_level Absent (scope "ignored" servers ["corp.example"]%string true))) in
    each [("www.example.com", rtype.A, "www.example.com"); ("git.corp.example", rtype.A, "git.corp.example");
          ("7.2.0.10.in-addr.arpa", rtype.PTR, "7.2.0.10.in-addr.arpa"); ("printer", rtype.A, "printer.lan")]%string
      (fun '(name, rt, expected) =>
      fresh engine;;
      rescope (fun s => [ignored; s]);;
      let! q := only_sent_to name rt now "10.0.2.3" in
      asks q expected)).

Definition serverless_exclusive_at_link_is_only_an_ordinary_scope : Test () :=
  let vpn := set_exclusive (set_level Link (scope "vpn" [] ["corp.example"] false)) in
  fresh engine;;
  rescope (fun s => [s; vpn]);;
  let! _ := only_sent_to "www.example.com" rtype.A now "10.0.2.3" in
  fresh engine;;
  rescope (fun s => [s; vpn]);;
  assert_local_resolution "git.corp.example" rtype.A Unavailable now.

Definition synthetic_answers_still_precede_a_serverless_exclusive_scope : Test () :=
  fresh engine;;
  change (set_scopes [set_exclusive (scope "vpn" [] ["corp.example"] false)]);;
  let! actions := resolve_ 1 "localhost" rtype.A now in
  length actions == 1%nat;;
  let! a := done_ actions in
  a_outcome a == Found;;
  a_source a == Synthetic;;
  let! d := rdata0 a in
  d == rd_addr "127.0.0.1";;
  let! e := look id in
  c_upstream_sent (counters e) == 0;;
  next_deadline e == None.

(** ** Lookups and abandoning *)

Definition lookup_any (q : Qid) (name : string) (f : Family) (now : Z) : Test (list Action) :=
  act (fun e => lookup_ e q (bytes_of name) f now).

(** The addresses of the last lookup that the actions complete. *)
Definition completed (actions : list Action) (before : option Addresses) : option Addresses :=
  fold_left (fun r a => match a with Done _ (CAddresses x) => Some x | _ => r end) actions before.

(** Reply to each query in turn, with records by its type. *)
Fixpoint reply_each (actions : list Action) (records : Z -> list Record_) (now : Z) (result : option Addresses)
  : Test (option Addresses) :=
  match actions with
  | [] => ret result
  | Send tx _ _ _ payload :: actions =>
      let! q := the (ok (Message_decode payload)) in
      let! question := first (questions q) in
      let! bytes := reply_for q (records (q_rtype question)) 0 in
      let! out := received_ tx bytes now in
      reply_each actions records now (completed out result)
  | _ :: actions => reply_each actions records now result
  end.

Definition lookup_combines_both_families_and_chases_cnames : Test () :=
  fresh engine;;
  let! actions := lookup_any 1 "www.example.com" FAny now in
  length (List.filter is_send actions) == 2%nat;;
  let! result := reply_each actions (fun rt =>
    if rt =? rtype.A then [cname "www.example.com" 60 "example.com"; a_record "example.com" 30 "1.2.3.4"]
    else [cname "www.example.com" 60 "example.com"]) now None in
  let! r := the result in
  ad_outcome r == Found;;
  same_name (ad_canonical r) (n "example.com");;
  ad_addresses r == [(ip "1.2.3.4", 30)].

Definition abandon_cancels_the_transaction : Test () :=
  fresh engine;;
  let! (tx, _, _) := sends 1 "example.com" rtype.A now in
  let! actions := act (fun e => abandon e 1) in
  actions == [Cancel tx];;
  let! k := look in_flight in
  k == 0%nat;;
  ignored tx [] now.

Definition abandon_lookup_cancels_both_families_without_touching_other_askers : Test () :=
  fresh engine;;
  let! queries := lookup_any 1 "gone.example.com" FAny now in
  let! (other, _, _) := sends 2 "stay.example.com" rtype.A now in
  let! k := look in_flight in
  k == 3%nat;;
  let! cancelled := act (fun e => abandon e 1) in
  length cancelled == 2%nat;;
  each queries (fun action =>
    match action with
    | Send tx _ _ _ payload =>
        check (bool_decide (Cancel tx ∈ cancelled));;
        let! query := the (ok (Message_decode payload)) in
        let! bytes := reply_for query [] 0 in
        ignored tx bytes now
    | _ => panic
    end);;
  let! e := look id in
  in_flight e == 1%nat;;
  size (tasks e) == 1%nat;;
  size (lookups e) == 0%nat;;
  let! again := act (fun e => abandon e 1) in
  again == [];;
  let! retried := tick_ (now + SERVER_TIMEOUT) in
  check (bool_decide (Cancel other ∈ retried));;
  length (List.filter is_send retried) == 1%nat.

Definition a_reply_with_the_wrong_question_or_a_dead_transaction_is_ignored : Test () :=
  fresh engine;;
  let! (tx, _, q) := sends 1 "www.example.com" rtype.A now in
  let! b := reply_for (with_question (fun x => mkQuestion (q_name x) rtype.AAAA (q_class x)) q) [] 0 in
  ignored tx b now;;
  let! b := reply_for (mkMessage (header q) (questions q ++ take 1 (questions q)) (answers q) (authority q) (additional q)) [] 0 in
  ignored tx b now;;
  let! b := encoded (with_header (set_response false) q) in
  ignored tx b now;;
  let! b := reply_for q [a_record "www.example.com" 5 "1.2.3.4"] 0 in
  let! actions := received_ tx b now in
  differ actions [];;
  ignored tx b now;;
  ignored (tx + 1000) b now.

(** ** Bounds *)

Definition hostile_ttls_and_missing_soa_are_bounded : Test () :=
  fresh engine;;
  let! (tx, _, q) := sends 1 "long.example.com" rtype.A now in
  let! bytes := reply_for q [a_record "long.example.com" 4294967295 "1.2.3.4"] 0 in
  let! _ := settles tx bytes now in
  let! a := answers_ 2 "long.example.com" rtype.A (now + from_secs (MAX_POSITIVE_TTL - 1)) in
  a_source a == FromCache;;
  let! _ := sends 3 "long.example.com" rtype.A (now + from_secs (MAX_POSITIVE_TTL + 1)) in
  let! (tx, _, q) := sends 4 "gone.example.com" rtype.A now in
  let! bytes := reply_for q [] rcode.NXDOMAIN in
  let! _ := settles tx bytes now in
  let! _ := sends 5 "gone.example.com" rtype.A (now + from_secs 1) in
  let! (tx, _, q) := sends 6 "neg.example.com" rtype.A now in
  let! bytes := encoded (with_authority [soa "example.com" 604800 "a" "b" 604800] (set_rcode rcode.NXDOMAIN (reply_to q))) in
  let! _ := settles tx bytes now in
  let! _ := sends 7 "neg.example.com" rtype.A (now + from_secs (MAX_NEGATIVE_TTL + 1)) in ret ().

Definition a_cname_loop_in_a_lookup_terminates : Test () :=
  fresh engine;;
  let! actions := lookup_any 1 "loop.example.com" FV4 now in
  let! (tx, _, q) := sent actions in
  let! bytes := reply_for q [cname "loop.example.com" 60 "a.example.com"; cname "a.example.com" 60 "b.example.com";
                         cname "b.example.com" 60 "a.example.com"] 0 in
  let! actions := received_ tx bytes now in
  match actions with
  | Done _ (CAddresses a) :: _ => ad_outcome a == Found;; ad_addresses a == []
  | _ => panic
  end.

Definition a_hostname_with_no_addresses_is_loopback : Test () :=
  fresh (Engine_new 1);;
  change (set_hostname (Some (bytes_of "lonely")));;
  let! a := answers_ 1 "lonely" rtype.A now in
  let! d := rdata0 a in
  d == rd_addr "127.0.0.1";;
  let! a := answers_ 2 "lonely" rtype.AAAA now in
  let! d := rdata0 a in
  d == rd_addr "::1".

(** ** Invalidation *)

Definition admission_reply (q : Message) (negative : bool) : Test (list Z) :=
  let m := reply_to q in
  if negative then
    encoded (with_authority [soa "example.com" 60 "ns.example.com" "hostmaster.example.com" 60] (set_rcode rcode.NXDOMAIN m))
  else
    let! name := asked q in
    encoded (with_answers [Record_new name 60 (rd_addr "1.2.3.4")] m).

Definition late_admission_after_invalidation (kind : Z) (negative : bool) : Test () :=
  let outcome := if negative then NotFound else Found in
  fresh engine;;
  (if kind =? 2 then change (set_scopes []);; change (set_fallback [ip "10.0.2.3"] []) else ret ());;
  let! (tx, old_server, q) := sends 1 "late.example.com" rtype.A now in
  (if kind =? 0 then change flush
   else if kind =? 1 then change (set_scopes [scope "lan" ["10.0.2.4"] ["lan"] true]%string)
   else if kind =? 2 then change (set_fallback [ip "10.0.2.4"] [])
   else if kind =? 3 then change (set_scopes []);; change (set_scopes [scope "lan" ["10.0.2.3"] ["lan"] true]%string)
   else panic);;
  let! k := look in_flight in
  k == 1%nat;;
  let at_ := now + millis 100 in
  let! bytes := admission_reply q negative in
  let! a := settles tx bytes at_ in
  a_source a == Dns;;
  a_server a == Some old_server;;
  a_outcome a == outcome;;
  let! e := look id in
  in_flight e == 0%nat;;
  cache_entries e == 0%nat;;
  let at_ := now + millis 200 in
  let! (fresh_tx, server, q) := sends 2 "late.example.com" rtype.A at_ in
  server == ip (if (kind =? 1) || (kind =? 2) then "10.0.2.4" else "10.0.2.3");;
  let! bytes := admission_reply q negative in
  let! _ := settles fresh_tx bytes at_ in
  let! e := look id in
  cache_entries e == 1%nat;;
  let! a := answers_ 3 "late.example.com" rtype.A at_ in
  a_source a == FromCache;;
  a_server a == Some server;;
  a_outcome a == outcome.

Definition flush_prevents_late_positive_admission : Test () := late_admission_after_invalidation 0 false.
Definition flush_prevents_late_negative_admission : Test () := late_admission_after_invalidation 0 true.
Definition changed_scope_prevents_late_positive_admission : Test () := late_admission_after_invalidation 1 false.
Definition changed_scope_prevents_late_negative_admission : Test () := late_admission_after_invalidation 1 true.
Definition changed_fallback_prevents_late_positive_admission : Test () := late_admission_after_invalidation 2 false.
Definition changed_fallback_prevents_late_negative_admission : Test () := late_admission_after_invalidation 2 true.
Definition removed_and_readded_scope_does_not_restore_late_admission : Test () := late_admission_after_invalidation 3 false.

(** The question is answered from the cache. *)
Definition cached_now (q : Qid) (name : string) (now : Z) : Test () :=
  let! a := answers_ q name rtype.A now in a_source a == FromCache.

Definition unchanged_scope_configuration_preserves_pending_admission : Test () :=
  fresh engine;;
  let! (tx, _, q) := sends 1 "same.example.com" rtype.A now in
  rescope (fun s => [mkScope (s_id s) (s_interface s) (s_servers s) [n "other.example"] (s_addresses s)
    (s_default_route s) (s_exclusive s) (s_metric s + 1) (s_level s)]);;
  let! bytes := admission_reply q false in
  let! _ := settles tx bytes now in
  cached_now 2 "same.example.com" now.

Definition unchanged_fallback_servers_preserve_pending_admission : Test () :=
  fresh (Engine_new 42);;
  change (set_fallback [ip "10.0.2.3"] []);;
  let! (tx, _, q) := sends 1 "same.example.com" rtype.A now in
  change (set_fallback [ip "10.0.2.3"] [n "new.example"]);;
  let! bytes := admission_reply q false in
  let! _ := settles tx bytes now in
  cached_now 2 "same.example.com" now.

Definition changing_one_scope_preserves_other_pending_admission : Test () :=
  fresh engine;;
  rescope (fun lan => [lan; scope "vpn" ["10.8.0.1"] ["corp.example"] false]%string);;
  let! (tx, _, q) := sends 1 "same.example.com" rtype.A now in
  rescope (fun lan => [lan; scope "vpn" ["10.9.0.1"] ["corp.example"] false]%string);;
  quad9 [];;
  let! bytes := admission_reply q false in
  let! _ := settles tx bytes now in
  cached_now 2 "same.example.com" now.

Definition late_invalidated_reply_does_not_overwrite_new_request_answer : Test () :=
  fresh engine;;
  let! (old_tx, _, old_q) := sends 1 "race.example.com" rtype.A now in
  change flush;;
  let at_ := now + millis 100 in
  let! (new_tx, _, new_q) := sends 2 "race.example.com" rtype.A at_ in
  let newer := [a_record "race.example.com" 60 "5.6.7.8"] in
  let! bytes := reply_for new_q newer 0 in
  let! _ := settles new_tx bytes at_ in
  let! bytes := admission_reply old_q false in
  let! _ := settles old_tx bytes at_ in
  let! a := answers_ 3 "race.example.com" rtype.A at_ in
  a_source a == FromCache;;
  a_records a == newer.

Definition invalidated_udp_task_stays_uncacheable_through_tcp_retry : Test () :=
  fresh engine;;
  let! (tx, _, q) := sends 1 "tcp.example.com" rtype.A now in
  change flush;;
  let at_ := now + millis 100 in
  let! bytes := truncated_reply q in
  let! actions := received_ tx bytes at_ in
  length actions == 1%nat;;
  sent_over true None actions;;
  let! (tx, _, q) := sent actions in
  let! bytes := admission_reply q false in
  let! a := settles tx bytes at_ in
  a_source a == Dns;;
  let! k := look cache_entries in
  k == 0%nat;;
  let! _ := sends 2 "tcp.example.com" rtype.A at_ in ret ().

Definition invalidated_task_stays_uncacheable_through_timeout_retry : Test () :=
  fresh engine;;
  let! (old_tx, _, _) := sends 1 "retry.example.com" rtype.A now in
  change (set_scopes [scope "lan" ["10.0.2.4"] ["lan"] true]);;
  let at_ := now + SERVER_TIMEOUT in
  let! actions := tick_ at_ in
  check (bool_decide (Cancel old_tx ∈ actions));;
  let! (tx, server, q) := sent actions in
  server == ip "10.0.2.4";;
  let! bytes := admission_reply q false in
  let! a := settles tx bytes at_ in
  a_source a == Dns;;
  let! k := look cache_entries in
  k == 0%nat.

Definition invalidated_task_stays_uncacheable_through_search_candidates : Test () :=
  fresh engine;;
  change (set_scopes [scope "lan" ["10.0.2.3"] ["a.example"; "b.example"] true]);;
  let! (tx, _, q) := sends 1 "printer" rtype.A now in
  change flush;;
  let at_ := now + millis 100 in
  let! bytes := reply_for q [] rcode.NXDOMAIN in
  let! actions := received_ tx bytes at_ in
  let! (tx2, _, q2) := sent actions in
  asks q2 "printer.b.example";;
  let! k := look cache_entries in
  k == 0%nat;;
  let! bytes := admission_reply q2 false in
  let! a := settles tx2 bytes at_ in
  a_source a == Dns;;
  let! k := look cache_entries in
  k == 0%nat;;
  let! _ := sends 2 "printer.b.example" rtype.A at_ in ret ().

Definition flush_keeps_lookup_completion_and_cname_chasing_without_cache_admission : Test () :=
  fresh engine;;
  let! actions := lookup_any 1 "alias.example.com" FAny now in
  length actions == 2%nat;;
  change flush;;
  let! result := reply_each actions (fun rt =>
    if rt =? rtype.A then
      [cname "alias.example.com" 60 "target.example.com"; a_record "target.example.com" 60 "1.2.3.4"]
    else []) (now + millis 100) None in
  let! a := the result in
  ad_outcome a == Found;;
  same_name (ad_canonical a) (n "target.example.com");;
  ad_addresses a == [(ip "1.2.3.4", 60)];;
  let! e := look id in
  cache_entries e == 0%nat;;
  in_flight e == 0%nat;;
  let! actions := tick_ (now + SERVER_TIMEOUT * 2) in
  actions == [].

Definition global_flush_invalidates_all_pending_scopes_including_fallback : Test () :=
  fresh (Engine_new 42);;
  quad9 [];;
  let! fallback := sends 1 "fallback.example.com" rtype.A now in
  change (set_scopes [scope "lan" ["10.0.2.3"] ["lan"] true; scope "vpn" ["10.8.0.1"] ["corp.example"] false]);;
  let! lan := sends 2 "lan.example.com" rtype.A now in
  let! vpn := sends 3 "secret.corp.example" rtype.A now in
  let! k := look in_flight in
  k == 3%nat;;
  change flush;;
  each [fallback; lan; vpn] (fun '(tx, server, q) =>
    let! bytes := admission_reply q false in
    let! a := settles tx bytes (now + millis 100) in
    a_source a == Dns;;
    a_server a == Some server);;
  let! e := look id in
  in_flight e == 0%nat;;
  cache_entries e == 0%nat.

Definition link_local_sends_carry_the_interface_and_health_is_per_scope : Test () :=
  fresh (Engine_new 1);;
  change (set_scopes [scope "lan" ["fe80::53"; "fe80::54"] ["lan"] true; scope "vpn" ["fe80::53"; "fe80::54"] ["vpn"] false]);;
  let! actions := resolve_ 1 "host.lan" rtype.A now in
  let! (tx, _, _) := sent actions in
  sent_over false (Some "lan"%string) actions;;
  let! _ := act (fun e => failed e tx now) in
  let ll := ip "fe80::53" in
  let! e := look id in
  check (is_demoted e ll (bytes_of "lan") now);;
  check (negb (is_demoted e ll (bytes_of "vpn") now));;
  let! actions := resolve_ 2 "host.vpn" rtype.A now in
  let! (tx, server, q) := sent actions in
  server == ll;;
  sent_over false (Some "vpn"%string) actions;;
  let! bytes := encoded (with_header (fun h => set_truncated (set_response true h)) q) in
  let! actions := received_ tx bytes now in
  sent_over true (Some "vpn"%string) actions.

(** ** All of them pass *)

Definition tests : list (Test ()) :=
  [stub_names_preserve_wire_labels_and_count_once;
   empty_lookup_keeps_expansion_and_cname_target;
   stub_single_label_with_embedded_dot_uses_search_domain;
   lookup_metadata_prefers_addresses_then_a_in_either_completion_order;
   unrelated_zero_ttl_records_do_not_escape_or_prevent_caching;
   relevant_chain_preserves_server_order_and_stops_explicit_cname_and_any;
   relevant_chain_is_bounded_and_does_not_revisit_aliases;
   negative_soa_must_have_the_right_class_and_enclose_the_effective_name;
   entropy_failure_sends_nothing_and_releases_the_lookup;
   each_attempt_draws_fresh_id_and_case_bytes_including_long_names;
   case_entropy_consumes_low_bits_only_for_ascii_letters;
   local_answers_do_not_need_upstream_entropy;
   localhost_hostname_and_hosts_are_synthetic;
   shared_static_reverse_is_stable_across_host_table_rebuilds;
   an_upstream_answer_is_returned_and_cached_per_scope;
   an_expired_answer_is_removed_from_the_cache_count_on_lookup;
   a_forged_reply_is_ignored;
   local_send_failures_preserve_bounded_retries_without_server_demotion;
   timeouts_walk_servers_then_give_up_unavailable;
   expanded_nodata_cname_uses_the_negative_lifetime_and_ages_with_the_cache;
   nxdomain_is_negative_cached_and_servfail_moves_on;
   truncation_retries_over_tcp;
   nxdomain_moves_to_the_next_candidate_without_spending_the_budget;
   more_search_candidates_than_attempts_are_all_asked;
   truncation_retry_consumes_the_question_budget;
   final_budgeted_attempt_can_still_complete_successfully;
   single_labels_are_expanded_and_never_sent_bare;
   routing_prefers_domain_match_then_default_route_then_exclusive_takes_all;
   fallback_servers_only_when_no_interface_supplies_any;
   serverless_exclusive_scope_blocks_other_scopes_and_fallback;
   serverless_link_scope_wins_longest_matching_domain;
   serverless_subnet_winner_does_not_use_another_scope;
   serverless_default_claimant_blocks_lower_metric_nonclaimant;
   serverless_lower_metric_default_claimant_still_wins;
   serverless_earlier_winner_blocks_fallback_even_without_other_interfaces;
   serverless_search_domain_ends_expansion_without_trying_later_domains;
   serverless_exclusive_search_ignores_other_and_extra_domains;
   serverless_exclusive_without_domains_keeps_single_label_notfound;
   serverless_routing_ties_keep_snapshot_order;
   serverless_nonclaimant_is_skipped_at_lowest_metric_step;
   serverless_nonclaimant_allows_fallback_when_no_earlier_step_matches;
   below_link_scopes_do_not_route_or_expand_names;
   serverless_exclusive_at_link_is_only_an_ordinary_scope;
   synthetic_answers_still_precede_a_serverless_exclusive_scope;
   lookup_combines_both_families_and_chases_cnames;
   abandon_cancels_the_transaction;
   abandon_lookup_cancels_both_families_without_touching_other_askers;
   a_reply_with_the_wrong_question_or_a_dead_transaction_is_ignored;
   hostile_ttls_and_missing_soa_are_bounded;
   a_cname_loop_in_a_lookup_terminates;
   a_hostname_with_no_addresses_is_loopback;
   flush_prevents_late_positive_admission;
   flush_prevents_late_negative_admission;
   changed_scope_prevents_late_positive_admission;
   changed_scope_prevents_late_negative_admission;
   changed_fallback_prevents_late_positive_admission;
   changed_fallback_prevents_late_negative_admission;
   removed_and_readded_scope_does_not_restore_late_admission;
   unchanged_scope_configuration_preserves_pending_admission;
   unchanged_fallback_servers_preserve_pending_admission;
   changing_one_scope_preserves_other_pending_admission;
   late_invalidated_reply_does_not_overwrite_new_request_answer;
   invalidated_udp_task_stays_uncacheable_through_tcp_retry;
   invalidated_task_stays_uncacheable_through_timeout_retry;
   invalidated_task_stays_uncacheable_through_search_candidates;
   flush_keeps_lookup_completion_and_cname_chasing_without_cache_admission;
   global_flush_invalidates_all_pending_scopes_including_fallback;
   link_local_sends_carry_the_interface_and_health_is_per_scope].

Definition passes (t : Test ()) : bool := match t (Engine_new 0) with Some _ => true | None => false end.

Lemma engine_tests_pass : forallb passes tests = true.
Proof. vm_compute. reflexivity. Qed.
