(* ===== verification/FuzzEngineProofs.v ===== *)
(** * The engine's fuzz target never fails

    What the harness observes of a step (the packets it is given and the
    transactions they belong to), the harness's own invariant, and that every
    operation of a script keeps it. *)

From S2P Require Import Prelude Net Names Message MessageProofs Cache EngineState Records Routing Engine EngineInv EngineStep EngineRun EngineMachine EngineFlow EngineFacts IpText Msgpack MsgpackProofs NativeWire NativeWireProofs Present EngineAnswers EngineTruth FuzzEngine.
Local Open Scope Z_scope.

(** ** Packets *)

Definition query_packet (x : Tx) : list Z := message_wire (Message_query (x_dns_id x) (x_question x)).

Definition is_packet (b : list Z) : Prop := exists x, tx_ok x /\ b = query_packet x.

(** At most [k] packets are sent, each the query of a transaction; every
    transaction that was not there before was sent. *)
Record carries (k : nat) (e e' : Engine) (acts : list Action) : Prop := mk_carries {
  ca_old : forall tx x, txs e' !! tx = Some x -> txs e !! tx = Some x \/
    exists server itf tcp, Send tx server itf tcp (query_packet x) ∈ acts;
  ca_new : forall tx server itf tcp payload, Send tx server itf tcp payload ∈ acts -> is_packet payload;
  ca_count : (length (sends acts) <= k)%nat;
}.

Lemma carries_nothing e e' : txs e' ⊆ txs e -> carries 0 e e' [].
Proof.
  intros Hs. split; [|by intros ? ? ? ? ? ?%elem_of_nil|done].
  intros tx x Hx. left. by apply (lookup_weaken _ _ _ _ Hx).
Qed.

Lemma carries_app k1 k2 e e1 e2 a b :
  carries k1 e e1 a -> carries k2 e1 e2 b -> carries (k1 + k2) e e2 (a ++ b).
Proof.
  intros [O1 N1 C1] [O2 N2 C2]. split.
  - intros tx x Hx. destruct (O2 tx x Hx) as [Hx1|(s & i & t & Hin)].
    + destruct (O1 tx x Hx1) as [?|(s & i & t & Hin)]; [by left|right].
      exists s, i, t. apply elem_of_app. by left.
    + right. exists s, i, t. apply elem_of_app. by right.
  - intros tx s i t p [Hin|Hin]%elem_of_app; [by eapply N1|by eapply N2].
  - rewrite sends_app, length_app. lia.
Qed.

Lemma carries_weaken k k' e e' acts : (k <= k')%nat -> carries k e e' acts -> carries k' e e' acts.
Proof. intros Hk [? ? ?]. split; [done..|lia]. Qed.

Lemma carries_frame k e e0 e' acts : txs e0 ⊆ txs e -> carries k e0 e' acts -> carries k e e' acts.
Proof.
  intros Hs [O N C]. split; try done. intros tx x Hx.
  destruct (O tx x Hx) as [Hx0|?]; [left; by apply (lookup_weaken _ _ _ _ Hx0)|by right].
Qed.

Lemma no_sends acts tx server itf tcp payload :
  sends acts = [] -> Send tx server itf tcp payload ∈ acts -> False.
Proof.
  intros Hs Hin. assert (tx ∈ sends acts) as Hbad by (apply list_elem_of_omap; by eexists).
  rewrite Hs in Hbad. by apply elem_of_nil in Hbad.
Qed.

Lemma carries_outcome id e e' acts : outcome_of id e e' acts -> carries 1 e e' acts.
Proof.
  intros [t t' x server itf tcp payload Ht Hs _ Hok _ _ _ _ Hxs _ _ _ _ _ Hp|t answer acts' Ht _ Hxs _ Hd].
  - split; [|intros ? ? ? ? ? [= -> -> -> -> ->]%list_elem_of_singleton; by exists x|done].
    intros tx y. rewrite Hxs, lookup_insert_Some. intros [[<- <-]|[_ Hy]]; [right|by left].
    exists server, itf, tcp. rewrite Hp. by apply list_elem_of_singleton.
  - destruct (deliver_sends _ _ _ _ _ _ _ Hd) as [Hse _]. split.
    + intros tx y. rewrite Hxs. by left.
    + intros ? ? ? ? ? Hin. by destruct (no_sends _ _ _ _ _ _ Hse Hin).
    + rewrite Hse. simpl. lia.
Qed.

Lemma carries_event e tx x r : txs e !! tx = Some x -> event_ok x e r -> carries 1 e r.1 r.2.
Proof.
  intros Hx Hev. destruct (ev_outcome _ _ _ Hev tx Hx) as (e1 & t & _ & _ & Hxs & _ & _ & Ho).
  apply (carries_frame _ _ e1); [rewrite Hxs; apply delete_subseteq|]. by eapply carries_outcome.
Qed.

Lemma failed_carries e tx now : Inv ∅ e -> carries 1 e (failed e tx now).1 (failed e tx now).2.
Proof.
  intros HI. destruct (txs e !! tx) as [x|] eqn:Hx; [by eapply carries_event, failed_event|].
  rewrite failed_absent by done. apply (carries_weaken 0); [lia|by apply carries_nothing].
Qed.

Lemma expire_all_carries now ids : forall e, Inv ∅ e ->
  carries (length ids) e (for_each (expire_one now) ids e).1 (for_each (expire_one now) ids e).2.
Proof.
  induction ids as [|tx ids IH]; intros e HI; cbn [for_each]; [by apply carries_nothing|].
  pose proof (expire_one_keeps e tx now HI) as [HI1 _]. unfold expire_one in *.
  pose proof (failed_carries e tx now HI) as Hc. destruct (failed e tx now) as [e1 a1]. cbn [fst snd] in *.
  specialize (IH e1 HI1). destruct (for_each _ ids e1) as [e2 a2].
  apply (carries_app 0 (1 + length ids) e e e2 [Cancel tx]); [|by eapply carries_app].
  split; [by left|by intros ? ? ? ? ? ?%list_elem_of_singleton|done].
Qed.

Section questions.
Context `{MapOrder}.

Lemma advance_carries idle id e now :
  Inv idle e -> id ∈ idle -> is_fresh e id -> carries 1 e (advance e id now).1 (advance e id now).2.
Proof.
  intros HI Hid (t & Ht & Hcur & Hcs & Ha).
  destruct (co_idle_live _ _ _ _ _ (inv_core _ _ HI) id Hid) as (t0 & ? & ?). simplify_eq.
  assert (focus id t e) as Hf.
  { split; [done|done|by apply (co_tasks _ _ _ _ _ (inv_core _ _ HI) id)|apply HI]. }
  eapply carries_outcome. exact (so_outcome _ _ _ _ (advance_step id e t now Hf Hcur Hcs Ha)).
Qed.

Lemma advance_all_carries ids now : forall e,
  NoDup ids -> Inv (list_to_set ids) e -> Forall (is_fresh e) ids ->
  carries (length ids) e (for_each (fun e id => advance e id now) ids e).1
    (for_each (fun e id => advance e id now) ids e).2.
Proof.
  induction ids as [|id ids IH]; intros e Hnd HI Hfr; cbn [for_each]; [by apply carries_nothing|].
  apply NoDup_cons in Hnd as [Hni Hnd]. apply Forall_cons in Hfr as [Hf Hfr].
  pose proof (advance_carries (list_to_set (id :: ids)) id e now HI ltac:(set_solver) Hf) as Hc.
  destruct (advance_fresh_rest id ids e now HI Hni Hf Hfr) as [HI1 Hfr1].
  destruct (advance e id now) as [e1 a1]. cbn [fst snd] in *.
  specialize (IH e1 Hnd HI1 Hfr1). destruct (for_each _ ids e1) as [e2 a2].
  by apply (carries_app 1 (length ids) e e1 e2).
Qed.

Lemma resolve_name_carries e q name rt nc now :
  Inv ∅ e -> ~ live e q -> Name_wf name -> is_u16 rt ->
  carries 1 e (resolve_name e q name rt nc now).1 (resolve_name e q name rt nc now).2.
Proof.
  intros HI Hq Hn Hrt. unfold resolve_name, start_task. cbn [Engine.fresh_id].
  set (id := next_id e). set (t := fresh_task (OResolve q) name rt nc). set (e1 := put_tasks _ _).
  assert (Inv {[id]} e1) as HI1.
  { destruct HI as [HC Hca Hcf]. split; [|done|by apply (Config_same e)].
    apply (core_add_resolve _ _ _ _ _ q name rt nc) in HC; [|done..|].
    - by rewrite union_empty_r_L in HC.
    - intros j t' Hj Ho. apply Hq. by exists j, t'. }
  apply (carries_frame _ _ e1); [done|]. eapply advance_carries; [done|set_solver|].
  exists t. split; [apply lookup_insert_eq|done].
Qed.

Lemma resolve_carries e q name rt nc now :
  Inv ∅ e -> ~ live e q -> bytes_ok name -> is_u16 rt ->
  carries 1 e (resolve e q name rt nc now).1 (resolve e q name rt nc now).2.
Proof.
  intros HI Hq Hn Hrt. unfold resolve. destruct (Name_parse name) as [n|] eqn:Hp; cbn [ok].
  - apply Name_parse_wf in Hp; [|done]. apply (carries_frame _ _ (count add_queries e)); [done|].
    apply resolve_name_carries; try done. by apply (Inv_frame _ e).
  - split; [by left|by intros ? ? ? ? ? ?%list_elem_of_singleton|simpl; lia].
Qed.

Lemma lookup_carries e q name family now :
  Inv ∅ e -> ~ live e q -> bytes_ok name ->
  carries 2 e (lookup_ e q name family now).1 (lookup_ e q name family now).2.
Proof.
  intros HI Hq Hn. unfold lookup_.
  assert (Inv ∅ (count add_queries e)) as HI0 by (by apply (Inv_frame _ e)).
  destruct (Name_parse name) as [n|] eqn:Hp; cbn [ok].
  2:{ split; [by left|by intros ? ? ? ? ? ?%list_elem_of_singleton|simpl; lia]. }
  apply Name_parse_wf in Hp; [|done].
  pose proof (lookup_started (count add_queries e) q n (family_types family) HI0 Hq Hp
    (family_types_u16 family) (family_types_ne family)) as Hst.
  destruct (start_tasks _ _ _ _) as [e1 ids].
  destruct Hst as [HI2 Hnd Hfr Hlen _ _ _ _ _ _ Hx _]. set (e2 := put_lookups _ e1) in *.
  apply (carries_frame _ _ e2); [by rewrite Hx|].
  apply (carries_weaken (length ids)); [rewrite Hlen; destruct family; simpl; lia|].
  by apply advance_all_carries.
Qed.

Lemma received_carries e tx bytes now :
  Inv ∅ e -> carries 1 e (received e tx bytes now).1 (received e tx bytes now).2.
Proof.
  intros HI. destruct (response_matches e tx bytes) eqn:Hm.
  - destruct (response_matches_live _ _ _ Hm) as [x Hx]. by eapply carries_event, received_event.
  - rewrite received_ignored by done. apply (carries_weaken 0); [lia|by apply carries_nothing].
Qed.
End questions.

(** ** Applying actions *)

Definition packet_in (acts : list Action) (tx : Txid) (b : list Z) : Prop :=
  exists server itf tcp, Send tx server itf tcp b ∈ acts.

Lemma packet_in_sends acts tx b : packet_in acts tx b -> tx ∈ sends acts.
Proof. intros (s & i & t & Hin). apply list_elem_of_omap. by eexists. Qed.

Lemma sound_holds c : completion_sound c -> completion_holds c = true.
Proof.
  destruct c as [a|a]; simpl.
  - intros [_ _ Hc He]. apply andb_true_iff. split.
    + apply orb_true_iff. rewrite !bool_decide_eq_true. destruct (a_outcome a); auto; right; by apply He.
    + apply forallb_forall. intros r Hr%list_elem_of_In. rewrite Forall_forall in Hc. apply Z.eqb_eq. by apply Hc.
  - intros [_ He]. apply orb_true_iff. rewrite !bool_decide_eq_true.
    destruct (ad_outcome a); auto; right; by apply He.
Qed.

Lemma size_add_le (tx : Txid) (X Y : gset Txid) :
  (size (({[tx]} ∪ X) ∖ Y) <= S (size (X ∖ Y)))%nat.
Proof.
  etrans; [apply (subseteq_size _ ({[tx]} ∪ X ∖ Y)); set_solver|].
  rewrite size_union_alt, size_singleton. apply le_n_S, subseteq_size. set_solver.
Qed.

(** The actions of a step are applied without a failed assertion; what the
    harness then holds. *)
Record applied (acts : list Action) (open open' : gmap Txid (list Z)) (answered answered' : gmap Qid Z)
  : Prop := mk_applied {
  ap_from : forall tx b, open' !! tx = Some b ->
    packet_in acts tx b \/ (open !! tx = Some b /\ tx ∉ cancels acts);
  ap_to : forall tx, (is_Some (open !! tx) /\ tx ∉ cancels acts) \/ tx ∈ sends acts -> is_Some (open' !! tx);
  ap_size : (size open' <= size (dom open ∖ list_to_set (cancels acts)) + length (sends acts))%nat;
  ap_count : forall q, answered' !! q =
    if decide (q ∈ dones acts) then Some (default 0 (answered !! q) + 1) else answered !! q;
}.

Lemma apply_ok acts : forall open answered,
  Forall action_sound acts -> NoDup (sends acts) -> NoDup (dones acts) ->
  (forall tx, tx ∈ sends acts -> open !! tx = None /\ tx ∉ cancels acts) ->
  exists open' answered', apply_actions acts open answered = Some (open', answered') /\
    applied acts open open' answered answered'.
Proof.
  induction acts as [|a acts IH]; intros open answered Hs Hns Hnd Hfr.
  { exists open, answered. split; [done|]. split; simpl.
    - intros tx b Hb. right. split; [done|apply not_elem_of_nil].
    - intros tx [[? _]|?%elem_of_nil]; done.
    - rewrite difference_empty_L, size_dom. lia.
    - done. }
  apply Forall_cons in Hs as [Ha Hs]. destruct a as [tx server itf tcp payload|tx|q c].
  - change (sends (Send tx server itf tcp payload :: acts)) with (tx :: sends acts) in *.
    apply NoDup_cons in Hns as [Hni Hns]. destruct (Hfr tx) as [Hnone Hnc]; [by left|].
    change (cancels (Send tx server itf tcp payload :: acts)) with (cancels acts) in *.
    change (dones (Send tx server itf tcp payload :: acts)) with (dones acts) in *.
    cbn [apply_actions]. rewrite bool_decide_eq_false_2 by (rewrite Hnone; by intros []).
    destruct (IH (<[tx := payload]> open) answered Hs Hns Hnd) as (o' & an' & E & [Af At As Ac]).
    { intros y Hy. destruct (Hfr y) as [? ?]; [by right|]. split; [|done].
      rewrite lookup_insert_ne; [done|]. by intros ->. }
    exists o', an'. split; [exact E|]. split; [| | |done].
    + intros y b Hb. destruct (Af y b Hb) as [(s & i & t & Hin)|[Hy Hc]].
      * left. exists s, i, t. by right.
      * apply lookup_insert_Some in Hy as [[<- <-]|[_ Hy]]; [left|by right].
        exists server, itf, tcp. by left.
    + intros y Hy. apply At. rewrite lookup_insert_is_Some'.
      change (sends (Send tx server itf tcp payload :: acts)) with (tx :: sends acts) in Hy.
      rewrite elem_of_cons in Hy. destruct Hy as [[? ?]|[->|?]]; auto.
    + etrans; [exact As|]. rewrite dom_insert_L.
      change (sends (Send tx server itf tcp payload :: acts)) with (tx :: sends acts).
      change (length (tx :: sends acts)) with (S (length (sends acts))).
      change (cancels (Send tx server itf tcp payload :: acts)) with (cancels acts).
      pose proof (size_add_le tx (dom open) (list_to_set (cancels acts))). lia.
  - change (sends (Cancel tx :: acts)) with (sends acts) in *.
    change (cancels (Cancel tx :: acts)) with (tx :: cancels acts) in *.
    change (dones (Cancel tx :: acts)) with (dones acts) in *. cbn [apply_actions].
    destruct (IH (delete tx open) answered Hs Hns Hnd) as (o' & an' & E & [Af At As Ac]).
    { intros y Hy. destruct (Hfr y Hy) as [Hn Hc]. split; [|set_solver]. apply lookup_delete_None. by right. }
    exists o', an'. split; [exact E|]. split; [| | |done].
    + intros y b Hb. destruct (Af y b Hb) as [(s & i & t & Hin)|[Hy Hc]].
      * left. exists s, i, t. by right.
      * right. apply lookup_delete_Some in Hy as [? ?]. split; [done|]. set_solver.
    + intros y Hy. apply At. destruct Hy as [[Hy Hc]|Hy]; [left|by right].
      rewrite lookup_delete_is_Some. set_solver.
    + etrans; [exact As|]. rewrite dom_delete_L. apply Nat.add_le_mono_r, subseteq_size. set_solver.
  - change (sends (Done q c :: acts)) with (sends acts) in *.
    change (cancels (Done q c :: acts)) with (cancels acts) in *.
    change (dones (Done q c :: acts)) with (q :: dones acts) in *. cbn [apply_actions].
    apply NoDup_cons in Hnd as [Hni Hnd]. rewrite (sound_holds c Ha).
    destruct (IH open (<[q := default 0 (answered !! q) + 1]> answered) Hs Hns Hnd Hfr)
      as (o' & an' & E & [Af At As Ac]).
    exists o', an'. split; [exact E|]. split; [|done|done|].
    + intros y b Hb. destruct (Af y b Hb) as [(s & i & t & Hin)|Hy]; [left|by right].
      exists s, i, t. by right.
    + intros q'. rewrite Ac. destruct (decide (q' = q)) as [->|Hne].
      * rewrite decide_False by done. rewrite decide_True by (by left). by rewrite lookup_insert_eq.
      * rewrite lookup_insert_ne by done. destruct (decide (q' ∈ dones acts)).
        -- rewrite decide_True by (by right). done.
        -- rewrite decide_False; [done|]. by intros [?|?]%elem_of_cons.
Qed.

(** ** The harness's invariant

    [n] counts the operations so far. *)

Record FInv (n : nat) (s : Fuzz) : Prop := mk_FInv {
  fi_inv : Inv ∅ (fz_engine s);
  fi_truth : Truth (fz_now s) (fz_engine s);
  fi_live : forall tx x, txs (fz_engine s) !! tx = Some x -> fz_open s !! tx = Some (query_packet x);
  fi_packets : forall tx b, fz_open s !! tx = Some b -> is_packet b /\ tx < next_id (fz_engine s);
  fi_size : (size (fz_open s) <= 2 * n)%nat;
  fi_asked : forall q, q ∈ fz_asked s -> q <= fz_qid s;
  fi_known : forall q, live (fz_engine s) q -> q ∈ fz_asked s;
  fi_waiting : forall q, live (fz_engine s) q -> fz_answered s !! q = None;
  fi_answered : forall q, q ∈ fz_asked s -> live (fz_engine s) q \/ fz_answered s !! q = Some 1;
  fi_unasked : forall q, q ∉ fz_asked s -> fz_answered s !! q = None;
}.

Lemma packet_unique acts tx s i t b s' i' t' b' :
  NoDup (sends acts) -> Send tx s i t b ∈ acts -> Send tx s' i' t' b' ∈ acts -> b = b'.
Proof.
  induction acts as [|a acts IH]; intros Hnd Hb Hb'; [by apply elem_of_nil in Hb|].
  assert (forall s i t b, a = Send tx s i t b -> forall s' i' t' b', Send tx s' i' t' b' ∈ acts -> False) as Hno.
  { intros ? ? ? ? -> ? ? ? ? Hin.
    change (sends (Send tx s0 i0 t0 b0 :: acts)) with (tx :: sends acts) in Hnd.
    apply NoDup_cons in Hnd as [Hni _]. apply Hni. apply (packet_in_sends acts tx b'0). by eexists _, _, _. }
  assert (NoDup (sends acts)) as Hnd'.
  { destruct a; simpl in Hnd; [by apply NoDup_cons in Hnd as [_ ?]|done..]. }
  apply elem_of_cons in Hb as [Hb|Hb], Hb' as [Hb'|Hb'].
  - congruence.
  - by destruct (Hno _ _ _ _ (eq_sym Hb) _ _ _ _ Hb').
  - by destruct (Hno _ _ _ _ (eq_sym Hb') _ _ _ _ Hb).
  - by apply IH.
Qed.

Definition asks_for (i : Input) (s : Fuzz) : gset Qid :=
  match opened i with Some q => {[q]} ∪ fz_asked s | None => fz_asked s end.
Definition next_qid (i : Input) (s : Fuzz) : Z := default (fz_qid s) (opened i).

Section step.
Context `{MapOrder} (n m : nat) (s : Fuzz) (i : Input) (now : Z) (open : gmap Txid (list Z)).
Context (gone : Txid -> Prop) (k : nat).
Hypothesis HF : FInv n s.
Hypothesis Hwf : input_wf i.
Hypothesis Hty : input_typed i.
Hypothesis Hnow : until now i /\ fz_now s <= now.
Hypothesis Hopened : forall q, opened i = Some q -> q = fz_qid s + 1.
Hypothesis Hab : abandoned i = None.
Let e := fz_engine s.
Let r := step e i.
Hypothesis Hflows : flows gone (fun _ => False) e r.1 r.2.
Hypothesis Hcarries : carries k e r.1 r.2.
Hypothesis Hopen : open ⊆ fz_open s.
Hypothesis Hkept : forall tx, is_Some (fz_open s !! tx) -> is_Some (open !! tx) \/ gone tx.
Hypothesis Hcancel : forall tx, tx ∈ cancels r.2 -> tx < next_id e.
Hypothesis Hsize : (size (dom open ∖ list_to_set (cancels r.2)) + k <= 2 * m)%nat.

Lemma not_asked_live q : opened i = Some q -> ~ live e q.
Proof.
  intros Hq Hl. apply (fi_known _ _ HF), (fi_asked _ _ HF) in Hl. rewrite (Hopened q Hq) in Hl. lia.
Qed.

Lemma step_apply :
  exists open' answered', apply_actions r.2 open (fz_answered s) = Some (open', answered') /\
    applied r.2 open open' (fz_answered s) answered'.
Proof.
  apply apply_ok.
  - apply (step_truth now e i); [apply HF|done|done|apply Hnow|apply not_asked_live|].
    apply (Truth_later (fz_now s)); [apply Hnow|apply HF].
  - apply (fl_nodup _ _ _ _ _ Hflows).
  - apply (ac_nodup i e), step_accounted; [apply HF|done|apply not_asked_live].
  - intros tx Htx. pose proof (fl_fresh _ _ _ _ _ Hflows tx Htx) as Hfr. split.
    + destruct (open !! tx) as [b|] eqn:Hb; [|done].
      pose proof (lookup_weaken _ _ _ _ Hb Hopen) as Hb'.
      destruct (fi_packets _ _ HF _ _ Hb') as [_ Hlt]. fold e in Hlt. lia.
    + intros Hc%Hcancel. lia.
Qed.

Lemma step_open open' answered' :
  applied r.2 open open' (fz_answered s) answered' ->
  (forall tx x, txs r.1 !! tx = Some x -> open' !! tx = Some (query_packet x)) /\
  (forall tx b, open' !! tx = Some b -> is_packet b /\ tx < next_id r.1).
Proof.
  intros [Af At _ _]. pose proof (inv_core _ _ (fi_inv _ _ HF)) as HC. fold e in HC.
  pose proof (fl_fresh _ _ _ _ _ Hflows) as Hfresh. pose proof (fl_next _ _ _ _ _ Hflows) as Hnext.
  assert (forall tx b, open !! tx = Some b -> fz_open s !! tx = Some b /\ is_packet b /\ tx < next_id e) as Hold.
  { intros tx b Hb. pose proof (lookup_weaken _ _ _ _ Hb Hopen) as Hb'. split; [done|].
    by apply (fi_packets _ _ HF). }
  split.
  - intros tx x Hx. destruct (ca_old _ _ _ _ Hcarries tx x Hx) as [Hx0|(sv & itf & tcp & Hin)].
    + assert (tx ∉ sends r.2) as Hns.
      { intros Hs%Hfresh. pose proof (co_tx_id _ _ _ _ _ HC tx (mk_is_Some _ _ Hx0)). lia. }
      assert (~ gone tx) as Hng.
      { destruct (proj1 (fl_txs _ _ _ _ _ Hflows tx) (mk_is_Some _ _ Hx)) as [[_ ?]|?]; done. }
      pose proof (fi_live _ _ HF tx x Hx0) as Hp.
      destruct (Hkept tx (mk_is_Some _ _ Hp)) as [Hk|?]; [|done].
      assert (tx ∉ cancels r.2) as Hnc by (intros Hc%(fl_cancels _ _ _ _ _ Hflows); done).
      destruct (At tx (or_introl (conj Hk Hnc))) as [b Hb]. rewrite Hb. f_equal.
      destruct (Af tx b Hb) as [Hpk|[Ho _]]; [by apply packet_in_sends in Hpk|].
      apply Hold in Ho as [Ho _]. congruence.
    + assert (packet_in r.2 tx (query_packet x)) as Hpk by (by exists sv, itf, tcp).
      pose proof (packet_in_sends _ _ _ Hpk) as Hs.
      destruct (At tx (or_intror Hs)) as [b Hb]. rewrite Hb. f_equal.
      destruct (Af tx b Hb) as [(sv' & itf' & tcp' & Hin')|[Ho _]].
      * exact (packet_unique _ _ _ _ _ _ _ _ _ _ (fl_nodup _ _ _ _ _ Hflows) Hin' Hin).
      * apply Hold in Ho as (_ & _ & Hlt). apply Hfresh in Hs. lia.
  - intros tx b Hb. destruct (Af tx b Hb) as [Hpk|[Ho _]].
    + pose proof (packet_in_sends _ _ _ Hpk) as Hs. destruct Hpk as (sv & itf & tcp & Hin).
      split; [by eapply (ca_new _ _ _ _ Hcarries)|]. apply Hfresh in Hs. lia.
    + apply Hold in Ho as (_ & Hp & Hlt). split; [done|lia].
Qed.

Lemma step_counts open' answered' :
  applied r.2 open open' (fz_answered s) answered' ->
  (forall q, q ∈ asks_for i s -> q <= next_qid i s) /\
  (forall q, live r.1 q -> q ∈ asks_for i s) /\
  (forall q, live r.1 q -> answered' !! q = None) /\
  (forall q, q ∈ asks_for i s -> live r.1 q \/ answered' !! q = Some 1) /\
  (forall q, q ∉ asks_for i s -> answered' !! q = None).
Proof.
  intros [_ _ _ Ac].
  destruct (step_accounted e i (fi_inv _ _ HF) Hwf not_asked_live) as [_ Hnd Hfrom Hto Honce]. fold r in Hnd, Hfrom, Hto, Honce.
  assert (forall q, q ∈ asks_for i s <-> q ∈ fz_asked s \/ opened i = Some q) as Hask.
  { intros q. unfold asks_for. destruct (opened i) as [q0|]; [|naive_solver].
    rewrite elem_of_union, elem_of_singleton. naive_solver. }
  assert (forall q, live e q -> q ∈ fz_asked s) as Hk by apply HF.
  assert (forall q, opened i = Some q -> q ∉ fz_asked s) as Hnew.
  { intros q Hq Hin. apply (fi_asked _ _ HF) in Hin. rewrite (Hopened q Hq) in Hin. lia. }
  assert (forall q, live e q \/ opened i = Some q -> fz_answered s !! q = None) as Hnone.
  { intros q [Hl|Hq]; [by apply (fi_waiting _ _ HF)|by apply (fi_unasked _ _ HF), Hnew]. }
  split_and!.
  - intros q [Hq%(fi_asked _ _ HF)|Hq]%Hask; unfold next_qid.
    + destruct (opened i) as [q0|] eqn:E; simpl; [rewrite (Hopened q0 eq_refl); lia|done].
    + rewrite Hq. simpl. lia.
  - intros q Hl. apply Hask. destruct (Hfrom q (or_introl Hl)) as [?%Hk|?]; tauto.
  - intros q Hl. rewrite Ac, decide_False by (by apply Honce). apply Hnone. by apply Hfrom; left.
  - intros q Hq. assert (live e q \/ opened i = Some q \/ fz_answered s !! q = Some 1) as Hcase.
    { apply Hask in Hq as [Hq|?]; [|tauto]. destruct (fi_answered _ _ HF q Hq); tauto. }
    assert (live e q \/ opened i = Some q -> live r.1 q \/ q ∈ dones r.2) as Hgo.
    { intros Hor. destruct (Hto q Hor) as [?|[?|Hbad]]; [tauto|tauto|]. by rewrite Hab in Hbad. }
    rewrite Ac. destruct (decide (q ∈ dones r.2)) as [Hd|Hd].
    + right. rewrite Hnone; [done|]. apply Hfrom. by right.
    + destruct Hcase as [Hl|[Ho|Ha]]; [left|left|by right]; destruct Hgo; tauto.
  - intros q Hq. rewrite Ac. destruct (decide (q ∈ dones r.2)) as [Hd|Hd].
    + exfalso. apply Hq, Hask. destruct (Hfrom q (or_intror Hd)) as [?%Hk|?]; tauto.
    + apply (fi_unasked _ _ HF). intros Hin. apply Hq, Hask. by left.
Qed.

Lemma step_applies :
  exists open' answered', apply_actions r.2 open (fz_answered s) = Some (open', answered') /\
    FInv m (mkFuzz r.1 now open' (asks_for i s) answered' (next_qid i s)).
Proof.
  destruct step_apply as (open' & answered' & E & Hap). exists open', answered'. split; [exact E|].
  destruct (step_open _ _ Hap) as [Hlive Hpk].
  destruct (step_counts _ _ Hap) as (Ha1 & Ha2 & Ha3 & Ha4 & Ha5).
  split; try done; cbn [fz_engine fz_now fz_open].
  - apply (ac_inv i e), step_accounted; [apply HF|done|apply not_asked_live].
  - apply (step_truth now e i); [apply HF|done|done|apply Hnow|apply not_asked_live|].
    apply (Truth_later (fz_now s)); [apply Hnow|apply HF].
  - pose proof (ap_size _ _ _ _ _ Hap). pose proof (ca_count _ _ _ _ Hcarries). lia.
Qed.
End step.

(** ** Bytes of messages *)

Ltac wire_bytes :=
  repeat first [apply be_bytes_ok|by apply name_wire_ok|apply bytes_ok_app; split].

Lemma txts_wire_ok ss : Forall txt_ok ss -> bytes_ok (concat (map txt_wire ss)).
Proof.
  induction 1 as [|s ss [Hl Hs] _ IH]; simpl; [constructor|]. constructor; [unfold is_u8, in_width; lia|].
  by apply bytes_ok_app.
Qed.

Lemma rdata_wire_ok rt rd : rdata_wf rt rd -> bytes_ok (rdata_wire rd).
Proof.
  destruct rd; cbn [rdata_wf rdata_wire]; intros Hw; destruct_and?; wire_bytes; try done.
  by apply txts_wire_ok.
Qed.

Lemma record_wire_ok r : Record_wf r -> bytes_ok (record_wire r).
Proof.
  intros (Hn & _ & _ & _ & Hw). unfold record_wire. wire_bytes. by eapply rdata_wire_ok.
Qed.

Lemma concat_ok {A} (f : A -> list Z) l : Forall (fun x => bytes_ok (f x)) l -> bytes_ok (concat (map f l)).
Proof. induction 1; simpl; [constructor|]. by apply bytes_ok_app. Qed.

Lemma records_ok rs : Forall Record_wf rs -> bytes_ok (concat (map record_wire rs)).
Proof. intros Hr. apply concat_ok. apply (Forall_impl _ _ _ Hr). apply record_wire_ok. Qed.

Lemma message_wire_ok m : Message_wf m -> bytes_ok (message_wire m).
Proof.
  intros (_ & Hq & Ha & Hu & Hd). unfold message_wire, header_wire.
  wire_bytes; try by apply records_ok.
  apply concat_ok. apply (Forall_impl _ _ _ Hq). intros q (Hn & _). unfold question_wire. wire_bytes.
Qed.

Lemma encoded_ok m : Message_wf m -> bytes_ok (expect [] (Message_encode m)).
Proof.
  intros Hm. rewrite encode_wire by done. case_bool_decide; simpl; [by apply message_wire_ok|constructor].
Qed.

Lemma question_only_encodes h q :
  Header_wf h -> Question_wf q -> exists b, Message_encode (mkMessage h [q] [] [] []) = Ok b.
Proof.
  intros Hh Hq. set (m := mkMessage h [q] [] [] []).
  assert (Message_wf m) as Hm by (split; [done|]; split; [by apply Forall_singleton|by split_and!]).
  exists (message_wire m). rewrite encode_wire by done. rewrite bool_decide_eq_true_2; [done|].
  split; [unfold counts_ok, m; cbn; by_decide|].
  destruct Hq as (Hn & _). pose proof (length_question_wire q Hn) as Hl.
  unfold message_wire, header_wire, m. cbn [questions answers authority additional map concat].
  rewrite !length_app, !length_be_bytes. unfold MAX_NAME_LEN, MAX_MESSAGE_SIZE in *. simpl. lia.
Qed.
