(* ===== verification/FuzzEngineOps.v ===== *)
(** * Every script of the engine's fuzz target passes

    The invariant of [FuzzEngineProofs] through each operation of a script and
    through the final drain, and the theorem on the whole target. *)

From S2P Require Import Prelude Net Names Message MessageProofs Cache EngineState Records Routing Engine EngineInv EngineStep EngineRun EngineMachine EngineFlow EngineFacts IpText Msgpack MsgpackProofs NativeWire NativeWireProofs Present EngineAnswers EngineTruth FuzzEngine FuzzEngineProofs.
Local Open Scope Z_scope.

(** The Rust types of an operation's fields. *)
Definition Op_typed (op : Op) : Prop :=
  match op with
  | OpResolve n rt _ => is_u8 n /\ is_u8 rt
  | OpLookup n f => is_u8 n /\ is_u8 f
  | OpReverse addr => is_u32 addr
  | OpAnswer which code records _ _ ttl => is_u8 which /\ is_u8 code /\ is_u8 records /\ is_u32 ttl
  | OpRaw which bytes => is_u8 which /\ bytes_ok bytes
  | OpWrong which | OpFail which => is_u8 which
  | OpTick ms => is_u16 ms
  | OpScopes v => is_u8 v
  | _ => True
  end.

(** ** The constants *)

Lemma nth_mod_elem {A} (d : A) l i : l <> [] -> nth_mod d l i ∈ l.
Proof.
  intros Hl. unfold nth_mod. destruct (l !! _) as [x|] eqn:E; simpl; [by eapply list_elem_of_lookup_2|].
  apply lookup_ge_None in E. assert (length l <> 0)%nat by (by destruct l).
  pose proof (Nat.mod_upper_bound (Z.to_nat i) (length l)). lia.
Qed.

Lemma fuzz_name_ok i : bytes_ok (fuzz_name i).
Proof.
  assert (Forall bytes_ok NAMES) as Hn by by_decide. rewrite Forall_forall in Hn. apply Hn.
  by apply nth_mod_elem.
Qed.

Lemma fuzz_type_ok i : is_u16 (nth_mod 0 TYPES i).
Proof.
  assert (Forall is_u16 TYPES) as Hn by by_decide. rewrite Forall_forall in Hn. apply Hn.
  by apply nth_mod_elem.
Qed.

Definition fuzz_scopes_good (ss : list Scope) : Prop :=
  scopes_ok ss /\ Forall scope_typed ss /\ own_limited ss.

#[export] Instance fuzz_scopes_good_dec ss : Decision (fuzz_scopes_good ss).
Proof. unfold fuzz_scopes_good, scopes_ok. apply _. Defined.

Lemma fuzz_scopes_ok v : fuzz_scopes_good (fuzz_scopes v).
Proof. unfold fuzz_scopes. repeat case_match; by_decide. Qed.

(** ** Packets and replies *)

Lemma packet_decodes x : tx_ok x ->
  Message_decode (query_packet x) = Ok (Message_query (x_dns_id x) (x_question x)).
Proof.
  intros [Hq _ _ Hid]. apply encode_decode; [by apply query_wf|]. by apply query_encodes.
Qed.

Lemma fuzz_record_wf qn ttl i : (i < 4)%nat -> Name_wf qn -> is_u32 ttl -> Record_wf (fuzz_record qn ttl i).
Proof.
  intros Hi Hn Ht. assert (Name_wf (name_of "loop.example.com")) as Hl by by_decide.
  destruct i as [|[|[|[|i]]]]; [| | | |lia]; (split; [done|]); split_and!; try done; simpl; try by_decide;
    by split.
Qed.

Lemma soa_wf owner mname rname ttl :
  Name_wf owner -> Name_wf mname -> Name_wf rname -> is_u32 ttl ->
  Record_wf (Record_new owner ttl (RSoa mname rname 1 1 1 1 ttl)).
Proof.
  intros Ho Hm Hr Ht. split; [done|]. split; [by_decide|]. split; [by_decide|]. split; [done|].
  split; [done|]. split; [done|]. split; [done|]. forall_list; try done; by_decide.
Qed.

Lemma answer_for_ok b code records tc soa ttl :
  is_packet b -> is_u8 code -> is_u32 ttl ->
  exists bytes, answer_for b code records tc soa ttl = Some bytes /\ bytes_ok bytes.
Proof.
  intros (x & Hok & ->) Hc Ht. unfold answer_for. rewrite packet_decodes by done.
  cbn [questions Message_query]. eexists. split; [done|]. apply encoded_ok. 
  destruct Hok as [(Hn & Hrt & Hcl) _ _ Hid].
  split; [split; [done|split; [by_decide|]]|split; [by apply Forall_singleton|]]; cbn.
  - pose proof (Z.mod_pos_bound code 6). lia.
  - split_and!; [| |constructor].
    + apply Forall_map, Forall_forall. intros i Hi%list_elem_of_In%in_seq.
      apply fuzz_record_wf; [|done..]. pose proof (Z.mod_pos_bound records 4). lia.
    + destruct soa; [|constructor]. apply Forall_singleton. apply soa_wf; [by_decide..|done].
Qed.

Lemma pick_open `{MapOrder} which open tx : pick which open = Some tx -> is_Some (open !! tx).
Proof.
  unfold pick. intros Hin%list_elem_of_lookup_2. rewrite sort_by_key_perm in Hin.
  apply list_elem_of_In, in_map_iff in Hin as ([k b] & <- & Hin%list_elem_of_In%map_iter_elem). by exists b.
Qed.

(** ** Operations *)

Lemma FInv_weaken n m s : (n <= m)%nat -> FInv n s -> FInv m s.
Proof. intros Hn []. split; try done. lia. Qed.

Lemma flows_quiet P e e' : quiet e e' -> (forall q, P q -> False) -> flows (fun _ => False) P e e' [].
Proof.
  intros [_ Hx Hn _] HP. split; try (by intros ? ?%elem_of_nil).
  - intros tx. rewrite Hx. set_solver.
  - constructor.
  - lia.
  - intros q Hq. by destruct (HP q Hq).
Qed.

Lemma NoDup_map_filter {A B} (f : A -> B) (p : A -> bool) l :
  NoDup (map f l) -> NoDup (map f (List.filter p l)).
Proof.
  induction l as [|x l IH]; simpl; [done|]. intros [Hx Hl]%NoDup_cons. destruct (p x); simpl; [|by apply IH].
  apply NoDup_cons. split; [|by apply IH]. intros Hin. apply Hx.
  apply list_elem_of_In, in_map_iff in Hin as (y & <- & [Hy _]%filter_In).
  apply list_elem_of_In, in_map_iff. eauto.
Qed.

Section ops.
Context `{MapOrder}.

(** The end of an iteration: what the two last assertions check. *)
Lemma finish_op n op s i now open (gone : Txid -> Prop) k :
  (S n <= 400)%nat -> FInv n s -> input_wf i -> input_typed i -> until now i -> fz_now s <= now ->
  (forall q, opened i = Some q -> q = fz_qid s + 1) -> abandoned i = None ->
  flows gone (fun _ => False) (fz_engine s) (step (fz_engine s) i).1 (step (fz_engine s) i).2 ->
  carries k (fz_engine s) (step (fz_engine s) i).1 (step (fz_engine s) i).2 ->
  open ⊆ fz_open s -> (forall tx, is_Some (fz_open s !! tx) -> is_Some (open !! tx) \/ gone tx) ->
  (forall tx, tx ∈ cancels (step (fz_engine s) i).2 -> tx < next_id (fz_engine s)) ->
  (size (dom open ∖ list_to_set (cancels (step (fz_engine s) i).2)) + k <= 2 * S n)%nat ->
  op_flow op s = Acts (mkFuzz (step (fz_engine s) i).1 now open (asks_for i s) (fz_answered s) (next_qid i s))
                   (step (fz_engine s) i).2 ->
  exists s', fuzz_op op s = Some s' /\ FInv (S n) s'.
Proof.
  intros Hn HF Hwf Hty Hu Hnow Hop Hab Hfl Hca Ho Hk Hc Hs Hflow. unfold fuzz_op. rewrite Hflow.
  destruct (step_applies n (S n) s i now open gone k HF Hwf Hty (conj Hu Hnow) Hop Hab Hfl Hca Ho Hk Hc Hs)
    as (open' & answered' & E & HF').
  cbn [fz_open fz_answered fz_engine fz_now fz_asked fz_qid]. rewrite E.
  assert ((in_flight (step (fz_engine s) i).1 <=? MAX_IN_FLIGHT)%nat = true) as ->.
  { apply Nat.leb_le. apply (co_flight _ _ _ _ _ (inv_core _ _ (fi_inv _ _ HF'))). }
  assert ((size open' <=? MAX_IN_FLIGHT + 1)%nat = true) as ->.
  { apply Nat.leb_le. pose proof (fi_size _ _ HF') as Hsz. cbn [fz_open] in Hsz.
    unfold MAX_IN_FLIGHT. lia. }
  by eexists.
Qed.

(** The size the harness's table may reach, with nothing cancelled. *)
Lemma open_room n (s : Fuzz) (open : gmap Txid (list Z)) (X : gset Txid) k :
  FInv n s -> open ⊆ fz_open s -> (k <= 2)%nat -> (size (dom open ∖ X) + k <= 2 * S n)%nat.
Proof.
  intros HF Ho Hk. pose proof (fi_size _ _ HF) as Hs. apply map_subseteq_size in Ho.
  assert (size (dom open ∖ X) <= size (dom open))%nat by (apply subseteq_size; set_solver).
  rewrite size_dom in *. lia.
Qed.

Lemma keep_all (s : Fuzz) (gone : Txid -> Prop) tx :
  is_Some (fz_open s !! tx) -> is_Some (fz_open s !! tx) \/ gone tx.
Proof. tauto. Qed.

(** A question. *)
Lemma ask_step n op s i k :
  (S n <= 400)%nat -> FInv n s -> input_wf i -> input_typed i -> (k <= 2)%nat ->
  opened i = Some (fz_qid s + 1) -> input_time i = Some (fz_now s) ->
  flows (fun _ => False) (fun _ => False) (fz_engine s) (step (fz_engine s) i).1 (step (fz_engine s) i).2 ->
  carries k (fz_engine s) (step (fz_engine s) i).1 (step (fz_engine s) i).2 ->
  op_flow op s = (let '(e, acts) := step (fz_engine s) i in
    Acts (mkFuzz e (fz_now s) (fz_open s) ({[fz_qid s + 1]} ∪ fz_asked s) (fz_answered s) (fz_qid s + 1)) acts) ->
  exists s', fuzz_op op s = Some s' /\ FInv (S n) s'.
Proof.
  intros Hn HF Hwf Hty Hk Hop Ht Hfl Hca Hflow.
  apply (finish_op n op s i (fz_now s) (fz_open s) (fun _ => False) k); try done.
  - intros now. rewrite Ht. intros [= <-]. done.
  - intros q. rewrite Hop. by intros [= <-].
  - by destruct i.
  - by left.
  - intros tx Hc%(fl_cancels _ _ _ _ _ Hfl). done.
  - by eapply open_room.
  - rewrite Hflow. unfold asks_for, next_qid. rewrite Hop. by destruct (step (fz_engine s) i).
Qed.

Lemma fresh_qid n s : FInv n s -> ~ live (fz_engine s) (fz_qid s + 1).
Proof. intros HF Hl. apply (fi_known _ _ HF), (fi_asked _ _ HF) in Hl. lia. Qed.

(** A reply, accepted or not. *)
Lemma reply_step n op s tx bytes :
  (S n <= 400)%nat -> FInv n s -> bytes_ok bytes ->
  op_flow op s = deliver_reply s tx bytes ->
  exists s', fuzz_op op s = Some s' /\ FInv (S n) s'.
Proof.
  intros Hn HF Hb Hflow. set (r := received (fz_engine s) tx bytes (fz_now s)).
  assert (exists gone : Txid -> Prop, flows gone (fun _ => False) (fz_engine s) r.1 r.2 /\ cancels r.2 = [] /\
    (r.2 <> [] -> gone tx)) as (gone & Hfl & Hc & Hg).
  { unfold r. destruct (response_matches (fz_engine s) tx bytes) eqn:Hm.
    - exists (fun y => y = tx). split; [apply received_flows; [apply HF|done]|].
      split; [|done]. apply received_no_cancel; [apply HF|done].
    - exists (fun _ => False). rewrite received_ignored by done. split; [apply flows_nothing|done]. }
  set (open := if bool_decide (r.2 = []) then fz_open s else delete tx (fz_open s)).
  assert (open ⊆ fz_open s) as Ho by (unfold open; case_bool_decide; [done|apply delete_subseteq]).
  apply (finish_op n op s (IReceived tx bytes (fz_now s)) (fz_now s) open gone 1); try done; fold r.
  - by intros now [= <-].
  - exact (received_carries _ tx bytes (fz_now s) (fi_inv _ _ HF)).
  - intros y Hy. unfold open. case_bool_decide as Hr; [by left|].
    destruct (decide (y = tx)) as [->|Hne]; [right; by apply Hg|left]. by rewrite lookup_delete_ne.
  - intros y. cbn [step]. fold r. rewrite Hc. by intros ?%elem_of_nil.
  - eapply open_room; [done|done|lia].
  - rewrite Hflow. unfold deliver_reply. cbn [step]. fold r. unfold open. by destruct r.
Qed.

(** An operation that leaves the engine alone. *)
Lemma idle_step n op s :
  (S n <= 400)%nat -> FInv n s -> op_flow op s = Acts s [] ->
  exists s', fuzz_op op s = Some s' /\ FInv (S n) s'.
Proof.
  intros Hn HF Hflow. exists s. split; [|by apply (FInv_weaken n); [lia|]]. unfold fuzz_op. rewrite Hflow.
  cbn [apply_actions].
  assert ((in_flight (fz_engine s) <=? MAX_IN_FLIGHT)%nat = true) as ->.
  { apply Nat.leb_le. apply (co_flight _ _ _ _ _ (inv_core _ _ (fi_inv _ _ HF))). }
  assert ((size (fz_open s) <=? MAX_IN_FLIGHT + 1)%nat = true) as ->.
  { apply Nat.leb_le. pose proof (fi_size _ _ HF) as Hsz. unfold MAX_IN_FLIGHT. lia. }
  by destruct s.
Qed.

Lemma lxor_1_u16 z : is_u16 z -> is_u16 (Z.lxor z 1).
Proof using Type.
  unfold is_u16, in_width. intros [Hl Hu]. assert (0 <= Z.lxor z 1) as Hn by (apply Z.lxor_nonneg; lia).
  split; [done|]. destruct (Z.eq_dec (Z.lxor z 1) 0) as [->|Hne]; [lia|]. apply Z.log2_lt_pow2; [lia|].
  pose proof (Z.log2_lxor z 1 Hl ltac:(lia)) as Hlog. change (Z.log2 1) with 0 in Hlog.
  destruct (Z.eq_dec z 0) as [->|Hz]; [simpl; lia|].
  assert (Z.log2 z < 16) by (apply Z.log2_lt_pow2; lia). lia.
Qed.

(** A reply to another question is ignored. *)
Lemma wrong_ignored n s tx x bytes :
  FInv n s -> tx_ok x -> fz_open s !! tx = Some (query_packet x) ->
  Message_encode (reply_to (mkMessage (header (Message_query (x_dns_id x) (x_question x)))
    [mkQuestion (q_name (x_question x)) (Z.lxor (q_rtype (x_question x)) 1) (q_class (x_question x))] [] []
    [Record_opt EDNS_UDP_SIZE false])) = Ok bytes ->
  received (fz_engine s) tx bytes (fz_now s) = (fz_engine s, []).
Proof.
  intros HF Hok Hop Henc. apply received_ignored. unfold response_matches, matching_response.
  destruct (txs (fz_engine s) !! tx) as [y|] eqn:Hy; [|done].
  pose proof (co_txs _ _ _ _ _ (inv_core _ _ (fi_inv _ _ HF)) _ _ Hy) as Hyok.
  pose proof (fi_live _ _ HF tx y Hy) as Hpy.
  assert (query_packet x = query_packet y) as Hp by (rewrite Hop in Hpy; congruence). clear Hpy.
  assert (Message_query (x_dns_id x) (x_question x) = Message_query (x_dns_id y) (x_question y)) as Hxy.
  { pose proof (packet_decodes x Hok) as Hx. rewrite Hp, (packet_decodes y Hyok) in Hx. congruence. }
  injection Hxy as Hid Hq. set (m := reply_to _) in Henc.
  assert (Message_decode bytes = Ok m) as Hd.
  { apply (encode_decode m); [|exact Henc]. destruct Hok as [(Hn & Hrt & Hcl) _ _ Hxid].
    split; [split; [done|split; by_decide]|]. split; [|split_and!; constructor].
    apply Forall_singleton. split; [done|]. split; [|done]. by apply lxor_1_u16. }
  rewrite Hd. cbn [ok]. unfold Message_question, m. cbn [questions reply_to q_rtype].
  destruct (_ || _); [done|]. rewrite Hq.
  assert ((Z.lxor (q_rtype (x_question y)) 1 =? q_rtype (x_question y)) = false) as ->; [|done].
  apply Z.eqb_neq. intros E. apply (f_equal (fun z => Z.testbit z 0)) in E. rewrite Z.lxor_spec in E.
  by destruct (Z.testbit (q_rtype (x_question y)) 0).
Qed.

Lemma wrong_step n s which :
  (S n <= 400)%nat -> FInv n s -> exists s', fuzz_op (OpWrong which) s = Some s' /\ FInv (S n) s'.
Proof.
  intros Hn HF. destruct (pick which (fz_open s)) as [tx|] eqn:Hp.
  2:{ apply (idle_step n _ s); [done|done|]. cbn [op_flow]. by rewrite Hp. }
  destruct (pick_open _ _ _ Hp) as [b Hb].
  destruct (fi_packets _ _ HF _ _ Hb) as [(x & Hok & ->) _].
  apply (idle_step n _ s); [done|done|]. cbn [op_flow]. rewrite Hp, Hb, packet_decodes by done.
  cbn [questions Message_query header answers authority additional].
  destruct (question_only_encodes (header (reply_to (Message_query (x_dns_id x) (x_question x))))
    (mkQuestion (q_name (x_question x)) (Z.lxor (q_rtype (x_question x)) 1) (q_class (x_question x))))
    as [bytes Henc].
  { destruct Hok as [_ _ _ Hid]. split; [done|split; by_decide]. }
  { destruct Hok as [(Hnm & Hrt & Hcl) _ _ _]. split; [done|]. split; [by apply lxor_1_u16|done]. }
  match goal with |- context [Message_encode ?m] => change (Message_encode m) with
    (Message_encode (mkMessage (header (reply_to (Message_query (x_dns_id x) (x_question x))))
      [mkQuestion (q_name (x_question x)) (Z.lxor (q_rtype (x_question x)) 1) (q_class (x_question x))] [] [] []));
    rewrite Henc end.
  rewrite (wrong_ignored n s tx x bytes HF Hok Hb Henc). by destruct s.
Qed.

Lemma fail_step n s which :
  (S n <= 400)%nat -> FInv n s -> exists s', fuzz_op (OpFail which) s = Some s' /\ FInv (S n) s'.
Proof.
  intros Hn HF. destruct (pick which (fz_open s)) as [tx|] eqn:Hp.
  2:{ apply (idle_step n _ s); [done|done|]. cbn [op_flow]. by rewrite Hp. }
  destruct (failed_flows (fun _ => False) (fz_engine s) tx (fz_now s) (fi_inv _ _ HF)) as [Hfl Hc].
  apply (finish_op n _ s (IFailed tx (fz_now s)) (fz_now s) (delete tx (fz_open s)) (fun y => y = tx) 1);
    try done.
  - by intros now [= <-].
  - exact (failed_carries _ tx (fz_now s) (fi_inv _ _ HF)).
  - apply delete_subseteq.
  - intros y Hy. destruct (decide (y = tx)) as [->|Hne]; [by right|left]. by rewrite lookup_delete_ne.
  - intros y. cbn [step]. rewrite Hc. by intros ?%elem_of_nil.
  - eapply open_room; [done|apply delete_subseteq|lia].
  - cbn [op_flow]. rewrite Hp. cbn [step]. by destruct (failed (fz_engine s) tx (fz_now s)).
Qed.

(** A tick closes what it cancels, so the table does not grow. *)
Lemma tick_room n s now :
  FInv n s ->
  (size (dom (fz_open s) ∖ list_to_set (cancels (tick (fz_engine s) now).2) : gset Txid)
   + length (expired (fz_engine s) now) <= 2 * n)%nat.
Proof.
  intros HF. set (ids := expired (fz_engine s) now).
  assert (NoDup ids) as Hnd.
  { apply NoDup_map_filter. rewrite (Permutation_map fst (map_iter_perm _)). apply NoDup_fst_map_to_list. }
  assert (list_to_set ids ⊆@{gset Txid} dom (fz_open s)) as Hsub.
  { intros tx [x [Hx _]]%elem_of_list_to_set%elem_of_expired. apply elem_of_dom.
    by rewrite (fi_live _ _ HF tx x Hx). }
  assert (size (dom (fz_open s) ∖ list_to_set (cancels (tick (fz_engine s) now).2) : gset Txid)
    <= size (dom (fz_open s) ∖ list_to_set ids : gset Txid))%nat as Hle.
  { apply subseteq_size. intros tx [Hd Hn]%elem_of_difference. apply elem_of_difference. split; [done|].
    intros Hin%elem_of_list_to_set. apply Hn, elem_of_list_to_set. by apply tick_cancels. }
  pose proof (size_difference (dom (fz_open s)) (list_to_set ids) Hsub) as Hd.
  pose proof (subseteq_size _ _ Hsub) as Hss. rewrite size_list_to_set in Hd, Hss by done.
  pose proof (fi_size _ _ HF). rewrite size_dom in *. lia.
Qed.

Lemma tick_applies n s now :
  FInv n s -> fz_now s <= now ->
  exists open' answered',
    apply_actions (tick (fz_engine s) now).2 (fz_open s) (fz_answered s) = Some (open', answered') /\
    FInv n (mkFuzz (tick (fz_engine s) now).1 now open' (fz_asked s) answered' (fz_qid s)).
Proof.
  intros HF Hnow. pose proof (fi_inv _ _ HF) as HI.
  apply (step_applies n n s (ITick now) now (fz_open s) (fun y => y ∈ expired (fz_engine s) now)
    (length (expired (fz_engine s) now))); try done.
  - split; [by intros ? [= <-]|done].
  - exact (tick_flows _ _ now HI).
  - exact (expire_all_carries now _ _ HI).
  - by left.
  - intros tx Hc. apply (fl_cancels _ _ _ _ _ (tick_flows (fun _ => False) _ now HI)), elem_of_expired in Hc
      as (x & Hx & _). apply (co_tx_id _ _ _ _ _ (inv_core _ _ HI)). by rewrite Hx.
  - exact (tick_room n s now HF).
Qed.

Lemma tick_step n s ms :
  (S n <= 400)%nat -> FInv n s -> is_u16 ms -> exists s', fuzz_op (OpTick ms) s = Some s' /\ FInv (S n) s'.
Proof.
  intros Hn HF [Hms _]. set (now := fz_now s + ms * 1000000).
  assert (fz_now s <= now) as Hle by (unfold now; lia).
  destruct (tick_applies n s now HF Hle) as (open' & answered' & E & HF').
  unfold fuzz_op. cbn [op_flow]. fold now. destruct (tick (fz_engine s) now) as [e acts]. cbn [fst snd] in *.
  cbn [fz_open fz_answered with_now with_engine fz_engine fz_now fz_asked fz_qid]. rewrite E.
  apply (FInv_weaken _ (S n)) in HF'; [|lia].
  assert ((in_flight e <=? MAX_IN_FLIGHT)%nat = true) as ->.
  { apply Nat.leb_le. apply (co_flight _ _ _ _ _ (inv_core _ _ (fi_inv _ _ HF'))). }
  assert ((size open' <=? MAX_IN_FLIGHT + 1)%nat = true) as ->.
  { apply Nat.leb_le. pose proof (fi_size _ _ HF') as Hsz. cbn [fz_open] in Hsz. unfold MAX_IN_FLIGHT. lia. }
  by eexists.
Qed.

Lemma configure_step n op s i f :
  (S n <= 400)%nat -> FInv n s -> input_wf i -> input_typed i -> input_time i = None ->
  step (fz_engine s) i = (f (fz_engine s), []) -> opened i = None -> abandoned i = None ->
  quiet (fz_engine s) (f (fz_engine s)) -> op_flow op s = configure s f ->
  exists s', fuzz_op op s = Some s' /\ FInv (S n) s'.
Proof.
  intros Hn HF Hwf Hty Ht Hst Hop Hab Hq Hflow.
  apply (finish_op n op s i (fz_now s) (fz_open s) (fun _ => False) 0); rewrite ?Hst; try done.
  - intros now. by rewrite Ht.
  - intros q. by rewrite Hop.
  - by apply flows_quiet.
  - apply carries_nothing. cbn [fst]. by rewrite (qu_txs _ _ Hq).
  - by left.
  - by intros tx ?%elem_of_nil.
  - eapply open_room; [done|done|lia].
  - rewrite Hflow. unfold configure, asks_for, next_qid. by rewrite Hop.
Qed.

#[local] Strategy 1000 [reverse_name Name_to_string reverse_v4 Name_parse].

Lemma op_step n op s :
  (S n <= 400)%nat -> FInv n s -> Op_typed op -> exists s', fuzz_op op s = Some s' /\ FInv (S n) s'.
Proof.
  intros Hn HF Hty. pose proof (fi_inv _ _ HF) as HI. pose proof (fresh_qid n s HF) as Hq.
  destruct op as [nm rt nc|nm fam|addr|which code records tc soa ttl|which bytes|which|which|ms|v|on|on|].
  - pose proof (fuzz_name_ok nm) as Hnm. pose proof (fuzz_type_ok rt) as Hrt.
    apply (ask_step n _ s (IResolve (fz_qid s + 1) (fuzz_name nm) (nth_mod 0 TYPES rt) nc (fz_now s)) 1); try done;
      [lia|exact (resolve_flows _ _ _ _ _ nc (fz_now s) HI Hq Hnm Hrt)|exact (resolve_carries _ _ _ _ nc (fz_now s) HI Hq Hnm Hrt)].
  - pose proof (fuzz_name_ok nm) as Hnm.
    apply (ask_step n _ s (ILookup (fz_qid s + 1) (fuzz_name nm) (fuzz_family fam) (fz_now s)) 2); try done.
    + destruct (lookup_flows (fz_engine s) (fz_qid s + 1) (fuzz_name nm) (fuzz_family fam) (fz_now s) HI Hq Hnm).
      by split.
    + exact (lookup_carries _ _ _ (fuzz_family fam) (fz_now s) HI Hq Hnm).
  - refine (ask_step n (OpReverse addr) s (IReverse (fz_qid s + 1) (V4 addr) (fz_now s)) 1 Hn HF Hty I ltac:(lia) eq_refl eq_refl
      (reverse_flows _ _ _ _ (fz_now s) HI Hq) _ eq_refl).
    cbn [step]. refine (resolve_carries _ _ _ _ false (fz_now s) HI Hq _ _); [|by_decide].
    apply Name_to_string_ok, reverse_name_wf.
  - destruct Hty as (_ & Hc & _ & Ht). destruct (pick which (fz_open s)) as [tx|] eqn:Hp.
    2:{ apply (idle_step n _ s); [done|done|]. cbn [op_flow]. by rewrite Hp. }
    destruct (pick_open _ _ _ Hp) as [b Hb]. destruct (fi_packets _ _ HF _ _ Hb) as [Hpk _].
    destruct (answer_for_ok b code records tc soa ttl Hpk Hc Ht) as (bytes & Ha & Hby).
    apply (reply_step n _ s tx bytes); [done..|]. cbn [op_flow]. rewrite Hp, Hb. simpl. by rewrite Ha.
  - destruct Hty as (_ & Hby). destruct (pick which (fz_open s)) as [tx|] eqn:Hp.
    2:{ apply (idle_step n _ s); [done|done|]. cbn [op_flow]. by rewrite Hp. }
    apply (reply_step n _ s tx bytes); [done..|]. cbn [op_flow]. by rewrite Hp.
  - by apply wrong_step.
  - by apply fail_step.
  - by apply tick_step.
  - destruct (fuzz_scopes_ok v) as (Hok & Hst & Hlim).
    by apply (configure_step n _ s (ISetScopes (fuzz_scopes v)) (set_scopes (fuzz_scopes v)));
      try done; apply set_scopes_quiet.
  - assert (Forall (fun d => Name_wf d /\ is_root d = false) [name_of "fb.example"]) as Hd by by_decide.
    assert (Forall IpAddr_wf [ip_of "9.9.9.9"]) as Hs by by_decide.
    destruct on.
    + apply (configure_step n _ s (ISetFallback [ip_of "9.9.9.9"] [name_of "fb.example"])
        (set_fallback [ip_of "9.9.9.9"] [name_of "fb.example"])); try done. apply set_fallback_quiet.
    + apply (configure_step n _ s (ISetFallback [] []) (set_fallback [] [])); try done;
        [constructor|constructor|apply set_fallback_quiet].
  - set (h := if on then {[to_lowercase (name_of "printer") := (name_of "printer", [ip_of "10.0.2.9"])]} else ∅ : gmap Name (Name * list IpAddr)).
    assert (map_Forall (fun k v => k = to_lowercase v.1 /\ Name_wf v.1) h /\ map_Forall (fun _ => host_typed) h)
      as [Hh Ht].
    { unfold h. destruct on; [|split; apply map_Forall_empty].
      split; apply map_Forall_singleton; [split; [done|by_decide]|split; by_decide]. }
    apply (configure_step n _ s (ISetHosts h) (set_hosts h)); done.
  - apply (configure_step n _ s IFlush flush); try done. apply flush_quiet.
Qed.

(** ** Whole scripts *)

Lemma script_steps ops : forall n s,
  (n + length ops <= 400)%nat -> FInv n s -> Forall Op_typed ops ->
  exists s', fuzz_script ops s = Some s' /\ FInv 400 s'.
Proof.
  induction ops as [|op ops IH]; intros n s Hn HF Hty; simpl in *.
  { exists s. split; [done|]. apply (FInv_weaken n); [lia|done]. }
  apply Forall_cons in Hty as [Hop Hty]. destruct (op_step n op s ltac:(lia) HF Hop) as (s1 & E & HF1).
  rewrite E. simpl. apply (IH (S n)); [lia|done..].
Qed.

Lemma drain_steps n m : forall s k,
  FInv n s -> min_attempt k (fz_engine s) ->
  exists s', fuzz_drain m s = Some s' /\ FInv n s' /\ min_attempt (m + k) (fz_engine s') /\
    fz_asked s' = fz_asked s.
Proof.
  induction m as [|m IH]; intros s k HF Hk; cbn [fuzz_drain]; [by exists s|].
  set (now := fz_now s + SERVER_TIMEOUT).
  assert (fz_now s <= now) as Hle by (unfold now, SERVER_TIMEOUT, from_secs, NANOS; lia).
  destruct (tick_applies n s now HF Hle) as (open' & answered' & E & HF').
  pose proof (tick_raises (fz_now s) k (fz_engine s) now (fi_inv _ _ HF) (fi_truth _ _ HF) ltac:(done) Hk) as Hk'.
  destruct (tick (fz_engine s) now) as [e acts]. cbn [fst snd] in *. rewrite E.
  destruct (IH _ (S k) HF' Hk') as (s' & E' & HF2 & Hk2 & Ha). exists s'. split; [done|]. split; [done|].
  split; [|done]. simpl. by rewrite Nat.add_succ_r in Hk2.
Qed.

Lemma lcg_fill_ok m : forall st, length (lcg_fill m st).1 = m /\ bytes_ok (lcg_fill m st).1.
Proof using Type.
  induction m as [|m IH]; intros st; [by split; [|constructor]|]. cbn [lcg_fill]. destruct (IH (lcg st)) as [Hl Hb].
  destruct (lcg_fill m (lcg st)) as [bs last]. simpl in *. split; [by rewrite Hl|].
  constructor; [|done]. by apply wrap_in_width.
Qed.

Lemma start_inv sd start : FInv 0 (fuzz_start sd start).
Proof.
  destruct (fuzz_scopes_ok 1) as (Hok & Hst & Hlim).
  assert (Inv ∅ (with_entropy (fuzz_entropy sd))) as HI.
  { apply with_entropy_inv. intros k r Hr%(inj Some). rewrite <- Hr. apply lcg_fill_ok. }
  destruct (set_scopes_keeps (fuzz_scopes 1) _ HI Hok) as [HI1 Hl1].
  set (e1 := set_scopes (fuzz_scopes 1) (with_entropy (fuzz_entropy sd))) in *.
  destruct (set_hostname_keeps (Some (bytes_of "box")) e1 HI1) as [HI2 Hl2].
  assert (forall q, ~ live (set_hostname (Some (bytes_of "box")) e1) q) as Hno.
  { intros q Hl. exact (with_entropy_live _ q (proj1 (Hl1 q) (proj1 (Hl2 q) Hl))). }
  assert (txs e1 = ∅) as Hx1 by exact (qu_txs _ _ (set_scopes_quiet (fuzz_scopes 1) _)).
  split; unfold fuzz_start; cbn [fz_engine fz_now fz_open fz_asked fz_answered fz_qid]; fold e1.
  - done.
  - apply set_hostname_truth; [intros ? [= <-]; by_decide|]. apply set_scopes_truth; [done..|].
    apply with_entropy_truth.
  - intros tx x. change (txs (set_hostname _ e1)) with (txs e1). by rewrite Hx1.
  - intros tx b. by rewrite lookup_empty.
  - rewrite map_size_empty. lia.
  - intros q ?%elem_of_empty. done.
  - intros q ?%Hno. done.
  - intros q ?%Hno. done.
  - intros q ?%elem_of_empty. done.
  - done.
Qed.
End ops.

(** C15. The engine's fuzz oracle holds on every input.  Whatever the script
    asks, answers, forges, drops or reconfigures, up to the four hundred
    operations the target runs, and whatever the seed and the clock: no
    assertion of the target fails.  No transaction id is reused, at most
    [MAX_IN_FLIGHT] transactions are open, a reply to another question is
    ignored, an answer that is not [Found] has no records, every record is
    IN-class, and after fourteen server timeouts of silence no transaction is
    left and every question has been answered exactly once. *)
Theorem engine_ops_passes `{MapOrder} script start :
  Forall Op_typed (ops script) -> engine_ops script start = Some ().
Proof.
  intros Hty. unfold engine_ops.
  destruct (script_steps (take 400 (ops script)) 0 (fuzz_start (seed script) start)) as (s1 & E1 & HF1).
  - rewrite length_take. lia.
  - apply start_inv.
  - by apply Forall_take.
  - rewrite E1. cbn [mbind option_bind].
    destruct (drain_steps 400 (3 * 4 + 2) s1 1 HF1 (live_attempted _ _ (fi_inv _ _ HF1) (fi_truth _ _ HF1)))
      as (s2 & E2 & HF2 & Hk & _).
    rewrite E2. cbn [mbind option_bind].
    assert (tasks (fz_engine s2) = ∅) as Ht.
    { apply attempts_spent; [apply HF2|]. intros id t Ht. specialize (Hk id t Ht). lia. }
    assert (txs (fz_engine s2) = ∅) as Hx.
    { apply map_empty. intros tx. destruct (txs (fz_engine s2) !! tx) as [x|] eqn:Hx; [|done].
      destruct (co_tx _ _ _ _ _ (inv_core _ _ (fi_inv _ _ HF2)) _ _ Hx) as (t & Hid & _).
      by rewrite Ht, lookup_empty in Hid. }
    assert ((in_flight (fz_engine s2) =? 0)%nat = true) as ->.
    { unfold in_flight. by rewrite Hx, map_size_empty. }
    assert (forallb (fun q => default 0 (fz_answered s2 !! q) =? 1) (elements (fz_asked s2)) = true) as ->; [|done].
    apply forallb_forall. intros q Hq%list_elem_of_In%elem_of_elements.
    destruct (fi_answered _ _ HF2 q Hq) as [(id & t & Hid & _)|Ha].
    + by rewrite Ht, lookup_empty in Hid.
    + by rewrite Ha.
Qed.

Definition example_script : Script :=
  mkScript 7 [OpLookup 2 0; OpAnswer 0 0 3 false true 60; OpWrong 1; OpTick 2500; OpScopes 3; OpResolve 5 0 false;
    OpFail 0; OpRaw 0 [1; 2; 3]; OpHosts true; OpReverse 167772674; OpFlush; OpAnswer 1 3 0 true false 5].

Lemma engine_ops_passes_witness :
  engine_ops (H := canonical_order) example_script 0 = Some () /\ length (ops example_script) = 12%nat.
Proof.
  split; [|done]. apply (engine_ops_passes (H := canonical_order) example_script 0).
  forall_list; simpl; try done; by_decide.
Defined.
