(* ===== verification/FuzzCodec.v ===== *)
(** * The codecs' fuzz targets (fuzz/fuzz_targets: dns_decode.rs, resolv_wire.rs, stub_query.rs)

    Arbitrary bytes as DNS messages, as native messages and as stub queries,
    with the targets' own assertions.  A failed assertion or an [expect] or
    [unwrap] of an error is [None]. *)

From S2P Require Import Prelude Net Names Message MessageProofs Cache EngineState IpText Io Msgpack MsgpackProofs NativeWire NativeWireProofs WireTyped Stub StubProps Present EngineAnswers.
Local Open Scope Z_scope.

#[export] Instance WFamily_eq_dec : EqDecision WFamily.
Proof. solve_decision. Defined.

#[export] Instance Request_eq_dec : EqDecision Request.
Proof. solve_decision. Defined.

(** [r.expect(..)] and [assert!(b)]. *)
Definition expect_ok {E A} (r : result E A) : option A := ok r.
Definition assert (b : bool) : option () := if b then Some () else None.

(** ** dns_decode.rs *)

(** What the target computes of each record and throws away. *)
Definition observe_record (r : Record_) : list Z * list Z * list Z * option IpAddr :=
  (rdata_text r, rdata_bytes r, Name_to_string (r_name r), reverse_address (r_name r)).

(** [std::str::from_utf8(b).ok().and_then(|s| Name::parse(s).ok())]. *)
Definition name_of_bytes (b : list Z) : option Name := if utf8_valid b then ok (Name_parse b) else None.

(** [assert_eq!] compares names without case; here they are the same. *)
Definition dns_decode (data : list Z) : option () :=
  _ ← match Message_decode data with
      | Ok m =>
          let _ := udp_size m in
          let _ := Message_rcode m in
          let _ := map observe_record (answers m ++ authority m ++ additional m) in
          match Message_encode m with
          | Ok again =>
              m2 ← expect_ok (Message_decode again);
              _ ← assert (bool_decide (m2 = m));
              let _ := encode_udp m 512 in Some ()
          | Err _ => Some ()
          end
      | Err _ => Some ()
      end;
  let _ :=
    match name_of_bytes data with
    | Some n => Some (Name_to_string n, to_lowercase n)
    | None => None
    end in
  Some ().

(** ** resolv_wire.rs *)

Definition resolv_wire (data : list Z) : option () :=
  _ ← match Request_decode data with
      | Ok r =>
          again ← expect_ok (Request_decode (Request_encode r));
          assert (bool_decide (again = r))
      | Err _ => Some ()
      end;
  _ ← match Reply_decode data with
      | Ok r => _ ← expect_ok (Reply_decode (Reply_encode r)); Some ()
      | Err _ => Some ()
      end;
  let _ := skip (Reader_new data) in
  let _ := recv data in
  Some ().

(** ** stub_query.rs *)

Record FuzzInput : Type := mkFuzzInput {
  in_query : list Z;
  in_outcome : Z;
  in_resolved : option (list Z);
  in_records : Z;
  in_ttl : Z;
  in_limit : Z;
}.

Definition fuzz_outcome (outcome : Z) : Outcome :=
  if outcome mod 3 =? 0 then Found else if outcome mod 3 =? 1 then NotFound else Unavailable.

(** [for i in 0..input.records % 50] of A records 10.0.0.i. *)
Definition fuzz_records (at_ : Name) (input : FuzzInput) : list Record_ :=
  map (fun i => Record_new at_ (in_ttl input) (RA (from_be [10; 0; 0; Z.of_nat i])))
    (seq 0 (Z.to_nat (in_records input mod 50))).

Definition fuzz_answer (query : Message) (input : FuzzInput) : Answer :=
  let resolved := b ← in_resolved input; name_of_bytes b in
  let qname := match Message_question query with Some q => q_name q | None => Name_root end in
  let at_ := default qname resolved in
  mkAnswer (fuzz_outcome (in_outcome input)) (fuzz_records at_ input) Dns None None 0 resolved 0.

Definition stub_query_target (input : FuzzInput) : option () :=
  match parse_query (in_query input) with
  | Err (Some reply) => _ ← expect_ok (Message_decode reply); Some ()
  | Err None => Some ()
  | Ok query =>
      let reply := build_reply query (fuzz_answer query input) in
      bytes ← expect_ok (Message_encode reply);
      _ ← expect_ok (Message_decode bytes);
      let limit := Z.max (in_limit input) 12 in
      udp ← expect_ok (encode_udp reply limit);
      _ ← assert ((Z.of_nat (length udp) <=? limit) || (length udp <=? length bytes)%nat);
      _ ← expect_ok (Message_decode udp);
      Some ()
  end.

(** ** No assertion fails *)

Lemma dns_decode_passes data : bytes_ok data -> dns_decode data = Some ().
Proof.
  intros Hb. unfold dns_decode. destruct (Message_decode data) as [m|] eqn:Ed; [|done].
  destruct (Message_encode m) as [again|] eqn:Ee; [|done].
  rewrite (encode_decode m again (decode_message_wf data m Hb Ed) Ee). cbn. by rewrite bool_decide_eq_true_2.
Qed.

Lemma resolv_wire_passes data : bytes_ok data -> Z.of_nat (length data) < 2 ^ 32 -> resolv_wire data = Some ().
Proof.
  intros Hb Hl. unfold resolv_wire. destruct (Request_decode data) as [q|] eqn:Eq.
  - rewrite (Request_decode_encode q (Request_decode_wf data q Hb Hl Eq)). cbn.
    rewrite bool_decide_eq_true_2 by done. destruct (Reply_decode data) as [r|] eqn:Er; [|done].
    by rewrite (Reply_decode_encode r (Reply_decode_wf data r Hb Hl Er)).
  - destruct (Reply_decode data) as [r|] eqn:Er; [|done].
    by rewrite (Reply_decode_encode r (Reply_decode_wf data r Hb Hl Er)).
Qed.

(** The types of the target's input. *)
Definition Input_typed (input : FuzzInput) : Prop :=
  bytes_ok (in_query input) /\ (forall b, in_resolved input = Some b -> bytes_ok b) /\
  0 <= in_records input /\ is_u32 (in_ttl input) /\ is_u16 (in_limit input).

Lemma name_of_bytes_wf b n : bytes_ok b -> name_of_bytes b = Some n -> Name_wf n.
Proof.
  intros Hb. unfold name_of_bytes. destruct (utf8_valid b); [|done].
  destruct (Name_parse b) eqn:E; [|done]. intros [= <-]. by eapply Name_parse_wf.
Qed.

Lemma length_records_wire {A} (f : A -> Record_) (k : nat) xs :
  (forall x, (length (record_wire (f x)) <= k)%nat) ->
  (length (concat (map record_wire (map f xs))) <= length xs * k)%nat.
Proof. intros Hf. induction xs as [|x xs IH]; cbn; [lia|]. rewrite length_app. specialize (Hf x). lia. Qed.

Lemma a_record_wire n ttl v : Name_wf n -> (length (record_wire (Record_new n ttl (RA v))) <= 269)%nat.
Proof.
  intros Hn. pose proof (length_name_wire_le n Hn). unfold record_wire.
  cbn [Record_new r_name r_rtype r_class r_ttl r_rdata rdata_wire]. unfold octets_v4.
  rewrite !length_app, !length_be_bytes. lia.
Qed.

Lemma expansion_wire q a : Message_wf q -> Answer_wf a ->
  (length (expansion_cname q a) <= 1)%nat /\
  (length (concat (map record_wire (expansion_cname q a))) <= 520)%nat.
Proof.
  intros (_ & Hq & _) (_ & Hn & _). unfold expansion_cname, Message_question.
  destruct (questions q) as [|x [|]]; try (by split; simpl; lia).
  destruct (a_resolved_name a) as [n|]; [|by split; simpl; lia]. destruct (negb _); [|by split; simpl; lia].
  split; [simpl; lia|]. apply Forall_cons in Hq as [(Hx & _) _].
  pose proof (length_name_wire_le _ Hx). pose proof (length_name_wire_le n (Hn n eq_refl)).
  cbn [map concat]. rewrite app_nil_r. unfold record_wire.
  cbn [Record_new r_name r_rtype r_class r_ttl r_rdata rdata_wire].
  rewrite !length_app, !length_be_bytes. lia.
Qed.

(** The answer of the target: at most 49 records, all legal. *)
Lemma fuzz_answer_good query input : Message_wf query -> Input_typed input ->
  Answer_wf (fuzz_answer query input) /\
  (length (a_records (fuzz_answer query input)) <= 49)%nat /\
  (length (concat (map record_wire (a_records (fuzz_answer query input)))) <= 49 * 269)%nat.
Proof.
  intros (_ & Hq & _) (_ & Hr & H0 & Ht & _). unfold fuzz_answer. cbn [a_records].
  set (resolved := b ← in_resolved input; name_of_bytes b).
  assert (forall n, resolved = Some n -> Name_wf n) as Hres.
  { unfold resolved. destruct (in_resolved input) as [b|]; [|done]. intros n. by apply name_of_bytes_wf, Hr. }
  set (qname := match Message_question query with Some q => q_name q | None => Name_root end).
  assert (Name_wf (default qname resolved)) as Hat.
  { destruct resolved; [by apply Hres|]. unfold qname, Message_question. simpl.
    destruct (questions query) as [|x [|]]; try apply Name_root_wf. by apply Forall_cons in Hq as [(? & _) _]. }
  assert (Z.to_nat (in_records input mod 50) <= 49)%nat as Hn.
  { pose proof (Z.mod_pos_bound (in_records input) 50). lia. }
  unfold fuzz_records. rewrite length_map, length_seq. split_and!; [|done|].
  - split_and!; [|done|by_decide]. cbn [a_records]. apply Forall_fmap, Forall_forall. intros i Hi.
    apply elem_of_seq in Hi. split_and!; [done|by_decide|by_decide|done|]. split; [done|]. cbn. unfold is_u32, in_width. lia.
  - etransitivity; [apply (length_records_wire _ 269); intros; by apply a_record_wire|].
    rewrite length_seq. lia.
Qed.

Lemma opt_wire_length : length (record_wire (Record_opt EDNS_UDP_SIZE false)) = 11%nat.
Proof. vm_compute. done. Qed.

(** Both replies of a query fit a message, and the cut one is no longer. *)
Lemma reply_wire_bounds query a x :
  Message_wf query -> questions query = [x] -> Answer_wf a -> (length (a_records a) <= 49)%nat ->
  (length (concat (map record_wire (a_records a))) <= 49 * 269)%nat ->
  let reply := build_reply query a in
  (counts_ok reply /\ Z.of_nat (length (message_wire reply)) <= MAX_MESSAGE_SIZE) /\
  (counts_ok (truncate_message reply) /\
   (length (message_wire (truncate_message reply)) <= length (message_wire reply))%nat).
Proof.
  intros Hq Hx Ha Hn Hw. cbn zeta. destruct (expansion_wire query a Hq Ha) as [Hc Hcw].
  destruct (build_reply_shape query a) as (_ & _ & Hqs & _ & Had & Han).
  assert (authority (build_reply query a) = []) as Hau
    by (unfold build_reply; by destruct (a_outcome a), (Message_opt query)).
  assert (length (question_wire x) <= 259)%nat as Hlq.
  { destruct Hq as (_ & Hq & _). rewrite Hx in Hq. apply Forall_cons in Hq as [(Hnm & _) _].
    exact (length_question_wire x Hnm). }
  pose proof opt_wire_length as Hopt.
  assert (length (answers (build_reply query a)) <= 50)%nat as Hla.
  { rewrite Han. destruct (a_outcome a); rewrite ?length_app; simpl; lia. }
  assert (length (concat (map record_wire (answers (build_reply query a)))) <= 520 + 49 * 269)%nat as Hlw.
  { rewrite Han. destruct (a_outcome a); [|simpl; lia..]. rewrite map_app, concat_app, length_app. lia. }
  assert (length (concat (map record_wire (additional (build_reply query a)))) <= 11 /\
    length (additional (build_reply query a)) <= 1 /\
    additional (truncate_message (build_reply query a)) = additional (build_reply query a))%nat as (Hd & Hd1 & Hde).
  { unfold truncate_message. cbn [additional]. unfold Message_opt at 1. rewrite Had.
    destruct (Message_opt query); cbn [map concat List.find length app]; rewrite ?app_nil_r, ?Hopt; split_and!; try lia; done. }
  unfold counts_ok, message_wire, header_wire. rewrite Hde. unfold truncate_message. cbn [questions answers authority].
  rewrite Hqs, Hx, Hau. unfold MAX_MESSAGE_SIZE. cbn [map concat length app].
  rewrite !length_app, !length_be_bytes. cbn [length]. split_and!; try lia; repeat constructor; lia.
Qed.

Lemma stub_query_passes input : Input_typed input -> stub_query_target input = Some ().
Proof.
  intros Hin. pose proof Hin as (Hb & _). unfold stub_query_target.
  destruct (parse_query (in_query input)) as [q|[reply|]] eqn:Ep; [| |done].
  - apply parse_query_ok in Ep as (Ed & _ & _ & x & Hx & _).
    pose proof (decode_message_wf _ _ Hb Ed) as Hq. destruct (fuzz_answer_good q input Hq Hin) as (Ha & Hn & Hw).
    set (a := fuzz_answer q input) in *. cbn zeta.
    destruct (reply_wire_bounds q a x Hq Hx Ha Hn Hw) as [Hok [Htc Htl]].
    pose proof (build_reply_wf q a Hq Ha) as Hwf. pose proof (truncate_wf q a Hq) as Htwf.
    assert (Message_encode (build_reply q a) = Ok (message_wire (build_reply q a))) as He.
    { rewrite encode_wire by done. by rewrite bool_decide_eq_true_2. }
    assert (Message_encode (truncate_message (build_reply q a)) =
            Ok (message_wire (truncate_message (build_reply q a)))) as Het.
    { rewrite encode_wire by done. rewrite bool_decide_eq_true_2; [done|]. split; [done|]. lia. }
    unfold encode_udp. rewrite He. cbn [expect_ok ok mbind option_bind result_bind].
    rewrite (encode_decode _ _ Hwf He). cbn [expect_ok ok mbind option_bind].
    destruct (_ <=? Z.max _ _) eqn:El.
    + cbn [expect_ok ok mbind option_bind]. by rewrite El, (encode_decode _ _ Hwf He).
    + rewrite Het. cbn [expect_ok ok mbind option_bind].
      rewrite (proj2 (Nat.leb_le _ _) Htl), orb_true_r. cbn [assert mbind option_bind].
      by rewrite (encode_decode _ _ Htwf Het).
  - destruct (parse_query_error _ _ Hb Ep) as (m & -> & _). done.
Qed.
