(* ===== verification/RandomTests.v ===== *)
(** * The codecs' random tests (dns/src/fuzz_tests.rs, the fuzz test of resolvd-core/src/lib.rs)

    The generator is a state monad over the 64 bits of [Rng]; a test is a
    computation in it whose result is [None] when an assertion fails, an
    [unwrap] meets an error or an index is out of range.  The tests pass for
    every seed and every number of iterations, not only for those they run. *)

From S2P Require Import Prelude Net Names Message MessageProofs Cache EngineState IpText Io Msgpack MsgpackProofs NativeWire NativeWireProofs WireTyped Stub StubProps Present FuzzEngineProofs FuzzCodec.
Local Open Scope Z_scope.

(** ** The generator *)

Definition Gen (A : Type) : Type := Z -> A * Z.

#[export] Instance gen_ret : MRet Gen := fun A a s => (a, s).
#[export] Instance gen_bind : MBind Gen := fun A B f g s => let (a, s) := g s in f a s.
#[export] Instance gen_fmap : FMap Gen := fun A B f g s => let (a, s) := g s in (f a, s).

Definition Rng_new (seed : Z) : Z := Z.lor seed 1.

Definition rng_next : Gen Z := fun x =>
  let x := Z.lxor x (Z.shiftr x 12) in
  let x := Z.lxor x (wrap 64 (Z.shiftl x 25)) in
  let x := Z.lxor x (Z.shiftr x 27) in
  (wrap 64 (x * 0x2545F4914F6CDD1D), x).

Definition rng_below (n : nat) : Gen nat :=
  x ← rng_next; mret (Z.to_nat (x mod Z.of_nat (Nat.max n 1))).

Definition rng_byte : Gen Z := x ← rng_next; mret (wrap 8 x).
Definition rng_u16 : Gen Z := x ← rng_next; mret (wrap 16 x).
Definition rng_u32 : Gen Z := x ← rng_next; mret (wrap 32 x).

Definition rng_chance (one_in : Z) : Gen bool := x ← rng_next; mret (x mod one_in =? 0).

(** [(0..n).map(|_| g).collect()]. *)
Fixpoint times {A} (n : nat) (g : Gen A) : Gen (list A) :=
  match n with
  | O => mret []
  | S n => x ← g; xs ← times n g; mret (x :: xs)
  end.

Definition rng_bytes (limit : nat) : Gen (list Z) := k ← rng_below limit; times k rng_byte.

(** ** Random names, records and messages *)

Definition random_label : Gen (list Z) :=
  long ← rng_chance 20;
  k ← rng_below (if long : bool then 63%nat else 8%nat);
  times (1 + k) rng_byte.

Definition random_name : Gen Name :=
  n ← rng_below 6;
  ls ← times n random_label;
  mret (match Name_from_labels ls with Ok n => n | Err _ => Name_root end).

Definition random_v6 : Gen Z :=
  lo ← rng_next; hi ← rng_next; mret (Z.lor lo (Z.shiftl hi 64)).

Definition random_rdata (kind : nat) : Gen RData :=
  match kind with
  | 0%nat => RA <$> rng_u32
  | 1%nat => RAaaa <$> random_v6
  | 2%nat => RCname <$> random_name
  | 3%nat => RPtr <$> random_name
  | 4%nat => RNs <$> random_name
  | 5%nat =>
      mname ← random_name; rname ← random_name;
      serial ← rng_u32; refresh ← rng_u32; retry ← rng_u32; expire ← rng_u32; minimum ← rng_u32;
      mret (RSoa mname rname serial refresh retry expire minimum)
  | 6%nat => preference ← rng_u16; exchange ← random_name; mret (RMx preference exchange)
  | 7%nat =>
      priority ← rng_u16; weight ← rng_u16; port ← rng_u16; target ← random_name;
      mret (RSrv priority weight port target)
  | 8%nat => n ← rng_below 4; RTxt <$> times n (rng_bytes 300)
  | 9%nat => ROpt <$> rng_bytes 20
  | _ => RUnknown <$> rng_bytes 40
  end.

Definition random_record : Gen Record_ :=
  name ← random_name;
  ttl ← rng_u32;
  kind ← rng_below 11;
  rdata ← random_rdata kind;
  let r := Record_new name ttl rdata in
  match rdata with
  | RUnknown _ =>
      k ← rng_below 50;
      mret (mkRecord (r_name r) (200 + Z.of_nat k) (r_class r) (r_ttl r) (r_rdata r))
  | _ => mret r
  end.

Definition random_question : Gen Question :=
  name ← random_name; rtype ← rng_u16; class ← rng_u16; mret (mkQuestion name rtype class).

Definition random_section : Gen (list Record_) := n ← rng_below 4; times n random_record.

Definition random_message : Gen Message :=
  id ← rng_u16;
  response ← rng_chance 2;
  opcode ← rng_below 16;
  rcode ← rng_below 16;
  truncated ← rng_chance 4;
  rd ← rng_chance 2;
  n ← rng_below 3;
  questions ← times n random_question;
  answers ← random_section;
  authority ← random_section;
  additional ← random_section;
  mret (mkMessage
    (mkHeader id response (Z.of_nat opcode) false truncated rd false false false (Z.of_nat rcode))
    questions answers authority additional).

(** ** The tests *)

(** [for _ in 0..n { test }]: a panic ends it. *)
Fixpoint iterations (n : nat) (test : Gen (option ())) : Gen (option ()) :=
  match n with
  | O => mret (Some ())
  | S n => r ← test; match r with Some _ => iterations n test | None => mret None end
  end.

(** Character strings are cut at 255 bytes. *)
Definition normalise_record (r : Record_) : Record_ :=
  match r_rdata r with
  | RTxt ss => mkRecord (r_name r) (r_rtype r) (r_class r) (r_ttl r) (RTxt (map (take 255) ss))
  | _ => r
  end.

Definition normalise (m : Message) : Message :=
  mkMessage (header m) (questions m) (map normalise_record (answers m))
    (map normalise_record (authority m)) (map normalise_record (additional m)).

Definition round_trip (m : Message) : option () :=
  match Message_encode m with
  | Err Names.TooLarge => Some ()
  | Err _ => None
  | Ok bytes =>
      back ← expect_ok (Message_decode bytes);
      _ ← assert (bool_decide (normalise back = normalise m));
      again ← expect_ok (Message_encode back);
      assert (bool_decide (again = bytes))
  end.

Definition fuzz_encode_decode_round_trip (rng : Z) (iters : nat) : option () :=
  (iterations iters (round_trip <$> random_message) rng).1.

(** [bytes[at] = b], [bytes[at] |= 0xC0], [insert] and [drain]. *)
Definition set_at (bytes : list Z) (at_ : nat) (b : Z) : option (list Z) :=
  if (at_ <? length bytes)%nat then Some (<[at_ := b]> bytes) else None.

Definition make_pointer (bytes : list Z) (at_ : nat) : option (list Z) :=
  b ← bytes !! at_; set_at bytes at_ (Z.lor b 0xC0).

Definition vec_insert (bytes : list Z) (at_ : nat) (b : Z) : option (list Z) :=
  if (at_ <=? length bytes)%nat then Some (take at_ bytes ++ b :: drop at_ bytes) else None.

Definition vec_drain (bytes : list Z) (from to : nat) : option (list Z) :=
  if (from <=? to)%nat && (to <=? length bytes)%nat then Some (take from bytes ++ drop to bytes) else None.

Definition mutate (bytes : list Z) : Gen (option (list Z)) :=
  kind ← rng_below 5;
  at_ ← rng_below (length bytes);
  match kind with
  | 0%nat => b ← rng_byte; mret (set_at bytes at_ b)
  | 1%nat => mret (make_pointer bytes at_)
  | 2%nat => mret (Some (take at_ bytes))
  | 3%nat => b ← rng_byte; mret (vec_insert bytes at_ b)
  | _ => k ← rng_below 4; mret (vec_drain bytes at_ (at_ + Nat.min k (length bytes - at_)))
  end.

(** The loop of mutations; an empty message ends it. *)
Fixpoint mutations (mutate : list Z -> Gen (option (list Z))) (n : nat) (bytes : list Z)
  : Gen (option (list Z)) :=
  match n, bytes with
  | O, _ | _, [] => mret (Some bytes)
  | S n, _ => r ← mutate bytes;
      match r with Some bytes => mutations mutate n bytes | None => mret None end
  end.

Definition idempotent (bytes : list Z) : option () :=
  match Message_decode bytes with
  | Ok m =>
      match Message_encode m with
      | Ok again => m2 ← expect_ok (Message_decode again); assert (bool_decide (m2 = m))
      | Err _ => Some ()
      end
  | Err _ => Some ()
  end.

(** [None] is [continue]. *)
Definition noise_or_message : Gen (option (list Z)) :=
  noise ← rng_chance 4;
  if noise : bool then Some <$> rng_bytes 300 else (fun m => ok (Message_encode m)) <$> random_message.

Definition mutation_iteration : Gen (option ()) :=
  start ← noise_or_message;
  match start with
  | None => mret (Some ())
  | Some bytes =>
      n ← rng_below 6;
      bytes ← mutations mutate (1 + n) bytes;
      mret (b ← bytes; idempotent b)
  end.

Definition fuzz_mutations_never_panic (rng : Z) (iters : nat) : option () :=
  (iterations iters mutation_iteration rng).1.

Definition is_ascii_graphic (b : Z) : bool := (33 <=? b) && (b <=? 126).
Definition unescaped (n : Name) : bool :=
  forallb (forallb (fun b => is_ascii_graphic b && negb (b =? 46) && negb (b =? 92))) (labels n).

Definition random_char : Gen Z :=
  dot ← rng_chance 5;
  if dot : bool then mret 46 else k ← rng_below 26; mret (wrap 8 (97 + Z.of_nat k)).

Definition reads_back (n : Name) : option () :=
  if unescaped n then p ← expect_ok (Name_parse (Name_to_string n)); assert (bool_decide (p = n)) else Some ().

Definition names_iteration : Gen (option ()) :=
  n ← random_name;
  let _ := reverse_address n in
  let _ := to_lowercase n in
  v4 ← rng_u32;
  lo ← rng_next; hi ← rng_next;
  let v6 := Z.lxor lo (Z.shiftl hi 64) in
  k ← rng_below 300;
  s ← times k random_char;
  let _ := Name_parse s in
  mret (_ ← reads_back n;
        _ ← assert (bool_decide (reverse_address (reverse_v4 v4) = Some (V4 v4)));
        assert (bool_decide (reverse_address (reverse_v6 v6) = Some (V6 v6)))).

Definition fuzz_names (rng : Z) (iters : nat) : option () := (iterations iters names_iteration rng).1.

(** ** The test of the native decoders *)

Definition seeds : list (list Z) :=
  [Request_encode (QResolve (bytes_of "a.example") 1 true);
   Request_encode (QLookup (bytes_of "x") WV6);
   Request_encode (QReverse (V4 (from_be [10; 0; 0; 1])));
   Reply_encode (RAnswer (mkWAnswer Outcome_default
     [mkRecordOut (bytes_of "a") 1 1 [1] (bytes_of "t")] [] None None Unvalidated 0));
   Reply_encode (RStatus (mkStatusReport [] false [ScopeStatus_default] [] 0 WCounters_default));
   Reply_encode (RAddresses (mkWAddresses Outcome_default [] [mkAddressOut (V6 1) 2] [] Unvalidated))].

Definition noise_or_seed : Gen (option (list Z)) :=
  k ← rng_below 4;
  if (k =? 0)%nat then Some <$> rng_bytes 200
  else i ← rng_below (length seeds); mret (seeds !! i).

Definition mutate_wire (bytes : list Z) : Gen (option (list Z)) :=
  at_ ← rng_below (length bytes);
  kind ← rng_below 3;
  match kind with
  | 0%nat => b ← rng_byte; mret (set_at bytes at_ b)
  | 1%nat => mret (Some (take at_ bytes))
  | _ => b ← rng_byte; mret (vec_insert bytes at_ b)
  end.

Definition wire_iteration : Gen (option ()) :=
  start ← noise_or_seed;
  match start with
  | None => mret None
  | Some bytes =>
      n ← rng_below 5;
      bytes ← mutations mutate_wire (1 + n) bytes;
      mret (b ← bytes; resolv_wire b)
  end.

Definition fuzz_decoders_never_panic (rng : Z) (iters : nat) : option () :=
  (iterations iters wire_iteration rng).1.

(** ** What the generator yields *)

Definition yields {A} (g : Gen A) (P : A -> Prop) : Prop := forall s, P (g s).1.

Lemma yields_ret {A} (a : A) (P : A -> Prop) : P a -> yields (mret a) P.
Proof. by intros H s. Qed.

Lemma yields_bind {A B} (P : A -> Prop) (g : Gen A) (f : A -> Gen B) (Q : B -> Prop) :
  yields g P -> (forall a, P a -> yields (f a) Q) -> yields (g ≫= f) Q.
Proof. intros Hg Hf s. unfold mbind, gen_bind. specialize (Hg s). destruct (g s) as [a s']. by apply Hf. Qed.

Lemma yields_fmap {A B} (P : A -> Prop) (g : Gen A) (f : A -> B) (Q : B -> Prop) :
  yields g P -> (forall a, P a -> Q (f a)) -> yields (f <$> g) Q.
Proof. intros Hg Hf s. unfold fmap, gen_fmap. specialize (Hg s). destruct (g s) as [a s']. by apply Hf. Qed.

Lemma yields_mono {A} (P Q : A -> Prop) (g : Gen A) : yields g P -> (forall a, P a -> Q a) -> yields g Q.
Proof. intros Hg H s. apply H, Hg. Qed.

Lemma yields_times {A} (P : A -> Prop) n (g : Gen A) :
  yields g P -> yields (times n g) (fun xs => Forall P xs /\ length xs = n).
Proof.
  intros Hg. induction n as [|n IH]; [by apply yields_ret|]. cbn [times].
  eapply yields_bind; [exact Hg|]. intros x Hx. eapply yields_bind; [exact IH|].
  intros xs [Hxs Hl]. apply yields_ret. split; [by constructor|cbn; congruence].
Qed.

Lemma next_u64 : yields rng_next is_u64.
Proof. intros s. by apply wrap_in_width. Qed.

Lemma below_lt n : yields (rng_below n) (fun k => (k < Nat.max n 1)%nat).
Proof.
  eapply yields_bind; [exact next_u64|]. intros x _. apply yields_ret.
  pose proof (Z.mod_pos_bound x (Z.of_nat (Nat.max n 1)) ltac:(lia)). lia.
Qed.

Lemma byte_u8 : yields rng_byte is_u8.
Proof. eapply yields_bind; [exact next_u64|]. intros x _. by apply yields_ret, wrap_in_width. Qed.

Lemma u16_u16 : yields rng_u16 is_u16.
Proof. eapply yields_bind; [exact next_u64|]. intros x _. by apply yields_ret, wrap_in_width. Qed.

Lemma u32_u32 : yields rng_u32 is_u32.
Proof. eapply yields_bind; [exact next_u64|]. intros x _. by apply yields_ret, wrap_in_width. Qed.

Lemma chance_any n : yields (rng_chance n) (fun _ => True).
Proof. by intros s. Qed.

Lemma bytes_below n :
  yields (rng_bytes n) (fun b => bytes_ok b /\ (length b < Nat.max n 1)%nat).
Proof.
  eapply yields_bind; [exact (below_lt n)|]. intros k Hk.
  eapply yields_mono; [exact (yields_times _ _ _ byte_u8)|]. intros b [Hb Hl]. split; [done|]. cbn beta in Hk. lia.
Qed.

(** Take the next draw. *)
Ltac draw lem := eapply yields_bind; [exact lem|].

(** Bitwise operations stay within their width. *)
Lemma in_width_bits w z : 0 <= w -> 0 <= z -> (forall i, w <= i -> Z.testbit z i = false) -> in_width w z.
Proof.
  intros Hw Hz H. split; [done|]. destruct (Z_lt_le_dec z (2 ^ w)) as [|Hge]; [done|exfalso].
  assert (0 < z) by (pose proof (Z.pow_pos_nonneg 2 w); lia).
  assert (w <= Z.log2 z) by (by apply Z.log2_le_pow2).
  pose proof (Z.bit_log2 z) as Hb. rewrite H in Hb by done. by specialize (Hb ltac:(done)).
Qed.

Lemma width_bits w z i : in_width w z -> w <= i -> Z.testbit z i = false.
Proof.
  intros [H0 H1] Hi. destruct (Z.eq_dec z 0) as [->|Hz]; [apply Z.bits_0|].
  assert (0 <= w). { destruct (Z_lt_le_dec w 0); [|done]. rewrite Z.pow_neg_r in H1 by lia. lia. }
  apply Z.bits_above_log2; [done|]. assert (Z.log2 z < w); [apply Z.log2_lt_pow2; lia|lia].
Qed.

Lemma lor_in_width w a b : 0 <= w -> in_width w a -> in_width w b -> in_width w (Z.lor a b).
Proof.
  intros Hw Ha Hb. apply in_width_bits; [done|apply Z.lor_nonneg; split; [apply Ha|apply Hb]|].
  intros i Hi. by rewrite Z.lor_spec, (width_bits w a i), (width_bits w b i).
Qed.

Lemma lxor_in_width w a b : 0 <= w -> in_width w a -> in_width w b -> in_width w (Z.lxor a b).
Proof.
  intros Hw Ha Hb. apply in_width_bits; [done| |].
  - apply Z.lxor_nonneg. split; intros _; [apply Hb|apply Ha].
  - intros i Hi. by rewrite Z.lxor_spec, (width_bits w a i), (width_bits w b i).
Qed.

Lemma halves_u128 lo hi : is_u64 lo -> is_u64 hi -> is_u128 lo /\ is_u128 (Z.shiftl hi 64).
Proof. rewrite Z.shiftl_mul_pow2 by lia. unfold in_width. lia. Qed.

(** ** What is generated is well-formed *)

Lemma random_label_bytes : yields random_label bytes_ok.
Proof.
  draw (chance_any 20). intros long _. draw (below_lt (if long then 63%nat else 8%nat)). intros k _.
  eapply yields_mono; [exact (yields_times _ _ _ byte_u8)|]. by intros b [Hb _].
Qed.

Lemma random_name_wf : yields random_name Name_wf.
Proof.
  draw (below_lt 6). intros n _. draw (yields_times _ n _ random_label_bytes). intros ls [Hls _].
  apply yields_ret. destruct (Name_from_labels ls) eqn:E; [|apply Name_root_wf]. by eapply Name_from_labels_wf.
Qed.

Lemma random_v6_u128 : yields random_v6 is_u128.
Proof.
  draw next_u64. intros lo Hlo. draw next_u64. intros hi Hhi. apply yields_ret.
  destruct (halves_u128 lo hi Hlo Hhi). by apply lor_in_width.
Qed.

(** Well-formed but for the length of character strings. *)
Definition rdata_typed (rd : RData) : Prop :=
  match rd with
  | RTxt ss => Forall bytes_ok ss
  | RUnknown b => bytes_ok b
  | _ => rdata_wf (rdata_rtype rd) rd
  end.

Create HintDb draws.
#[export] Hint Resolve random_name_wf random_v6_u128 u32_u32 u16_u16 byte_u8 : draws.

Lemma random_rdata_typed kind : yields (random_rdata kind) rdata_typed.
Proof.
  assert (forall (C : list Z -> RData) n, (forall b, bytes_ok b -> rdata_typed (C b)) ->
            yields (C <$> rng_bytes n) rdata_typed) as Hbytes.
  { intros C n HC. eapply yields_fmap; [exact (bytes_below n)|]. intros b [Hb _]. by apply HC. }
  destruct kind as [|[|[|[|[|[|[|[|[|[|kind]]]]]]]]]].
  9: { draw (below_lt 4). intros n _. eapply yields_fmap; [exact (yields_times _ n _ (bytes_below 300))|].
       intros ss [Hs _]. cbn. eapply Forall_impl; [exact Hs|]. by intros s [? _]. }
  all: cbn [random_rdata]; try (by apply Hbytes);
    repeat (eapply yields_bind; [by eauto with draws|intros ? ?]);
    first [eapply yields_fmap; [by eauto with draws|]|apply yields_ret]; intros; cbn; split_and?; try done;
    repeat (constructor; [done|]); constructor.
Qed.

Lemma normalise_record_wf r :
  Name_wf (r_name r) -> is_u16 (r_rtype r) -> is_u16 (r_class r) -> is_u32 (r_ttl r) ->
  rdata_typed (r_rdata r) ->
  match r_rdata r with RUnknown _ => r_rtype r ∉ typed_rtypes | rd => r_rtype r = rdata_rtype rd end ->
  Record_wf (normalise_record r).
Proof.
  intros Hn Ht Hc Httl Hd Hr. destruct r as [name rt class ttl rd]; cbn in *.
  unfold normalise_record; cbn. destruct rd; subst; split_and!; try done.
  cbn. split; [done|]. apply Forall_map. eapply Forall_impl; [exact Hd|]. intros s Hs. cbn. split; [|by apply Forall_take].
  rewrite length_take. lia.
Qed.

Lemma random_record_wf : yields random_record (fun r => Record_wf (normalise_record r)).
Proof.
  draw random_name_wf. intros name Hn. draw u32_u32. intros ttl Ht. draw (below_lt 11). intros kind _.
  draw (random_rdata_typed kind). intros rd Hd.
  assert (forall rt, is_u16 rt -> match rd with RUnknown _ => rt ∉ typed_rtypes | _ => rt = rdata_rtype rd end ->
            Record_wf (normalise_record (mkRecord name rt class_IN ttl rd))) as Hw.
  { intros rt Hrt Hm. apply normalise_record_wf; cbn; try done; by destruct rd. }
  destruct rd; try (apply yields_ret, Hw; done).
  draw (below_lt 50). intros k Hk. cbn in Hk. apply yields_ret. cbn. apply Hw; [unfold in_width; lia|].
  unfold typed_rtypes. rewrite !elem_of_cons, elem_of_nil. unfold rtype.A, rtype.AAAA, rtype.CNAME, rtype.PTR,
    rtype.NS, rtype.SOA, rtype.MX, rtype.SRV, rtype.TXT, rtype.OPT. lia.
Qed.

Lemma random_question_wf : yields random_question Question_wf.
Proof.
  draw random_name_wf. intros name Hn. draw u16_u16. intros rt Ht. draw u16_u16. intros cl Hc. by apply yields_ret.
Qed.

Lemma random_section_wf : yields random_section (fun rs => Forall Record_wf (map normalise_record rs)).
Proof.
  draw (below_lt 4). intros n _. eapply yields_mono; [exact (yields_times _ n _ random_record_wf)|].
  intros rs [Hrs _]. by apply Forall_map.
Qed.

Lemma random_message_wf : yields random_message (fun m => Message_wf (normalise m)).
Proof.
  draw u16_u16. intros id Hid. draw (chance_any 2). intros ? _. draw (below_lt 16). intros op Hop.
  draw (below_lt 16). intros rc Hrc. draw (chance_any 4). intros ? _. draw (chance_any 2). intros ? _.
  draw (below_lt 3). intros n _. draw (yields_times _ n _ random_question_wf). intros qs [Hqs _].
  do 3 (draw random_section_wf; intros ? ?). cbn in Hop, Hrc. apply yields_ret. split_and!; try done. split; [done|]. cbn. lia.
Qed.

(** ** The tests pass *)

Lemma iterations_pass n test : yields test (.= Some ()) -> yields (iterations n test) (.= Some ()).
Proof.
  intros H. induction n as [|n IH]; [by apply yields_ret|]. cbn [iterations].
  draw H. by intros ? ->.
Qed.

Lemma write_txt_take out s : write_txt out (take 255 s) = write_txt out s.
Proof.
  unfold write_txt. rewrite length_take, take_take. do 2 f_equal; [|]; [do 2 f_equal; lia|f_equal; lia].
Qed.

Lemma normalise_write out r : Record_write (normalise_record r) out = Record_write r out.
Proof.
  destruct r as [name rt class ttl rd]. unfold normalise_record; cbn. destruct rd as [| | | | | | | |ss| |]; try done.
  unfold Record_write; cbn [r_name r_rtype r_class r_ttl r_rdata write_rdata].
  assert (forall o, foldl write_txt o (map (take 255) ss) = foldl write_txt o ss) as ->; [|done].
  induction ss as [|s ss IH]; [done|]. intros o. cbn [map foldl]. by rewrite write_txt_take, IH.
Qed.

Lemma normalise_encode m : Message_encode (normalise m) = Message_encode m.
Proof.
  unfold Message_encode, normalise; cbn [header questions answers authority additional].
  rewrite !length_map, <- !map_app.
  assert (forall rs o, foldl (fun out r => Record_write r out) o (map normalise_record rs) =
            foldl (fun out r => Record_write r out) o rs) as Hw; [|by destruct (write_counts _ _); cbn; [rewrite Hw|]].
  induction rs as [|r rs IH]; [done|]. intros o. cbn [map foldl]. by rewrite normalise_write, IH.
Qed.

Lemma normalise_record_idem r : normalise_record (normalise_record r) = normalise_record r.
Proof.
  destruct r as [name rt class ttl rd]. unfold normalise_record. destruct rd; cbn; try done.
  f_equal. f_equal. rewrite map_map. apply map_ext. intros s. by rewrite take_take, Nat.min_id.
Qed.

Lemma normalise_idem m : normalise (normalise m) = normalise m.
Proof. unfold normalise; cbn. rewrite !map_map. by rewrite !(map_ext _ _ normalise_record_idem). Qed.

Lemma encode_too_large m e : Message_encode m = Err e -> e = Names.TooLarge.
Proof.
  unfold Message_encode. destruct (write_counts _ _) as [out|e'] eqn:E; cbn.
  - destruct (_ <? _); congruence.
  - intros [= <-]. revert E. generalize (push_u16 (push_u16 [] (h_id (header m))) (Header_flags (header m))).
    induction [length (questions m); length (answers m); length (authority m); length (additional m)] as [|n ns IH];
      intros out; cbn; [done|]. case_match; [congruence|apply IH].
Qed.

Lemma round_trip_passes m : Message_wf (normalise m) -> round_trip m = Some ().
Proof.
  intros Hw. unfold round_trip. destruct (Message_encode m) as [bytes|e] eqn:E; [|by rewrite (encode_too_large m e E)].
  rewrite <- normalise_encode in E. rewrite (encode_decode _ _ Hw E). cbn.
  rewrite bool_decide_eq_true_2 by apply normalise_idem. cbn. rewrite E. cbn. by rewrite bool_decide_eq_true_2.
Qed.

Lemma fuzz_round_trip_passes rng iters : fuzz_encode_decode_round_trip rng iters = Some ().
Proof.
  revert rng. apply iterations_pass. eapply yields_fmap; [exact random_message_wf|].
  intros m. apply round_trip_passes.
Qed.

(** A mutation of bytes that are there leaves bytes, and at most one more. *)
Definition mutated (n : nat) (r : option (list Z)) : Prop :=
  exists b, r = Some b /\ bytes_ok b /\ (length b <= S n)%nat.

Lemma set_at_mutated bytes at_ b :
  bytes_ok bytes -> is_u8 b -> (at_ < length bytes)%nat -> mutated (length bytes) (set_at bytes at_ b).
Proof.
  intros Hb Hx Ha. unfold set_at. rewrite (proj2 (Nat.ltb_lt _ _) Ha).
  eexists; split; [done|]. split; [by apply Forall_insert|]. rewrite length_insert. lia.
Qed.

Lemma make_pointer_mutated bytes at_ :
  bytes_ok bytes -> (at_ < length bytes)%nat -> mutated (length bytes) (make_pointer bytes at_).
Proof.
  intros Hb Ha. unfold make_pointer. destruct (lookup_lt_is_Some_2 bytes at_ Ha) as [x Hx]. rewrite Hx. cbn.
  apply set_at_mutated; [done| |done]. apply lor_in_width; [done|by eapply Forall_lookup_1|by_decide].
Qed.

Lemma vec_insert_mutated bytes at_ b :
  bytes_ok bytes -> is_u8 b -> (at_ < length bytes)%nat -> mutated (length bytes) (vec_insert bytes at_ b).
Proof.
  intros Hb Hx Ha. unfold vec_insert. rewrite (proj2 (Nat.leb_le _ _)) by lia.
  eexists; split; [done|]. split.
  - apply Forall_app. split; [by apply Forall_take|]. constructor; [done|by apply Forall_drop].
  - rewrite length_app, length_take. cbn. rewrite length_drop. lia.
Qed.

Lemma truncate_mutated bytes at_ : bytes_ok bytes -> mutated (length bytes) (Some (take at_ bytes)).
Proof. intros Hb. eexists; split; [done|]. split; [by apply Forall_take|]. rewrite length_take. lia. Qed.

Lemma vec_drain_mutated bytes at_ k :
  bytes_ok bytes -> (at_ < length bytes)%nat ->
  mutated (length bytes) (vec_drain bytes at_ (at_ + Nat.min k (length bytes - at_))).
Proof.
  intros Hb Ha. unfold vec_drain. rewrite !(proj2 (Nat.leb_le _ _)) by lia. cbn.
  eexists; split; [done|]. split.
  - apply Forall_app. split; [by apply Forall_take|by apply Forall_drop].
  - rewrite length_app, length_take, length_drop. lia.
Qed.

Lemma mutate_mutated bytes :
  bytes_ok bytes -> bytes <> [] -> yields (mutate bytes) (mutated (length bytes)).
Proof.
  intros Hb Hne. assert (0 < length bytes)%nat by (destruct bytes; [done|cbn; lia]).
  draw (below_lt 5). intros kind _. draw (below_lt (length bytes)). intros at_ Ha. cbn beta in Ha.
  destruct kind as [|[|[|[|kind]]]].
  - draw byte_u8. intros b Hx. apply yields_ret, set_at_mutated; [done|done|lia].
  - apply yields_ret, make_pointer_mutated; [done|lia].
  - by apply yields_ret, truncate_mutated.
  - draw byte_u8. intros b Hx. apply yields_ret, vec_insert_mutated; [done|done|lia].
  - draw (below_lt 4). intros k _. apply yields_ret, vec_drain_mutated; [done|lia].
Qed.

Lemma mutate_wire_mutated bytes :
  bytes_ok bytes -> bytes <> [] -> yields (mutate_wire bytes) (mutated (length bytes)).
Proof.
  intros Hb Hne. assert (0 < length bytes)%nat by (destruct bytes; [done|cbn; lia]).
  draw (below_lt (length bytes)). intros at_ Ha. cbn beta in Ha. draw (below_lt 3). intros kind _.
  destruct kind as [|[|kind]].
  - draw byte_u8. intros b Hx. apply yields_ret, set_at_mutated; [done|done|lia].
  - by apply yields_ret, truncate_mutated.
  - draw byte_u8. intros b Hx. apply yields_ret, vec_insert_mutated; [done|done|lia].
Qed.

Lemma mutations_bytes f n : forall bytes,
  (forall b, bytes_ok b -> b <> [] -> yields (f b) (mutated (length b))) -> bytes_ok bytes ->
  yields (mutations f n bytes) (fun r => exists b, r = Some b /\ bytes_ok b /\ (length b <= n + length bytes)%nat).
Proof.
  induction n as [|n IH]; intros bytes Hf Hb.
  - apply yields_ret. eexists; split_and!; [done|done|cbn; lia].
  - destruct bytes as [|x bytes]; [apply yields_ret; eexists; split_and!; [done|done|cbn; lia]|].
    cbn [mutations]. draw (Hf (x :: bytes) Hb ltac:(done)). intros r (b & -> & Hb' & Hl).
    eapply yields_mono; [exact (IH b Hf Hb')|]. intros r (c & -> & Hc & Hcl). exists c. split_and!; [done|done|].
    cbn in *. lia.
Qed.

Lemma idempotent_passes bytes : bytes_ok bytes -> idempotent bytes = Some ().
Proof.
  intros Hb. unfold idempotent. destruct (Message_decode bytes) as [m|] eqn:Ed; [|done].
  destruct (Message_encode m) as [again|] eqn:Ee; [|done].
  rewrite (encode_decode m again (decode_message_wf _ m Hb Ed) Ee). cbn. by rewrite bool_decide_eq_true_2.
Qed.

Lemma noise_or_message_bytes :
  yields noise_or_message (fun r => forall b, r = Some b -> bytes_ok b).
Proof.
  draw (chance_any 4). intros [] _.
  - eapply yields_fmap; [exact (bytes_below 300)|]. by intros b [Hb _] ? [= <-].
  - eapply yields_fmap; [exact random_message_wf|]. intros m Hm b Hb. rewrite <- normalise_encode in Hb.
    destruct (Message_encode (normalise m)) as [out|] eqn:E; [|done]. injection Hb as <-.
    rewrite encode_wire in E by done. case_bool_decide; [|done]. injection E as <-. by apply message_wire_ok.
Qed.

Lemma fuzz_mutations_passes rng iters : fuzz_mutations_never_panic rng iters = Some ().
Proof.
  revert rng. apply iterations_pass. draw noise_or_message_bytes. intros [bytes|] Hb; [|by apply yields_ret].
  draw (below_lt 6). intros n _. draw (mutations_bytes mutate (1 + n) bytes mutate_mutated (Hb _ eq_refl)).
  intros r (b & -> & Hok & _). by apply yields_ret, idempotent_passes.
Qed.

Lemma unescaped_plain n : unescaped n = true -> Forall (Forall plain_byte) (labels n).
Proof.
  intros H%Is_true_true%forallb_True. eapply Forall_impl; [exact H|].
  intros l Hl%forallb_True. eapply Forall_impl; [exact Hl|].
  intros b. cbn. rewrite Is_true_true. unfold is_ascii_graphic, plain_byte. lia.
Qed.

Lemma reads_back_passes n : Name_wf n -> reads_back n = Some ().
Proof.
  intros Hn. unfold reads_back. destruct (unescaped n) eqn:E; [|done].
  rewrite (parse_to_string n Hn (unescaped_plain n E)). cbn. by rewrite bool_decide_eq_true_2.
Qed.

Lemma fuzz_names_passes rng iters : fuzz_names rng iters = Some ().
Proof.
  revert rng. apply iterations_pass. draw random_name_wf. intros n Hn. draw u32_u32. intros v4 H4.
  draw next_u64. intros lo Hlo. draw next_u64. intros hi Hhi. draw (below_lt 300). intros k _.
  assert (yields random_char (fun _ => True)) as Hc by (by intros s). draw (yields_times _ k _ Hc). intros s _.
  apply yields_ret. destruct (halves_u128 lo hi Hlo Hhi) as [H1 H2].
  rewrite (reads_back_passes n Hn), (reverse_address_v4 v4 H4), reverse_address_v6 by (by apply lxor_in_width).
  by rewrite !bool_decide_eq_true_2 by done.
Qed.

Lemma seeds_bytes : Forall (fun b => bytes_ok b /\ (length b <= 300)%nat) seeds.
Proof. by_decide. Qed.

Lemma noise_or_seed_bytes :
  yields noise_or_seed (fun r => exists b, r = Some b /\ bytes_ok b /\ (length b <= 300)%nat).
Proof.
  draw (below_lt 4). intros k _. case_match.
  - eapply yields_fmap; [exact (bytes_below 200)|]. intros b [Hb Hl]. exists b. split_and!; [done|done|lia].
  - draw (below_lt (length seeds)). intros i Hi. cbn beta in Hi. apply yields_ret.
    destruct (lookup_lt_is_Some_2 seeds i) as [b Hb]; [cbn in *; lia|].
    exists b. split; [done|]. by eapply (Forall_lookup_1 _ _ _ _ seeds_bytes).
Qed.

Lemma fuzz_decoders_passes rng iters : fuzz_decoders_never_panic rng iters = Some ().
Proof.
  revert rng. apply iterations_pass. draw noise_or_seed_bytes. intros r (bytes & -> & Hb & Hl).
  draw (below_lt 5). intros n Hn. cbn in Hn.
  draw (mutations_bytes mutate_wire (1 + n) bytes mutate_wire_mutated Hb).
  intros r (b & -> & Hok & Hbl). apply yields_ret. cbn. apply resolv_wire_passes; [done|].
  assert (length b <= 400)%nat by lia. lia.
Qed.

(** ** Every oracle of the codecs *)

(** C22. The codecs' fuzz oracles hold on every input.  Whatever bytes come in:
    a DNS message that decodes and encodes again decodes to itself; a native
    request or reply that decodes, from any map of any fields, encodes to
    bytes that decode again, a request to itself; an error reply of the stub
    door decodes, and the reply it renders for any answer encodes, decodes,
    has a datagram form no longer than the client's limit or the whole reply,
    and that decodes too.  And the random tests that ship with the codecs pass
    for every seed and however many iterations: a random message encodes, or
    is too large, decodes to itself but for the cut of long character strings,
    and encodes to the same bytes again; mutated messages, random names,
    reverse names and mutated native messages meet no failed assertion. *)
Theorem codec_targets_pass data input rng iters :
  bytes_ok data -> Z.of_nat (length data) < 2 ^ 32 -> Input_typed input ->
  (dns_decode data = Some () /\ resolv_wire data = Some () /\ stub_query_target input = Some ()) /\
  fuzz_encode_decode_round_trip rng iters = Some () /\ fuzz_mutations_never_panic rng iters = Some () /\
  fuzz_names rng iters = Some () /\ fuzz_decoders_never_panic rng iters = Some ().
Proof.
  intros Hb Hl Hi. split_and!; [by apply dns_decode_passes|by apply resolv_wire_passes|by apply stub_query_passes|..].
  - apply fuzz_round_trip_passes.
  - apply fuzz_mutations_passes.
  - apply fuzz_names_passes.
  - apply fuzz_decoders_passes.
Qed.

Definition fuzz_input_ : FuzzInput :=
  mkFuzzInput ([18; 52; 1; 0; 0; 1; 0; 0; 0; 0; 0; 0; 1; 97; 0; 0; 1; 0; 1]) 3 (Some (bytes_of "a.lan")) 149 60 20.

(** The reply to a query, and the first message of the round trip's seed. *)
Lemma codec_targets_pass_witness :
  length (a_records (fuzz_answer (expect Message_default (parse_query (in_query fuzz_input_))) fuzz_input_)) = 49%nat /\
  length (answers (random_message (Rng_new 0x5eed)).1) = 2%nat /\
  stub_query_target fuzz_input_ = Some () /\ fuzz_encode_decode_round_trip (Rng_new 0x5eed) (Z.to_nat 20000) = Some ().
Proof.
  split; [vm_compute; reflexivity|]. split; [vm_compute; reflexivity|].
  destruct (codec_targets_pass [] fuzz_input_ (Rng_new 0x5eed) (Z.to_nat 20000)) as ((_ & _ & Hs) & Hr & _);
    [constructor|vm_compute; reflexivity| |split; [exact Hs|exact Hr]].
  split_and!; [by_decide|by intros b [= <-]; by_decide|by_decide|by_decide|by_decide].
Defined.
