(* ===== verification/CodecTests.v ===== *)
(** * The codecs' and the cache's unit tests

    The tests of dns/src/lib.rs, cache.rs, msgpack.rs, resolvd-core/src/lib.rs
    and those of stub.rs that open no socket, run on the model.  A failed
    assertion or an [unwrap] of an error is [None].  Where the code compares
    names without case the model's equality is the stronger one.  The tests
    that fill the cache to its 8192 entries are left out: what they check is
    the theorem on the cache. *)

From S2P Require Import Prelude Net Names Message Cache EngineState IpText Io Msgpack NativeWire Stub Present FuzzEngine FuzzCodec.
Local Open Scope Z_scope.

#[local] Existing Instance canonical_order.

#[export] Instance HashWrite_eq_dec : EqDecision HashWrite.
Proof. solve_decision. Defined.
#[export] Instance IoError_eq_dec : EqDecision IoError.
Proof. solve_decision. Defined.
#[export] Instance WireError_eq_dec : EqDecision WireError.
Proof. solve_decision. Defined.
#[export] Instance Validation_eq_dec : EqDecision Validation.
Proof. solve_decision. Defined.
#[export] Instance RecordOut_eq_dec : EqDecision RecordOut.
Proof. solve_decision. Defined.
#[export] Instance WAnswer_eq_dec : EqDecision WAnswer.
Proof. solve_decision. Defined.
#[export] Instance AddressOut_eq_dec : EqDecision AddressOut.
Proof. solve_decision. Defined.
#[export] Instance WAddresses_eq_dec : EqDecision WAddresses.
Proof. solve_decision. Defined.
#[export] Instance ScopeStatus_eq_dec : EqDecision ScopeStatus.
Proof. solve_decision. Defined.
#[export] Instance WCounters_eq_dec : EqDecision WCounters.
Proof. solve_decision. Defined.
#[export] Instance StatusReport_eq_dec : EqDecision StatusReport.
Proof. solve_decision. Defined.
#[export] Instance Reply_eq_dec : EqDecision Reply.
Proof. solve_decision. Defined.

(** ** Test programs *)

Declare Scope codec_test_scope.
Local Open Scope codec_test_scope.
Notation "a == b" := (assert (bool_decide (a = b))) (at level 70) : codec_test_scope.
Notation "m ;; k" := (_ ← m; k) (at level 100, right associativity, only parsing) : codec_test_scope.

Definition is_ok {E A} (r : result E A) : bool := match r with Ok _ => true | Err _ => false end.
Definition is_some {A} (o : option A) : bool := match o with Some _ => true | None => false end.

(** [for x in xs]. *)
Fixpoint every {A} (xs : list A) (f : A -> option ()) : option () :=
  match xs with [] => Some () | x :: xs => f x;; every xs f end.

Definition starts_with (p s : list Z) : bool := bool_decide (take (length p) s = p).

Definition v4_of (a b c d : Z) : Ipv4Addr := from_be [a; b; c; d].
Definition v6_of (s : string) : Ipv6Addr := match ip_of s with V6 a => a | V4 _ => 0 end.
Definition query_of (id : Z) (name : string) (rt : Z) : Message := Message_query id (Question_new (name_of name) rt).
Definition put_answers (rs : list Record_) (m : Message) : Message :=
  mkMessage (header m) (questions m) rs (authority m) (additional m).
Definition put_header (h : Header) (m : Message) : Message :=
  mkMessage h (questions m) (answers m) (authority m) (additional m).

(** ** dns/src/lib.rs *)

Definition names_parse_display_and_compare_case_insensitively : option () :=
  let n := name_of in
  Name_to_string (n "www.Example.COM") == bytes_of "www.Example.COM";;
  assert (Name_eqb (n "www.example.com") (n "WWW.EXAMPLE.COM"));;
  n "." == Name_root;;
  label_count (n "example.com.") == 2%nat;;
  assert (negb (is_ok (Name_parse (bytes_of "a..b"))));;
  assert (negb (is_ok (Name_parse (replicate 64 97))));;
  assert (ends_with (n "host.example.com") (n "EXAMPLE.com"));;
  assert (negb (ends_with (n "example.com") (n "host.example.com")));;
  x ← ok (Name_join (n "host") (n "example.com"));
  assert (Name_eqb x (n "host.example.com"));;
  Name_hash (n "A.b") == Name_hash (n "a.B").

Definition reverse_names_round_trip : option () :=
  let v4 := reverse_v4 (v4_of 10 0 2 15) in
  Name_to_string v4 == bytes_of "15.2.0.10.in-addr.arpa";;
  reverse_address v4 == Some (V4 (v4_of 10 0 2 15));;
  let a6 := v6_of "2001:db8::1" in
  let v6 := reverse_v6 a6 in
  assert (starts_with (bytes_of "1.0.0.0.0.0.0.0.") (Name_to_string v6));;
  reverse_address v6 == Some (V6 a6);;
  reverse_address (name_of "example.com") == None;;
  reverse_address (name_of "x.2.0.10.in-addr.arpa") == None.

Definition a_query_round_trips : option () :=
  let q := query_of 4660 "example.com" rtype.A in
  bytes ← ok (Message_encode q);
  take 2 bytes == [18; 52];;
  b2 ← bytes !! 2%nat;
  Z.land b2 1 == 1;;
  back ← ok (Message_decode bytes);
  back == q;;
  udp_size back == EDNS_UDP_SIZE.

Definition typed_records : list Record_ :=
  let n := name_of in
  [Record_new (n "example.com") 300 (RA (v4_of 93 184 216 34));
   Record_new (n "example.com") 300 (RAaaa (v6_of "2606:2800::1"));
   Record_new (n "www.example.com") 60 (RCname (n "example.com"));
   Record_new (n "34.216.184.93.in-addr.arpa") 60 (RPtr (n "example.com"));
   Record_new (n "example.com") 60 (RNs (n "a.iana-servers.net"));
   Record_new (n "example.com") 60 (RSoa (n "ns.icann.org") (n "noc.dns.icann.org") 2024 7200 3600 1209600 3600);
   Record_new (n "example.com") 60 (RMx 10 (n "mail.example.com"));
   Record_new (n "_sip._tcp.example.com") 60 (RSrv 1 2 5060 (n "sip.example.com"));
   Record_new (n "example.com") 60 (RTxt [bytes_of "v=spf1 -all"; bytes_of "x"]);
   mkRecord (n "example.com") 99 1 1 (RUnknown [1; 2; 3])].

Definition quoted (s : list Z) : list Z := [34] ++ s ++ [34].

Definition a_response_with_every_typed_record_round_trips : option () :=
  let recs := typed_records in
  let m := push_additional (Record_opt 4096 true)
             (put_answers recs (reply_to (query_of 7 "example.com" rtype.ANY))) in
  bytes ← ok (Message_encode m);
  back ← ok (Message_decode bytes);
  answers back == recs;;
  assert (response (header back) && recursion_available (header back));;
  udp_size back == 4096;;
  Message_rcode back == 0;;
  txt ← answers back !! 8%nat;
  rdata_text txt == quoted (bytes_of "v=spf1 -all") ++ [32] ++ quoted (bytes_of "x");;
  soa ← answers back !! 5%nat;
  rdata_text soa == bytes_of "ns.icann.org noc.dns.icann.org 2024 7200 3600 1209600 3600".

Definition compression_pointers_are_followed_and_loops_refused : option () :=
  let bytes := [0; 1; 129; 128; 0; 1; 0; 1; 0; 0; 0; 0] ++ [1; 97; 1; 98; 0; 0; 1; 0; 1]
    ++ [192; 12; 0; 1; 0; 1; 0; 0; 0; 5; 0; 4; 1; 2; 3; 4] in
  m ← ok (Message_decode bytes);
  r ← answers m !! 0%nat;
  r_name r == name_of "a.b";;
  r_rdata r == RA (v4_of 1 2 3 4);;
  r_ttl r == 5;;
  let bad := [0; 1; 129; 128; 0; 1; 0; 0; 0; 0; 0; 0] ++ [192; 12; 0; 1; 0; 1] in
  Message_decode bad == Err BadPointer;;
  let fwd := [0; 1; 129; 128; 0; 1; 0; 0; 0; 0; 0; 0] ++ [192; 20; 0; 1; 0; 1; 0; 0; 0; 0; 0; 0; 0; 0] in
  Message_decode fwd == Err BadPointer.

(** The results of the first two loops are thrown away: decoding is a total
    function, so there is nothing to assert. *)
Definition malformed_input_never_panics : option () :=
  good ← ok (Message_encode (query_of 1 "example.com" rtype.A));
  let _ := map (fun cut => Message_decode (take cut good)) (seq 0 (length good)) in
  let _ :=
    concat (map (fun i => map (fun v => Message_decode (<[i := v]> good)) [0; 63; 64; 128; 192; 255])
      (seq 0 (length good))) in
  Message_decode ([0; 1; 129; 128; 0; 0; 0; 1; 0; 0; 0; 0] ++ [0; 0; 1; 0; 1; 0; 0; 0; 0; 255; 255]) == Err Truncated;;
  Message_decode [0; 1; 129; 128; 255; 255; 0; 0; 0; 0; 0; 0] == Err Truncated.

Definition udp_encoding_truncates_over_the_limit : option () :=
  let m := put_answers
    (map (fun i => Record_new (name_of "big.example") 1 (RA (v4_of 10 0 0 (Z.of_nat i)))) (seq 0 100))
    (reply_to (query_of 1 "big.example" rtype.A)) in
  bytes ← ok (encode_udp m 512);
  assert (Z.of_nat (length bytes) <=? 512);;
  back ← ok (Message_decode bytes);
  assert (truncated (header back));;
  answers back == [];;
  questions back == questions m.

(** The closure counts from one and says whether its count is even. *)
Definition case_randomisation_keeps_equality : option () :=
  let r := randomise_case (fun k => Nat.even (S k)) (name_of "www.example.com") in
  assert (Name_eqb r (name_of "www.example.com"));;
  assert (negb (bool_decide (Name_to_string r = bytes_of "www.example.com"))).

Definition extended_rcode_is_read_from_opt : option () :=
  let o := Record_opt 1232 false in
  let opt := mkRecord (r_name o) (r_rtype o) (r_class o) (Z.shiftl 1 24) (r_rdata o) in
  let m := push_additional opt (set_rcode 0 (reply_to (query_of 1 "x" rtype.A))) in
  Message_rcode m == 16;;
  rtype_parse (bytes_of "aaaa") == Some rtype.AAAA;;
  rtype_parse (bytes_of "TYPE65") == Some 65;;
  rtype_name 65 == bytes_of "TYPE65".

Definition dns_tests : list (option ()) :=
  [names_parse_display_and_compare_case_insensitively;
   reverse_names_round_trip;
   a_query_round_trips;
   a_response_with_every_typed_record_round_trips;
   compression_pointers_are_followed_and_loops_refused;
   malformed_input_never_panics;
   udp_encoding_truncates_over_the_limit;
   case_randomisation_keeps_equality;
   extended_rcode_is_read_from_opt].

Lemma dns_tests_pass : forallb is_some dns_tests = true.
Proof. vm_compute. reflexivity. Qed.

(** ** cache.rs *)

Definition at_secs (s : Z) : Z := from_secs s.
Definition at_millis (ms : Z) : Z := ms * 1000000.

Definition entry (expires : Z) : Entry := mkEntry Found [] 0 (ip_of "10.0.0.1") expires.
Definition cache_key (name : string) (rt : Z) (scope : string) : CacheKey :=
  CacheKey_new (name_of name) rt (bytes_of scope).
(** [key(i)], the name's number given as text. *)
Definition key (i : string) : CacheKey := cache_key ("n" ++ i ++ ".example") 1 "lan".

Definition put_records (rs : list Record_) (e : Entry) : Entry :=
  mkEntry (e_outcome e) rs (e_rcode e) (e_server e) (e_expires e).
Definition put_outcome (o : Outcome) (code : Z) (e : Entry) : Entry :=
  mkEntry o (e_records e) code (e_server e) (e_expires e).

Definition entries_expire_and_scopes_flush : option () :=
  let now := 0 in
  let k := cache_key "A.example" 1 "lan" in
  let c := Cache_insert Cache_new k (entry (now + at_secs 10)) now in
  let '(c, hit) := Cache_get c (cache_key "a.EXAMPLE" 1 "lan") now in
  assert (is_some hit);;
  let '(c, hit) := Cache_get c k (now + at_secs 10) in
  assert (negb (is_some hit));;
  let '(c, hit) := Cache_get c (cache_key "a.example" 1 "vpn") now in
  assert (negb (is_some hit));;
  let c := flush_scope c (bytes_of "lan") in
  Cache_len c == 0%nat.

Definition an_expired_lookup_removes_only_the_requested_entry : option () :=
  let now := 0 in
  let expires := now + at_secs 10 in
  let c := Cache_insert Cache_new (key "0") (entry expires) now in
  let c := Cache_insert c (key "1") (entry expires) now in
  let c := Cache_insert c (key "2") (entry (expires + at_secs 10)) now in
  let '(c, hit) := Cache_get c (key "0") expires in
  assert (negb (is_some hit));;
  Cache_len c == 2%nat;;
  let '(c, hit) := Cache_get c (key "0") expires in
  assert (negb (is_some hit));;
  Cache_len c == 2%nat;;
  let '(c, hit) := Cache_get c (key "2") expires in
  assert (is_some hit);;
  let '(c, hit) := Cache_get c (key "1") expires in
  assert (negb (is_some hit));;
  Cache_len c == 1%nat.

Definition record_ttls_age_without_expiring_a_live_subsecond_entry : option () :=
  let now := 0 in
  let answer := put_records
    [Record_new (name_of "n0.example") 30 (RA (v4_of 1 2 3 4));
     Record_new (name_of "n0.example") 3 (RA (v4_of 1 2 3 5))] (entry (now + at_secs 10)) in
  let c := Cache_insert Cache_new (key "0") answer now in
  let '(c, hit) := Cache_get c (key "0") (now + at_millis 2500) in
  e ← hit;
  map r_ttl (e_records e) == [7; 3];;
  let '(c, hit) := Cache_get c (key "0") (now + at_millis 9500) in
  e ← hit;
  map r_ttl (e_records e) == [0; 0];;
  Cache_len c == 1%nat;;
  let '(c, hit) := Cache_get c (key "0") (now + at_secs 10) in
  assert (negb (is_some hit));;
  Cache_len c == 0%nat.

Definition negative_answers_keep_their_outcome_until_exact_expiry : option () :=
  let now := 0 in
  let answer := put_outcome NotFound rcode.NXDOMAIN (entry (now + at_secs 10)) in
  let c := Cache_insert Cache_new (key "0") answer now in
  let '(c, hit) := Cache_get c (key "0") (now + at_millis 9999) in
  hit == Some answer;;
  let '(c, hit) := Cache_get c (key "0") (now + at_secs 10) in
  assert (negb (is_some hit));;
  Cache_len c == 0%nat.

Definition keys_fold_case_but_separate_types_and_scopes_and_flush_selectively : option () :=
  let now := 0 in
  let a_lan := cache_key "A.example" rtype.A "lan" in
  let a_vpn := cache_key "A.example" rtype.A "vpn" in
  let aaaa_lan := cache_key "A.example" rtype.AAAA "lan" in
  let c := Cache_insert Cache_new a_lan (entry (now + at_secs 10)) now in
  let c := Cache_insert c a_vpn (entry (now + at_secs 20)) now in
  let c := Cache_insert c aaaa_lan (entry (now + at_secs 30)) now in
  let lower_key := cache_key "a.EXAMPLE" rtype.A "lan" in
  let '(c, by_lower) := Cache_get c lower_key now in
  let '(c, lan) := Cache_get c a_lan now in
  let '(c, vpn) := Cache_get c a_vpn now in
  let '(c, aaaa) := Cache_get c aaaa_lan now in
  by_lower == lan;;
  assert (negb (bool_decide (lan = vpn)));;
  assert (negb (bool_decide (lan = aaaa)));;
  Cache_len c == 3%nat;;
  let c := flush_scope c (bytes_of "lan") in
  let '(c, lan) := Cache_get c a_lan now in
  let '(c, aaaa) := Cache_get c aaaa_lan now in
  let '(c, vpn) := Cache_get c a_vpn now in
  assert (negb (is_some lan) && negb (is_some aaaa) && is_some vpn);;
  Cache_len c == 1%nat;;
  let c := Cache_clear c in
  Cache_len c == 0%nat;;
  assert (negb (is_some (Cache_get c a_vpn now).2)).

Definition cache_tests : list (option ()) :=
  [entries_expire_and_scopes_flush;
   an_expired_lookup_removes_only_the_requested_entry;
   record_ttls_age_without_expiring_a_live_subsecond_entry;
   negative_answers_keep_their_outcome_until_exact_expiry;
   keys_fold_case_but_separate_types_and_scopes_and_flush_selectively].

Lemma cache_tests_pass : forallb is_some cache_tests = true.
Proof. vm_compute. reflexivity. Qed.

(** ** msgpack.rs *)

Definition rd {E A} (r : result E (A * Reader)) : option (A * Reader) := ok r.

Definition scalars_round_trip : option () :=
  let bytes := [] |> write_array 9 |> write_nil |> write_bool true |> write_uint 5 |> write_uint 300
    |> write_uint 70000 |> write_uint (Z.shiftl 1 40) |> write_int (-5) |> write_int (-300)
    |> write_str (bytes_of "hello") in
  '(n, r) ← rd (read_array (Reader_new bytes));
  n == 9%nat;;
  '(_, r) ← rd (read_nil r);
  '(b, r) ← rd (read_bool r);
  assert b;;
  '(v, r) ← rd (read_uint r);
  v == 5;;
  '(v, r) ← rd (read_uint r);
  v == 300;;
  '(v, r) ← rd (read_uint r);
  v == 70000;;
  '(v, r) ← rd (read_uint r);
  v == Z.shiftl 1 40;;
  '(v, r) ← rd (read_int r);
  v == -5;;
  '(v, r) ← rd (read_int r);
  v == -300;;
  '(s, r) ← rd (read_str r);
  s == bytes_of "hello";;
  remaining r == 0%nat.

Definition long_strings_bins_and_containers : option () :=
  let long := replicate 300 120 in
  let bin := replicate (Z.to_nat 70000) 7 in
  let bytes := [] |> write_map 2 |> write_str (bytes_of "s") |> write_str long |> write_str (bytes_of "b")
    |> write_bin bin in
  '(n, r) ← rd (read_map (Reader_new bytes));
  n == 2%nat;;
  '(s, r) ← rd (read_str r);
  s == bytes_of "s";;
  '(s, r) ← rd (read_str r);
  s == long;;
  '(s, r) ← rd (read_str r);
  s == bytes_of "b";;
  '(s, r) ← rd (read_bin r);
  s == bin.

(** What the tests look at of a skip. *)
Definition skipped (r : result MError Reader) : result MError () :=
  match r with Ok _ => Ok () | Err e => Err e end.

Definition skip_walks_nested_values_and_refuses_lies : option () :=
  let bytes := [] |> write_array 2 |> write_map 1 |> write_str (bytes_of "k") |> write_array 1 |> write_uint 1
    |> write_str (bytes_of "after") in
  '(n, r) ← rd (read_array (Reader_new bytes));
  n == 2%nat;;
  r ← ok (skip r);
  '(s, _) ← rd (read_str r);
  s == bytes_of "after";;
  let lie := [221; 59; 154; 202; 0] in
  assert (match read_array (Reader_new lie) with Err MTruncated => true | _ => false end);;
  let deep := replicate 40 145 ++ [192] in
  skipped (skip (Reader_new deep)) == Err MDepth;;
  skipped (skip (Reader_new [193])) == Err MUnsupported.

Definition skippable_scalars : list (list Z) :=
  [[0]; [127]; [224]; [255]; [192]; [194]; [195]] ++
  map (fun '(tag, len) => tag :: replicate len 255)
    [(204, 1%nat); (205, 2%nat); (206, 4%nat); (207, 8%nat); (208, 1%nat); (209, 2%nat); (210, 4%nat); (211, 8%nat);
     (202, 4%nat); (203, 8%nat); (212, 2%nat); (213, 3%nat); (214, 5%nat); (215, 9%nat); (216, 17%nat)] ++
  concat (map (fun '(tag, width) =>
    map (fun len => [tag] ++ be_bytes width (Z.of_nat len) ++ [255] ++ replicate len 193) [0%nat; 3%nat])
    [(199, 1%nat); (200, 2%nat); (201, 4%nat)]).

Definition skip_scalars_and_extensions_preserves_the_next_value : option () :=
  every skippable_scalars (fun value =>
    r ← ok (skip (Reader_new (value ++ [42])));
    '(v, r) ← rd (read_uint r);
    v == 42;;
    remaining r == 0%nat;;
    every (seq 0 (length value)) (fun end_ =>
      skipped (skip (Reader_new (take end_ value))) == Err MTruncated)).

Definition marker (value : list Z) : Z := hd 0 value.

Definition skip_float_values : option () :=
  every (List.filter (fun v => (marker v =? 202) || (marker v =? 203)) skippable_scalars) (fun value =>
    skipped (skip (Reader_new value)) == Ok ()).

Definition skip_extension_values : option () :=
  every (List.filter (fun v => in_range 199 201 (marker v) || in_range 212 216 (marker v)) skippable_scalars)
    (fun value => skipped (skip (Reader_new value)) == Ok ()).

Definition skip_extended_values_in_nested_map_keys_and_values : option () :=
  every skippable_scalars (fun value =>
    let bytes := [145; 129] ++ value ++ [145] ++ value ++ [42] in
    r ← ok (skip (Reader_new bytes));
    '(v, r) ← rd (read_uint r);
    v == 42;;
    remaining r == 0%nat).

Definition skip_keeps_depth_utf8_and_reserved_marker_checks : option () :=
  let bytes := replicate MAX_DEPTH 145 ++ [202; 0; 0; 0; 0] in
  skipped (skip (Reader_new bytes)) == Ok ();;
  skipped (skip (Reader_new (145 :: bytes))) == Err MDepth;;
  skipped (skip (Reader_new [161; 255])) == Err MUtf8;;
  skipped (skip (Reader_new [145; 193])) == Err MUnsupported.

Definition requests_and_replies_ignore_extended_unknown_fields : option () :=
  every skippable_scalars (fun value =>
    let request := ([] |> write_map 3 |> write_str (bytes_of "future")) ++ value
      ++ ([] |> write_str (bytes_of "query") |> write_str (bytes_of "lookup")
             |> write_str (bytes_of "name") |> write_str (bytes_of "x")) in
    Request_decode request == Ok (QLookup (bytes_of "x") WAny);;
    let reply := ([] |> write_map 2 |> write_str (bytes_of "future") |> write_array 1) ++ value
      ++ ([] |> write_str (bytes_of "ok") |> write_bool true) in
    Reply_decode reply == Ok ROk).

Definition with_queries (n : Z) : StatusReport :=
  let d := StatusReport_default in
  mkStatusReport (sr_hostname d) (sr_netd d) (sr_scopes d) (sr_fallback_servers d) (sr_cache_entries d)
    (mkWCounters n 0 0 0 0 0 0).

Definition replies_ignore_unknown_counter_values_but_validate_known_counters : option () :=
  every skippable_scalars (fun value =>
    let bytes := ([] |> write_map 3 |> write_str (bytes_of "ok") |> write_bool true
        |> write_str (bytes_of "kind") |> write_str (bytes_of "status")
        |> write_str (bytes_of "counters") |> write_map 2 |> write_str (bytes_of "future")) ++ value
      ++ ([] |> write_str (bytes_of "queries") |> write_uint 42) in
    Reply_decode bytes == Ok (RStatus (with_queries 42)));;
  every [[202; 0; 0; 0; 0]; [212; 0; 0]; [255]; 207 :: replicate 8 255] (fun invalid =>
    let bytes := ([] |> write_map 2 |> write_str (bytes_of "ok") |> write_bool true
        |> write_str (bytes_of "counters") |> write_map 1 |> write_str (bytes_of "queries")) ++ invalid in
    Reply_decode bytes == Err (Encoding MType);;
    let bytes := ([] |> write_map 2 |> write_str (bytes_of "query") |> write_str (bytes_of "status")
        |> write_str (bytes_of "type")) ++ invalid in
    Request_decode bytes == Err (Encoding MType)).

Definition msgpack_tests : list (option ()) :=
  [scalars_round_trip;
   long_strings_bins_and_containers;
   skip_walks_nested_values_and_refuses_lies;
   skip_scalars_and_extensions_preserves_the_next_value;
   skip_float_values;
   skip_extension_values;
   skip_extended_values_in_nested_map_keys_and_values;
   skip_keeps_depth_utf8_and_reserved_marker_checks;
   requests_and_replies_ignore_extended_unknown_fields;
   replies_ignore_unknown_counter_values_but_validate_known_counters].

Lemma msgpack_tests_pass : forallb is_some msgpack_tests = true.
Proof. vm_compute. reflexivity. Qed.

(** ** resolvd-core/src/lib.rs *)

Definition requests_round_trip : option () :=
  every [QResolve (bytes_of "example.com") 1 true; QLookup (bytes_of "host") WV6; QReverse (ip_of "10.0.2.15");
         QStatus; QFlush] (fun req =>
    Request_decode (Request_encode req) == Ok req);;
  required_right QFlush == RESOLVER_CONTROL;;
  required_right QStatus == RESOLVER_QUERY.

Definition replies_round_trip : option () :=
  let answer := RAnswer (mkWAnswer Found
    [mkRecordOut (bytes_of "example.com") 1 30 [1; 2; 3; 4] (bytes_of "1.2.3.4")]
    (bytes_of "dns") (Some (bytes_of "10.0.2.3")) (Some (bytes_of "eth0")) Unvalidated 0) in
  Reply_decode (Reply_encode answer) == Ok answer;;
  let addresses := RAddresses (mkWAddresses Found (bytes_of "example.com")
    [mkAddressOut (ip_of "1.2.3.4") 30] (bytes_of "cache") Unvalidated) in
  Reply_decode (Reply_encode addresses) == Ok addresses;;
  let status := RStatus (mkStatusReport (bytes_of "box") true
    [mkScopeStatus (bytes_of "eth0") [bytes_of "10.0.2.3"] [bytes_of "lan"] true false 100
       [bytes_of "10.0.2.0/24"] []]
    [] 3 (mkWCounters 9 0 2 0 0 0 0)) in
  Reply_decode (Reply_encode status) == Ok status;;
  Reply_decode (Reply_encode ROk) == Ok ROk;;
  let e := RError (bytes_of "no") in
  Reply_decode (Reply_encode e) == Ok e.

Definition framing_round_trips_and_refuses_oversize : option () :=
  buf ← ok (send_frame (bytes_of "abc"));
  buf == [3; 0; 0; 0; 97; 98; 99];;
  '(payload, _) ← ok (recv buf);
  payload == bytes_of "abc";;
  assert (match recv [255; 255; 255; 0] with Err (TooLarge _) => true | _ => false end).

Definition core_tests : list (option ()) :=
  [requests_round_trip; replies_round_trip; framing_round_trips_and_refuses_oversize].

Lemma core_tests_pass : forallb is_some core_tests = true.
Proof. vm_compute. reflexivity. Qed.

(** ** stub.rs *)

(** [Answer { outcome, records, resolved_name, ..Default::default() }]. *)
Definition stub_answer_of (o : Outcome) (rs : list Record_) (resolved : option Name) : Answer :=
  let d := bare_answer o None in
  mkAnswer o rs (a_source d) (a_server d) (a_interface d) (a_rcode d) resolved (a_negative_ttl d).

Definition a_found_answer_becomes_noerror_with_records_and_a_cname_when_expanded : option () :=
  let q := query_of 9 "printer" rtype.A in
  let answer := stub_answer_of Found [Record_new (name_of "printer.lan") 30 (RA (v4_of 10 0 2 9))]
    (Some (name_of "printer.lan")) in
  let r := build_reply q answer in
  h_id (header r) == 9;;
  assert (response (header r) && recursion_available (header r));;
  length (answers r) == 2%nat;;
  first ← answers r !! 0%nat;
  r_rdata first == RCname (name_of "printer.lan");;
  assert (is_some (Message_opt r));;
  bytes ← ok (Message_encode r);
  assert (is_ok (Message_decode bytes)).

(** The stream of the one client is 7; the reply is written at once. *)
Definition half_closed_tcp_preserves_complete_queries_and_drops_partial_frames : option () :=
  payload ← ok (Message_encode (query_of 41 "localhost" rtype.A));
  let frame := be_bytes 2 (Z.of_nat (length payload)) ++ payload in
  every [0; 1; length frame - 1; length frame]%nat (fun end_ =>
    let arriving := match take end_ frame with [] => [ReadEof] | chunk => [ReadBytes chunk; ReadEof] end in
    let stub := mkStub {[1 := mkTcpClient 7 [] 0]} 2 Replies_default AcceptBackoff_default in
    let '(stub, incoming, _) := service_client stub 1 arriving (Takes 4096) 0 in
    size (clients stub) == 0%nat;;
    if bool_decide (end_ = length frame) then
      match incoming with
      | Some (Query origin) =>
          let '(_, effects) := Stub_answer stub origin (stub_answer_of NotFound [] None) (Takes 4096) 0 in
          bytes ← match effects with [WriteTcp 7 bytes] => Some bytes | _ => None end;
          reply ← ok (Message_decode (drop 2 bytes));
          h_id (header reply) == 41;;
          h_rcode (header reply) == rcode.NXDOMAIN
      | _ => None
      end
    else assert (match incoming with Some Nothing => true | _ => false end)).

Definition only_an_expanded_found_answer_gets_a_cname : option () :=
  let query := query_of 1 "printer" rtype.AAAA in
  every [(Found, "printer.lan", 1%nat); (Found, "PRINTER", 0%nat); (NotFound, "printer.lan", 0%nat);
         (Unavailable, "printer.lan", 0%nat)]%string (fun '(outcome, resolved, count) =>
    let reply := build_reply query (stub_answer_of outcome [] (Some (name_of resolved))) in
    length (answers reply) == count;;
    if bool_decide (count = 1%nat) then
      r ← answers reply !! 0%nat;
      r_ttl r == 0
    else Some ()).

Definition outcomes_map_to_rcodes : option () :=
  let q := query_of 1 "x.example" rtype.A in
  h_rcode (header (build_reply q (stub_answer_of NotFound [] None))) == rcode.NXDOMAIN;;
  h_rcode (header (build_reply q (stub_answer_of Unavailable [] None))) == rcode.SERVFAIL.

Definition with_opcode (op : Z) (h : Header) : Header :=
  mkHeader (h_id h) (response h) op (authoritative h) (truncated h) (recursion_desired h)
    (recursion_available h) (authentic_data h) (checking_disabled h) (h_rcode h).
Definition as_response (h : Header) : Header :=
  mkHeader (h_id h) true (opcode h) (authoritative h) (truncated h) (recursion_desired h)
    (recursion_available h) (authentic_data h) (checking_disabled h) (h_rcode h).

(** [parse_query(..).err().flatten().unwrap()]. *)
Definition error_of (bytes : list Z) : option (list Z) :=
  match parse_query bytes with Err reply => reply | Ok _ => None end.

Definition bad_queries_get_error_replies : option () :=
  let q := query_of 5 "x" rtype.A in
  bytes ← ok (Message_encode (put_header (with_opcode 2 (header q)) q));
  raw ← error_of bytes;
  reply ← ok (Message_decode raw);
  h_rcode (header reply) == rcode.NOTIMP;;
  assert (negb (is_ok (parse_query (replicate 12 0))));;
  r ← ok (Message_encode (put_header (as_response (header q)) q));
  assert (match parse_query r with Err None => true | _ => false end);;
  raw ← error_of (take 20 bytes);
  reply ← ok (Message_decode raw);
  h_rcode (header reply) == rcode.FORMERR.

Definition of_class (class : Z) (m : Message) : Message :=
  mkMessage (header m) (map (fun q => mkQuestion (q_name q) (q_rtype q) class) (questions m)) (answers m)
    (authority m) (additional m).

Definition unsupported_classes_are_notimp_with_the_original_question : option () :=
  every [0; 3; 4; 255; 65535] (fun class =>
    let q := of_class class (query_of 7 "localhost" rtype.A) in
    bytes ← ok (Message_encode q);
    raw ← error_of bytes;
    reply ← ok (Message_decode raw);
    h_rcode (header reply) == rcode.NOTIMP;;
    questions reply == questions q;;
    answers reply == []);;
  bytes ← ok (Message_encode (query_of 7 "localhost" rtype.A));
  assert (is_ok (parse_query bytes)).

Definition stub_tests : list (option ()) :=
  [a_found_answer_becomes_noerror_with_records_and_a_cname_when_expanded;
   half_closed_tcp_preserves_complete_queries_and_drops_partial_frames;
   only_an_expanded_found_answer_gets_a_cname;
   outcomes_map_to_rcodes;
   bad_queries_get_error_replies;
   unsupported_classes_are_notimp_with_the_original_question].

Lemma stub_tests_pass : forallb is_some stub_tests = true.
Proof. vm_compute. reflexivity. Qed.
