(* ===== verification/NssTests.v ===== *)
(** * The NSS module's unit tests (nss/src/lib.rs, buffer_retry_tests.rs, response_tests.rs)

    The tests run on the model of the module, with a buffer at address 4096
    of a memory that is all zeroes at first, and no daemon.  A failed assertion is
    [None]. *)

From S2P Require Import Prelude Net Names Cache EngineState Io IpText Msgpack NativeWire Nss FuzzEngine FuzzCodec CodecTests.
Local Open Scope Z_scope.
Local Open Scope codec_test_scope.

#[export] Instance NssStatus_eq_dec : EqDecision NssStatus.
Proof. solve_decision. Defined.

Definition no_daemon (q : Request) : option (result WireError Reply) := None.

(** ** lib.rs *)

Definition localhost_is_answered_without_a_daemon : option () :=
  assert (is_localhost (bytes_of "localhost"));;
  assert (is_localhost (bytes_of "LOCALHOST."));;
  assert (is_localhost (bytes_of "foo.localhost"));;
  assert (negb (is_localhost (bytes_of "localhost.example")));;
  let a := local_addresses WV4 in
  length (wd_addresses a) == 1%nat;;
  x ← head (wd_addresses a);
  assert (is_ipv4 (ao_address x)).

(** ** buffer_retry_tests.rs *)

Definition BUFFER_WORDS : nat := Z.to_nat 1024.
Definition BUFFER_BYTES : nat := (8 * BUFFER_WORDS)%nat.
Definition BUFFER : Z := 4096.

Inductive HostentLookup : Type := LName | LName2 | LName3 | LAddress | LAddress2.

(** The caller's cells before a call. *)
Definition cells : Outs := mkOuts (Some 123) (Some 456) (Some (-1)) (Some null) (Some null) (mkHostEnt 0 0 0 0 0).

Definition call_entry (e : HostentLookup) (af : Z) (address : list Z) (len : Z) (storage : Mem)
  : NssStatus * Outs * Mem :=
  let name := Some (bytes_of "localhost") in
  match e with
  | LName => gethostbyname_r no_daemon name BUFFER len cells storage
  | LName2 => gethostbyname2_r no_daemon name af BUFFER len cells storage
  | LName3 => gethostbyname3_r no_daemon name af BUFFER len cells storage
  | LAddress => gethostbyaddr_r no_daemon (Some address) af BUFFER len cells storage
  | LAddress2 => gethostbyaddr2_r no_daemon (Some address) af BUFFER len cells storage
  end.

Definition read_ptr (m : Mem) (p : Z) : Z := from_le (mem_read m p 8).

(** The NUL-terminated string at [p] is [s]. *)
Definition c_string_is (m : Mem) (p : Z) (s : list Z) : bool :=
  bool_decide (mem_read m p (S (length s)) = s ++ [0]).

(** What the call leaves in the cells that an entry point does not have stays. *)
Definition extras (e : HostentLookup) (o : Outs) : option Z * option Z :=
  (match e with LName3 | LAddress2 => o_ttl o | _ => Some (-1) end,
   match e with LName3 => o_canon o | _ => Some null end).

Definition hostent_succeeds (e : HostentLookup) (af : Z) (address : list Z) (o : Outs) (m : Mem) : option () :=
  let r := o_result o in
  assert (c_string_is m (h_name r) (bytes_of "localhost"));;
  h_addrtype r == af;;
  h_length r == Z.of_nat (length address);;
  read_ptr m (h_aliases r) == null;;
  mem_read m (read_ptr m (h_addr_list r)) (length address) == address;;
  read_ptr m (h_addr_list r + 8) == null;;
  (match e with LName3 => o_canon o == Some (h_name r) | _ => Some () end);;
  match e with LName3 | LAddress2 => o_ttl o == Some 0 | _ => Some () end.

(** Ask for more room: an undersized buffer, with the other cells untouched. *)
Definition asks_for_room (st : NssStatus) (o : Outs) : option () :=
  (st, o_errno o, o_h_errno o) == (TryAgain, Some ERANGE, Some (-1)).

(** [for len in 0..=capacity], up to the first success. *)
Fixpoint grow_hostent (fuel : nat) (len : Z) (e : HostentLookup) (af : Z) (address : list Z) (storage : Mem) : option () :=
  match fuel with
  | O => None
  | S fuel =>
      let '(st, o, m) := call_entry e af address len storage in
      if bool_decide (st = Success) then hostent_succeeds e af address o m
      else
        asks_for_room st o;;
        extras e o == (Some (-1), Some null);;
        grow_hostent fuel (len + 1) e af address m
  end.

Definition hostent_entrypoints_request_a_larger_buffer : option () :=
  every [LName; LName2; LName3; LAddress; LAddress2] (fun e =>
    every [AF_INET; AF_INET6] (fun af =>
      match e with
      | LName => if af =? AF_INET6 then Some () else grow_hostent (S BUFFER_BYTES) 0 e af (octets LOCALHOST_V4) ∅
      | _ => grow_hostent (S BUFFER_BYTES) 0 e af
               (if af =? AF_INET then octets LOCALHOST_V4 else octets LOCALHOST_V6) ∅
      end)).

(** A tuple: next, name, family and the four words of its address. *)
Definition tuple_next (m : Mem) (t : Z) : Z := read_ptr m t.
Definition tuple_name (m : Mem) (t : Z) : Z := read_ptr m (t + 8).
Definition tuple_family (m : Mem) (t : Z) : Z := from_le (mem_read m (t + 16) 4).
Definition tuple_addr (m : Mem) (t : Z) (n : nat) : list Z := mem_read m (t + 20) n.

Definition tuples_succeed (o : Outs) (m : Mem) : option () :=
  t ← o_pat o;
  assert (negb (t =? null));;
  assert (c_string_is m (tuple_name m t) (bytes_of "localhost"));;
  tuple_family m t == AF_INET;;
  tuple_addr m t 4 == octets LOCALHOST_V4;;
  let t := tuple_next m t in
  assert (negb (t =? null));;
  tuple_family m t == AF_INET6;;
  tuple_addr m t 16 == octets LOCALHOST_V6;;
  tuple_next m t == null;;
  o_ttl o == Some 0.

Fixpoint grow_tuples (fuel : nat) (len : Z) (storage : Mem) : option () :=
  match fuel with
  | O => None
  | S fuel =>
      let '(st, o, m) := gethostbyname4_r no_daemon (Some (bytes_of "localhost")) BUFFER len cells storage in
      if bool_decide (st = Success) then tuples_succeed o m
      else
        asks_for_room st o;;
        (o_pat o, o_ttl o) == (Some null, Some (-1));;
        grow_tuples fuel (len + 1) m
  end.

Definition address_tuple_entrypoint_requests_a_larger_buffer : option () := grow_tuples (S BUFFER_BYTES) 0 ∅.

(** 192.0.2.i, or 2001:db8::i. *)
Definition nth_address (af i : Z) : IpAddr :=
  if af =? AF_INET then V4 (from_be [192; 0; 2; i])
  else V6 (from_segments [8193; 3512; 0; 0; 0; 0; 0; i]).

Definition many_addresses_can_be_retried_with_a_larger_buffer : option () :=
  every [AF_INET; AF_INET6] (fun af =>
    let local := local_addresses (if af =? AF_INET then WV4 else WV6) in
    let addresses := map (fun i => mkAddressOut (nth_address af (Z.of_nat i)) 60) (seq 1 128) in
    let answer := mkWAddresses (wd_outcome local) (wd_canonical local) addresses (wd_source local)
                    (wd_validation local) in
    let o := mkOuts (Some 0) (Some 0) None None None (mkHostEnt 0 0 0 0 0) in
    let '(st, o1, m1) := render_hostent answer af BUFFER 1024 o ∅ in
    asks_for_room st o1;;
    let '(st, o2, m2) := render_hostent answer af BUFFER (Z.of_nat BUFFER_BYTES) o1 m1 in
    st == Success;;
    let list_at := h_addr_list (o_result o2) in
    every (seq 0 128) (fun i =>
      x ← addresses !! i;
      let bytes := octets (ao_address x) in
      mem_read m2 (read_ptr m2 (list_at + 8 * Z.of_nat i)) (length bytes) == bytes);;
    read_ptr m2 (list_at + 8 * 128) == null).

(** ** response_tests.rs *)

Definition status_cells : Outs := mkOuts (Some (-77)) (Some (-77)) None None None (mkHostEnt 0 0 0 0 0).

(** [status(&got)]. *)
Definition status_seen {A} (got : Got A) : option NssStatus * option Z * option Z :=
  match status_of got status_cells with
  | None => (None, Some (-77), Some (-77))
  | Some (st, o) => (Some st, o_errno o, o_h_errno o)
  end.

Definition no_data {A} (got : Got A) : option () :=
  status_seen got == (Some NssNotFound, Some ENOENT, Some NO_DATA).

Definition with_addresses (xs : list AddressOut) (a : WAddresses) : WAddresses :=
  mkWAddresses (wd_outcome a) (wd_canonical a) xs (wd_source a) (wd_validation a).
Definition with_outcome (o : Outcome) (a : WAddresses) : WAddresses :=
  mkWAddresses o (wd_canonical a) (wd_addresses a) (wd_source a) (wd_validation a).

Definition found_without_the_requested_family_is_no_data : option () :=
  every [WV4; WV6; WAny] (fun family =>
    no_data (classify_addresses (with_addresses [] (local_addresses WAny)) family));;
  no_data (classify_addresses (local_addresses WV4) WV6);;
  no_data (classify_addresses (local_addresses WV6) WV4).

Definition set_ttl (ttl : Z) (x : AddressOut) : AddressOut := mkAddressOut (ao_address x) ttl.

Definition found_addresses_keep_only_the_requested_family_in_reply_order : option () :=
  every [WV4; WV6; WAny] (fun family =>
    let local := local_addresses WAny in
    match wd_addresses local with
    | [a; b] =>
        let xs := [set_ttl 7 a; set_ttl 11 b; set_ttl 7 a] in
        let expected := List.filter (fun x =>
          match family with
          | WAny => true
          | WV4 => is_ipv4 (ao_address x)
          | WV6 => negb (is_ipv4 (ao_address x))
          end) xs in
        let got := classify_addresses (with_addresses xs local) family in
        status_seen got == (None, Some (-77), Some (-77));;
        match got with
        | GValue v => wd_canonical v == bytes_of "localhost";; wd_addresses v == expected
        | _ => None
        end
    | _ => None
    end).

(** [answer(outcome, rtypes)]. *)
Definition typed_answer (o : Outcome) (rtypes : list Z) : WAnswer :=
  mkWAnswer o (map (fun rt => mkRecordOut (bytes_of "owner.test") rt 13 [] (bytes_of "target.test.")) rtypes) []
    None None Unvalidated 0.

Definition found_reverse_without_ptr_is_no_data : option () :=
  no_data (classify_reverse (typed_answer Found []));;
  no_data (classify_reverse (typed_answer Found [5; 1; 28]));;
  let got := classify_reverse (typed_answer Found [5; 12; 12]) in
  status_seen got == (None, Some (-77), Some (-77));;
  match got with
  | GValue a =>
      map ro_rtype (wa_records a) == [5; 12; 12];;
      r ← wa_records a !! 1%nat;
      ro_text r == bytes_of "target.test.";;
      ro_ttl r == 13
  | _ => None
  end.

Definition negative_and_unavailable_outcomes_do_not_become_no_data : option () :=
  every [(NotFound, (Some NssNotFound, Some ENOENT, Some HOST_NOT_FOUND));
         (Unavailable, (Some TryAgain, Some EAGAIN, Some TRY_AGAIN))] (fun '(outcome, expected) =>
    every [false; true] (fun populated =>
      let a := with_outcome outcome (local_addresses WAny) in
      let a := if populated then a else with_addresses [] a in
      status_seen (classify_addresses a WV4) == expected;;
      status_seen (classify_reverse (typed_answer outcome (if populated then [12] else []))) == expected));;
  status_seen (@GUnavailable ()) == (Some Unavail, Some ENOENT, Some NO_RECOVERY).

Definition no_data_accepts_null_error_outputs : option () :=
  let nulls := mkOuts None None None None None (mkHostEnt 0 0 0 0 0) in
  fst <$> status_of (@GNoData ()) nulls == Some NssNotFound.

(** ** All of them pass *)

Definition nss_tests : list (option ()) :=
  [localhost_is_answered_without_a_daemon;
   hostent_entrypoints_request_a_larger_buffer;
   address_tuple_entrypoint_requests_a_larger_buffer;
   many_addresses_can_be_retried_with_a_larger_buffer;
   found_without_the_requested_family_is_no_data;
   found_addresses_keep_only_the_requested_family_in_reply_order;
   found_reverse_without_ptr_is_no_data;
   negative_and_unavailable_outcomes_do_not_become_no_data;
   no_data_accepts_null_error_outputs].

Lemma nss_tests_pass : forallb is_some nss_tests = true.
Proof. vm_compute. reflexivity. Qed.
