(* ===== verification/ClientTests.v ===== *)
(** * The tests of the shared library (resolvd-client/tests/shared.rs)

    The client and the library against a daemon at the other end of a socket:
    what it reads is what the client sent, and what it writes is what the
    client's reads yield.  A failed assertion is [None]. *)

From S2P Require Import Prelude Net Names Cache EngineState Io IpText Msgpack NativeWire Control CViews CViewsProofs CLibrary CLibraryProofs CLibraryProps FuzzEngine FuzzCodec CodecTests.
Local Open Scope Z_scope.
Local Open Scope codec_test_scope.

#[local] Instance shared_texts : Texts := mkTexts (fun s => s) (fun _ => bytes_of "i/o error").
#[local] Instance shared_os : OsTexts := fun _ => bytes_of "os error".

#[export] Instance ClientError_eq_dec : EqDecision ClientError.
Proof. solve_decision. Defined.

Definition SECOND : Z := 1000000000.
Definition DURATION_MAX : Z := (2 ^ 64 - 1) * SECOND + 999999999.
Definition SHARED_PATH : list Z := bytes_of "/tmp/resolvd-api-1-0/s".

Definition is_err {E A} (r : result E A) : bool := match r with Err _ => true | Ok _ => false end.

(** A clock that does not move, and a stream that takes what it is given. *)
Definition still : Tick := mkTick 0 [(0, PollReady false)] 0.
Definition served (written : list ReadTcp) (ticks : list Tick) : ExchangeIo :=
  mkExchangeIo 0 (mkConnectIo None None [] (Ok None) 0) [(still, Takes 65536); (still, Takes 65536)] written ticks.

(** [receive]. *)
Definition shared_receive (sent : list Z) : option Request := r ← ok (recv sent); ok (Request_decode r.1).

Definition shared_frame (reply : Reply) : list Z :=
  let bytes := Reply_encode reply in le_bytes 4 (wrap 32 (Z.of_nat (length bytes))) ++ bytes.

(** [unwrap_err().code]. *)
Definition error_code {A} (r : Copy A) : option Z :=
  match r with Some (Err e) => Some (ce_code e) | _ => None end.

Definition invalid_connection_settings_are_rejected : option () :=
  assert (is_err (LibClient_new [] SECOND));;
  assert (is_err (LibClient_new (bytes_of "/tmp/a" ++ [0] ++ bytes_of "b") SECOND));;
  assert (is_err (LibClient_new (bytes_of "/tmp/a") 0));;
  assert (is_err (LibClient_new (bytes_of "/tmp/a") DURATION_MAX)).

Definition wrong_reply_type_is_rejected : option () :=
  client ← ok (LibClient_new SHARED_PATH (2 * SECOND));
  let (sent, r) := client_status bump client (served [ReadBytes (shared_frame ROk)] (replicate 8 still)) in
  request ← shared_receive sent;
  request == QStatus;;
  code ← error_code r;
  code == EINVAL.

(** Two bytes of a reply, and 30 milliseconds pass in [poll]. *)
Definition a_partial_reply_does_not_extend_the_total_deadline : option () :=
  client ← ok (LibClient_new SHARED_PATH (30 * MILLISECOND));
  let waiting := mkTick (1 * MILLISECOND) [(1 * MILLISECOND, PollTimedOut); (31 * MILLISECOND, PollTimedOut)] 0 in
  let (sent, r) := client_status bump client (served [ReadBytes [1; 0]; ReadWouldBlock] [still; waiting]) in
  request ← shared_receive sent;
  request == QStatus;;
  code ← error_code r;
  code == ETIMEDOUT.

Definition lookup_returns_owned_addresses_and_provenance : option () :=
  client ← ok (LibClient_new SHARED_PATH (2 * SECOND));
  address ← ip_parse (bytes_of "192.0.2.7");
  let addresses := mkWAddresses Found (bytes_of "example.test") [mkAddressOut address 42] (bytes_of "test") Unvalidated in
  let (sent, r) := client_lookup bump client (bytes_of "example.test") WAny
                     (served [ReadBytes (shared_frame (RAddresses addresses))] (replicate 200 still)) in
  request ← shared_receive sent;
  request == QLookup (bytes_of "example.test") WAny;;
  result ← match r with Some (Ok a) => Some a | _ => None end;
  wd_canonical result == bytes_of "example.test";;
  wd_source result == bytes_of "test";;
  first ← head (wd_addresses result);
  ip_to_string (ao_address first) == bytes_of "192.0.2.7";;
  ao_ttl first == 42.

Definition shared_tests : list (option ()) :=
  [invalid_connection_settings_are_rejected; wrong_reply_type_is_rejected;
   a_partial_reply_does_not_extend_the_total_deadline; lookup_returns_owned_addresses_and_provenance].

Lemma shared_tests_pass : shared_tests = replicate 4 (Some ()).
Proof. vm_compute. reflexivity. Qed.
