(* ===== verification/Daemon.v ===== *)
(** * The daemon (resolvd/src/main.rs)

    The state of the event loop and its handlers.  Every door hands its
    questions to the engine and sends back what it says; nothing here decides
    an answer.  What the system does on a call (sockets, writes, reads, the
    access check, the interface table, the host's name) comes in as data. *)

From S2P Require Import Prelude Net Names Message MessageProofs Cache EngineState Records Routing Engine EngineMachine Io IpText Msgpack NativeWire Stub Upstream Control Door NetdCodec NetdLink RegistryConfig Present.
Local Open Scope Z_scope.

Definition MAX_PENDING_CLIENTS : nat := 256.
Definition MAX_PENDING_UDP : nat := 256.
Definition MAX_PENDING_UDP_PER_PEER : nat := 16.

(** Who is waiting for a question. *)
Inductive Waiter : Type :=
| WNative (stream : Z)
| WStub (origin : Origin).

Definition stream_fd (w : Waiter) : option Z :=
  match w with
  | WNative stream => Some stream
  | WStub (OTcp stream _) => Some stream
  | WStub (OUdp _ _) => None
  end.

Definition tcp_waiter (w : Waiter) : bool := match w with WStub (OTcp _ _) => true | _ => false end.
Definition native_waiter (w : Waiter) : bool := match w with WNative _ => true | _ => false end.

Definition values `{MapOrder} {A} (m : gmap Z A) : list A := map snd (map_iter m).

Definition udp_has_capacity `{MapOrder} (waiters : gmap Qid Waiter) (peer : Peer) : bool :=
  let '(total, same_peer) :=
    fold_left (fun ts w =>
      match w with
      | WStub (OUdp pending _) =>
          (ts.1 + 1, ts.2 + if bool_decide (pending = peer) then 1 else 0)%nat
      | _ => ts
      end) (values waiters) (0, 0)%nat in
  (total <? MAX_PENDING_UDP)%nat && (same_peer <? MAX_PENDING_UDP_PER_PEER)%nat.

Record Resolvd : Type := mkResolvd {
  rd_engine : Engine;
  rd_config : Config;
  rd_control : SecurityDescriptor;
  rd_upstream : Upstream;
  rd_stub : Stub;
  rd_netd : NetdLink;
  rd_clients : gmap Z Client;
  rd_replies : Replies;
  rd_waiters : gmap Qid Waiter;
  rd_next_id : Z;
}.

Definition with_engine (x : Engine) (r : Resolvd) : Resolvd :=
  mkResolvd x (rd_config r) (rd_control r) (rd_upstream r) (rd_stub r) (rd_netd r) (rd_clients r)
    (rd_replies r) (rd_waiters r) (rd_next_id r).
Definition with_config (x : Config) (c : SecurityDescriptor) (r : Resolvd) : Resolvd :=
  mkResolvd (rd_engine r) x c (rd_upstream r) (rd_stub r) (rd_netd r) (rd_clients r)
    (rd_replies r) (rd_waiters r) (rd_next_id r).
Definition with_upstream (x : Upstream) (r : Resolvd) : Resolvd :=
  mkResolvd (rd_engine r) (rd_config r) (rd_control r) x (rd_stub r) (rd_netd r) (rd_clients r)
    (rd_replies r) (rd_waiters r) (rd_next_id r).
Definition with_stub (x : Stub) (r : Resolvd) : Resolvd :=
  mkResolvd (rd_engine r) (rd_config r) (rd_control r) (rd_upstream r) x (rd_netd r) (rd_clients r)
    (rd_replies r) (rd_waiters r) (rd_next_id r).
Definition with_netd (x : NetdLink) (r : Resolvd) : Resolvd :=
  mkResolvd (rd_engine r) (rd_config r) (rd_control r) (rd_upstream r) (rd_stub r) x (rd_clients r)
    (rd_replies r) (rd_waiters r) (rd_next_id r).
Definition with_clients (x : gmap Z Client) (r : Resolvd) : Resolvd :=
  mkResolvd (rd_engine r) (rd_config r) (rd_control r) (rd_upstream r) (rd_stub r) (rd_netd r) x
    (rd_replies r) (rd_waiters r) (rd_next_id r).
Definition with_replies (x : Replies) (r : Resolvd) : Resolvd :=
  mkResolvd (rd_engine r) (rd_config r) (rd_control r) (rd_upstream r) (rd_stub r) (rd_netd r) (rd_clients r)
    x (rd_waiters r) (rd_next_id r).
Definition with_waiters (x : gmap Qid Waiter) (r : Resolvd) : Resolvd :=
  mkResolvd (rd_engine r) (rd_config r) (rd_control r) (rd_upstream r) (rd_stub r) (rd_netd r) (rd_clients r)
    (rd_replies r) x (rd_next_id r).
Definition with_next_id (x : Z) (r : Resolvd) : Resolvd :=
  mkResolvd (rd_engine r) (rd_config r) (rd_control r) (rd_upstream r) (rd_stub r) (rd_netd r) (rd_clients r)
    (rd_replies r) (rd_waiters r) x.

Definition fresh_id (r : Resolvd) : Resolvd * Z := (with_next_id (rd_next_id r + 1) r, rd_next_id r).

(** What leaves the daemon towards its clients. *)
Inductive Output : Type :=
| ToStub (eff : Effect)
| ToNative (stream : Z) (bytes : list Z).

(** What the system does: opening a transaction's socket (and for UDP sending
    its datagram), and the write and the clock when a question is answered.
    Neither kind of id is used twice, so one [World] serves a whole run. *)
Record World : Type := mkWorld {
  w_socket : Txid -> result NetError Z;
  w_write : Qid -> Write * Z;
}.

Section daemon.
Context `{MapOrder} `{Texts}.
(** The interface table, the validation of descriptors and the kernel's access
    check. *)
Variable if_nametoindex : Str -> Z.
Variable valid_descriptor : list Z -> bool.
Variable access_check : AccessCheck.

(** ** Configuration *)

Definition apply_config (r : Resolvd) (fresh : Config) : Resolvd :=
  if Config_eqb fresh (rd_config r) then r
  else
    let r := with_config (rd_config r) (ControlObject_new valid_descriptor (g_control_security fresh)) r in
    let r := with_engine (set_fallback (g_servers fresh) (g_search fresh) (rd_engine r)) r in
    let r := with_engine (set_hosts (g_hosts fresh) (rd_engine r)) r in
    with_config fresh (rd_control r) r.

Definition scope_address (c : Str) : option (IpAddr * Z) :=
  match split_once 47 c with
  | None => None
  | Some (a, p) =>
      match ip_parse a, parse_uint 8 p with Some a, Some p => Some (a, p) | _, _ => None end
  end.

Definition to_scope (s : DnsScope) : Scope :=
  mkScope (d_ifid s) (d_name s)
    (omap (fun a => ok (scope_server if_nametoindex a (d_name s))) (d_servers s))
    (search_of (d_domains s))
    (omap scope_address (d_addresses s))
    (d_default_route s) (d_exclusive s) (d_metric s) (d_level s).

(** [kernel_hostname]: the bytes the kernel returns up to a nul, or none. *)
Definition kernel_hostname (gethostname : option (list Z)) : option Str :=
  match gethostname with
  | None => None
  | Some buf =>
      let s := from_utf8_lossy (before_nul buf) in
      if bool_decide (s = []) || bool_decide (s = bytes_of "(none)") then None else Some s
  end.

Definition apply_snapshot (r : Resolvd) (snapshot : Snapshot) (gethostname : option (list Z)) : Resolvd :=
  let hostname := if bool_decide (sn_hostname snapshot = []) then kernel_hostname gethostname
                  else Some (sn_hostname snapshot) in
  let r := with_engine (set_hostname hostname (rd_engine r)) r in
  with_engine (set_scopes (map to_scope (sn_scopes snapshot)) (rd_engine r)) r.

(** ** Answering *)

Definition reply (r : Resolvd) (stream : Z) (reply : Reply) (w : Write) (at_ : Z) : Resolvd * list Output :=
  let frame := response_frame reply in
  (with_replies (enqueue (rd_replies r) stream frame w at_).1 r, [ToNative stream (wrote w frame)]).

Definition stub_answer (r : Resolvd) (origin : Origin) (a : Answer) (w : Write) (at_ : Z) : Resolvd * list Output :=
  let '(s, effs) := Stub_answer (rd_stub r) origin a w at_ in (with_stub s r, map ToStub effs).

Definition deliver (r : Resolvd) (qid : Qid) (completion : Completion) (w : Write) (at_ : Z)
  : Resolvd * list Output :=
  match rd_waiters r !! qid with
  | None => (r, [])
  | Some waiter =>
      let r := with_waiters (delete qid (rd_waiters r)) r in
      match waiter, completion with
      | WNative stream, CAnswer a => reply r stream (RAnswer (to_answer a)) w at_
      | WNative stream, CAddresses a => reply r stream (RAddresses (to_addresses a)) w at_
      | WStub origin, CAnswer a => stub_answer r origin a w at_
      | WStub _, CAddresses _ => (r, [])
      end
  end.

(** ** Carrying out actions *)

(** One action: the state, the actions a failed send makes, what is sent. *)
Definition perform_one (world : World) (r : Resolvd) (action : Action) (now : Z)
  : Resolvd * list Action * list Output :=
  match action with
  | Send tx server interface tcp payload =>
      let '(u, res) := upstream_send if_nametoindex (rd_upstream r) tx server interface tcp payload
                         (w_socket world tx) in
      let r := with_upstream u r in
      match res with
      | Ok _ => (r, [], [])
      | Err e =>
          let '(en, acts) := if is_local_failure e then local_failed (rd_engine r) tx now
                             else failed (rd_engine r) tx now in
          (with_engine en r, acts, [])
      end
  | Cancel tx => (with_upstream (cancel tx (rd_upstream r)) r, [], [])
  | Done qid completion =>
      let '(w, at_) := w_write world qid in
      let '(r, out) := deliver r qid completion w at_ in (r, [], out)
  end.

Fixpoint perform_each (world : World) (r : Resolvd) (actions : list Action) (now : Z)
  : Resolvd * list Action * list Output :=
  match actions with
  | [] => (r, [], [])
  | a :: actions =>
      let '(r, f1, o1) := perform_one world r a now in
      let '(r, f2, o2) := perform_each world r actions now in
      (r, f1 ++ f2, o1 ++ o2)
  end.

(** [perform] calls itself on the follow-ups; [None] is running out of
    rounds.  Every round with follow-ups uses up upstream work, so one round
    more than the work there is suffices. *)
Fixpoint perform_rounds (fuel : nat) (world : World) (r : Resolvd) (actions : list Action) (now : Z)
  : option (Resolvd * list Output) :=
  match fuel with
  | O => None
  | S fuel =>
      match perform_each world r actions now with
      | (r, [], out) => Some (r, out)
      | (r, follow_ups, out) =>
          match perform_rounds fuel world r follow_ups now with
          | Some (r, out') => Some (r, out ++ out')
          | None => None
          end
      end
  end.

Definition perform (world : World) (r : Resolvd) (actions : list Action) (now : Z) : Resolvd * list Output :=
  default (r, []) (perform_rounds (S (total_work (tasks (rd_engine r)))) world r actions now).

(** ** Status *)

Definition scope_status (e : Engine) (now : Z) (s : Scope) : ScopeStatus :=
  mkScopeStatus (s_interface s) (map ip_to_string (s_servers s)) (map Name_to_string (s_domains s))
    (s_default_route s) (s_exclusive s) (s_metric s)
    (map (fun ap => ip_to_string ap.1 ++ [47] ++ fmt_dec ap.2) (s_addresses s))
    (map ip_to_string (List.filter (fun a => is_demoted e a (s_id s) now) (s_servers s))).

Definition status (r : Resolvd) (now : Z) : StatusReport :=
  let e := rd_engine r in
  let c := counters e in
  mkStatusReport (default [] (Name_to_string <$> hostname e)) (connected (rd_netd r))
    (map (scope_status e now) (scopes e)) (map ip_to_string (fallback_servers e))
    (Z.of_nat (cache_entries e))
    (mkWCounters (c_queries c) (c_synthetic c) (c_cache_hits c) (c_upstream_sent c)
       (c_upstream_answered c) (c_upstream_failed c) (c_refused c)).

(** ** Questions *)

Definition family_of (f : WFamily) : Family := match f with WAny => FAny | WV4 => FV4 | WV6 => FV6 end.

(** The engine's answer to a request that asks it something. *)
Definition request_actions (e : Engine) (qid : Qid) (request : Request) (now : Z)
  : option (Engine * list Action) :=
  match request with
  | QResolve name rtype no_cache => Some (resolve e qid name rtype no_cache now)
  | QLookup name family => Some (lookup_ e qid name (family_of family) now)
  | QReverse address => Some (reverse e qid address now)
  | QStatus | QFlush => None
  end.

(** [w] and [at_] are for a reply that is made at once. *)
Definition handle_request (world : World) (r : Resolvd) (stream : Z) (request : Request) (now : Z)
    (w : Write) (at_ : Z) : Resolvd * list Output :=
  if negb (permits access_check (rd_control r) stream (required_right request)) then
    reply r stream (RError (bytes_of "access denied")) w at_
  else
    let '(r, qid) := fresh_id r in
    match request_actions (rd_engine r) qid request now with
    | Some (e, actions) =>
        let r := with_engine e r in
        let r := with_waiters (<[qid := WNative stream]> (rd_waiters r)) r in
        perform world r actions now
    | None =>
        match request with
        | QStatus => reply r stream (RStatus (status r now)) w at_
        | _ => reply (with_engine (flush (rd_engine r)) r) stream ROk w at_
        end
    end.

Definition origin_question (o : Origin) : option Question :=
  match o with OUdp _ query | OTcp _ query => Message_question query end.

(** A full UDP door answers at once; the write of a stream does not arise. *)
Definition refuse_udp (r : Resolvd) (origin : Origin) : Resolvd * list Output :=
  let r := with_engine (count add_refused (count add_queries (rd_engine r))) r in
  stub_answer r origin (bare_answer Unavailable None) WriteWouldBlock 0.

Definition handle_query (world : World) (r : Resolvd) (origin : Origin) (question : Question) (now : Z)
  : Resolvd * list Output :=
  let full := match origin with
              | OUdp peer _ => negb (udp_has_capacity (rd_waiters r) peer)
              | OTcp _ _ => false
              end in
  if full then refuse_udp r origin
  else
    let '(r, qid) := fresh_id r in
    let r := with_waiters (<[qid := WStub origin]> (rd_waiters r)) r in
    let '(e, actions) := resolve_question (rd_engine r) qid question now in
    perform world (with_engine e r) actions now.

Fixpoint handle_stub (world : World) (r : Resolvd) (incoming : list Incoming) (now : Z)
  : Resolvd * list Output :=
  match incoming with
  | [] => (r, [])
  | Nothing :: incoming => handle_stub world r incoming now
  | Query origin :: incoming =>
      let '(r, o1) := match origin_question origin with
                      | Some question => handle_query world r origin question now
                      | None => (r, [])
                      end in
      let '(r, o2) := handle_stub world r incoming now in
      (r, o1 ++ o2)
  end.
End daemon.
