(* ===== verification/DaemonLoop.v ===== *)
(** * The daemon's loop (resolvd/src/main.rs, [main])

    One turn of the loop as a function of what [poll] and the calls after it
    found: the deadline it sleeps to, and the phases in the order of the code.
    The ids a phase goes through are those that were ready; an id that an
    earlier phase removed is skipped. *)

From S2P Require Import Prelude Net Names Message MessageProofs Cache EngineState Records Routing Engine EngineMachine Io IpText Msgpack NativeWire Stub Upstream Control Door NetdCodec NetdLink RegistryConfig Present Daemon.
Local Open Scope Z_scope.

(** The loop's own state besides [Resolvd]. *)
Record Main : Type := mkMain {
  m_r : Resolvd;
  m_accept_backoff : AcceptBackoff;
  m_watch : bool;
}.

(** What one [accept] on the native listener returned. *)
Inductive AcceptNative : Type :=
| NAccepted (stream : Z) (nonblocking : bool)
| NWouldBlock
| NInterrupted
| NError_ (at_ : Z).

(** What reading the registry watch gave: events and what loading then gave,
    no events, or an error and what arming the watch again meets. *)
Inductive WatchRead : Type :=
| WatchEvents (loaded : result ReadFailure Config)
| WatchNothing
| WatchError (again : WatchIo).

(** A ready connection: what it yields, and a write and its clock. *)
Record ClientIo : Type := mkClientIo { ci_id : Z; ci_reads : list ReadTcp; ci_write : Write; ci_at : Z }.

Record TurnIo : Type := mkTurnIo {
  t_now : Z;
  t_hung : list Qid;
  t_upstream : list (Txid * Z * Ready);
  t_replies : list (Z * Write * Z);
  t_stub_replies : list (Z * Write * Z);
  t_udp : option (list RecvUdp);
  t_stub_accept : option (list AcceptTcp);
  t_stub_clients : list ClientIo;
  t_accept : option (list AcceptNative);
  t_clients : list ClientIo;
  t_netd : option (list ReadTcp);
  t_hostname : option (list Z);
  t_watch : option WatchRead;
  t_connect : option Z;
}.

(** ** Sleeping *)

Definition loop_deadline `{MapOrder} (m : Main) (now : Z) : option Z :=
  let r := m_r m in
  list_min (option_list (next_deadline (rd_engine r))
    ++ option_list (netd_next_deadline (rd_netd r))
    ++ option_list (Stub_next_deadline (rd_stub r) now)
    ++ option_list (replies_deadline (rd_replies r))
    ++ option_list (backoff_deadline (m_accept_backoff m) now)
    ++ option_list (list_min (map (fun c => cl_since c + CLIENT_TIMEOUT) (values (rd_clients r))))).

Definition timeout_ms `{MapOrder} (m : Main) (now : Z) : Z :=
  match loop_deadline m now with
  | Some t => Z.min (saturating_duration_since t now / 1000000) 2147483647
  | None => -1
  end.

(** ** The poll set *)

Inductive Slot : Type :=
| SListener | SStubUdp | SStubListener | SNetd | SWatch
| SClient (id : Z) | SStubClient (id : Z) | SReply (id : Z) | SStubReply (id : Z)
| SWaiter (qid : Qid) | SUpstream (tx : Txid).

(** The descriptors of the listeners, the UDP socket and the watch are the
    caller's.  Each entry is its slot, descriptor and events. *)
Definition poll_set `{MapOrder} (m : Main) (now listener udp tcp watch : Z) : list (Slot * Z * Z) :=
  let r := m_r m in
  [(SListener, poll_fd (m_accept_backoff m) listener now, POLLIN); (SStubUdp, udp, POLLIN);
   (SStubListener, listener_fd (rd_stub r) tcp now, POLLIN)]
  ++ map (fun fd => (SNetd, fd, POLLIN)) (option_list (netd_fd (rd_netd r)))
  ++ (if m_watch m then [(SWatch, watch, POLLIN)] else [])
  ++ map (fun ic => (SClient ic.1, cl_stream ic.2, POLLIN)) (map_iter (rd_clients r))
  ++ map (fun ic => (SStubClient ic.1, ic.2, POLLIN)) (client_fds (rd_stub r))
  ++ map (fun ip => (SReply ip.1, ip.2, POLLOUT)) (fds (rd_replies r))
  ++ map (fun ip => (SStubReply ip.1, ip.2, POLLOUT)) (fds (replies (rd_stub r)))
  ++ omap (fun qw => match stream_fd qw.2 with Some fd => Some (SWaiter qw.1, fd, 0) | None => None end)
       (map_iter (rd_waiters r))
  ++ map (fun tfe => (SUpstream tfe.1.1, tfe.1.2, tfe.2)) (upstream_fds (rd_upstream r)).

Section turn.
Context `{MapOrder} `{Texts}.
Variable if_nametoindex : Str -> Z.
Variable valid_descriptor : list Z -> bool.
Variable access_check : AccessCheck.
Variable decode : list Z -> option NetdReply.
Variable world : World.

Abbreviation perform := (perform if_nametoindex world).
Abbreviation handle_stub := (handle_stub if_nametoindex world).

(** A phase over the ready ids: state through, outputs in order. *)
Fixpoint each {A} (step : Resolvd -> A -> Resolvd * list Output) (xs : list A) (r : Resolvd)
  : Resolvd * list Output :=
  match xs with
  | [] => (r, [])
  | x :: xs =>
      let '(r, o1) := step r x in
      let '(r, o2) := each step xs r in
      (r, o1 ++ o2)
  end.

(** ** Phases *)

(** A waiting client hung up. *)
Definition hang_up (now : Z) (r : Resolvd) (qid : Qid) : Resolvd * list Output :=
  match rd_waiters r !! qid with
  | None => (r, [])
  | Some _ =>
      let r := with_waiters (delete qid (rd_waiters r)) r in
      let '(e, actions) := abandon (rd_engine r) qid in
      perform (with_engine e r) actions now
  end.

Definition upstream_ready (now : Z) (r : Resolvd) (ready : Txid * Z * Ready) : Resolvd * list Output :=
  let '(tx, revents, io) := ready in
  let '(u, event) := upstream_service (rd_upstream r) tx revents (response_matches (rd_engine r) tx) io in
  let r := with_upstream u r in
  match event with
  | Some (Received bytes) =>
      let '(e, actions) := received (rd_engine r) tx bytes now in
      perform (with_engine e r) actions now
  | Some Failed =>
      let '(e, actions) := failed (rd_engine r) tx now in
      perform (with_engine e r) actions now
  | None => (r, [])
  end.

Definition reply_ready (r : Resolvd) (x : Z * Write * Z) : Resolvd :=
  let '(id, w, at_) := x in with_replies (service (rd_replies r) id w at_).1 r.

Definition stub_reply_ready (r : Resolvd) (x : Z * Write * Z) : Resolvd :=
  let '(id, w, at_) := x in with_stub (service_reply (rd_stub r) id w at_) r.

Definition udp_ready (now : Z) (r : Resolvd) (rs : list RecvUdp) : Resolvd * list Output :=
  let '(incoming, effs) := receive_udp rs in
  let '(r, out) := handle_stub r incoming now in
  (r, map ToStub effs ++ out).

Definition stub_accept (now : Z) (r : Resolvd) (rs : list AcceptTcp) : Resolvd :=
  let pending := length (List.filter tcp_waiter (values (rd_waiters r))) in
  with_stub (accept (rd_stub r) rs now (MAX_PENDING_CLIENTS - pending)) r.

Definition stub_client_ready (now : Z) (r : Resolvd) (c : ClientIo) : Resolvd * list Output :=
  let '(s, incoming, effs) := service_client (rd_stub r) (ci_id c) (ci_reads c) (ci_write c) (ci_at c) in
  let r := with_stub s r in
  match incoming with
  | Some incoming =>
      let '(r, out) := handle_stub r [incoming] now in (r, map ToStub effs ++ out)
  | None => (r, map ToStub effs)
  end.

Fixpoint native_accept_loop (batch : nat) (pending : nat) (m : Main) (rs : list AcceptNative) (now : Z) : Main :=
  match batch, rs with
  | S batch, NAccepted stream nonblocking :: rs =>
      let r := m_r m in
      if (MAX_PENDING_CLIENTS <=? size (rd_clients r) + pending)%nat then native_accept_loop batch pending m rs now
      else
        match Client_new stream nonblocking now with
        | Some client =>
            let '(r, id) := fresh_id r in
            let r := with_clients (<[id := client]> (rd_clients r)) r in
            native_accept_loop batch pending (mkMain r (m_accept_backoff m) (m_watch m)) rs now
        | None => native_accept_loop batch pending m rs now
        end
  | S batch, NInterrupted :: rs => native_accept_loop batch pending m rs now
  | S _, NError_ at_ :: _ => mkMain (m_r m) (backoff_failed (m_accept_backoff m) at_) (m_watch m)
  | _, _ => m
  end.

Definition native_accept (m : Main) (rs : list AcceptNative) (now : Z) : Main :=
  let pending := length (List.filter native_waiter (values (rd_waiters (m_r m)))) in
  native_accept_loop IO_BATCH_LIMIT pending m rs now.

Definition client_ready (now : Z) (r : Resolvd) (c : ClientIo) : Resolvd * list Output :=
  match rd_clients r !! ci_id c with
  | None => (r, [])
  | Some client =>
      let '(progress, client) := Client_read client (ci_reads c) in
      let gone := with_clients (delete (ci_id c) (rd_clients r)) r in
      match progress with
      | Incomplete => (with_clients (<[ci_id c := client]> (rd_clients r)) r, [])
      | Closed => (gone, [])
      | PReply rep => reply gone (cl_stream client) rep (ci_write c) (ci_at c)
      | PRequest request =>
          handle_request if_nametoindex access_check world gone (cl_stream client) request now
            (ci_write c) (ci_at c)
      end
  end.

Definition netd_ready (now : Z) (r : Resolvd) (rs : list ReadTcp) (gethostname : option (list Z)) : Resolvd :=
  let '(l, snapshots, _) := netd_service decode (rd_netd r) now rs in
  fold_left (fun r s => apply_snapshot if_nametoindex r s gethostname) snapshots (with_netd l r).

Definition watch_ready (m : Main) (w : WatchRead) : Main :=
  match w with
  | WatchEvents (Ok config) => mkMain (apply_config valid_descriptor (m_r m) config) (m_accept_backoff m) (m_watch m)
  | WatchEvents (Err _) | WatchNothing => m
  | WatchError again => mkMain (m_r m) (m_accept_backoff m) (armed again)
  end.

(** Everything that is due by the clock. *)
Definition timers (now : Z) (connect : option Z) (r : Resolvd) : Resolvd * list Output :=
  let '(e, actions) := tick (rd_engine r) now in
  let '(r, out) := perform (with_engine e r) actions now in
  let r := with_netd (maintain (rd_netd r) now connect) r in
  let r := with_stub (Stub_expire (rd_stub r) now) r in
  let r := with_replies (replies_expire (rd_replies r) now).1 r in
  (with_clients (filter (fun kc => saturating_duration_since now (cl_since kc.2) < CLIENT_TIMEOUT) (rd_clients r)) r,
   out).

(** ** One turn *)

Definition on_some {A B} (o : option A) (f : A -> B -> B) (b : B) : B :=
  match o with Some a => f a b | None => b end.

Definition with_main (m : Main) (r : Resolvd) : Main := mkMain r (m_accept_backoff m) (m_watch m).

Definition turn (m : Main) (io : TurnIo) : Main * list Output :=
  let now := t_now io in
  let r := m_r m in
  let '(r, o1) := each (hang_up now) (t_hung io) r in
  let '(r, o2) := each (upstream_ready now) (t_upstream io) r in
  let r := fold_left reply_ready (t_replies io) r in
  let r := fold_left stub_reply_ready (t_stub_replies io) r in
  let '(r, o3) := match t_udp io with Some rs => udp_ready now r rs | None => (r, []) end in
  let r := on_some (t_stub_accept io) (fun rs r => stub_accept now r rs) r in
  let '(r, o4) := each (stub_client_ready now) (t_stub_clients io) r in
  let m := with_main m r in
  let m := on_some (t_accept io) (fun rs m => native_accept m rs now) m in
  let '(r, o5) := each (client_ready now) (t_clients io) (m_r m) in
  let r := on_some (t_netd io) (fun rs r => netd_ready now r rs (t_hostname io)) r in
  let m := with_main m r in
  let m := match t_watch io with Some w => if m_watch m then watch_ready m w else m | None => m end in
  let '(r, o6) := timers now (t_connect io) (m_r m) in
  (with_main m r, o1 ++ o2 ++ o3 ++ o4 ++ o5 ++ o6).

Fixpoint turns (m : Main) (ios : list TurnIo) : Main * list Output :=
  match ios with
  | [] => (m, [])
  | io :: ios =>
      let '(m, o1) := turn m io in
      let '(m, o2) := turns m ios in
      (m, o1 ++ o2)
  end.

(** ** Starting

    The loop is entered when the sockets open and the configuration loads;
    [watch] is whether the registry could be watched, [connect] what the first
    connection to netd gives. *)
Definition start (listener stub : bool) (config : result ReadFailure Config) (watch : bool)
    (entropy : nat -> option (list Z)) (gethostname : option (list Z)) (now : Z) (connect : option Z)
  : option Main :=
  if negb listener || negb stub then None
  else
    match config with
    | Err _ => None
    | Ok config =>
        let engine := with_entropy entropy in
        let engine := set_hostname (kernel_hostname gethostname) engine in
        let engine := set_fallback (g_servers config) (g_search config) engine in
        let engine := set_hosts (g_hosts config) engine in
        let control := ControlObject_new valid_descriptor (g_control_security config) in
        let r := mkResolvd engine config control Upstream_new Stub_open (NetdLink_new now) ∅ Replies_default ∅ 1 in
        let r := with_netd (maintain (rd_netd r) now connect) r in
        Some (mkMain r AcceptBackoff_default watch)
    end.
End turn.
