(* ===== verification/DaemonInv.v ===== *)
(** * The daemon's bookkeeping

    The invariant of the event loop's state and that carrying out actions
    keeps it: the clients that wait are those of the engine's live questions,
    the open sockets are those of its transactions, and every table is within
    its bound. *)

From S2P Require Import Prelude Net Names Message MessageProofs Cache EngineState Records Routing Engine EngineInv EngineStep EngineRun EngineMachine EngineFlow Io Stub StubProps Upstream Control Door NetdLink RegistryConfig Present Daemon.
Local Open Scope Z_scope.

(** ** Sockets *)

Definition has_socket (u : Upstream) (tx : Txid) : Prop :=
  is_Some (up_udp u !! tx) \/ is_Some (up_tcp u !! tx).

Definition one_socket (u : Upstream) : Prop := forall tx, up_udp u !! tx = None \/ up_tcp u !! tx = None.

Lemma send_socket ifx u tx server interface tcp payload socket u' :
  one_socket u -> ~ has_socket u tx ->
  upstream_send ifx u tx server interface tcp payload socket = (u', Ok ()) ->
  one_socket u' /\ forall y, has_socket u' y <-> has_socket u y \/ y = tx.
Proof.
  intros Hone Hno. unfold upstream_send. destruct (server_address _ _ _); [|done].
  destruct socket as [fd|]; [|done]. unfold has_socket, one_socket in *.
  destruct tcp; intros [= <-]; simpl; (split; [|intros y; rewrite lookup_insert_is_Some'; naive_solver]);
    intros y; destruct (decide (tx = y)) as [<-|Hne].
  - left. destruct (up_udp u !! tx) eqn:E; [|done]. destruct Hno. by left.
  - rewrite lookup_insert_ne by done. apply Hone.
  - right. destruct (up_tcp u !! tx) eqn:E; [|done]. destruct Hno. by right.
  - rewrite lookup_insert_ne by done. apply Hone.
Qed.

Lemma send_failed ifx u tx server interface tcp payload socket u' e :
  upstream_send ifx u tx server interface tcp payload socket = (u', Err e) -> u' = u.
Proof.
  unfold upstream_send. destruct (server_address _ _ _); [|by intros [= <-]].
  destruct socket; [|by intros [= <-]]. by destruct tcp.
Qed.

Lemma cancel_socket u tx :
  one_socket u -> one_socket (cancel tx u) /\ forall y, has_socket (cancel tx u) y <-> has_socket u y /\ y <> tx.
Proof.
  intros Hone. unfold has_socket, one_socket in *. simpl. split.
  - intros y. rewrite !lookup_delete. case_decide; [by left|apply Hone].
  - intros y. rewrite !lookup_delete_is_Some. naive_solver.
Qed.

Lemma drain_accepts accepts fuel : forall buf m, (drain_frames fuel accepts buf).1 = Some m -> accepts m = true.
Proof.
  induction fuel as [|fuel IH]; intros buf m; [done|]. cbn [drain_frames].
  destruct (_ <=? _)%nat; [|done]. destruct (_ <=? _)%nat; [|done].
  destruct (accepts (take _ _)) eqn:Ha; [by intros [= <-]|apply IH].
Qed.

(** A stream reports an event exactly when it is dropped. *)
Lemma tcp_step_event accepts st revents io e st' :
  tcp_step accepts st revents io = (e, st') ->
  (e = None <-> is_Some st') /\ forall bytes, e = Some (Received bytes) -> accepts bytes = true.
Proof.
  assert (forall st : TcpState, @None Event = None <-> is_Some (Some st)) as Hyes by (intros st0; split; eauto).
  assert (forall ev : Event, Some ev = None <-> is_Some (@None TcpState)) as Hno.
  { intros ev. split; [done|by intros [? ?]]. }
  unfold tcp_step. destruct (_ && _); [intros [= <- <-]; by split|].
  destruct st as [|frame sent|buf].
  - intros [= <- <-]. by split.
  - unfold tcp_send_step. destruct (_ && _); [intros [= <- <-]; by split|].
    destruct (rdy_write io); [destruct (_ =? _)%nat| | |]; intros [= <- <-]; by split.
  - unfold receive, drain. destruct (drain_frames _ accepts buf) as [[m|] b] eqn:E.
    + intros [= <- <-]. split; [done|]. intros bytes [= <-].
      apply (drain_accepts accepts (length buf) buf). by rewrite E.
    + destruct (rdy_read io) as [|chunk| | |]; try (intros [= <- <-]; by split).
      destruct (drain_frames _ accepts (b ++ chunk)) as [[m|] b2] eqn:E2; intros [= <- <-]; [|by split].
      split; [done|]. intros bytes [= <-]. apply (drain_accepts accepts (length (b ++ chunk)) (b ++ chunk)).
      by rewrite E2.
Qed.

Lemma service_socket u tx revents accepts io u' event :
  one_socket u -> upstream_service u tx revents accepts io = (u', event) ->
  one_socket u' /\
  (forall y, has_socket u' y <-> has_socket u y /\ (event <> None -> y <> tx)) /\
  (event <> None -> has_socket u tx) /\
  forall bytes, event = Some (Received bytes) -> accepts bytes = true.
Proof.
  intros Hone. unfold upstream_service. pose proof (Hone tx) as Htx.
  assert (forall u1, up_udp u1 = up_udp u -> delete tx (up_tcp u1) = delete tx (up_tcp u) ->
    (is_Some (up_tcp u1 !! tx) <-> is_Some (up_tcp u !! tx)) -> one_socket u1 /\
    forall y, has_socket u1 y <-> has_socket u y) as Hsame.
  { intros u1 H1 H2 H3. assert (forall y, y <> tx -> up_tcp u1 !! y = up_tcp u !! y) as Hy.
    { intros y Hne. rewrite <- (lookup_delete_ne (up_tcp u1) tx y), H2, lookup_delete_ne by done. done. }
    unfold one_socket, has_socket. rewrite H1. split; intros y; destruct (decide (y = tx)) as [->|Hne];
      rewrite ?(Hy y Hne); try done; [|by rewrite H3].
    destruct Htx as [?|Hn]; [by left|right]. destruct (up_tcp u1 !! tx) eqn:E; [|done].
    rewrite Hn in H3. destruct H3 as [H3 _]. by destruct H3. }
  destruct (up_udp u !! tx) as [fd|] eqn:Hu.
  - assert (one_socket (drop_udp tx u) /\ forall y, has_socket (drop_udp tx u) y <-> has_socket u y /\ y <> tx) as [Hd1 Hd2].
    { destruct Htx as [?|Hn]; [done|]. unfold one_socket, has_socket in *. simpl. split; intros y.
      - rewrite lookup_delete. case_decide; [by left|apply Hone].
      - rewrite lookup_delete_is_Some. destruct (decide (y = tx)) as [->|]; [|naive_solver].
        rewrite Hn. split; [intros [[? _]|[? ?]]; done|by intros [_ ?]]. }
    assert (has_socket u tx) as Hhas by (left; by rewrite Hu).
    destruct (rdy_recv io) as [bytes| |]; [destruct (accepts bytes) eqn:Ha| |]; intros [= <- <-].
    + split_and!; [done|intros y; rewrite Hd2; naive_solver|done|by intros ? [= <-]].
    + split_and!; [done|naive_solver|done|done].
    + split_and!; [done|naive_solver|done|done].
    + split_and!; [done|intros y; rewrite Hd2; naive_solver|done|done].
  - destruct (up_tcp u !! tx) as [t|] eqn:Ht.
    2: { intros [= <- <-]. split_and!; [done|naive_solver|done|done]. }
    destruct (tcp_step _ _ _ _) as [e [st|]] eqn:Hstep; apply tcp_step_event in Hstep as [Hiff Hacc]; intros [= <- <-].
    + rewrite (proj2 Hiff) by done. destruct (Hsame (mkUpstream (up_udp u) (<[tx := mkTcp (tcp_stream t) st]> (up_tcp u)))) as [H1 H2].
      * done.
      * simpl. by rewrite delete_insert_eq.
      * simpl. rewrite lookup_insert_eq. split; eauto.
      * split_and!; [done|intros y; rewrite H2; naive_solver|done|done].
    + assert (e <> None) as Hne by (intros ->; by destruct (proj1 Hiff eq_refl)).
      unfold one_socket, has_socket in *. simpl. split_and!; [| |intros _; right; by rewrite Ht|done].
      * intros y. rewrite lookup_delete. case_decide; [by right|apply Hone].
      * intros y. rewrite lookup_delete_is_Some. destruct (decide (y = tx)) as [->|]; [|naive_solver].
        rewrite Hu. split; [intros [[? ?]|[? _]]; done|]. intros [_ Hn]. by destruct (Hn Hne).
Qed.

(** ** Between an engine operation and the end of its actions *)

(** [L] are the actions still to be carried out. *)
Record Mid (L : list Action) (r : Resolvd) : Prop := mkMid {
  mi_inv : Inv ∅ (rd_engine r);
  mi_one : one_socket (rd_upstream r);
  mi_txs : forall tx, is_Some (txs (rd_engine r) !! tx) <->
    (has_socket (rd_upstream r) tx /\ tx ∉ cancels L) \/ tx ∈ sends L;
  mi_apart : forall tx, tx ∈ sends L -> ~ has_socket (rd_upstream r) tx /\ tx ∉ cancels L;
  mi_sends : NoDup (sends L);
  mi_old : forall tx, has_socket (rd_upstream r) tx \/ tx ∈ sends L \/ tx ∈ cancels L ->
    tx < next_id (rd_engine r);
  mi_waiters : forall q, is_Some (rd_waiters r !! q) <-> live (rd_engine r) q \/ q ∈ dones L;
  mi_dones : NoDup (dones L);
  mi_once : forall q, live (rd_engine r) q -> q ∉ dones L;
  mi_plain : forall q o, rd_waiters r !! q = Some (WStub o) -> plain (rd_engine r) q /\ answers_only q L;
}.

(** What carrying out actions leaves alone. *)
Record shrinks (r r' : Resolvd) : Prop := mk_shrinks {
  sh_waiters : rd_waiters r' ⊆ rd_waiters r;
  sh_clients : rd_clients r' = rd_clients r;
  sh_stub_clients : clients (rd_stub r') = clients (rd_stub r);
  sh_stub_next : next_client (rd_stub r') = next_client (rd_stub r);
  sh_next : rd_next_id r' = rd_next_id r;
  sh_config : rd_config r' = rd_config r;
  sh_netd : rd_netd r' = rd_netd r;
  sh_replies : Replies_ok (rd_replies r) -> Replies_ok (rd_replies r');
  sh_stub_replies : Replies_ok (replies (rd_stub r)) -> Replies_ok (replies (rd_stub r'));
}.

#[export] Instance shrinks_preorder : PreOrder shrinks.
Proof.
  split; [by split|]. intros a b c [] []. split; try congruence; try tauto. by etrans.
Qed.

Lemma reply_shrinks r stream rep w at_ : shrinks r (reply r stream rep w at_).1.
Proof. split; try done. simpl. apply enqueue_ok. Qed.

Lemma stub_answer_shrinks r origin a w at_ : shrinks r (stub_answer r origin a w at_).1.
Proof.
  unfold stub_answer. destruct (Stub_answer _ _ _ _ _) as [s effs] eqn:E.
  assert (clients s = clients (rd_stub r) /\ next_client s = next_client (rd_stub r) /\
    (Replies_ok (replies (rd_stub r)) -> Replies_ok (replies s))) as (H1 & H2 & H3).
  { unfold Stub_answer, send_tcp in E. destruct origin; case_match; simplify_eq; try done.
    simpl. split_and!; try done. apply enqueue_ok. }
  by split.
Qed.

Lemma deliver_shrinks r q c w at_ : shrinks r (deliver r q c w at_).1.
Proof.
  unfold deliver. destruct (rd_waiters r !! q) as [waiter|]; [|done].
  assert (shrinks r (with_waiters (delete q (rd_waiters r)) r)) as Hs.
  { split; try done. apply delete_subseteq. }
  destruct waiter, c; try done; (etrans; [exact Hs|]); [apply reply_shrinks|apply reply_shrinks|apply stub_answer_shrinks].
Qed.

Lemma deliver_fields r q c w at_ :
  rd_engine (deliver r q c w at_).1 = rd_engine r /\ rd_upstream (deliver r q c w at_).1 = rd_upstream r /\
  rd_waiters (deliver r q c w at_).1 = delete q (rd_waiters r).
Proof.
  unfold deliver. destruct (rd_waiters r !! q) as [waiter|] eqn:E; [|by rewrite delete_id].
  destruct waiter, c; try done. unfold stub_answer. by destruct (Stub_answer _ _ _ _ _).
Qed.

Section perform.
Context `{MapOrder}.
Variable if_nametoindex : Str -> Z.
Variable world : World.

Abbreviation perform_one := (perform_one if_nametoindex world).
Abbreviation perform_each := (perform_each if_nametoindex world).
Abbreviation perform_rounds := (perform_rounds if_nametoindex).

Abbreviation work_left r := (total_work (tasks (rd_engine r))).

(** A send that failed at once: the engine moves on, the socket never was. *)
Lemma mid_failed L r tx server itf tcp payload e acts :
  Mid (Send tx server itf tcp payload :: L) r -> Inv ∅ e ->
  balanced (rd_engine r) e acts -> flows (fun y => y = tx) (fun _ => True) (rd_engine r) e acts ->
  cancels acts = [] -> Mid (L ++ acts) (with_engine e r).
Proof.
  intros [HI Hone Htxs Hap Hnd Hold Hw Hdn Honce Hpl] HI' [Bn Bs Bo] [T F N M C P] Hc. simpl in *.
  assert (~ has_socket (rd_upstream r) tx /\ tx ∉ cancels L /\ tx ∉ sends L) as (Hs & Hcx & Hsx).
  { destruct (Hap tx) as [? ?]; [by left|]. apply NoDup_cons in Hnd as [? _]. done. }
  assert (forall y, y ∈ dones acts -> y ∉ dones L) as Hdisj.
  { intros y Hy. apply Honce. apply Bs. by right. }
  split; simpl; rewrite ?sends_app, ?cancels_app, ?dones_app, ?Hc, ?app_nil_r; try done.
  - intros y. rewrite T, Htxs, elem_of_app, elem_of_cons. destruct (decide (y = tx)) as [->|]; [|tauto].
    split; [tauto|]. intros [[? _]|[?|?]]; [done|done|tauto].
  - intros y [Hy|Hy]%elem_of_app; [destruct (Hap y) as [? ?]; [by right|done]|].
    apply F in Hy. split; intros Hbad; [specialize (Hold y (or_introl Hbad))|specialize (Hold y (or_intror (or_intror Hbad)))]; lia.
  - apply NoDup_cons in Hnd as [_ Hnd]. apply NoDup_app. split_and!; [done| |done].
    intros y Hy Hy'%F. assert (y < next_id (rd_engine r)); [|lia]. apply Hold. right; left. by right.
  - intros y Hy. rewrite elem_of_app in Hy.
    destruct (decide (y ∈ sends acts)) as [Ha|Ha]; [apply F in Ha; lia|].
    assert (y < next_id (rd_engine r)); [|lia]. apply Hold. rewrite elem_of_cons. tauto.
  - intros q. rewrite Hw, Bs, elem_of_app. tauto.
  - apply NoDup_app. split_and!; [done| |done]. intros q Hq Hq'. by apply (Hdisj q).
  - intros q Hq. rewrite elem_of_app. intros [Hd|Hd]; [|by apply (Bo q)]. apply (Honce q); [|done]. apply Bs. by left.
  - intros q o Hq. destruct (Hpl q o Hq) as [Hp Ha]. destruct (P q I Hp) as [Hp' Ha'].
    split; [done|]. apply answers_only_app; [|done]. intros c Hcc. apply Ha. by right.
Qed.

Lemma mid_one L r a now r' f out :
  Mid (a :: L) r -> perform_one r a now = (r', f, out) ->
  Mid (L ++ f) r' /\ shrinks r r' /\ (work_left r' <= work_left r)%nat /\
  (f <> [] -> (work_left r' < work_left r)%nat).
Proof.
  intros Hmid. pose proof Hmid as [HI Hone Htxs Hap Hnd Hold Hw Hdn Honce Hpl].
  destruct a as [tx server itf tcp payload|tx|q c]; unfold Daemon.perform_one.
  - destruct (upstream_send _ _ _ _ _ _ _ _) as [u res] eqn:Hs.
    destruct (Hap tx) as [Hno Hnc]; [by left|]. destruct res as [[]|e].
    + intros [= <- <- <-]. rewrite app_nil_r.
      destruct (send_socket _ _ _ _ _ _ _ _ _ Hone Hno Hs) as [Hone' Hsock].
      split_and!; [|by split|done|done]. apply NoDup_cons in Hnd as [Hntx Hnd].
      split; simpl in *; try done.
      * intros y. rewrite Htxs, Hsock, elem_of_cons. destruct (decide (y = tx)) as [->|]; tauto.
      * intros y Hy. rewrite Hsock. destruct (Hap y) as [? ?]; [by right|]. split; [|done]. intros [?| ->]; done.
      * intros y Hy. rewrite Hsock in Hy. apply Hold. rewrite elem_of_cons. tauto.
      * intros q o Hq. destruct (Hpl q o Hq) as [? Ha]. split; [done|]. intros c Hc. apply Ha. by right.
    + apply send_failed in Hs as ->.
      assert (is_Some (txs (rd_engine r) !! tx)) as [x Hx] by (apply Htxs; right; by left).
      assert (with_upstream (rd_upstream r) r = r) as Hid by (by destruct r). rewrite Hid.
      destruct (is_local_failure e).
      * destruct (local_failed_flows (fun _ => True) (rd_engine r) tx now HI) as [Hf Hc].
        destruct (local_failed_keeps (rd_engine r) tx now HI) as [HI' Hb].
        pose proof (event_work x _ _ tx HI Hx (local_failed_event _ tx x now HI Hx)) as Hlt.
        destruct (local_failed _ _ _) as [en acts]. intros [= <- <- <-]. simpl in *.
        split_and!; [by eapply mid_failed|by split|lia|lia].
      * destruct (failed_flows (fun _ => True) (rd_engine r) tx now HI) as [Hf Hc].
        destruct (failed_keeps (rd_engine r) tx now HI) as [HI' Hb].
        pose proof (event_work x _ _ tx HI Hx (failed_event _ tx x now HI Hx)) as Hlt.
        destruct (failed _ _ _) as [en acts]. intros [= <- <- <-]. simpl in *.
        split_and!; [by eapply mid_failed|by split|lia|lia].
  - intros [= <- <- <-]. rewrite app_nil_r. destruct (cancel_socket (rd_upstream r) tx Hone) as [Hone' Hsock].
    split_and!; [|by split|done|done]. simpl in *.
    split; simpl; try done.
    + intros y. rewrite Htxs, Hsock, not_elem_of_cons. tauto.
    + intros y Hy. destruct (Hap y Hy) as [? Hnc]. rewrite Hsock. rewrite not_elem_of_cons in Hnc. tauto.
    + intros y Hy. rewrite Hsock in Hy. apply Hold. rewrite elem_of_cons. tauto.
    + intros q o Hq. destruct (Hpl q o Hq) as [? Ha]. split; [done|]. intros c Hc. apply Ha. by right.
  - destruct (w_write world q) as [w at_]. pose proof (deliver_shrinks r q c w at_) as Hsh.
    destruct (deliver_fields r q c w at_) as (He & Hu & Hwt).
    destruct (deliver r q c w at_) as [r1 o1]. simpl in *. intros [= <- <- <-]. rewrite app_nil_r.
    split_and!; [|done|by rewrite He|done]. apply NoDup_cons in Hdn as [Hnq Hdn].
    split; rewrite ?He, ?Hu, ?Hwt; try done.
    + intros q'. rewrite lookup_delete_is_Some, Hw, elem_of_cons. split; [naive_solver|].
      intros Hq'. split; [|tauto]. intros ->. destruct Hq' as [Hl|?]; [|done]. apply (Honce q' Hl). by left.
    + intros q' Hl. specialize (Honce q' Hl). rewrite not_elem_of_cons in Honce. tauto.
    + intros q' o [_ Hq]%lookup_delete_Some. destruct (Hpl q' o Hq) as [? Ha]. split; [done|].
      intros c' Hc. apply Ha. by right.
Qed.

Lemma mid_each now acts : forall F r r' f out,
  Mid (acts ++ F) r -> perform_each r acts now = (r', f, out) ->
  Mid (F ++ f) r' /\ shrinks r r' /\ (work_left r' <= work_left r)%nat /\
  (f <> [] -> (work_left r' < work_left r)%nat).
Proof.
  induction acts as [|a acts IH]; intros F r r' f out Hmid; cbn [Daemon.perform_each].
  { intros [= <- <- <-]. by rewrite app_nil_r. }
  destruct (perform_one r a now) as [[r1 f1] o1] eqn:E1.
  destruct (mid_one _ _ _ _ _ _ _ Hmid E1) as (Hm1 & Hs1 & Hw1 & Hlt1). rewrite <- app_assoc in Hm1.
  destruct (perform_each r1 acts now) as [[r2 f2] o2] eqn:E2. intros [= <- <- <-].
  destruct (IH _ _ _ _ _ Hm1 E2) as (Hm2 & Hs2 & Hw2 & Hlt2).
  split_and!; [by rewrite app_assoc|by etrans|lia|]. intros Hne.
  destruct f1; [simpl in Hne; specialize (Hlt2 Hne)|specialize (Hlt1 ltac:(done))]; lia.
Qed.

(** The rounds end, with nothing left to carry out. *)
Lemma mid_rounds now fuel : forall r acts,
  Mid acts r -> (work_left r < fuel)%nat ->
  exists r' out, perform_rounds fuel world r acts now = Some (r', out) /\ Mid [] r' /\ shrinks r r'.
Proof.
  induction fuel as [|fuel IH]; intros r acts Hmid Hf; [lia|]. cbn [Daemon.perform_rounds].
  destruct (perform_each r acts now) as [[r1 f1] o1] eqn:E1.
  rewrite <- (app_nil_r acts) in Hmid.
  destruct (mid_each now acts [] _ _ _ _ Hmid E1) as (Hm1 & Hs1 & Hw1 & Hlt1).
  destruct f1 as [|a f1]; [by exists r1, o1|]. specialize (Hlt1 ltac:(done)). simpl in Hm1.
  destruct (IH r1 (a :: f1) Hm1 ltac:(lia)) as (r2 & o2 & -> & Hm2 & Hs2).
  exists r2, (o1 ++ o2). split_and!; [done|done|by etrans].
Qed.

Lemma perform_mid r acts now :
  Mid acts r -> Mid [] (perform if_nametoindex world r acts now).1 /\
    shrinks r (perform if_nametoindex world r acts now).1.
Proof.
  intros Hmid. unfold perform.
  destruct (mid_rounds now (S (work_left r)) r acts Hmid) as (r' & out & -> & ? & ?); [lia|done].
Qed.
End perform.

(** ** The invariant *)

Definition waiting (f : Waiter -> bool) (ws : gmap Qid Waiter) : nat :=
  length (List.filter f (map snd (map_to_list ws))).

Definition udp_waiter (w : Waiter) : bool := match w with WStub (OUdp _ _) => true | _ => false end.
Definition udp_waiter_of (peer : Peer) (w : Waiter) : bool :=
  match w with WStub (OUdp p _) => bool_decide (p = peer) | _ => false end.

Record Bounded (r : Resolvd) : Prop := mkBounded {
  bd_udp : (waiting udp_waiter (rd_waiters r) <= MAX_PENDING_UDP)%nat;
  bd_peer : forall peer, (waiting (udp_waiter_of peer) (rd_waiters r) <= MAX_PENDING_UDP_PER_PEER)%nat;
  bd_stub : (size (clients (rd_stub r)) + waiting tcp_waiter (rd_waiters r) <= MAX_PENDING_CLIENTS)%nat;
  bd_native : (size (rd_clients r) + waiting native_waiter (rd_waiters r) <= MAX_PENDING_CLIENTS)%nat;
  bd_stub_ok : Stub_ok MAX_PENDING_CLIENTS (rd_stub r);
  bd_bytes : map_Forall (fun _ c => bytes_ok (tc_buf c)) (clients (rd_stub r));
  bd_replies : Replies_ok (rd_replies r);
  bd_netd : Netd_ok (rd_netd r);
  bd_ids : forall id, is_Some (rd_waiters r !! id) \/ is_Some (rd_clients r !! id) -> id < rd_next_id r;
  bd_clients : map_Forall (fun _ c => request_buf (cl_buf c)) (rd_clients r);
}.

Record Daemon_ok (r : Resolvd) : Prop := mkDaemon_ok {
  do_mid : Mid [] r;
  do_bounded : Bounded r;
}.

Lemma filter_length_perm {A} (f : A -> bool) xs ys :
  xs ≡ₚ ys -> length (List.filter f xs) = length (List.filter f ys).
Proof.
  induction 1 as [|x xs ys _ IH|x y xs|xs ys zs _ IH1 _ IH2]; simpl; [done| | |congruence].
  - destruct (f x); simpl; congruence.
  - by destruct (f x), (f y).
Qed.

Lemma waiting_insert f ws q w :
  ws !! q = None -> waiting f (<[q := w]> ws) = ((if f w then 1 else 0) + waiting f ws)%nat.
Proof.
  intros Hq. unfold waiting.
  rewrite (filter_length_perm f _ _ (fmap_Permutation snd _ _ (map_to_list_insert _ _ _ Hq))). simpl. by destruct (f w).
Qed.

Lemma waiting_delete f ws q w : ws !! q = Some w -> waiting f ws = ((if f w then 1 else 0) + waiting f (delete q ws))%nat.
Proof.
  intros Hq. rewrite <- (insert_id ws q w Hq) at 1. rewrite <- insert_delete_eq.
  apply waiting_insert, lookup_delete_eq.
Qed.

Lemma waiting_mono f ws ws' : ws' ⊆ ws -> (waiting f ws' <= waiting f ws)%nat.
Proof.
  revert ws'. induction ws as [|q w ws Hq IH] using map_ind; intros ws' Hsub.
  { assert (ws' = ∅) as ->; [|done]. apply map_empty. intros j. destruct (ws' !! j) as [x|] eqn:E; [|done].
    pose proof (lookup_weaken _ _ _ _ E Hsub) as H. by rewrite lookup_empty in H. }
  rewrite (waiting_insert f ws q w Hq). destruct (ws' !! q) as [w'|] eqn:E.
  - assert (w' = w) as ->.
    { pose proof (lookup_weaken _ _ _ _ E Hsub) as H. rewrite lookup_insert_eq in H. congruence. }
    rewrite (waiting_delete f ws' q w E). apply Nat.add_le_mono_l, IH.
    apply map_subseteq_spec. intros j x [Hne Hj]%lookup_delete_Some.
    pose proof (lookup_weaken _ _ _ _ Hj Hsub) as H. by rewrite lookup_insert_ne in H.
  - assert (waiting f ws' <= waiting f ws)%nat; [|destruct (f w); lia]. apply IH.
    apply map_subseteq_spec. intros j x Hj. pose proof (lookup_weaken _ _ _ _ Hj Hsub) as H.
    rewrite lookup_insert_ne in H; [done|]. intros <-. congruence.
Qed.

Lemma shrinks_bounded r r' : shrinks r r' -> Bounded r -> Bounded r'.
Proof.
  intros [Hw Hc Hsc Hsn Hn _ Hl Hr Hsr] [B1 B2 B3 B4 (S1 & S2 & S3) Bb B6 Bn B7 B8].
  pose proof (fun f => waiting_mono f _ _ Hw) as Hm. split.
  - specialize (Hm udp_waiter). lia.
  - intros peer. specialize (Hm (udp_waiter_of peer)). specialize (B2 peer). lia.
  - rewrite Hsc. specialize (Hm tcp_waiter). lia.
  - rewrite Hc. specialize (Hm native_waiter). lia.
  - split_and!; [by rewrite Hsc|by rewrite Hsc, Hsn|by apply Hsr].
  - by rewrite Hsc.
  - by apply Hr.
  - by rewrite Hl.
  - intros id [[w Hid]|Hid]; rewrite Hn.
    + apply B7. left. by rewrite (lookup_weaken _ _ _ _ Hid Hw).
    + apply B7. right. by rewrite <- Hc.
  - by rewrite Hc.
Qed.
