(* ===== verification/DaemonServe.v ===== *)
(** * Who is answered

    Carrying out actions takes waiters out one by one, each with one answer in
    the form of its door, and it always comes to an end. *)

From S2P Require Import Prelude Net Names Message MessageProofs Cache EngineState Records Routing Engine EngineInv EngineStep EngineRun EngineMachine EngineFlow Io IpText Msgpack NativeWire Stub StubProps Upstream Control Door NetdLink RegistryConfig Present Daemon DaemonInv.
Local Open Scope Z_scope.

(** An answered question: its id, who waited and how it ended. *)
Definition Served : Type := Qid * Waiter * Completion.

(** A waiter is answered by [out].  One of the native door by its frame, as far
    as the stream takes it at once; one of the stub door by its reply, over UDP
    cut to the size the query advertises, over TCP with its length before it.  A
    reply that is larger than a DNS message can be is not sent. *)
Definition answered (world : World) (d : Served) (out : list Output) : Prop :=
  let '(q, waiter, completion) := d in
  let w := (w_write world q).1 in
  match waiter, completion with
  | WNative stream, CAnswer a => out = [ToNative stream (wrote w (response_frame (RAnswer (to_answer a))))]
  | WNative stream, CAddresses a => out = [ToNative stream (wrote w (response_frame (RAddresses (to_addresses a))))]
  | WStub (OUdp peer query), CAnswer a =>
      let reply := build_reply query a in
      if message_size reply <=? 65535
      then exists limit bytes, advertises query limit /\ out = [ToStub (SendUdp peer bytes)] /\
        Message_encode (if message_size reply <=? limit then reply else truncate_message reply) = Ok bytes
      else out = []
  | WStub (OTcp stream query), CAnswer a =>
      let reply := build_reply query a in
      if message_size reply <=? 65535
      then exists bytes, out = [ToStub (WriteTcp stream (wrote w (be_bytes 2 (message_size reply) ++ bytes)))] /\
        Message_encode reply = Ok bytes
      else out = []
  | WStub _, CAddresses _ => False
  end.

(** The door can render the completion. *)
Definition fitting (d : Served) : Prop := forall o, d.1.2 = WStub o -> exists a, d.2 = CAnswer a.

Record accounts (world : World) (ws ws' : gmap Qid Waiter) (ds : list Served) (out : list Output) : Prop := mk_serves {
  sv_out : exists outs, out = concat outs /\ Forall2 (answered world) ds outs;
  sv_once : NoDup (map (fun d => d.1.1) ds);
  sv_split : forall q w, ws !! q = Some w <-> ws' !! q = Some w \/ exists c, (q, w, c) ∈ ds;
  sv_gone : forall q w c, (q, w, c) ∈ ds -> ws' !! q = None;
  sv_fit : Forall fitting ds;
}.

Section serve.
Context `{MapOrder}.
Variable if_nametoindex : Str -> Z.
Variable world : World.

Lemma serves_nothing ws : accounts world ws ws [] [].
Proof.
  split; try done; try constructor.
  - exists []. by split; [|constructor].
  - intros Hq. by left.
  - intros [?|[c Hc%elem_of_nil]]; done.
  - intros q w c Hc%elem_of_nil. done.
Qed.

Lemma serves_trans ws ws1 ws2 d1 d2 o1 o2 :
  accounts world ws ws1 d1 o1 -> accounts world ws1 ws2 d2 o2 -> accounts world ws ws2 (d1 ++ d2) (o1 ++ o2).
Proof.
  intros [O1 N1 S1 G1 F1] [O2 N2 S2 G2 F2]. split.
  - destruct O1 as (l1 & -> & F1'), O2 as (l2 & -> & F2'). exists (l1 ++ l2). split; [by rewrite concat_app|by apply Forall2_app].
  - rewrite map_app. apply NoDup_app. split_and!; [done| |done].
    intros q Hq1 Hq2. apply list_elem_of_In, in_map_iff in Hq1 as ([[q1 w1] c1] & Hd1 & H1).
    apply list_elem_of_In, in_map_iff in Hq2 as ([[q2 w2] c2] & Hd2 & H2). simpl in *. subst.
    apply list_elem_of_In in H1, H2. apply G1 in H1.
    assert (ws1 !! q = Some w2) as Hbad; [|congruence]. apply S2. right. by exists c2.
  - intros q w. rewrite S1, S2. setoid_rewrite elem_of_app. naive_solver.
  - intros q w c [Hc|Hc]%elem_of_app; [|by eapply G2].
    apply G1 in Hc. destruct (ws2 !! q) as [w'|] eqn:E; [|done].
    assert (ws1 !! q = Some w') as Hbad; [|congruence]. apply S2. by left.
  - by apply Forall_app.
Qed.

Lemma deliver_answers r q c w at_ waiter :
  rd_waiters r !! q = Some waiter -> w_write world q = (w, at_) -> fitting (q, waiter, c) ->
  answered world (q, waiter, c) (deliver r q c w at_).2.
Proof.
  intros Hq Hw Hfit. unfold answered, deliver. rewrite Hq, Hw. cbn [fst]. destruct waiter as [stream|[peer query|stream query]], c as [a|a]; try done.
  - cbv zeta. unfold stub_answer, Stub_answer. pose proof (encode_udp_by_size (build_reply query a) (udp_size query)) as He.
    destruct (_ <=? 65535); [|by rewrite He]. destruct He as (bytes & -> & He). exists (udp_size query), bytes.
    split; [apply udp_size_advertised|done].
  - by destruct (Hfit _ eq_refl).
  - cbv zeta. unfold stub_answer, Stub_answer. pose proof (encode_by_size (build_reply query a)) as He.
    destruct (Z.leb_spec (message_size (build_reply query a)) 65535); [|by rewrite He].
    destruct He as (bytes & -> & Hs). exists bytes. split; [|done]. unfold send_tcp, tcp_frame. cbn [snd map].
    by rewrite Hs, wrap_small by (unfold in_width, message_size in *; lia).
  - by destruct (Hfit _ eq_refl).
Qed.

Lemma deliver_serves r q c w at_ waiter :
  rd_waiters r !! q = Some waiter -> w_write world q = (w, at_) -> fitting (q, waiter, c) ->
  accounts world (rd_waiters r) (rd_waiters (deliver r q c w at_).1) [(q, waiter, c)] (deliver r q c w at_).2.
Proof.
  intros Hq Hw Hfit. destruct (deliver_fields r q c w at_) as (_ & _ & ->). split.
  - exists [(deliver r q c w at_).2]. split; [by rewrite concat_cons, app_nil_r|]. apply Forall2_cons. split; [|constructor].
    by apply deliver_answers.
  - apply NoDup_singleton.
  - intros q' w'. rewrite lookup_delete_Some. setoid_rewrite list_elem_of_singleton. split.
    + intros Hq'. destruct (decide (q = q')) as [<-|]; [right|by left]. exists c. congruence.
    + intros [[_ ?]|[c' [= -> -> ->]]]; done.
  - intros q' w' c' [= -> -> ->]%list_elem_of_singleton. apply lookup_delete_eq.
  - by apply Forall_singleton.
Qed.

Lemma one_serves L r a now r' f out :
  Mid (a :: L) r -> perform_one if_nametoindex world r a now = (r', f, out) ->
  exists ds, accounts world (rd_waiters r) (rd_waiters r') ds out.
Proof.
  intros Hmid. destruct a as [tx server itf tcp payload|tx|q c]; unfold perform_one.
  - destruct (upstream_send _ _ _ _ _ _ _ _) as [u [[]|e]].
    + intros [= <- <- <-]. exists []. apply serves_nothing.
    + match goal with |- (let '(_, _) := ?x in _) = _ -> _ => destruct x as [en acts] end.
      intros [= <- <- <-]. exists []. apply serves_nothing.
  - intros [= <- <- <-]. exists []. apply serves_nothing.
  - destruct (w_write world q) as [w at_] eqn:Hw.
    assert (is_Some (rd_waiters r !! q)) as [waiter Hq] by (apply (mi_waiters _ _ Hmid); right; by left).
    assert (fitting (q, waiter, c)) as Hfit.
    { intros o Ho. simpl in Ho. subst waiter. apply (mi_plain _ _ Hmid q o Hq). by left. }
    pose proof (deliver_serves r q c w at_ waiter Hq Hw Hfit) as Hs.
    destruct (deliver r q c w at_) as [r1 o1]. intros [= <- <- <-]. by exists [(q, waiter, c)].
Qed.

Lemma each_serves now acts : forall F r r' f out,
  Mid (acts ++ F) r -> perform_each if_nametoindex world r acts now = (r', f, out) ->
  exists ds, accounts world (rd_waiters r) (rd_waiters r') ds out.
Proof.
  induction acts as [|a acts IH]; intros F r r' f out Hmid; cbn [perform_each].
  { intros [= <- <- <-]. exists []. apply serves_nothing. }
  destruct (perform_one if_nametoindex world r a now) as [[r1 f1] o1] eqn:E1.
  destruct (one_serves _ _ _ _ _ _ _ Hmid E1) as [d1 S1].
  destruct (mid_one _ _ _ _ _ _ _ _ _ Hmid E1) as (Hm1 & _). rewrite <- app_assoc in Hm1.
  destruct (perform_each if_nametoindex world r1 acts now) as [[r2 f2] o2] eqn:E2. intros [= <- <- <-].
  destruct (IH _ _ _ _ _ Hm1 E2) as [d2 S2]. exists (d1 ++ d2). by eapply serves_trans.
Qed.

Abbreviation work_left r := (total_work (tasks (rd_engine r))).

(** Rounds: they end with nothing left to do, use up work, and answer. *)
Lemma rounds_serve now fuel : forall r acts,
  Mid acts r -> (work_left r < fuel)%nat ->
  exists r' out ds, perform_rounds if_nametoindex fuel world r acts now = Some (r', out) /\
    (work_left r' <= work_left r)%nat /\ accounts world (rd_waiters r) (rd_waiters r') ds out.
Proof.
  induction fuel as [|fuel IH]; intros r acts Hmid Hf; [lia|]. cbn [perform_rounds].
  destruct (perform_each if_nametoindex world r acts now) as [[r1 f1] o1] eqn:E1.
  rewrite <- (app_nil_r acts) in Hmid. destruct (each_serves now acts [] _ _ _ _ Hmid E1) as [d1 S1].
  destruct (mid_each _ _ now acts [] _ _ _ _ Hmid E1) as (Hm1 & Hs1 & Hw1 & Hlt1).
  destruct f1 as [|a f1]; [by exists r1, o1, d1|]. specialize (Hlt1 ltac:(done)). simpl in Hm1.
  destruct (IH r1 (a :: f1) Hm1 ltac:(lia)) as (r2 & o2 & d2 & -> & Hw2 & S2).
  exists r2, (o1 ++ o2), (d1 ++ d2). split_and!; [done|lia|by eapply serves_trans].
Qed.

Lemma perform_serves r acts now :
  Mid acts r ->
  perform_rounds if_nametoindex (S (work_left r)) world r acts now = Some (perform if_nametoindex world r acts now) /\
  (work_left (perform if_nametoindex world r acts now).1 <= work_left r)%nat /\
  exists ds, accounts world (rd_waiters r) (rd_waiters (perform if_nametoindex world r acts now).1) ds
    (perform if_nametoindex world r acts now).2.
Proof.
  intros Hmid. unfold perform. destruct (rounds_serve now (S (work_left r)) r acts Hmid) as (r' & out & ds & -> & Hw & Hs); [lia|].
  split_and!; [done|done|by exists ds].
Qed.

(** A phase that began with the waiters [ws]: it ends in a good state, and
    everyone it took out was answered once. *)
Definition phase (ws : gmap Qid Waiter) (res : Resolvd * list Output) : Prop :=
  Daemon_ok res.1 /\ exists ds, accounts world ws (rd_waiters res.1) ds res.2.

Lemma perform_phase r acts now :
  Mid acts r -> Bounded r -> phase (rd_waiters r) (perform if_nametoindex world r acts now).
Proof.
  intros Hm Hb. destruct (perform_serves r acts now Hm) as (_ & _ & Hs).
  destruct (perform_mid if_nametoindex world r acts now Hm) as [Hm' Hsh]. split; [|done].
  split; [done|]. by eapply shrinks_bounded.
Qed.
End serve.
