(* ===== verification/DaemonRun.v ===== *)
(** * Every phase of the loop keeps the daemon's invariant *)

From S2P Require Import Prelude Net Names Message MessageProofs Cache EngineState Records Routing Engine EngineInv EngineStep EngineRun EngineMachine EngineFlow Io IpText Msgpack NativeWire NativeWireProofs Stub StubProps Upstream Control Door NetdLink RegistryConfig Present Daemon DaemonLoop DaemonInv DaemonServe.
Local Open Scope Z_scope.

(** ** Engine operations *)

(** From an engine operation to its actions: the sockets that are kept are
    those of the transactions that go on, and the waiters those of the
    questions that are live or completed by the actions. *)
Lemma mid_start r r1 acts gone P :
  Mid [] r -> Inv ∅ (rd_engine r1) -> flows gone P (rd_engine r) (rd_engine r1) acts ->
  one_socket (rd_upstream r1) ->
  (forall y, has_socket (rd_upstream r1) y -> has_socket (rd_upstream r) y) ->
  (forall y, has_socket (rd_upstream r) y -> (has_socket (rd_upstream r1) y /\ y ∉ cancels acts <-> ~ gone y)) ->
  (forall y, y ∈ cancels acts -> has_socket (rd_upstream r) y) ->
  (forall q, is_Some (rd_waiters r1 !! q) <-> live (rd_engine r1) q \/ q ∈ dones acts) ->
  NoDup (dones acts) -> (forall q, live (rd_engine r1) q -> q ∉ dones acts) ->
  (forall q o, rd_waiters r1 !! q = Some (WStub o) -> P q /\ plain (rd_engine r) q) ->
  Mid acts r1.
Proof.
  intros [HI Hone Htxs _ _ Hold _ _ _ _] HI' [T F N M C Pl] Hone' Hsub Hkeep Hcan Hw Hnd Ho Hplain.
  assert (forall y, is_Some (txs (rd_engine r) !! y) <-> has_socket (rd_upstream r) y) as Hlive.
  { intros y. rewrite Htxs. simpl. split; [intros [[? _]|?%elem_of_nil]; done|]. intros ?. left.
    split; [done|apply not_elem_of_nil]. }
  assert (forall y, has_socket (rd_upstream r) y -> y < next_id (rd_engine r)) as Hlt.
  { intros y Hy. apply Hold. by left. }
  split; try done.
  - intros y. rewrite T, Hlive. split.
    + intros [[Hy Hg]|?]; [left|by right]. by apply Hkeep.
    + intros [[Hy Hc]|?]; [left|by right]. split; [by apply Hsub|]. apply Hkeep; [by apply Hsub|done].
  - intros y Hy%F. split; [intros Hb%Hsub|intros Hb%Hcan]; specialize (Hlt y Hb); lia.
  - intros y [Hy|[Hy|Hy]].
    + specialize (Hlt y (Hsub y Hy)). lia.
    + apply F in Hy. lia.
    + specialize (Hlt y (Hcan y Hy)). lia.
  - intros q o Hq. destruct (Hplain q o Hq) as [HP Hp]. by apply Pl.
Qed.

Lemma mid_sockets r tx : Mid [] r -> is_Some (txs (rd_engine r) !! tx) <-> has_socket (rd_upstream r) tx.
Proof.
  intros Hm. rewrite (mi_txs _ _ Hm). simpl. split; [intros [[? _]|?%elem_of_nil]; done|].
  intros ?. left. split; [done|apply not_elem_of_nil].
Qed.

Lemma mid_live r q : Mid [] r -> is_Some (rd_waiters r !! q) <-> live (rd_engine r) q.
Proof.
  intros Hm. rewrite (mi_waiters _ _ Hm). simpl. split; [intros [?|?%elem_of_nil]; done|by left].
Qed.

Lemma mid_stub_plain r q o : Mid [] r -> rd_waiters r !! q = Some (WStub o) -> plain (rd_engine r) q.
Proof. intros Hm Hq. by apply (mi_plain _ _ Hm q o). Qed.

(** A new question under an id that nothing uses. *)
Lemma mid_question r q w e acts P :
  Mid [] r -> rd_waiters r !! q = None -> opens q (rd_engine r) (e, acts) ->
  flows (fun _ => False) P (rd_engine r) e acts ->
  (forall q', q' <> q -> P q') -> (forall o, w = WStub o -> P q) ->
  Mid acts (with_waiters (<[q := w]> (rd_waiters r)) (with_engine e r)).
Proof.
  intros Hm Hq [HI [Hn Hs Ho]] Hfl HP1 HP2.
  eapply mid_start; [exact Hm|done|exact Hfl|apply Hm|done| | | |done|done|]; simpl.
  - intros y Hy. split; [intros _ []|]. intros _. split; [done|].
    intros Hc. by apply (fl_cancels _ _ _ _ _ Hfl) in Hc.
  - intros y Hc. by apply (fl_cancels _ _ _ _ _ Hfl) in Hc.
  - intros q'. rewrite <- Hs, lookup_insert_is_Some'. rewrite (mid_live r q' Hm). naive_solver.
  - intros q' o. rewrite lookup_insert_Some. intros [[<- ->]|[Hne Hq']].
    + split; [by eapply HP2|]. intros id t Ht Hown. exfalso.
      assert (is_Some (rd_waiters r !! q)) as [? Hbad]; [|congruence].
      apply (mid_live r q Hm). by exists id, t.
    + split; [by apply HP1|]. by eapply mid_stub_plain.
Qed.

(** The end of a transaction whose socket is closed. *)
Lemma mid_event r u tx e acts :
  Mid [] r -> one_socket u -> (forall y, has_socket u y <-> has_socket (rd_upstream r) y /\ y <> tx) ->
  Inv ∅ e -> balanced (rd_engine r) e acts -> cancels acts = [] ->
  flows (fun y => y = tx) (fun _ => True) (rd_engine r) e acts ->
  Mid acts (with_engine e (with_upstream u r)).
Proof.
  intros Hm Hone Hu HI [Bn Bs Bo] Hc Hfl.
  eapply mid_start; [exact Hm|done|exact Hfl|done| | | | |done|done|]; simpl; rewrite ?Hc.
  - intros y. rewrite Hu. tauto.
  - intros y Hy. rewrite Hu. pose proof (not_elem_of_nil y). tauto.
  - intros y ?%elem_of_nil. done.
  - intros q. rewrite <- Bs. by apply mid_live.
  - intros q o Hq. split; [done|]. by eapply mid_stub_plain.
Qed.

(** An operation that cancels the transactions it ends. *)
Lemma mid_cancels r e acts gone :
  Mid [] r -> Inv ∅ e -> balanced (rd_engine r) e acts ->
  flows gone (fun _ => True) (rd_engine r) e acts ->
  (forall y, gone y -> y ∈ cancels acts) -> (forall y, gone y -> is_Some (txs (rd_engine r) !! y)) ->
  Mid acts (with_engine e r).
Proof.
  intros Hm HI [Bn Bs Bo] Hfl Hg1 Hg2.
  eapply mid_start; [exact Hm|done|exact Hfl|apply Hm|done| | | |done|done|]; simpl.
  - intros y Hy. split; [|split; [done|]].
    + intros [_ Hn] Hg. by apply Hn, Hg1.
    + intros Hc%(fl_cancels _ _ _ _ _ Hfl). done.
  - intros y Hc%(fl_cancels _ _ _ _ _ Hfl). by apply mid_sockets, Hg2.
  - intros q. rewrite <- Bs. by apply mid_live.
  - intros q o Hq. split; [done|]. by eapply mid_stub_plain.
Qed.

(** A reconfigured engine. *)
Lemma mid_quiet r e : Mid [] r -> Inv ∅ e -> quiet (rd_engine r) e -> Mid [] (with_engine e r).
Proof.
  intros [HI Hone Htxs Hap Hnd Hold Hw Hdn Honce Hpl] HI' [L X N P]. split; simpl; try done.
  - intros y. by rewrite X, Htxs.
  - intros y Hy. rewrite N. by apply Hold.
  - intros q. by rewrite L, Hw.
  - intros q Hq. apply Honce. by apply L.
  - intros q o Hq. destruct (Hpl q o Hq) as [Hp Ha]. split; [by apply P|done].
Qed.

(** A change outside the engine, the sockets and the waiters. *)
Lemma mid_frame L r r' :
  rd_engine r' = rd_engine r -> rd_upstream r' = rd_upstream r -> rd_waiters r' = rd_waiters r ->
  Mid L r -> Mid L r'.
Proof. intros He Hu Hw []. split; rewrite ?He, ?Hu, ?Hw; done. Qed.

(** ** Requests carry what their types say *)

Definition Request_typed (q : Request) : Prop :=
  match q with
  | QResolve name rtype _ => bytes_ok name /\ is_u16 rtype
  | QLookup name _ => bytes_ok name
  | _ => True
  end.

Lemma read_str_bytes r s r' : read_str r = Ok (s, r') -> bytes_ok s.
Proof.
  unfold read_str. destruct (byte r) as [[b r1]|]; [|done]. cbn [result_bind].
  match goal with |- result_bind ?x _ = _ -> _ => destruct x as [[n r2]|] end; [|done]. cbn [result_bind].
  destruct (take_ _ _) as [[s' r3]|]; [|done]. cbn [result_bind].
  destruct (utf8_valid s') eqn:Hu; [|done]. intros [= <- _]. by apply utf8_valid_bytes.
Qed.

Definition fields_typed (s : RequestFields) : Prop :=
  (forall n, q_name_ s = Some n -> bytes_ok n) /\ (forall t, q_type s = Some t -> is_u16 t).

Lemma store_typed {A} (rd : Reader -> WRead A) (put : A -> RequestFields) r s' r' :
  store rd put r = Ok (s', r') -> exists v r1, rd r = Ok (v, r1) /\ s' = put v.
Proof. unfold store. destruct (rd r) as [[v r1]|]; [|done]. cbn [result_bind]. intros [= <- _]. eauto. Qed.

Lemma request_field_typed key s r s' r' :
  fields_typed s -> request_field key s r = Ok (s', r') -> fields_typed s'.
Proof.
  intros [Hn Ht]. unfold request_field. destruct s as [query name rtype no_cache family address]. simpl in *.
  repeat case_match; try (by intros (v & r1 & _ & ->)%store_typed).
  - intros (v & r1 & Hr & ->)%store_typed. split; [|done]. intros n [= <-].
    unfold rd_str, lift in Hr. destruct (read_str r) as [[v' r2]|] eqn:E; [|done]. injection Hr as <- _.
    by eapply read_str_bytes.
  - unfold rd_uint, lift. destruct (read_uint r) as [[v r1]|] eqn:E; [|done]. cbn [result_bind].
    unfold read_uint in E. destruct (read_int r) as [[w r2]|]; [|done]. cbn [result_bind] in E.
    destruct (Z.leb_spec 0 w); [|done]. injection E as <- _.
    destruct (Z.ltb_spec w (2 ^ 16)); [|done]. intros [= <- _]. split; [done|]. intros t [= <-]. unfold in_width. lia.
Qed.

Lemma fields_loop_typed n : forall seen s r s' r',
  fields_typed s -> fields_loop n seen request_field s r = Ok (s', r') -> fields_typed s'.
Proof.
  induction n as [|n IH]; intros seen s r s' r' Hs; cbn [fields_loop]; [by intros [= <- _]|].
  destruct (lift (read_str r)) as [[key r1]|]; [|done]. cbn [result_bind]. destruct (existsb _ _); [done|].
  destruct (request_field key s r1) as [[s1 r2]|] eqn:E; [|done]. cbn [result_bind].
  apply IH. by eapply request_field_typed.
Qed.

Lemma Request_decode_typed bytes q : Request_decode bytes = Ok q -> Request_typed q.
Proof.
  unfold Request_decode, for_each_field. destruct (lift (read_map _)) as [[n r]|]; [|done]. cbn [result_bind].
  destruct (fields_loop _ _ _ _ _) as [[s r']|] eqn:E; [|done]. cbn [result_bind].
  apply fields_loop_typed in E as [Hn Ht]; [|by split].
  unfold Request_of. destruct (q_query s); [|done].
  repeat case_match; try done; cbn [ok_or result_bind]; try (by intros [= <-]).
  - destruct (q_name_ s) as [name|]; [|done]. cbn [ok_or result_bind].
    destruct (q_type s) as [t'|]; [|done]. cbn [ok_or result_bind]. intros [= <-]. split; [by apply Hn|by apply Ht].
  - destruct (q_name_ s) as [name|]; [|done]. cbn [ok_or result_bind]. intros [= <-]. by apply Hn.
  - destruct (q_address s); [|done]. cbn [ok_or result_bind]. destruct (ip_parse _); [|done].
    cbn [ok_or result_bind]. by intros [= <-].
Qed.

(** ** Bounds under new waiters *)

Lemma values_waiting `{MapOrder} f (ws : gmap Qid Waiter) : length (List.filter f (values ws)) = waiting f ws.
Proof. apply filter_length_perm. unfold values. by rewrite map_iter_perm. Qed.

(** The counts of the UDP door are those of the waiters. *)
Lemma udp_has_capacity_spec `{MapOrder} ws peer :
  udp_has_capacity ws peer = true <->
  (waiting udp_waiter ws < MAX_PENDING_UDP)%nat /\ (waiting (udp_waiter_of peer) ws < MAX_PENDING_UDP_PER_PEER)%nat.
Proof.
  unfold udp_has_capacity. rewrite <- !values_waiting. generalize (values ws) as l. intros l.
  set (f := fun _ _ => _). assert (forall l a b, fold_left f l (a, b) =
    (a + length (List.filter udp_waiter l), b + length (List.filter (udp_waiter_of peer) l))%nat) as Hf.
  { clear l. intros l. induction l as [|w l IH]; intros a b; simpl; [f_equal; lia|].
    destruct w as [|[p q|]]; simpl; rewrite IH; simpl; try done.
    case_bool_decide; simpl; f_equal; lia. }
  rewrite Hf. simpl. rewrite andb_true_iff, !Nat.ltb_lt. done.
Qed.

(** Room for one more waiter of its kind. *)
Definition room (w : Waiter) (r : Resolvd) : Prop :=
  match w with
  | WStub (OUdp peer _) =>
      (waiting udp_waiter (rd_waiters r) < MAX_PENDING_UDP)%nat /\
      (waiting (udp_waiter_of peer) (rd_waiters r) < MAX_PENDING_UDP_PER_PEER)%nat
  | WStub (OTcp _ _) => (size (clients (rd_stub r)) + waiting tcp_waiter (rd_waiters r) < MAX_PENDING_CLIENTS)%nat
  | WNative _ => (size (rd_clients r) + waiting native_waiter (rd_waiters r) < MAX_PENDING_CLIENTS)%nat
  end.

Lemma bounded_fresh r : Bounded r -> rd_waiters r !! rd_next_id r = None.
Proof.
  intros Hb. destruct (rd_waiters r !! rd_next_id r) eqn:E; [|done].
  assert (rd_next_id r < rd_next_id r); [|lia]. apply (bd_ids r Hb). left. by rewrite E.
Qed.

Lemma bounded_ask r w e :
  Bounded r -> room w r ->
  Bounded (with_engine e (with_waiters (<[rd_next_id r := w]> (rd_waiters r)) (with_next_id (rd_next_id r + 1) r))).
Proof.
  intros Hb Hr. pose proof (bounded_fresh r Hb) as Hq. destruct Hb as [B1 B2 B3 B4 B5 Bb B6 Bn B7 B8].
  pose proof (fun f => waiting_insert f _ _ w Hq) as Hw. split; simpl; try done; rewrite ?Hw.
  - destruct w as [|[]]; simpl in *; lia.
  - intros peer. rewrite Hw. specialize (B2 peer). destruct w as [|[p m|]]; simpl in *; [done| |done].
    case_bool_decide; [subst|]; simpl; lia.
  - destruct w as [|[]]; simpl in *; lia.
  - destruct w as [|[]]; simpl in *; lia.
  - intros id [Hid|Hid].
    + rewrite lookup_insert_is_Some' in Hid. destruct Hid as [<-|Hid]; [lia|].
      assert (id < rd_next_id r) by (apply B7; by left). lia.
    + assert (id < rd_next_id r) by (apply B7; by right). lia.
Qed.

(** Asking the engine on behalf of a client there is room for. *)
Lemma ask_ok `{MapOrder} ifx world r w e acts P now :
  Daemon_ok r -> room w r -> opens (rd_next_id r) (rd_engine r) (e, acts) ->
  flows (fun _ => False) P (rd_engine r) e acts ->
  (forall q', q' <> rd_next_id r -> P q') -> (forall o, w = WStub o -> P (rd_next_id r)) ->
  phase world (<[rd_next_id r := w]> (rd_waiters r)) (perform ifx world
    (with_engine e (with_waiters (<[rd_next_id r := w]> (rd_waiters r)) (with_next_id (rd_next_id r + 1) r))) acts now).
Proof.
  intros [Hm Hb] Hr Ho Hf H1 H2.
  refine (perform_phase ifx world (with_engine e (with_waiters _ (with_next_id _ r))) acts now _ _); [|by apply bounded_ask].
  apply (mid_frame acts (with_waiters (<[rd_next_id r := w]> (rd_waiters r)) (with_engine e r))); try done.
  eapply mid_question; [done|by apply bounded_fresh|done|exact Hf|done|done].
Qed.

Lemma next_not_live r : Daemon_ok r -> ~ live (rd_engine r) (rd_next_id r).
Proof.
  intros [Hm Hb] Hl%(mid_live r _ Hm). rewrite (bounded_fresh r Hb) in Hl. by destruct Hl.
Qed.

(** A change outside everything the invariant speaks of but the bounds. *)
Lemma ok_frame r r' :
  rd_engine r' = rd_engine r -> rd_upstream r' = rd_upstream r -> rd_waiters r' = rd_waiters r ->
  Bounded r' -> Daemon_ok r -> Daemon_ok r'.
Proof. intros He Hu Hw Hb [Hm _]. split; [by eapply mid_frame|done]. Qed.
