(* ===== verification/DaemonPhases.v ===== *)
(** * Every phase of the loop keeps the daemon's invariant *)

From S2P Require Import Prelude Net Names Message MessageProofs Cache EngineState Records Routing Engine EngineInv EngineStep EngineRun EngineMachine EngineFlow Io IpText Msgpack NativeWire NativeWireProofs Stub StubProps Upstream Control Door NetdCodec NetdCodecProofs NetdLink RegistryConfig Present Daemon DaemonLoop DaemonInv DaemonServe DaemonRun.
Local Open Scope Z_scope.

Section phases.

Context `{MapOrder} `{Texts}.
Variable if_nametoindex : Str -> Z.
Variable valid_descriptor : list Z -> bool.
Variable access_check : AccessCheck.
Variable decode : list Z -> option NetdReply.
Variable world : World.

Abbreviation perform := (perform if_nametoindex world).

Lemma phase_nothing r r' : Daemon_ok r' -> rd_waiters r' = rd_waiters r -> phase world (rd_waiters r) (r', []).
Proof. intros Hok Hw. split; [done|]. exists []. simpl. rewrite Hw. apply serves_nothing. Qed.

(** ** Clients that hang up *)

Lemma hang_up_phase now r q :
  Daemon_ok r -> phase world (delete q (rd_waiters r)) (hang_up if_nametoindex world now r q).
Proof.
  intros Hok. pose proof Hok as [Hm Hb]. unfold hang_up. destruct (rd_waiters r !! q) as [w|] eqn:Hq.
  2: { rewrite delete_id by done. by apply phase_nothing. }
  pose proof (mi_inv _ _ Hm) as HI.
  destruct (abandon_flows (fun _ => True) (rd_engine r) q HI) as [Hf Hc].
  pose proof (fun q' => abandon_live (rd_engine r) q q' HI) as Hl.
  pose proof (abandon_dones (rd_engine r) q HI) as Hd. pose proof (abandon_inv (rd_engine r) q HI) as HI'.
  pose proof (delete_subseteq (rd_waiters r) q) as Hsub.
  pose proof (fun q' => lookup_delete_is_Some (rd_waiters r) q q') as Hws.
  set (ws := delete q (rd_waiters r)) in *. clearbody ws.
  cbn [rd_engine with_waiters]. destruct (abandon (rd_engine r) q) as [e acts]. cbn [fst snd] in *.
  refine (perform_phase if_nametoindex world (with_engine e (with_waiters ws r)) acts now _ _).
  - eapply mid_start; [exact Hm|done|exact Hf|apply Hm|done| | | | | |]; cbn [rd_engine rd_upstream rd_waiters with_engine with_waiters]; rewrite ?Hd.
    + intros y Hy. tauto.
    + intros y Hy. by apply mid_sockets, Hc.
    + intros q'. rewrite Hws, Hl, (mid_live r q' Hm). pose proof (not_elem_of_nil q'). naive_solver.
    + constructor.
    + intros q' _. apply not_elem_of_nil.
    + intros q' o Hq'. split; [done|]. by eapply mid_stub_plain, lookup_weaken.
  - by apply (shrinks_bounded r).
Qed.

(** ** Upstream *)

Lemma upstream_ready_phase now r ready :
  Daemon_ok r -> phase world (rd_waiters r) (upstream_ready if_nametoindex world now r ready).
Proof.
  intros Hok. pose proof Hok as [Hm Hb]. destruct ready as [[tx revents] io]. unfold upstream_ready.
  destruct (upstream_service _ _ _ _ _) as [u event] eqn:Hs.
  destruct (service_socket _ _ _ _ _ _ _ (mi_one _ _ Hm) Hs) as (Hone & Hsock & Hhas & Hacc).
  pose proof (mi_inv _ _ Hm) as HI.
  assert (forall e, Bounded (with_engine e (with_upstream u r))) as Hbd.
  { intros e. by apply (shrinks_bounded r). }
  assert (event <> None -> forall y, has_socket u y <-> has_socket (rd_upstream r) y /\ y <> tx) as Hgone.
  { intros Hne y. rewrite Hsock. tauto. }
  destruct event as [[bytes|]|]; cbn [rd_engine with_upstream].
  - specialize (Hacc bytes eq_refl). pose proof (received_keeps (rd_engine r) tx bytes now HI) as [HI' Hbal].
    pose proof (received_flows (fun _ => True) (rd_engine r) tx bytes now HI Hacc) as Hf.
    pose proof (received_no_cancel (rd_engine r) tx bytes now HI Hacc) as Hc.
    destruct (received (rd_engine r) tx bytes now) as [e acts]. 
    refine (perform_phase if_nametoindex world (with_engine e (with_upstream u r)) acts now _ _); [|by apply Hbd].
    eapply mid_event; try done. by apply Hgone.
  - pose proof (failed_keeps (rd_engine r) tx now HI) as [HI' Hbal].
    pose proof (failed_flows (fun _ => True) (rd_engine r) tx now HI) as [Hf Hc].
    destruct (failed (rd_engine r) tx now) as [e acts]. 
    refine (perform_phase if_nametoindex world (with_engine e (with_upstream u r)) acts now _ _); [|by apply Hbd].
    eapply mid_event; try done. by apply Hgone.
  - apply phase_nothing; [|done]. split; [|by apply (shrinks_bounded r)]. simpl.
    assert (forall y, has_socket u y <-> has_socket (rd_upstream r) y) as Hsame by (intros y; rewrite Hsock; tauto).
    destruct Hm as [I1 I2 I3 I4 I5 I6 I7 I8 I9 I10]. split; simpl; try done.
    + intros y. by rewrite Hsame, I3.
    + intros y. rewrite Hsame. apply I4.
    + intros y. rewrite Hsame. apply I6.
Qed.

(** ** Replies in the queues *)

Lemma reply_ready_ok r x : Daemon_ok r -> Daemon_ok (reply_ready r x).
Proof.
  intros Hok. pose proof Hok as [_ Hb]. destruct x as [[id w] at_]. apply (ok_frame r); try done.
  destruct Hb. split; try done. by apply service_ok.
Qed.

Lemma stub_reply_ready_ok r x : Daemon_ok r -> Daemon_ok (stub_reply_ready r x).
Proof.
  intros Hok. pose proof Hok as [_ Hb]. destruct x as [[id w] at_]. apply (ok_frame r); try done.
  destruct Hb. split; try done. by apply service_reply_ok.
Qed.

(** An answer made at once. *)
Lemma shrinks_ok r r' :
  rd_engine r' = rd_engine r -> rd_upstream r' = rd_upstream r -> rd_waiters r' = rd_waiters r ->
  shrinks r r' -> Daemon_ok r -> Daemon_ok r'.
Proof. intros He Hu Hw Hs Hok. apply (ok_frame r); try done. apply (shrinks_bounded r); [done|apply Hok]. Qed.

Lemma reply_ok r stream rep w at_ : Daemon_ok r -> Daemon_ok (reply r stream rep w at_).1.
Proof. intros Hok. apply (shrinks_ok r); try done. apply reply_shrinks. Qed.

Lemma stub_answer_ok r o a w at_ : Daemon_ok r -> Daemon_ok (stub_answer r o a w at_).1.
Proof.
  intros Hok. apply (shrinks_ok r); try done; [..|apply stub_answer_shrinks]; unfold stub_answer; by destruct (Stub_answer _ _ _ _ _).
Qed.

(** A reconfigured engine. *)
Lemma quiet_ok r e : Daemon_ok r -> Inv ∅ e -> quiet (rd_engine r) e -> Daemon_ok (with_engine e r).
Proof. intros [Hm Hb] HI Hq. split; [by apply mid_quiet|]. by apply (shrinks_bounded r). Qed.

(** ** Queries at the stub door *)

(** What the doors hand on: one well-formed question. *)
Definition origin_ok (o : Origin) : Prop :=
  match origin_question o with Some q => Question_wf q | None => True end.

Lemma refuse_udp_ok r o : Daemon_ok r -> Daemon_ok (refuse_udp r o).1.
Proof.
  intros Hok. unfold refuse_udp. apply stub_answer_ok, quiet_ok; [done| |by apply quiet_same].
  apply (Inv_frame _ (rd_engine r)); try done. apply (mi_inv _ _ (do_mid _ Hok)).
Qed.

(** There is room for the question, or it is refused. *)
Definition accepts_query (r : Resolvd) (o : Origin) : bool :=
  match o with OUdp peer _ => udp_has_capacity (rd_waiters r) peer | OTcp _ _ => true end.

Lemma handle_query_phase r o question now :
  Daemon_ok r -> Question_wf question -> accepts_query r o = true -> room (WStub o) r ->
  phase world (<[rd_next_id r := WStub o]> (rd_waiters r)) (handle_query if_nametoindex world r o question now).
Proof.
  intros Hok Hq Hacc Hr. pose proof (mi_inv _ _ (do_mid _ Hok)) as HI.
  pose proof (next_not_live r Hok) as Hnl.
  pose proof (resolve_question_opens (rd_engine r) (rd_next_id r) question now HI Hnl Hq) as Ho.
  pose proof (resolve_question_flows (fun _ => True) (rd_engine r) (rd_next_id r) question now HI Hnl Hq) as Hf.
  unfold handle_query. destruct o as [peer m|s m]; [simpl in Hacc; rewrite Hacc|];
    cbn [fresh_id negb rd_engine with_waiters with_next_id rd_waiters];
    destruct (resolve_question _ _ _ _) as [e acts]; by eapply ask_ok.
Qed.

Lemma handle_query_ok r o question now :
  Daemon_ok r -> Question_wf question -> (forall s m, o = OTcp s m -> room (WStub o) r) ->
  Daemon_ok (handle_query if_nametoindex world r o question now).1.
Proof.
  intros Hok Hq Hroom. destruct (accepts_query r o) eqn:Hacc.
  - apply handle_query_phase; try done. destruct o as [peer m|s m]; [|by eapply Hroom].
    by apply udp_has_capacity_spec in Hacc.
  - unfold handle_query. destruct o as [peer m|]; [|done]. simpl in Hacc. rewrite Hacc. by apply refuse_udp_ok.
Qed.

Lemma handle_stub_ok incoming now : forall r,
  Daemon_ok r ->
  Forall (fun i => match i with Query (OUdp p m) => origin_ok (OUdp p m) | Query (OTcp _ _) => False | Nothing => True end) incoming ->
  Daemon_ok (handle_stub if_nametoindex world r incoming now).1.
Proof.
  induction incoming as [|[o|] incoming IH]; intros r Hok Hin; cbn [handle_stub]; [done| |].
  - apply Forall_cons in Hin as [Ho Hin]. destruct o as [p m|]; [|done]. unfold origin_ok in Ho.
    destruct (origin_question (OUdp p m)) as [question|].
    + pose proof (handle_query_ok r (OUdp p m) question now Hok Ho ltac:(done)) as Hok1.
      destruct (handle_query _ _ _ _ _ _) as [r1 o1]. specialize (IH r1 Hok1 Hin).
      by destruct (handle_stub _ _ _ _ _).
    + specialize (IH r Hok Hin). by destruct (handle_stub _ _ _ _ _).
  - apply Forall_cons in Hin as [_ Hin]. by apply IH.
Qed.

(** ** The types of what the system gives *)

Definition datagram_ok (d : RecvUdp) : Prop := match d with Datagram bytes _ => bytes_ok bytes | _ => True end.
Definition read_ok (x : ReadTcp) : Prop := match x with ReadBytes chunk => bytes_ok chunk | _ => True end.

Lemma parse_query_asks bytes m : bytes_ok bytes -> parse_query bytes = Ok m -> forall p s, origin_ok (OUdp p m) /\ origin_ok (OTcp s m).
Proof.
  intros Hb (Hd & _ & _ & q & Hq & _)%parse_query_ok p s.
  apply decode_message_wf in Hd as (_ & Hqs & _); [|done]. rewrite Hq in Hqs.
  apply Forall_cons in Hqs as [Hqs _]. unfold origin_ok, origin_question, Message_question. rewrite Hq. by split.
Qed.

Lemma receive_udp_asks batch : forall rs, Forall datagram_ok rs ->
  Forall (fun i => match i with Query (OUdp p m) => origin_ok (OUdp p m) | Query (OTcp _ _) => False | Nothing => True end)
    (receive_udp_loop batch rs).1.
Proof.
  induction batch as [|batch IH]; intros rs Hrs; [constructor|]. destruct Hrs as [|d rs Hd Hrs]; [constructor|].
  specialize (IH rs Hrs). destruct d as [bytes peer| | |]; cbn [receive_udp_loop]; try done; try (by constructor).
  destruct (receive_udp_loop batch rs) as [out eff]. destruct (negb _); [done|].
  destruct (parse_query bytes) as [m|[reply|]] eqn:E; try done.
  constructor; [|done]. by apply (parse_query_asks bytes m Hd E peer 0).
Qed.

Lemma udp_ready_ok now r rs :
  Daemon_ok r -> Forall datagram_ok rs -> Daemon_ok (udp_ready if_nametoindex world now r rs).1.
Proof.
  intros Hok Hrs. unfold udp_ready, receive_udp. pose proof (receive_udp_asks IO_BATCH_LIMIT rs Hrs) as Hin.
  destruct (receive_udp_loop _ rs) as [incoming effs].
  pose proof (handle_stub_ok incoming now r Hok Hin) as Hok'. by destruct (handle_stub _ _ _ _ _).
Qed.

(** ** The stub door's streams *)

Lemma accept_loop_bytes limit batch now : forall rs s,
  map_Forall (fun _ c => bytes_ok (tc_buf c)) (clients s) ->
  map_Forall (fun _ c => bytes_ok (tc_buf c)) (clients (accept_loop batch s rs now limit)).
Proof.
  induction batch as [|batch IH]; intros [|r rs] s Hs; try done. destruct r; cbn [accept_loop]; try done; [|by apply IH].
  destruct (_ || _); apply IH; [done|]. simpl. apply map_Forall_insert_2; [constructor|done].
Qed.

Lemma accept_loop_size limit batch now : forall rs s,
  (size (clients (accept_loop batch s rs now limit)) <= size (clients s) `max` limit)%nat.
Proof.
  induction batch as [|batch IH]; intros [|r rs] s; simpl; try lia. destruct r; simpl; try lia; [|apply IH].
  destruct (_ || _) eqn:El; [apply IH|]. bool_simpl. etrans; [apply IH|]. simpl.
  rewrite map_size_insert. destruct (clients s !! next_client s); simpl; lia.
Qed.

Lemma stub_accept_ok now r rs : Daemon_ok r -> Daemon_ok (stub_accept now r rs).
Proof.
  intros Hok. pose proof Hok as [_ Hb]. unfold stub_accept. rewrite values_waiting. apply (ok_frame r); try done.
  set (limit := (MAX_PENDING_CLIENTS - waiting tcp_waiter (rd_waiters r))%nat).
  assert (size (clients (rd_stub r)) <= limit)%nat as Hl by (pose proof (bd_stub r Hb); lia).
  pose proof (accept_loop_size limit IO_BATCH_LIMIT now rs (rd_stub r)) as Hsz.
  destruct Hb as [B1 B2 B3 B4 (S1 & S2 & S3) Bb B6 Bn B7 B8]. split; try done; simpl.
  - unfold accept. lia.
  - destruct (accept_loop_ok limit IO_BATCH_LIMIT rs now (rd_stub r)) as (T1 & T2 & T3); [by split|].
    split; [unfold accept; lia|done].
  - by apply accept_loop_bytes.
Qed.

Lemma read_client_bytes rs : forall buf buf' eof,
  bytes_ok buf -> Forall read_ok rs -> read_client buf rs = Some (buf', eof) -> bytes_ok buf'.
Proof.
  induction rs as [|x rs IH]; intros buf buf' eof Hb Hrs; cbn [read_client]; [by intros [= <- _]|].
  apply Forall_cons in Hrs as [Hx Hrs]. destruct x as [|chunk| | |]; try done; try (by intros [= <- _]).
  - destruct (_ <? _); [done|]. apply IH; [|done]. by apply bytes_ok_app.
  - by apply IH.
Qed.

(** A serviced client: the table shrinks by it when it is finished. *)
Lemma service_client_clients s id rs w at_ s' incoming effs :
  Forall read_ok rs -> map_Forall (fun _ c => bytes_ok (tc_buf c)) (clients s) ->
  service_client s id rs w at_ = (s', incoming, effs) ->
  map_Forall (fun _ c => bytes_ok (tc_buf c)) (clients s') /\
  (size (clients s') <= size (clients s))%nat /\
  forall o, incoming = Some (Query o) ->
    (size (clients s') < size (clients s))%nat /\ exists stream m, o = OTcp stream m /\ origin_ok o.
Proof.
  intros Hrs Hb. unfold service_client. destruct (clients s !! id) as [c|] eqn:Hc; [|by intros [= <- <- _]].
  pose proof (Hb id c Hc) as Hbc. simpl in Hbc.
  assert (map_Forall (fun _ c => bytes_ok (tc_buf c)) (delete id (clients s)) /\
    (size (delete id (clients s)) < size (clients s))%nat) as [Hd Hlt].
  { split; [by apply map_Forall_delete|]. rewrite map_size_delete, Hc.
    assert (size (clients s) <> 0%nat); [|simpl; lia]. apply map_size_ne_0_lookup. eauto. }
  destruct (read_client (tc_buf c) rs) as [[buf eof]|] eqn:Hr.
  2: { intros [= <- <- _]. simpl. split_and!; [done|lia|done]. }
  pose proof (read_client_bytes _ _ _ _ Hbc Hrs Hr) as Hbuf.
  set (waiting_ := if eof then _ else _).
  assert (forall s' incoming effs, waiting_ = (s', incoming, effs) ->
    map_Forall (fun _ c => bytes_ok (tc_buf c)) (clients s') /\ (size (clients s') <= size (clients s))%nat /\
    forall o, incoming <> Some (Query o)) as Hw.
  { intros s1 i1 e1. unfold waiting_. destruct eof; intros [= <- <- _]; simpl; (split_and!; [| |done]); try done; try lia.
    - by apply map_Forall_insert_2.
    - by rewrite map_size_insert, Hc. }
  destruct (_ <? _)%nat; [intros (? & ? & Hn)%Hw; split_and!; try done; by intros o ?%Hn|].
  destruct (_ <? _)%nat; [intros (? & ? & Hn)%Hw; split_and!; try done; by intros o ?%Hn|].
  unfold finish_client. destruct (parse_query _) as [m|[reply|]] eqn:E; intros [= <- <- _]; simpl;
    (split_and!; [done|lia|]); try done.
  intros o [= <-]. split; [done|]. exists (tc_stream c), m. split; [done|].
  refine (proj2 (parse_query_asks _ m _ E (mkPeer (V4 0) 0) (tc_stream c))).
  by apply Forall_take, Forall_drop.
Qed.

Lemma stub_client_ready_ok now r c :
  Daemon_ok r -> Forall read_ok (ci_reads c) -> Daemon_ok (stub_client_ready if_nametoindex world now r c).1.
Proof.
  intros Hok Hrs. pose proof Hok as [_ Hb]. unfold stub_client_ready.
  pose proof (service_client_ok MAX_PENDING_CLIENTS (rd_stub r) (ci_id c) (ci_reads c) (ci_write c) (ci_at c)
    (bd_stub_ok _ Hb)) as Hsk.
  destruct (service_client _ _ _ _ _) as [[s incoming] effs] eqn:Hs. simpl in Hsk.
  destruct (service_client_clients _ _ _ _ _ _ _ _ Hrs (bd_bytes _ Hb) Hs) as (Hby & Hle & Hq).
  assert (Daemon_ok (with_stub s r)) as Hok1.
  { apply (ok_frame r); try done. destruct Hb. split; try done; simpl; lia. }
  destruct incoming as [[o|]|]; try done. destruct (Hq o eq_refl) as [Hlt (stream & m & -> & Ha)].
  cbn [handle_stub]. unfold origin_ok in Ha. destruct (origin_question (OTcp stream m)) as [question|]; [|done].
  pose proof (handle_query_ok (with_stub s r) (OTcp stream m) question now Hok1 Ha) as Hok2.
  destruct (handle_query _ _ _ _ _ _) as [r2 o2]. simpl in *. apply Hok2. intros _ _ _.
  pose proof (bd_stub r Hb). lia.
Qed.

(** ** The native door *)

Lemma clients_grow r c :
  request_buf (cl_buf c) -> Daemon_ok r -> (size (rd_clients r) + waiting native_waiter (rd_waiters r) < MAX_PENDING_CLIENTS)%nat ->
  Daemon_ok (with_clients (<[rd_next_id r := c]> (rd_clients r)) (with_next_id (rd_next_id r + 1) r)).
Proof.
  intros Hbuf Hok Hlt. pose proof Hok as [_ Hb]. apply (ok_frame r); try done. destruct Hb as [B1 B2 B3 B4 B5 Bb B6 Bn B7 B8].
  split; simpl; try done.
  - rewrite map_size_insert. destruct (rd_clients r !! _); simpl; lia.
  - intros id [Hid|Hid].
    + assert (id < rd_next_id r) by (apply B7; by left). lia.
    + rewrite lookup_insert_is_Some' in Hid. destruct Hid as [<-|Hid]; [lia|].
      assert (id < rd_next_id r) by (apply B7; by right). lia.
  - by apply map_Forall_insert_2.
Qed.

Lemma native_accept_ok m rs now : Daemon_ok (m_r m) -> Daemon_ok (m_r (native_accept m rs now)).
Proof.
  intros Hok. unfold native_accept. rewrite values_waiting. set (pending := waiting _ _).
  assert (pending = waiting native_waiter (rd_waiters (m_r m))) as Hp by done. clearbody pending.
  generalize IO_BATCH_LIMIT as batch. intros batch. revert m rs Hok Hp.
  induction batch as [|batch IH]; intros m [|x rs] Hok Hp; try done.
  destruct x as [stream nonblocking| | |at_]; cbn [native_accept_loop]; try done; [|by apply IH].
  destruct (_ <=? _)%nat eqn:Hl; [by apply IH|]. bool_simpl. unfold Client_new.
  destruct nonblocking; [|by apply IH]. apply IH; [|done]. simpl. apply clients_grow; [left; cbn; lia|done|lia].
Qed.

Lemma request_actions_phase r stream request now e acts :
  Daemon_ok r -> Request_typed request -> room (WNative stream) r ->
  request_actions (rd_engine r) (rd_next_id r) request now = Some (e, acts) ->
  phase world (<[rd_next_id r := WNative stream]> (rd_waiters r))
    (perform (with_engine e (with_waiters (<[rd_next_id r := WNative stream]> (rd_waiters r))
       (with_next_id (rd_next_id r + 1) r))) acts now).
Proof.
  intros Hok Ht Hr. pose proof (mi_inv _ _ (do_mid _ Hok)) as HI. pose proof (next_not_live r Hok) as Hnl.
  destruct request as [name rtype nc|name family|address| |]; simpl in *; try done; intros [= Ha].
  - destruct Ht as [Hn Hrt].
    pose proof (resolve_opens (rd_engine r) (rd_next_id r) name rtype nc now HI Hnl Hn Hrt) as Ho.
    pose proof (resolve_flows (fun _ => True) (rd_engine r) (rd_next_id r) name rtype nc now HI Hnl Hn Hrt) as Hf.
    rewrite Ha in Ho, Hf. by eapply ask_ok.
  - pose proof (lookup_opens (rd_engine r) (rd_next_id r) name (family_of family) now HI Hnl Ht) as Ho.
    pose proof (lookup_flows (rd_engine r) (rd_next_id r) name (family_of family) now HI Hnl Ht) as Hf.
    rewrite Ha in Ho, Hf. by eapply ask_ok.
  - pose proof (reverse_opens (rd_engine r) (rd_next_id r) address now HI Hnl) as Ho.
    pose proof (reverse_flows (fun _ => True) (rd_engine r) (rd_next_id r) address now HI Hnl) as Hf.
    rewrite Ha in Ho, Hf. by eapply ask_ok.
Qed.

Lemma fresh_id_ok r : Daemon_ok r -> Daemon_ok (fresh_id r).1.
Proof.
  intros Hok. pose proof Hok as [_ Hb]. apply (ok_frame r); try done. destruct Hb as [B1 B2 B3 B4 B5 Bb B6 Bn B7 B8].
  split; simpl; try done. intros id Hid%B7. lia.
Qed.

Lemma handle_request_ok r stream request now w at_ :
  Daemon_ok r -> Request_typed request -> room (WNative stream) r ->
  Daemon_ok (handle_request if_nametoindex access_check world r stream request now w at_).1.
Proof.
  intros Hok Ht Hr. unfold handle_request. destruct (negb _); [by apply reply_ok|]. cbn [fresh_id].
  cbn [rd_engine with_next_id].
  destruct (request_actions _ _ _ _) as [[e acts]|] eqn:Ha;
    [exact (proj1 (request_actions_phase r stream request now e acts Hok Ht Hr Ha))|].
  apply fresh_id_ok in Hok. cbn [fresh_id fst] in Hok.
  destruct request; try (by apply reply_ok); apply reply_ok, quiet_ok; try done; try apply flush_quiet;
    apply flush_keeps, (mi_inv _ _ (do_mid _ Hok)).
Qed.

Lemma read_loop_typed fuel : forall buf rs q buf' rs',
  read_request_loop fuel buf rs = (PRequest q, buf', rs') -> Request_typed q.
Proof.
  induction fuel as [|fuel IH]; intros buf rs q buf' rs'; [done|]. cbn [read_request_loop].
  assert (forall p, decode_request p = PRequest q -> Request_typed q) as Hd.
  { intros p Hp. unfold decode_request in Hp. destruct (Request_decode p) as [r|] eqn:E; [|done].
    injection Hp as <-. by eapply Request_decode_typed. }
  assert (forall n, match read_some n rs with
    | (ReadEof, rs) | (ReadError, rs) => (Closed, buf, rs)
    | (ReadBytes chunk, rs) => read_request_loop fuel (buf ++ chunk) rs
    | (ReadWouldBlock, rs) => (Incomplete, buf, rs)
    | (ReadInterrupted, rs) => read_request_loop fuel buf rs end = (PRequest q, buf', rs') -> Request_typed q) as Hr.
  { intros n. destruct (read_some n rs) as [[] rs1]; try done; apply IH. }
  destruct (_ <? _)%nat; [apply Hr|]. destruct (_ <? _); [done|].
  destruct (_ =? _)%nat; [|apply Hr]. intros Heq. eapply Hd. by injection Heq.
Qed.

Lemma client_ready_ok now r c :
  Daemon_ok r -> Daemon_ok (client_ready if_nametoindex access_check world now r c).1.
Proof.
  intros Hok. pose proof Hok as [_ Hb]. unfold client_ready.
  destruct (rd_clients r !! ci_id c) as [client|] eqn:Hc; [|done].
  assert ((size (delete (ci_id c) (rd_clients r)) < size (rd_clients r))%nat) as Hlt.
  { rewrite map_size_delete, Hc. assert (size (rd_clients r) <> 0%nat); [|simpl; lia]. apply map_size_ne_0_lookup. eauto. }
  assert (Daemon_ok (with_clients (delete (ci_id c) (rd_clients r)) r)) as Hgone.
  { apply (ok_frame r); try done. destruct Hb as [B1 B2 B3 B4 B5 Bb B6 Bn B7 B8]. split; simpl; try done.
    - lia.
    - intros id [?|Hid]; apply B7; [by left|right]. by apply lookup_delete_is_Some in Hid as [_ ?].
    - by apply map_Forall_delete. }
  destruct (Client_read client (ci_reads c)) as [progress client'] eqn:Hread.
  destruct progress as [|request|rep|]; [|apply handle_request_ok|by apply reply_ok|done]; try done.
  - apply (ok_frame r); try done. destruct Hb as [B1 B2 B3 B4 B5 Bb B6 Bn B7 B8]. split; simpl; try done.
    + by rewrite map_size_insert, Hc.
    + intros id [?|Hid]; apply B7; [by left|right]. rewrite lookup_insert_is_Some' in Hid.
      destruct Hid as [<-|?]; [by rewrite Hc|done].
    + apply map_Forall_insert_2; [|done]. unfold Client_read in Hread.
      pose proof (read_request_buf (S (reads_weight (ci_reads c))) (cl_buf client) (ci_reads c) (B8 _ _ Hc)) as Hbuf.
      destruct (read_request_loop _ _ _) as [[p buf'] rs']. by injection Hread as _ <-.
  - unfold Client_read in Hread. destruct (read_request_loop _ _ _) as [[p buf'] rs'] eqn:E. injection Hread as -> _.
    by eapply read_loop_typed.
  - simpl. pose proof (bd_native r Hb). lia.
Qed.

(** ** netd and the registry *)

(** netd's strings are strings. *)
Hypothesis decode_typed : forall payload s, decode payload = Some (NSnapshot s) -> Snapshot_typed s.

Lemma take_messages_typed fuel : forall buf backoff lost,
  Forall Snapshot_typed (take_messages decode fuel buf backoff lost).1.1.1.
Proof using decode_typed.
  induction fuel as [|fuel IH]; intros buf backoff lost; cbn [take_messages]; [constructor|].
  destruct (_ <? _)%nat; [constructor|]. destruct (_ <? _); [constructor|]. destruct (_ <? _)%nat; [constructor|].
  destruct (decode _) as [[|st|s|m]|] eqn:E; try apply IH.
  specialize (IH (drop (4 + Z.to_nat (from_le (take 4 buf))) buf) MIN_BACKOFF lost).
  destruct (take_messages decode fuel _ _ _) as [[[out b] bk] l]. constructor; [by eapply decode_typed|done].
Qed.

Lemma apply_snapshot_ok r s h :
  Daemon_ok r -> Snapshot_typed s -> Daemon_ok (apply_snapshot if_nametoindex r s h).
Proof using Type.
  intros Hok Hs. unfold apply_snapshot. set (hn := if bool_decide _ then _ else _). clearbody hn.
  destruct (set_hostname_keeps hn (rd_engine r)) as [HI1 _]; [apply (mi_inv _ _ (do_mid _ Hok))|].
  assert (Daemon_ok (with_engine (set_hostname hn (rd_engine r)) r)) as Hok1.
  { apply quiet_ok; [done|done|by apply quiet_same]. }
  apply quiet_ok; [done| |apply set_scopes_quiet].
  apply set_scopes_keeps; [apply (mi_inv _ _ (do_mid _ Hok1))|].
  unfold scopes_ok. rewrite Forall_map. apply (Forall_impl _ _ _ (proj2 Hs)). intros d Hd. simpl. apply search_of_ok.
  apply (Forall_impl _ _ _ (dt_domains d Hd)). exact utf8_valid_bytes.
Qed.

Lemma netd_ready_ok now r rs h : Daemon_ok r -> Daemon_ok (netd_ready if_nametoindex decode now r rs h).
Proof using decode_typed.
  intros Hok. pose proof Hok as [_ Hb]. unfold netd_ready.
  pose proof (netd_service_ok decode (rd_netd r) now rs (bd_netd r Hb)) as Hn.
  assert (Forall Snapshot_typed (netd_service decode (rd_netd r) now rs).1.2) as Hsn.
  { unfold netd_service. destruct (nl_stream (rd_netd r)); [|constructor].
    destruct (fill_buffer _ _ _) as [[buf lost] rs']. pose proof (take_messages_typed (length buf) buf (nl_backoff (rd_netd r)) lost) as Ht.
    destruct (take_messages _ _ _ _ _) as [[[out b] bk] l]. by destruct l. }
  destruct (netd_service _ _ _ _) as [[l snapshots] rest]. simpl in *.
  assert (Daemon_ok (with_netd l r)) as Hok1.
  { apply (ok_frame r); try done. destruct Hb. by split. }
  clear Hok Hb. revert Hok1. generalize (with_netd l r) as r1. clear - Hsn. induction Hsn as [|s ss Hs Hss IH]; intros r1 Hok1; [done|].
  simpl. by apply IH, apply_snapshot_ok.
Qed.

Definition config_wf (c : Config) : Prop := Forall usable (g_search c) /\ hosts_wf (g_hosts c).

Lemma load_from_wf `{RegistryReader R} (root : option R) c : load_from root = Ok c -> config_wf c.
Proof using Type.
  unfold load_from. destruct root as [root|]; [|intros [= <-]; split; [constructor|apply map_Forall_empty]].
  destruct (strings root (bytes_of "FallbackServers")) as [servers|] eqn:Hsv; [|done]. cbn [result_bind].
  destruct (strings root (bytes_of "ExtraSearchDomains")) as [search|] eqn:Hse; [|done]. cbn [result_bind].
  destruct (reg_value _ _) as [security|]; [|done]. cbn [result_bind].
  destruct (reg_child _ _) as [child|]; [|done]. cbn [result_bind].
  match goal with |- result_bind ?x _ = _ -> _ => destruct x as [m|] eqn:Hm end; [|done]. cbn [result_bind].
  intros [= <-]. split; cbn [g_search g_hosts]; [apply search_of_ok; by eapply strings_ok|].
  destruct child as [hosts|]; [|injection Hm as <-; apply map_Forall_empty].
  destruct (reg_values hosts) as [vs|]; [|done]. cbn [result_bind] in Hm.
  by apply load_hosts_spec in Hm as [? _]; [|apply map_Forall_empty].
Qed.

Lemma apply_config_ok r c : Daemon_ok r -> config_wf c -> Daemon_ok (apply_config valid_descriptor r c).
Proof using Type.
  intros Hok [Hs Hh]. unfold apply_config. destruct (Config_eqb _ _); [done|].
  cbn [with_config with_engine rd_engine rd_config rd_control rd_upstream rd_stub rd_netd rd_clients rd_replies rd_waiters rd_next_id].
  set (e1 := set_fallback _ _ _). assert (Daemon_ok (with_engine e1 r)) as Hok1.
  { apply quiet_ok; [done| |apply set_fallback_quiet]. apply set_fallback_keeps; [apply (mi_inv _ _ (do_mid _ Hok))|done]. }
  assert (Daemon_ok (with_engine (set_hosts (g_hosts c) e1) (with_engine e1 r))) as Hok2.
  { apply quiet_ok; [done| |by apply quiet_same]. apply set_hosts_keeps; [apply (mi_inv _ _ (do_mid _ Hok1))|done]. }
  refine (ok_frame _ _ _ _ _ _ Hok2); try done. destruct Hok2 as [_ []]. by split.
Qed.
Lemma watch_ready_ok m w :
  Daemon_ok (m_r m) -> (forall c, w = WatchEvents (Ok c) -> config_wf c) ->
  Daemon_ok (m_r (watch_ready valid_descriptor m w)).
Proof using Type.
  intros Hok Hc. destruct w as [[c|]| |]; try done. simpl. apply apply_config_ok; [done|]. by apply Hc.
Qed.

(** ** Timers *)

(** The engine has ticked; what it asks for is still to be carried out. *)
Lemma tick_mid r now :
  Daemon_ok r -> Mid (tick (rd_engine r) now).2 (with_engine (tick (rd_engine r) now).1 r).
Proof using Type.
  intros Hok. pose proof (mi_inv _ _ (do_mid _ Hok)) as HI.
  pose proof (tick_keeps (rd_engine r) now HI) as [HI' Hbal].
  pose proof (tick_flows (fun _ => True) (rd_engine r) now HI) as Hf.
  pose proof (fun tx => tick_cancels (rd_engine r) now tx) as Hc.
  destruct (tick (rd_engine r) now) as [e acts]. simpl in *.
  apply (mid_cancels r e acts (fun y => y ∈ expired (rd_engine r) now)); try done; [apply Hok|].
  intros y (x & Hx & _)%elem_of_expired. by rewrite Hx.
Qed.

Lemma timers_phase now connect r :
  Daemon_ok r -> phase world (rd_waiters r) (timers if_nametoindex world now connect r) /\
  (total_work (tasks (rd_engine (timers if_nametoindex world now connect r).1)) <=
   total_work (tasks (tick (rd_engine r) now).1))%nat.
Proof using Type.
  intros Hok. unfold timers.
  pose proof (tick_mid r now Hok) as Hmid. destruct (tick (rd_engine r) now) as [e acts]. simpl in *.
  destruct (perform_phase if_nametoindex world (with_engine e r) acts now Hmid) as [Hok1 Hsv].
  { apply (shrinks_bounded r); [done|apply Hok]. }
  destruct (perform_serves if_nametoindex world (with_engine e r) acts now Hmid) as (_ & Hwork & _).
  destruct (perform _ _ _) as [r1 out]. simpl in *. split; [split|done]; [|done].
  destruct Hok1 as [Hm1 Hb1]. apply (ok_frame r1); try done.
  pose proof (map_subseteq_size _ _ (map_filter_subseteq
    (fun kc => saturating_duration_since now (tc_since kc.2) < TCP_TIMEOUT) (clients (rd_stub r1)))) as Hle1.
  pose proof (map_subseteq_size _ _ (map_filter_subseteq
    (fun kc => saturating_duration_since now (cl_since kc.2) < CLIENT_TIMEOUT) (rd_clients r1))) as Hle2.
  destruct Hb1 as [B1 B2 B3 B4 B5 Bb B6 Bn B7 B8]. split; simpl; try done; try lia.
  - by apply Stub_expire_ok.
  - intros id c [Hid _]%map_lookup_filter_Some. by apply (Bb id c).
  - by apply expire_ok.
  - by apply maintain_ok.
  - intros id [?|[c [Hid _]%map_lookup_filter_Some]]; apply B7; [by left|right]. by rewrite Hid.
  - intros id c [Hid _]%map_lookup_filter_Some. by apply (B8 id c).
Qed.

(** ** A turn *)

Lemma each_ok {A} (P : A -> Prop) step (xs : list A) :
  (forall r x, Daemon_ok r -> P x -> Daemon_ok (step r x).1) -> Forall P xs ->
  forall r, Daemon_ok r -> Daemon_ok (each step xs r).1.
Proof using Type.
  intros Hstep. induction 1 as [|x xs Hx Hxs IH]; intros r Hok; [done|]. cbn [each].
  pose proof (Hstep r x Hok Hx) as Hok1. destruct (step r x) as [r1 o1]. specialize (IH r1 Hok1).
  by destruct (each step xs r1).
Qed.

Lemma each_all {A} step (xs : list A) :
  (forall r x, Daemon_ok r -> Daemon_ok (step r x).1) -> forall r, Daemon_ok r -> Daemon_ok (each step xs r).1.
Proof using Type. intros Hs. apply (each_ok (fun _ => True)); [by eauto|]. by apply Forall_true. Qed.

(** What the system gives in a turn has the types of the calls, and a
    configuration comes from loading one. *)
Record TurnIo_wf (io : TurnIo) : Prop := mkTurnIo_wf {
  tw_udp : forall rs, t_udp io = Some rs -> Forall datagram_ok rs;
  tw_stub : Forall (fun c => Forall read_ok (ci_reads c)) (t_stub_clients io);
  tw_watch : forall c, t_watch io = Some (WatchEvents (Ok c)) ->
    exists K (k : RegKey K) root, load k root = Ok c;
}.

Lemma fold_ok {A} (step : Resolvd -> A -> Resolvd) (xs : list A) :
  (forall r x, Daemon_ok r -> Daemon_ok (step r x)) -> forall r, Daemon_ok r -> Daemon_ok (fold_left step xs r).
Proof using Type. intros Hstep. induction xs as [|x xs IH]; intros r Hok; [done|]. simpl. by apply IH, Hstep. Qed.

Lemma turn_ok m io :
  TurnIo_wf io -> Daemon_ok (m_r m) ->
  Daemon_ok (m_r (turn if_nametoindex valid_descriptor access_check decode world m io).1).
Proof using decode_typed.
  intros [Hudp Hstub Hwatch] K0. unfold turn.
  pose proof (each_all _ (t_hung io) (fun r q Hr => proj1 (hang_up_phase (t_now io) r q Hr)) _ K0) as K1.
  destruct (each _ (t_hung io) (m_r m)) as [r1 o1]. cbn [fst] in K1.
  pose proof (each_all _ (t_upstream io) (fun r x Hr => proj1 (upstream_ready_phase (t_now io) r x Hr)) _ K1) as K2.
  destruct (each _ (t_upstream io) r1) as [r2 o2]. cbn [fst] in K2.
  pose proof (fold_ok stub_reply_ready (t_stub_replies io) stub_reply_ready_ok _
    (fold_ok reply_ready (t_replies io) reply_ready_ok _ K2)) as K3.
  set (r3 := fold_left stub_reply_ready _ _) in *. clearbody r3.
  assert (Daemon_ok (match t_udp io with Some rs => udp_ready if_nametoindex world (t_now io) r3 rs | None => (r3, []) end).1) as K4.
  { destruct (t_udp io) as [rs|]; [|done]. by apply udp_ready_ok, Hudp. }
  destruct (match t_udp io with Some rs => _ | None => _ end) as [r4 o3]. cbn [fst] in K4.
  assert (Daemon_ok (on_some (t_stub_accept io) (fun rs r => stub_accept (t_now io) r rs) r4)) as K5.
  { destruct (t_stub_accept io); [|done]. by apply stub_accept_ok. }
  set (r5 := on_some _ _ r4) in *. clearbody r5.
  pose proof (each_ok _ (stub_client_ready if_nametoindex world (t_now io)) (t_stub_clients io)
    (fun r x => stub_client_ready_ok (t_now io) r x) Hstub _ K5) as K6.
  destruct (each _ (t_stub_clients io) r5) as [r6 o4]. cbn [fst] in K6.
  assert (Daemon_ok (m_r (on_some (t_accept io) (fun rs m => native_accept m rs (t_now io)) (with_main m r6)))) as K7.
  { destruct (t_accept io); [|done]. by apply native_accept_ok. }
  set (m7 := on_some _ _ (with_main m r6)) in *. clearbody m7.
  pose proof (each_all _ (t_clients io) (client_ready_ok (t_now io)) _ K7) as K8.
  destruct (each _ (t_clients io) (m_r m7)) as [r8 o5]. cbn [fst] in K8.
  assert (Daemon_ok (on_some (t_netd io) (fun rs r => netd_ready if_nametoindex decode (t_now io) r rs (t_hostname io)) r8)) as K9.
  { destruct (t_netd io); [|done]. by apply netd_ready_ok. }
  set (r9 := on_some _ _ r8) in *. clearbody r9.
  match goal with |- context [timers _ _ _ _ (m_r ?mm)] => assert (Daemon_ok (m_r mm)) as K10 end.
  { destruct (t_watch io) as [w|] eqn:Ew; [|done]. simpl. destruct (m_watch m7); [|done]. apply watch_ready_ok; [done|].
    intros c ->. destruct (Hwatch c eq_refl) as (K & k & root & Hl). unfold load in Hl.
    destruct (optional root) as [o|]; [|done]. by eapply load_from_wf. }
  destruct (timers_phase (t_now io) (t_connect io) _ K10) as [[K11 _] _].
  by destruct (timers _ _ _ _ _).
Qed.
End phases.
