(* ===== verification/DaemonProps.v ===== *)
(** * What the daemon guarantees *)

From S2P Require Import Prelude Net Names Message MessageProofs Cache EngineState Records Routing Engine EngineInv EngineStep EngineRun EngineMachine EngineFlow Io IoProps IpText Msgpack NativeWire NativeWireProofs Stub StubProps Upstream Control Door NetdCodec NetdCodecProofs NetdLink RegistryConfig Present Daemon DaemonLoop DaemonInv DaemonServe DaemonRun DaemonPhases.
Local Open Scope Z_scope.

(** A reply made while reading is an error. *)
Lemma read_reply_is_error `{Texts} client rs rep :
  (Client_read client rs).1 = PReply rep -> exists text, rep = RError text.
Proof.
  unfold Client_read.
  assert (forall fuel buf rs, (read_request_loop fuel buf rs).1.1 = PReply rep -> exists text, rep = RError text) as Hl.
  { clear. induction fuel as [|fuel IH]; intros buf rs; [done|]. cbn [read_request_loop].
    assert (forall n, (match read_some n rs with
      | (ReadEof, rs) | (ReadError, rs) => (Closed, buf, rs)
      | (ReadBytes chunk, rs) => read_request_loop fuel (buf ++ chunk) rs
      | (ReadWouldBlock, rs) => (Incomplete, buf, rs)
      | (ReadInterrupted, rs) => read_request_loop fuel buf rs end).1.1 = PReply rep -> exists text, rep = RError text) as Hr.
    { intros n. destruct (read_some n rs) as [[] rs1]; try done; apply IH. }
    destruct (_ <? _)%nat; [apply Hr|]. destruct (_ <? _); [intros [= <-]; by eexists|].
    destruct (_ =? _)%nat; [|apply Hr]. unfold decode_request. simpl.
    destruct (Request_decode _); [done|]. intros [= <-]. by eexists. }
  specialize (Hl (S (reads_weight rs)) (cl_buf client) rs). by destruct (read_request_loop _ _ _) as [[p buf] rs'].
Qed.

Section runs.
Context `{MapOrder} `{Texts}.
Variable if_nametoindex : Str -> Z.
Variable valid_descriptor : list Z -> bool.
Variable access_check : AccessCheck.
Variable world : World.
(** The MessagePack reader that netd's decoder is over. *)
Context {PX : Peios} {PT : PeiosTyped}.

Abbreviation decode := netd_decode.

Abbreviation turn := (turn if_nametoindex valid_descriptor access_check decode world).
Abbreviation turns := (turns if_nametoindex valid_descriptor access_check decode world).

(** ** Runs *)

Definition entropy_ok (entropy : nat -> option (list Z)) : Prop :=
  forall k x, entropy k = Some x -> length x = 34%nat /\ bytes_ok x.

Lemma start_ok listener stub config watch entropy host now connect m :
  entropy_ok entropy -> (forall c, config = Ok c -> exists K (k : RegKey K) root, load k root = Ok c) ->
  start valid_descriptor listener stub config watch entropy host now connect = Some m -> Daemon_ok (m_r m).
Proof using Type.
  intros He Hc. unfold start. destruct (negb listener || negb stub); [done|]. destruct config as [c|]; [|done].
  destruct (Hc c eq_refl) as (K & k & root & Hl). unfold load in Hl. destruct (optional root) as [o|]; [|done].
  destruct (load_from_wf o c Hl) as [Hs Hh]. intros [= <-].
  set (e0 := with_entropy entropy). set (e1 := set_hostname _ _). set (e2 := set_fallback _ _ _). set (e3 := set_hosts _ _).
  assert (Inv ∅ e0) as I0 by (by apply with_entropy_inv).
  destruct (set_hostname_keeps (kernel_hostname host) e0 I0) as [I1 L1]. fold e1 in I1, L1.
  destruct (set_fallback_keeps (g_servers c) (g_search c) e1 I1 Hs) as [I2 L2]. fold e2 in I2, L2.
  destruct (set_hosts_keeps (g_hosts c) e2 I2 Hh) as [I3 L3]. fold e3 in I3, L3.
  pose proof (set_fallback_quiet (g_servers c) (g_search c) e1) as [_ Q2 _ _]. fold e2 in Q2.
  assert (txs e3 = ∅) as Hx by exact Q2.
  assert (forall q, ~ live e3 q) as Hlive.
  { intros q. rewrite L3, L2, L1. apply with_entropy_live. }
  clearbody e3. clear -I3 Hx Hlive.
  split; [split|split]; simpl; try done; try (intros *; rewrite ?lookup_empty; done).
  - intros tx. by left.
  - intros tx. rewrite Hx, lookup_empty. unfold has_socket. simpl. rewrite !lookup_empty, elem_of_nil.
    split; [by intros [? ?]|]. intros [[[[? ?]|[? ?]] _]|?]; done.
  - intros tx ?%elem_of_nil. done.
  - constructor.
  - intros tx. unfold has_socket. simpl. rewrite !lookup_empty, !elem_of_nil. intros [[[? ?]|[? ?]]|[?|?]]; done.
  - intros q. rewrite lookup_empty, elem_of_nil. split; [by intros [? ?]|]. intros [Hl|?]; [by destruct (Hlive q)|done].
  - constructor.
  - intros q _. apply not_elem_of_nil.
  - vm_compute. lia.
  - vm_compute. lia.
  - vm_compute. lia.
  - vm_compute. lia.
  - unfold Stub_ok. simpl. split_and!; [vm_compute; lia|apply map_Forall_empty|vm_compute; lia].
  - vm_compute. lia.
  - apply maintain_ok. split; [apply backoff_min|apply waits_nil|done].
  - intros id. rewrite !lookup_empty. intros [[? ?]|[? ?]]; done.
Qed.

Lemma turns_ok ios : forall m, Forall TurnIo_wf ios -> Daemon_ok (m_r m) -> Daemon_ok (m_r (turns m ios).1).
Proof using PT.
  induction ios as [|io ios IH]; intros m Hio Hok; [done|]. apply Forall_cons in Hio as [Hio Hios].
  cbn [DaemonLoop.turns]. pose proof (turn_ok if_nametoindex valid_descriptor access_check decode world netd_decode_typed m io Hio Hok) as Hok1.
  destruct (turn m io) as [m1 o1]. specialize (IH m1 Hios Hok1). by destruct (turns m1 ios).
Qed.

Lemma no_waiters r : Daemon_ok r -> tasks (rd_engine r) = ∅ -> rd_waiters r = ∅.
Proof using Type.
  intros Hok Ht. apply map_empty. intros q. destruct (rd_waiters r !! q) as [w|] eqn:Hq; [|done].
  assert (live (rd_engine r) q) as (id & t & Hid & _) by (apply (mid_live _ _ (do_mid _ Hok)); by rewrite Hq).
  by rewrite Ht, lookup_empty in Hid.
Qed.

(** A state the daemon can be in. *)
Definition reachable (r : Resolvd) : Prop :=
  exists listener stub config watch entropy host now connect m ios,
    entropy_ok entropy /\ (forall c, config = Ok c -> exists K (k : RegKey K) root, load k root = Ok c) /\
    start valid_descriptor listener stub config watch entropy host now connect = Some m /\
    Forall TurnIo_wf ios /\ r = m_r (turns m ios).1.

Lemma reachable_ok r : reachable r -> Daemon_ok r.
Proof using PT.
  intros (listener & stub & config & watch & entropy & host & now & connect & m & ios & He & Hc & Hst & Hio & ->).
  apply turns_ok; [done|]. by eapply start_ok.
Qed.

(** ** The properties *)

(** C3. The daemon's books balance in every state it can reach, whatever the
    network, the clients, netd and the registry do.  Someone waits for exactly
    the questions the engine is working on, so no client is forgotten and none
    is kept for a question that is over; and the open upstream sockets are
    exactly those of the engine's transactions, one each, so no descriptor
    leaks. *)
Theorem daemon_books_balance r :
  reachable r ->
  (forall q, is_Some (rd_waiters r !! q) <-> live (rd_engine r) q) /\
  (forall tx, has_socket (rd_upstream r) tx <-> is_Some (txs (rd_engine r) !! tx)) /\
  one_socket (rd_upstream r).
Proof using PT.
  intros [Hm _]%reachable_ok. split_and!; [by intros q; apply mid_live|by intros tx; rewrite mid_sockets|apply Hm].
Qed.

(** C16. Every table is bounded in every reachable state: at most 256 UDP
    questions are pending, 16 of them for one peer; the streams of each door
    that have not finished asking and those that wait for an answer are at
    most 256 together; at most 256 replies are queued on each door; the buffer
    of a TCP client never exceeds a frame, the one of a native client never a
    header and the 65536 bytes of the largest request, and the one of the netd
    channel stays below its limit. *)
Theorem daemon_capacity r :
  reachable r ->
  (waiting udp_waiter (rd_waiters r) <= 256)%nat /\
  (forall peer, waiting (udp_waiter_of peer) (rd_waiters r) <= 16)%nat /\
  (size (clients (rd_stub r)) + waiting tcp_waiter (rd_waiters r) <= 256)%nat /\
  (size (rd_clients r) + waiting native_waiter (rd_waiters r) <= 256)%nat /\
  (size (pending (replies (rd_stub r))) <= 256)%nat /\
  (size (pending (rd_replies r)) <= 256)%nat /\
  map_Forall (fun _ c => Z.of_nat (length (tc_buf c)) <= 65537) (clients (rd_stub r)) /\
  map_Forall (fun _ c => Z.of_nat (length (cl_buf c)) <= 65540) (rd_clients r) /\
  Z.of_nat (length (nl_buf (rd_netd r))) < 65540.
Proof using PT.
  intros [_ [B1 B2 B3 B4 (S1 & S2 & S3) _ B6 Bn _ B8]]%reachable_ok. split_and!; try done.
  - intros id c Hc. by apply (S2 id c).
  - intros id c Hc. apply request_buf_bound, (B8 id c Hc).
  - apply waits_room, Bn.
Qed.

(** C1. Everyone who asks is answered once.  In a reachable state, whatever
    ends the wait of a client - a packet or failure upstream, a deadline, a
    question that can be answered at once - the daemon's work comes to an end,
    and those it takes out of the table of waiters are dealt with in order,
    each exactly once and in the form of its door ([answered]): what is sent is
    the concatenation of one part for each of [ds].  A client of the native
    door is sent its frame.  One of the stub door always ends with an answer
    the door can render, and is sent exactly one message, the encoding of its
    reply or over UDP of the truncated one when the query advertises less;
    unless the reply is larger than the 65535 bytes of any DNS message, when
    nothing is sent.  One that hung up is sent nothing. *)
Theorem waiters_answered_once r :
  reachable r ->
  (forall now ready, exists ds,
     accounts world (rd_waiters r) (rd_waiters (upstream_ready if_nametoindex world now r ready).1) ds
       (upstream_ready if_nametoindex world now r ready).2) /\
  (forall now connect, exists ds,
     accounts world (rd_waiters r) (rd_waiters (timers if_nametoindex world now connect r).1) ds
       (timers if_nametoindex world now connect r).2) /\
  (forall o question now, Question_wf question -> accepts_query r o = true -> room (WStub o) r ->
     exists ds, accounts world (<[rd_next_id r := WStub o]> (rd_waiters r))
       (rd_waiters (handle_query if_nametoindex world r o question now).1) ds
       (handle_query if_nametoindex world r o question now).2) /\
  (forall now q, exists ds,
     accounts world (delete q (rd_waiters r)) (rd_waiters (hang_up if_nametoindex world now r q).1) ds
       (hang_up if_nametoindex world now r q).2).
Proof using PT.
  intros Hok%reachable_ok. split_and!.
  - intros now ready. by apply upstream_ready_phase.
  - intros now connect. by apply timers_phase.
  - intros o question now Hq Ha Hr. by apply handle_query_phase.
  - intros now q. by apply hang_up_phase.
Qed.

(** ** A silent network *)

(** Sleep to the engine's deadline, wake up [late] after it, run the timers. *)
Fixpoint silence (lates : list Z) (r : Resolvd) : Resolvd * list Output :=
  match lates with
  | [] => (r, [])
  | late :: lates =>
      match next_deadline (rd_engine r) with
      | None => (r, [])
      | Some d =>
          let '(r, o1) := timers if_nametoindex world (d + late) None r in
          let '(r, o2) := silence lates r in
          (r, o1 ++ o2)
      end
  end.

Lemma silent_serves lates : forall r,
  Daemon_ok r -> Forall (Z.le 0) lates -> (total_work (tasks (rd_engine r)) <= length lates)%nat ->
  Daemon_ok (silence lates r).1 /\ rd_waiters (silence lates r).1 = ∅ /\
  exists ds, accounts world (rd_waiters r) (rd_waiters (silence lates r).1) ds (silence lates r).2.
Proof using Type.
  induction lates as [|late lates IH]; intros r Hok Hl Hw; cbn [silence].
  - pose proof (mi_inv _ _ (do_mid _ Hok)) as HI. simpl in Hw. apply no_waiters in Hok as Hn.
    + split_and!; [done|done|]. exists []. apply serves_nothing.
    + apply total_work_zero; [done|lia].
  - apply Forall_cons in Hl as [Hlate Hl]. pose proof (mi_inv _ _ (do_mid _ Hok)) as HI.
    destruct (next_deadline (rd_engine r)) as [d|] eqn:Hd.
    + apply next_deadline_spec in Hd as [(tx & x & Hx & Hxd) _].
      destruct (timers_phase if_nametoindex world (d + late) None r Hok) as [[Hok1 [d1 S1]] Hwk].
      pose proof (tick_work (rd_engine r) (d + late) tx x HI Hx ltac:(lia)) as Hlt. simpl in Hw.
      destruct (timers _ _ _ _ _) as [r1 o1]. simpl in *.
      destruct (IH r1 Hok1 Hl ltac:(lia)) as (Hok2 & He & d2 & S2). destruct (silence lates r1) as [r2 o2].
      simpl in *. split_and!; [done|done|]. exists (d1 ++ d2). by eapply serves_trans.
    + apply next_deadline_None in Hd. split_and!; [done| |exists []; apply serves_nothing].
      apply no_waiters; [done|]. by apply drained.
Qed.

(** C2. No client waits forever.  If the network falls silent in a reachable
    state, then after finitely many wake-ups (no more than the engine has
    upstream work left, however late each is) nobody waits any more, and every
    client that did has been answered exactly once; no socket is left open. *)
Theorem silence_answers_everyone r lates :
  reachable r -> Forall (Z.le 0) lates -> (total_work (tasks (rd_engine r)) <= length lates)%nat ->
  rd_waiters (silence lates r).1 = ∅ /\
  (forall tx, ~ has_socket (rd_upstream (silence lates r).1) tx) /\
  exists ds outs, (silence lates r).2 = concat outs /\ Forall2 (answered world) ds outs /\
    NoDup (map (fun d => d.1.1) ds) /\ Forall fitting ds /\
    forall q w, rd_waiters r !! q = Some w <-> exists c, (q, w, c) ∈ ds.
Proof using PT.
  intros Hok%reachable_ok Hl Hw. destruct (silent_serves lates r Hok Hl Hw) as (Hok' & He & ds & [O N S G F]).
  split_and!; [done| |].
  - intros tx Hs%(mid_sockets _ _ (do_mid _ Hok')). destruct Hs as [x Hx].
    destruct (co_tx _ _ _ _ _ (inv_core _ _ (mi_inv _ _ (do_mid _ Hok'))) _ _ Hx) as (t & Ht & _).
    assert (is_Some (rd_waiters (silence lates r).1 !! Owner_qid (t_owner t))) as Hs.
    { apply (mid_live _ _ (do_mid _ Hok')). by exists (x_task x), t. }
    rewrite He, lookup_empty in Hs. by destruct Hs.
  - destruct O as (outs & O & Fo). exists ds, outs. split_and!; try done. intros q w. rewrite S, He, lookup_empty. split; [intros [?|?]; done|by right].
Qed.

(** C17. Carrying out actions ends.  A send that fails at once makes the engine
    act again, and those actions are carried out in a further round; every
    such round uses up upstream work, so as many rounds as there is work, and
    one more, are enough from any state between an engine operation and the
    end of its actions.  Then no action is left and the books balance. *)
Theorem perform_terminates r acts now :
  Mid acts r ->
  perform_rounds if_nametoindex (S (total_work (tasks (rd_engine r)))) world r acts now
    = Some (perform if_nametoindex world r acts now) /\
  (total_work (tasks (rd_engine (perform if_nametoindex world r acts now).1)) <= total_work (tasks (rd_engine r)))%nat /\
  Mid [] (perform if_nametoindex world r acts now).1.
Proof using Type.
  intros Hm. destruct (perform_serves if_nametoindex world r acts now Hm) as (Hp & Hw & _).
  split_and!; [done|done|]. by apply perform_mid.
Qed.

(** C18. A peer the descriptor grants nothing changes nothing.  Whatever bytes
    such a client sends, and however they are split, the engine, the waiters,
    the upstream sockets and the configuration stay as they are; it is sent at
    most one reply, an error. *)
Theorem unprivileged_client_is_inert now r c client :
  rd_clients r !! ci_id c = Some client ->
  (forall right, permits access_check (rd_control r) (cl_stream client) right = false) ->
  let res := client_ready if_nametoindex access_check world now r c in
  rd_engine res.1 = rd_engine r /\ rd_waiters res.1 = rd_waiters r /\ rd_upstream res.1 = rd_upstream r /\
  rd_config res.1 = rd_config r /\ rd_control res.1 = rd_control r /\
  (res.2 = [] \/ exists text, res.2 = [ToNative (cl_stream client) (wrote (ci_write c) (response_frame (RError text)))]).
Proof using Type.
  intros Hc Hno. unfold client_ready. rewrite Hc.
  pose proof (read_reply_is_error client (ci_reads c)) as Herr.
  assert (cl_stream (Client_read client (ci_reads c)).2 = cl_stream client) as Hs.
  { unfold Client_read. by destruct (read_request_loop _ _ _) as [[p buf] rs]. }
  destruct (Client_read client (ci_reads c)) as [progress client']. simpl in Hs, Herr.
  destruct progress as [|request|rep|]; simpl; try (split_and!; by auto).
  - unfold handle_request. cbn [rd_control with_clients]. rewrite Hs, Hno. simpl.
    split_and!; try done. right. by eexists.
  - destruct (Herr rep eq_refl) as [text ->]. split_and!; try done. right. exists text. by rewrite Hs.
Qed.
End runs.

(** ** Waking up *)

(** The moments at which something falls due. *)
Inductive due (m : Main) (now : Z) : Z -> Prop :=
| due_transaction tx x : txs (rd_engine (m_r m)) !! tx = Some x -> due m now (x_deadline x)
| due_netd : nl_stream (rd_netd (m_r m)) = None -> due m now (nl_next_try (rd_netd (m_r m)))
| due_stub_client id c : clients (rd_stub (m_r m)) !! id = Some c -> due m now (tc_since c + TCP_TIMEOUT)
| due_stub_reply id p : pending (replies (rd_stub (m_r m))) !! id = Some p -> due m now (pd_deadline p)
| due_reply id p : pending (rd_replies (m_r m)) !! id = Some p -> due m now (pd_deadline p)
| due_client id c : rd_clients (m_r m) !! id = Some c -> due m now (cl_since c + CLIENT_TIMEOUT)
| due_accept t : until (m_accept_backoff m) = Some t -> now < t -> due m now t
| due_stub_accept t : until (accept_backoff (rd_stub (m_r m))) = Some t -> now < t -> due m now t.

Lemma elem_of_map_iter `{MapOrder} {A B} (f : Z * A -> B) (mm : gmap Z A) y :
  y ∈ map f (map_iter mm) <-> exists k v, mm !! k = Some v /\ y = f (k, v).
Proof.
  rewrite list_elem_of_In, in_map_iff. split.
  - intros ([k v] & <- & Hin%list_elem_of_In%map_iter_elem). by exists k, v.
  - intros (k & v & Hk & ->). exists (k, v). split; [done|]. by apply list_elem_of_In, map_iter_elem.
Qed.

(** Something in the list is no later. *)
Definition covers (l : list Z) (y : Z) : Prop := exists z, z ∈ l /\ z <= y.

Lemma covers_app a b y : covers a y \/ covers b y -> covers (a ++ b) y.
Proof. intros [(z & Hz & Hle)|(z & Hz & Hle)]; exists z; (split; [|done]); apply elem_of_app; tauto. Qed.

Lemma covers_min l y : covers l y -> covers (option_list (list_min l)) y.
Proof.
  intros (z & Hz & Hle). destruct (list_min l) as [d|] eqn:E.
  - apply list_min_Some in E as [_ Hmin]. exists d. split; [by left|]. specialize (Hmin z Hz). lia.
  - apply list_min_None in E as ->. by apply elem_of_nil in Hz.
Qed.

Lemma covers_map `{MapOrder} {A} (f : Z * A -> Z) (mm : gmap Z A) k v :
  mm !! k = Some v -> covers (map f (map_iter mm)) (f (k, v)).
Proof. intros Hk. exists (f (k, v)). split; [|done]. apply elem_of_map_iter. by exists k, v. Qed.

Lemma covers_backoff b now t : until b = Some t -> now < t -> covers (option_list (backoff_deadline b now)) t.
Proof.
  intros Hb Hlt. unfold backoff_deadline. rewrite Hb. destruct (Z.ltb_spec now t); [|lia]. exists t. split; [by left|done].
Qed.

Lemma deadlines_cover `{MapOrder} m now d : due m now d -> covers (option_list (loop_deadline m now)) d.
Proof.
  intros Hd. unfold loop_deadline. apply covers_min.
  destruct Hd as [tx x Hx|Hn|id c Hc|id p Hp|id p Hp|id c Hc|t Ht Hlt|t Ht Hlt].
  - apply covers_app. left. by apply covers_min, (covers_map (fun kv => x_deadline kv.2) _ tx x).
  - apply covers_app. right. apply covers_app. left. unfold netd_next_deadline. rewrite Hn. eexists. split; [by left|done].
  - do 2 (apply covers_app; right). apply covers_app. left. apply covers_min, covers_app. left.
    by apply (covers_map (fun kc => tc_since kc.2 + TCP_TIMEOUT) _ id c).
  - do 2 (apply covers_app; right). apply covers_app. left. apply covers_min, covers_app. right. apply covers_app. left.
    by apply covers_min, (covers_map (fun ip => pd_deadline ip.2) _ id p).
  - do 3 (apply covers_app; right). apply covers_app. left.
    by apply covers_min, (covers_map (fun ip => pd_deadline ip.2) _ id p).
  - do 5 (apply covers_app; right). apply covers_min. unfold values. rewrite map_map.
    by apply (covers_map (fun kc => cl_since kc.2 + CLIENT_TIMEOUT) _ id c).
  - do 4 (apply covers_app; right). apply covers_app. left. by apply covers_backoff.
  - do 2 (apply covers_app; right). apply covers_app. left. apply covers_min. do 2 (apply covers_app; right).
    by apply covers_backoff.
Qed.

(** The deadline is itself due. *)
Lemma loop_deadline_is_due `{MapOrder} m now d : loop_deadline m now = Some d -> due m now d.
Proof.
  unfold loop_deadline. intros [Hin _]%list_min_Some. rewrite !elem_of_app in Hin.
  assert (forall (o : option Z) y, y ∈ option_list o -> o = Some y) as Hopt.
  { intros [z|] y Hy; [by apply list_elem_of_singleton in Hy as ->|by apply elem_of_nil in Hy]. }
  assert (forall b t, backoff_deadline b now = Some t -> until b = Some t /\ now < t) as Hback.
  { intros [u] t. unfold backoff_deadline. simpl. destruct u as [t'|]; [|done].
    destruct (Z.ltb_spec now t'); [|done]. by intros [= <-]. }
  destruct Hin as [Hi|[Hi|[Hi|[Hi|[Hi|Hi]]]]]; apply Hopt in Hi.
  - apply list_min_Some in Hi as [(k & v & Hk & ->)%elem_of_map_iter _]. by apply (due_transaction m now k).
  - unfold netd_next_deadline in Hi. destruct (nl_stream _) eqn:E; [done|]. injection Hi as <-. by apply due_netd.
  - apply list_min_Some in Hi as [Hi _]. rewrite !elem_of_app in Hi. destruct Hi as [Hi|[Hi|Hi]].
    + apply elem_of_map_iter in Hi as (k & v & Hk & ->). by apply (due_stub_client m now k).
    + apply Hopt in Hi. apply list_min_Some in Hi as [(k & v & Hk & ->)%elem_of_map_iter _]. by apply (due_stub_reply m now k).
    + apply Hopt, Hback in Hi as [? ?]. by apply due_stub_accept.
  - apply list_min_Some in Hi as [(k & v & Hk & ->)%elem_of_map_iter _]. by apply (due_reply m now k).
  - apply Hback in Hi as [? ?]. by apply due_accept.
  - apply list_min_Some in Hi as [Hi _]. unfold values in Hi. rewrite map_map in Hi.
    apply elem_of_map_iter in Hi as (k & v & Hk & ->). by apply (due_client m now k).
Qed.

(** C20. The loop neither oversleeps nor sleeps on nothing.  It waits without a
    limit exactly when nothing can fall due: no transaction, no unfinished or
    unanswered client, no queued reply, a channel to netd, no pause of a
    listener.  Otherwise the timeout it passes to poll is a whole number of
    milliseconds within an [i32] that ends no later than whatever falls due
    first, and it is zero when that is in the past. *)
Theorem loop_wakes_in_time `{MapOrder} m now :
  (timeout_ms m now = -1 <-> forall d, ~ due m now d) /\
  -1 <= timeout_ms m now < 2 ^ 31 /\
  forall d, due m now d -> now + timeout_ms m now * 1000000 <= Z.max now d.
Proof.
  assert (forall t, 0 <= saturating_duration_since t now / 1000000 /\
    saturating_duration_since t now / 1000000 * 1000000 <= Z.max 0 (t - now)) as Hdiv.
  { intros t. unfold saturating_duration_since. split; [apply Z.div_pos; lia|].
    pose proof (Z.mul_div_le (Z.max 0 (t - now)) 1000000 ltac:(lia)). lia. }
  unfold timeout_ms. destruct (loop_deadline m now) as [t|] eqn:Ht.
  - destruct (Hdiv t) as [H0 H1]. split_and!; [|lia|lia|].
    + split; [lia|]. intros Hno. by destruct (Hno t (loop_deadline_is_due m now t Ht)).
    + intros d Hd. apply deadlines_cover in Hd as (z & Hz & Hle). rewrite Ht in Hz.
      apply list_elem_of_singleton in Hz as ->. lia.
  - assert (forall d, ~ due m now d) as Hno.
    { intros d Hd. apply deadlines_cover in Hd as (z & Hz & _). rewrite Ht in Hz. by apply elem_of_nil in Hz. }
    split_and!; [done|lia|lia|]. intros d Hd. by destruct (Hno d).
Qed.

(** ** Polling *)

Lemma elem_of_omap_iter `{MapOrder} {A B} (f : Z * A -> option B) (mm : gmap Z A) y :
  y ∈ omap f (map_iter mm) <-> exists k v, mm !! k = Some v /\ f (k, v) = Some y.
Proof.
  rewrite list_elem_of_omap. split.
  - intros ([k v] & Hin%map_iter_elem & Hf). by exists k, v.
  - intros (k & v & Hk & Hf). exists (k, v). split; [by apply map_iter_elem|done].
Qed.

(** Membership in the poll set, part by part. *)
Lemma elem_of_poll_set `{MapOrder} m now listener udp tcp watch x :
  x ∈ poll_set m now listener udp tcp watch <->
  x = (SListener, poll_fd (m_accept_backoff m) listener now, POLLIN) \/ x = (SStubUdp, udp, POLLIN) \/
  x = (SStubListener, listener_fd (rd_stub (m_r m)) tcp now, POLLIN) \/
  (exists fd, nl_stream (rd_netd (m_r m)) = Some fd /\ x = (SNetd, fd, POLLIN)) \/
  (m_watch m = true /\ x = (SWatch, watch, POLLIN)) \/
  (exists id c, rd_clients (m_r m) !! id = Some c /\ x = (SClient id, cl_stream c, POLLIN)) \/
  (exists id c, clients (rd_stub (m_r m)) !! id = Some c /\ x = (SStubClient id, tc_stream c, POLLIN)) \/
  (exists id p, pending (rd_replies (m_r m)) !! id = Some p /\ x = (SReply id, pd_stream p, POLLOUT)) \/
  (exists id p, pending (replies (rd_stub (m_r m))) !! id = Some p /\ x = (SStubReply id, pd_stream p, POLLOUT)) \/
  (exists q w fd, rd_waiters (m_r m) !! q = Some w /\ stream_fd w = Some fd /\ x = (SWaiter q, fd, 0)) \/
  (exists tx fd, up_udp (rd_upstream (m_r m)) !! tx = Some fd /\ x = (SUpstream tx, fd, POLLIN)) \/
  (exists tx t, up_tcp (rd_upstream (m_r m)) !! tx = Some t /\
     x = (SUpstream tx, tcp_stream t, tcp_events (tcp_state t))).
Proof.
  unfold poll_set, client_fds, fds, upstream_fds. rewrite !map_app, !map_map, !elem_of_app, !elem_of_cons, elem_of_nil.
  rewrite !elem_of_map_iter, elem_of_omap_iter. unfold netd_fd.
  assert (x ∈ map (fun fd => (SNetd, fd, POLLIN)) (option_list (nl_stream (rd_netd (m_r m)))) <->
    exists fd, nl_stream (rd_netd (m_r m)) = Some fd /\ x = (SNetd, fd, POLLIN)) as Hn.
  { destruct (nl_stream _) as [fd|]; simpl; [rewrite list_elem_of_singleton|rewrite elem_of_nil]; naive_solver. }
  assert (x ∈ (if m_watch m then [(SWatch, watch, POLLIN)] else []) <-> m_watch m = true /\ x = (SWatch, watch, POLLIN)) as Hw.
  { destruct (m_watch m); [rewrite list_elem_of_singleton|rewrite elem_of_nil]; naive_solver. }
  assert ((exists k v, rd_waiters (m_r m) !! k = Some v /\
      match stream_fd (k, v).2 with Some fd => Some (SWaiter (k, v).1, fd, 0) | None => None end = Some x) <->
    exists q w fd, rd_waiters (m_r m) !! q = Some w /\ stream_fd w = Some fd /\ x = (SWaiter q, fd, 0)) as Hq.
  { simpl. split; [intros (k & v & Hk & Hf)|intros (k & v & fd & Hk & Hf & ->)].
    - destruct (stream_fd v) as [fd|] eqn:E; [|done]. injection Hf as <-. by exists k, v, fd.
    - exists k, v. by rewrite Hf. }
  rewrite Hn, Hw, Hq. simpl. tauto.
Qed.

(** What is polled is what can become ready.  In a reachable state the
    upstream sockets in the poll set are those of the engine's transactions;
    a client that waits for its answer is polled on its own stream for hang-up
    alone, so that one that has only closed its writing half still gets its
    reply, and a UDP client not at all; a queued reply is polled for writing;
    and a listener in its pause is not polled. *)
Theorem poll_set_covers `{MapOrder} `{Texts} ifx vd ac world `{PeiosTyped} m now listener udp tcp watch :
  reachable ifx vd ac world (m_r m) ->
  let polled x := x ∈ poll_set m now listener udp tcp watch in
  (forall tx, (exists fd ev, polled (SUpstream tx, fd, ev)) <-> is_Some (txs (rd_engine (m_r m)) !! tx)) /\
  (forall q fd ev, polled (SWaiter q, fd, ev) <->
     ev = 0 /\ exists w, rd_waiters (m_r m) !! q = Some w /\ stream_fd w = Some fd) /\
  (forall id fd ev, polled (SReply id, fd, ev) <->
     ev = POLLOUT /\ exists p, pending (rd_replies (m_r m)) !! id = Some p /\ pd_stream p = fd) /\
  (forall fd ev, polled (SListener, fd, ev) ->
     ev = POLLIN /\ (backoff_deadline (m_accept_backoff m) now <> None -> fd = -1)).
Proof.
  intros Hr polled. pose proof (reachable_ok _ _ _ _ _ Hr) as Hok. unfold polled. setoid_rewrite elem_of_poll_set. split_and!.
  - intros tx. rewrite (mid_sockets _ tx (do_mid _ Hok)). unfold has_socket, is_Some. split.
    + intros (fd & ev & Hx). repeat (destruct Hx as [Hx|Hx]; [naive_solver|]). naive_solver.
    + intros [[fd Hx]|[t Hx]].
      * exists fd, POLLIN. do 10 right. left. by exists tx, fd.
      * exists (tcp_stream t), (tcp_events (tcp_state t)). do 11 right. by exists tx, t.
  - intros q fd ev. split; [intros Hx; repeat (destruct Hx as [Hx|Hx]; [naive_solver|]); naive_solver|].
    intros (-> & w & Hq & Hs). do 9 right. left. by exists q, w, fd.
  - intros id fd ev. split; [intros Hx; repeat (destruct Hx as [Hx|Hx]; [naive_solver|]); naive_solver|].
    intros (-> & p & Hp & <-). do 7 right. left. by exists id, p.
  - intros fd ev Hx. assert (fd = poll_fd (m_accept_backoff m) listener now /\ ev = POLLIN) as [-> ->].
    { repeat (destruct Hx as [Hx|Hx]; [naive_solver|]). naive_solver. }
    split; [done|]. unfold poll_fd. destruct (backoff_deadline _ _); [done|]. by intros [].
Qed.

(** ** Witnesses: a daemon with one question under way *)

Definition demo_texts : Texts := mkTexts (fun s => s) (fun _ => []).
Definition demo_entropy (k : nat) : option (list Z) := Some (replicate 34 (Z.of_nat k mod 256)).
Definition demo_world : World := mkWorld (fun tx => Ok (100 + tx)) (fun _ => (Takes 4096, 0)).
Definition demo_decode : list Z -> option NetdReply := netd_decode (H := msgpack_peios).
Definition demo_access : AccessCheck := mkAccessCheck (fun s => Some s) (fun _ _ _ _ => Some true).
Definition demo_peer : Peer := mkPeer (V4 (127 * 2 ^ 24 + 1)) 5000.
Definition demo_query : Message :=
  Message_query 7 (mkQuestion (expect Name_root (Name_parse (bytes_of "example.com"))) 1 class_IN).
Definition demo_bytes : list Z := Eval vm_compute in expect [] (Message_encode demo_query).

Definition demo_io : TurnIo :=
  mkTurnIo 1000 [] [] [] [] (Some [Datagram demo_bytes demo_peer]) None [] None [] None None None None.

Definition demo_start : option Main :=
  start (fun _ => true) true true (load sample_registry (Present true)) true demo_entropy None 0 None.

Definition demo_idle : Main := default (mkMain (mkResolvd (with_entropy demo_entropy) Config_default default_sd Upstream_new
  Stub_open (NetdLink_new 0) ∅ Replies_default ∅ 1) AcceptBackoff_default false) demo_start.

Definition demo_turn (m : Main) (io : TurnIo) : Main * list Output :=
  turn (H := canonical_order) (H0 := demo_texts) (fun _ => 2) (fun _ => true) demo_access demo_decode demo_world m io.

Definition demo : Resolvd := m_r (demo_turn demo_idle demo_io).1.

Abbreviation demo_reachable :=
  (reachable (H := canonical_order) (H0 := demo_texts) (PX := msgpack_peios) (fun _ => 2) (fun _ => true) demo_access demo_world).

Lemma demo_entropy_ok : entropy_ok demo_entropy.
Proof.
  intros k x Hx. injection Hx as <-. split; [done|]. unfold in_width.
  pose proof (Z.mod_pos_bound (Z.of_nat k) 256 ltac:(lia)). apply (Forall_replicate (fun b => 0 <= b < 2 ^ 8) 34). lia.
Qed.

Lemma demo_is_reachable : demo_reachable demo.
Proof.
  exists true, true, (load sample_registry (Present true)), true, demo_entropy, None, 0, None, demo_idle, [demo_io].
  split_and!; [exact demo_entropy_ok|by eauto| | |].
  - unfold demo_idle. destruct demo_start as [m|] eqn:E; [exact E|]. vm_compute in E. discriminate E.
  - apply Forall_singleton. split; simpl; [|constructor|done]. intros rs [= <-]. apply Forall_singleton. by_decide.
  - unfold demo, demo_turn. cbn [turns]. by destruct (turn _ _ _ _ _ _ _).
Qed.

Lemma daemon_books_balance_witness :
  live (rd_engine demo) 1 /\ has_socket (rd_upstream demo) 2.
Proof.
  destruct (daemon_books_balance (H := canonical_order) (H0 := demo_texts) (PT := msgpack_typed) _ _ _ _ demo demo_is_reachable)
    as (Hw & Hs & _).
  split; [apply Hw|apply Hs]; vm_compute; by eexists.
Defined.

Lemma daemon_capacity_witness :
  waiting udp_waiter (rd_waiters demo) = 1%nat /\ (waiting (udp_waiter_of demo_peer) (rd_waiters demo) <= 16)%nat.
Proof.
  split; [vm_compute; reflexivity|].
  exact (proj1 (proj2 (daemon_capacity (H := canonical_order) (H0 := demo_texts) (PT := msgpack_typed) _ _ _ _ demo
    demo_is_reachable)) demo_peer).
Defined.

(** A question that is answered at once, from another port of the same peer. *)
Definition local_question : Question := mkQuestion (expect Name_root (Name_parse (bytes_of "localhost"))) 1 class_IN.
Definition local_origin : Origin := OUdp (mkPeer (V4 (127 * 2 ^ 24 + 1)) 5001) (Message_query 8 local_question).

Lemma waiters_answered_once_witness :
  let res := handle_query (H := canonical_order) (fun _ => 2) demo_world demo local_origin local_question 2000 in
  length res.2 = 1%nat /\
  exists ds, accounts demo_world (<[rd_next_id demo := WStub local_origin]> (rd_waiters demo)) (rd_waiters res.1) ds res.2.
Proof.
  intros res. split; [vm_compute; reflexivity|].
  refine (proj1 (proj2 (proj2 (waiters_answered_once (H := canonical_order) (H0 := demo_texts) (PT := msgpack_typed) _ _ _ _ demo
    demo_is_reachable))) local_origin local_question 2000 _ _ _); [by_decide|vm_compute; reflexivity|].
  split; vm_compute; lia.
Defined.

Lemma silence_answers_everyone_witness :
  rd_waiters (silence (H := canonical_order) (fun _ => 2) demo_world [0; 5; 0] demo).1 = ∅ /\
  length (silence (H := canonical_order) (fun _ => 2) demo_world [0; 5; 0] demo).2 = 1%nat.
Proof.
  split; [|vm_compute; reflexivity].
  refine (proj1 (silence_answers_everyone (H := canonical_order) (H0 := demo_texts) (PT := msgpack_typed) _ _ _ _
    demo [0; 5; 0] demo_is_reachable _ _)); [by_decide|vm_compute; lia].
Defined.

(** A network without sockets: the question's deadline passes, the engine sends
    again, that fails at once and is reported to it, and so on until it gives
    up; one round would not do. *)
Definition no_sockets : World := mkWorld (fun _ => Err (RawOs 101)) (fun _ => (Takes 4096, 0)).
Definition ticked : Engine * list Action := tick (H := canonical_order) (rd_engine demo) (10 ^ 11).

Lemma perform_terminates_witness :
  length ticked.2 = 2%nat /\
  perform_rounds (fun _ => 2) 1 no_sockets (with_engine ticked.1 demo) ticked.2 (10 ^ 11) = None /\
  perform_rounds (fun _ => 2) (S (total_work (tasks ticked.1))) no_sockets (with_engine ticked.1 demo) ticked.2 (10 ^ 11) =
    Some (perform (fun _ => 2) no_sockets (with_engine ticked.1 demo) ticked.2 (10 ^ 11)) /\
  length (perform (fun _ => 2) no_sockets (with_engine ticked.1 demo) ticked.2 (10 ^ 11)).2 = 1%nat.
Proof.
  split; [vm_compute; reflexivity|]. split; [vm_compute; reflexivity|]. split; [|vm_compute; reflexivity].
  refine (proj1 (perform_terminates (fun _ => 2) no_sockets (with_engine ticked.1 demo) ticked.2 (10 ^ 11) _)).
  exact (tick_mid (H := canonical_order) demo (10 ^ 11)
    (reachable_ok (H := canonical_order) (H0 := demo_texts) (PT := msgpack_typed) _ _ _ _ demo demo_is_reachable)).
Defined.

Lemma poll_set_covers_witness :
  exists fd ev, (SUpstream 2, fd, ev) ∈ poll_set (H := canonical_order) (mkMain demo AcceptBackoff_default true) 0 3 4 5 6.
Proof.
  refine (proj2 (proj1 (poll_set_covers (H := canonical_order) (H0 := demo_texts) _ _ _ _ (H2 := msgpack_typed)
    (mkMain demo AcceptBackoff_default true) 0 3 4 5 6 demo_is_reachable) 2) _).
  vm_compute. by eexists.
Defined.

(** A client that has sent half a header, and a descriptor that grants nothing. *)
Definition demo_client : Resolvd := with_clients {[9 := mkClient 40 [1; 0] 0]} demo.

Lemma unprivileged_client_is_inert_witness :
  rd_waiters (client_ready (H := canonical_order) (H0 := demo_texts) (fun _ => 2) (mkAccessCheck (fun s => Some s) (fun _ _ _ _ => Some false)) demo_world 5 demo_client
    (mkClientIo 9 [ReadBytes [0; 0; 128]; ReadWouldBlock] (Takes 4096) 0)).1 = rd_waiters demo_client.
Proof.
  refine (proj1 (proj2 (unprivileged_client_is_inert (H := canonical_order) (H0 := demo_texts) (fun _ => 2)
    (mkAccessCheck (fun s => Some s) (fun _ _ _ _ => Some false)) demo_world 5 demo_client (mkClientIo 9 [ReadBytes [0; 0; 128]; ReadWouldBlock] (Takes 4096) 0)
    (mkClient 40 [1; 0] 0) _ _))); [apply lookup_singleton_eq|done].
Defined.
