(* ===== verification/Service.v ===== *)
(** * The service (resolvd/src/main.rs main and notify_ready; log.rs, notification.rs, entropy.rs fill)

    Starting, announcing, and the loop around [poll]; the log and the
    notification to the service manager.  What the calls return comes in as
    data, what the process writes comes out as events. *)

From S2P Require Import Prelude Net Names Cache EngineState Routing Engine EngineInv EngineMachine Io IpText Msgpack NativeWire Stub Upstream Control Door NetdCodec NetdCodecProofs NetdLink RegistryConfig Sockets Daemon DaemonLoop DaemonInv DaemonRun DaemonPhases DaemonProps.
Local Open Scope Z_scope.

(** ** The log *)

Inductive Sink : Type := Stdout | Stderr | Kmsg.

Inductive LogLevel : Type := LInfo | LWarn | LError.

Definition level_text (l : LogLevel) : Str :=
  match l with LInfo => bytes_of "info" | LWarn => bytes_of "warn" | LError => bytes_of "error" end.

Definition kmsg_priority (l : LogLevel) : Z := match l with LError => 3 | LWarn => 4 | LInfo => 6 end.

Definition mirror_unavailable (err : Str) : Str :=
  bytes_of "resolvd: warn: /dev/kmsg mirror unavailable (" ++ err ++
  bytes_of "): log lines go to stdout/stderr only" ++ [10].

(** The mirror is opened once; [mirror] is [None] before, then whether it could
    be.  [open_] is what opening it gives. *)
Definition kmsg (open_ : result Str ()) (mirror : option bool) : list (Sink * Str) * bool :=
  match mirror with
  | Some m => ([], m)
  | None => match open_ with Ok _ => ([], true) | Err e => ([(Stderr, mirror_unavailable e)], false) end
  end.

Definition emit (level : LogLevel) (args : Str) (open_ : result Str ()) (mirror : option bool)
  : list (Sink * Str) * option bool :=
  let line := bytes_of "resolvd: " ++ level_text level ++ bytes_of ": " ++ args ++ [10] in
  let w := [(match level with LInfo => Stdout | _ => Stderr end, line)] in
  let '(note, m) := kmsg open_ mirror in
  let copy := if m then [(Kmsg, [60] ++ fmt_dec (kmsg_priority level) ++ [62] ++ line)] else [] in
  (w ++ note ++ copy, Some m).

(** A run of the log. *)
Fixpoint emits (lines : list (LogLevel * Str)) (open_ : result Str ()) (mirror : option bool)
  : list (Sink * Str) * option bool :=
  match lines with
  | [] => ([], mirror)
  | (level, args) :: lines =>
      let '(w1, mirror) := emit level args open_ mirror in
      let '(w2, mirror) := emits lines open_ mirror in
      (w1 ++ w2, mirror)
  end.

(** ** Random bytes for a query *)

(** The bytes, and whether the failure is logged. *)
Definition fill (n : nat) (reads : list RandRead) : option (result IoError (list Z)) * list LogLevel :=
  let r := fill_with n reads in
  (r, match r with Some (Err _) => [LError] | _ => [] end).

(** ** Notification *)

Record NotifyIo : Type := mkNotifyIo {
  nt_unbound : option IoError;
  nt_timeout : option IoError;
  nt_sent : result IoError nat;
}.

Definition notification_send (payload : list Z) (io : NotifyIo) : result IoError () :=
  match nt_unbound io, nt_timeout io, nt_sent io with
  | Some e, _, _ | None, Some e, _ => Err e
  | None, None, Err e => Err e
  | None, None, Ok n => if negb (n =? length payload)%nat then Err WriteZero else Ok ()
  end.

(** What the process tells the world; the texts of log lines aside. *)
Inductive SvcEvent : Type :=
| Logged (level : LogLevel)
| Notified (path payload : Str).

Definition READY : list Z := bytes_of "READY=1".

Definition notify_ready (env : option Str) (io : NotifyIo) : list SvcEvent :=
  match env with
  | None => []
  | Some path =>
      match notification_send READY io with
      | Ok _ => [Notified path READY]
      | Err _ => [Logged LWarn]
      end
  end.

(** ** The loop *)

(** What [poll], and everything after it in the turn, gives. *)
Inductive Polled : Type := PReady (io : TurnIo) | PInterrupted | PFailed.

(** The turns that are taken before [poll] fails for good. *)
Fixpoint taken (ps : list Polled) : list TurnIo :=
  match ps with
  | [] => []
  | PReady io :: ps => io :: taken ps
  | PInterrupted :: ps => taken ps
  | PFailed :: _ => []
  end.

(** What start-up meets before the loop. *)
Record BootIo : Type := mkBootIo {
  bo_listen : ListenIo;
  bo_files : Files;
  bo_stub : bool;
  bo_config : result ReadFailure Config;
  bo_watch : WatchIo;
  bo_entropy : nat -> option (list Z);
  bo_hostname : option (list Z);
  bo_now : Z;
  bo_netd : NetdIo;
  bo_env : option Str;
  bo_notify : NotifyIo;
}.

Section service.
Context `{MapOrder} `{Texts}.
Variable if_nametoindex : Str -> Z.
Variable valid_descriptor : list Z -> bool.
Variable access_check : AccessCheck.
Variable world : World.
Context {PX : Peios}.

Abbreviation decode := netd_decode.
(** The one request of the channel. *)
Abbreviation subscribe := (NetdRequest_encode NSubscribe).

Abbreviation turn := (turn if_nametoindex valid_descriptor access_check decode world).
Abbreviation turns := (turns if_nametoindex valid_descriptor access_check decode world).

(** The state, what was sent, and whether the loop still runs. *)
Fixpoint main_loop (m : Main) (ps : list Polled) : Main * list Output * bool :=
  match ps with
  | [] => (m, [], true)
  | PReady io :: ps =>
      let '(m, o1) := turn m io in
      let '(m, o2, on) := main_loop m ps in
      (m, o1 ++ o2, on)
  | PInterrupted :: ps => main_loop m ps
  | PFailed :: _ => (m, [], false)
  end.

Definition boot (io : BootIo) : list SvcEvent * option Main :=
  match listen (bo_listen io) (bo_files io) with
  | Err _ => ([Logged LError], None)
  | Ok _ =>
      if negb (bo_stub io) then ([Logged LError], None)
      else
        match bo_config io with
        | Err _ => ([Logged LError], None)
        | Ok config =>
            let warned := if armed (bo_watch io) then [] else [Logged LWarn] in
            match start valid_descriptor true true (Ok config) (armed (bo_watch io)) (bo_entropy io) (bo_hostname io)
                    (bo_now io) (ok (netd_connect subscribe (bo_netd io)).2) with
            | None => (warned, None)
            | Some m =>
                (warned ++ [Logged LInfo] ++ notify_ready (bo_env io) (bo_notify io), Some m)
            end
        end
  end.

(** The whole process: its events, and the last state with what was sent and
    whether it still runs. *)
Definition daemon_main (io : BootIo) (ps : list Polled) : list SvcEvent * option (Main * list Output * bool) :=
  let '(events, m) := boot io in
  (events, (fun m => main_loop m ps) <$> m).
End service.

(** ** Lemmas *)

(** The failure of the mirror is told at most once, and every line goes to
    exactly one of the two streams. *)
Lemma emits_once lines open_ : forall mirror,
  let w := (emits lines open_ mirror).1 in
  length (List.filter (fun x => match x.1 with Kmsg => false | _ => true end) w) =
    (length lines +
     match mirror, open_, lines with None, Err _, _ :: _ => 1 | _, _, _ => 0 end)%nat /\
  length (List.filter (fun x => match x.1 with Stdout => true | _ => false end) w) =
    length (List.filter (fun x => match x.1 with LInfo => true | _ => false end) lines).
Proof.
  induction lines as [|[level args] lines IH]; intros mirror; [by destruct mirror, open_|].
  cbn zeta in *. cbn [emits]. unfold emit.
  destruct (kmsg open_ mirror) as [note m] eqn:Ek. specialize (IH (Some m)).
  destruct (emits lines open_ (Some m)) as [w2 mirror2]. cbn [fst] in *. destruct IH as [IH1 IH2].
  rewrite !List.filter_app, !length_app, IH1, IH2.
  unfold kmsg in Ek. destruct mirror as [b|]; [|destruct open_ as [[]|e]]; simplify_eq; destruct level;
    try destruct m; cbn [List.filter fst app length negb]; split; lia.
Qed.

Section lifecycle.
Context `{MapOrder} `{Texts}.
Variable if_nametoindex : Str -> Z.
Variable valid_descriptor : list Z -> bool.
Variable access_check : AccessCheck.
Variable world : World.
Context {PX : Peios}.

Abbreviation decode := netd_decode.
(** The one request of the channel. *)
Abbreviation subscribe := (NetdRequest_encode NSubscribe).

Abbreviation turns := (turns if_nametoindex valid_descriptor access_check decode world).
Abbreviation main_loop := (main_loop if_nametoindex valid_descriptor access_check world).

Lemma main_loop_turns ps : forall m,
  (main_loop m ps).1 = turns m (taken ps) /\ ((main_loop m ps).2 = true <-> PFailed ∉ ps).
Proof using Type.
  induction ps as [|[io| |] ps IH]; intros m; cbn [Service.main_loop taken DaemonLoop.turns].
  - split; [done|]. split; [intros _; apply not_elem_of_nil|done].
  - destruct (DaemonLoop.turn _ _ _ _ _ m io) as [m1 o1]. destruct (IH m1) as [E1 E2].
    destruct (main_loop m1 ps) as [[m2 o2] on]. cbn [fst snd] in *. rewrite <- E1. split; [done|].
    rewrite E2. set_solver.
  - destruct (IH m) as [E1 E2]. split; [done|]. rewrite E2. set_solver.
  - split; [done|]. split; [done|]. set_solver.
Qed.

Lemma boot_starts io m :
  (boot valid_descriptor io).2 = Some m ->
  (exists fs, listen (bo_listen io) (bo_files io) = Ok fs /\ door_open (bo_listen io) (bo_files io) fs) /\
  bo_stub io = true /\
  exists config, bo_config io = Ok config /\
    start valid_descriptor true true (Ok config) (armed (bo_watch io)) (bo_entropy io) (bo_hostname io) (bo_now io)
      (ok (netd_connect subscribe (bo_netd io)).2) = Some m.
Proof using Type.
  unfold boot. destruct (listen _ _) as [fs|] eqn:El; [|done]. destruct (bo_stub io); [|done].
  destruct (bo_config io) as [config|]; [|done]. cbn [negb]. destruct (start _ _ _ _ _ _ _ _ _) eqn:Es; [|done].
  intros [= <-]. split; [exists fs; split; [done|by apply listen_opens]|]. split; [done|]. by exists config.
Qed.

Lemma boot_ready io path payload :
  Notified path payload ∈ (boot valid_descriptor io).1 <->
  is_Some (boot valid_descriptor io).2 /\ bo_env io = Some path /\ payload = READY /\
  notification_send READY (bo_notify io) = Ok ().
Proof using Type.
  assert (forall w, Notified path payload ∈ (if armed (bo_watch io) then [] else [Logged w]) <-> False) as Hw.
  { intros w. destruct (armed (bo_watch io)); [by rewrite elem_of_nil|by rewrite list_elem_of_singleton]. }
  assert (Notified path payload ∈ notify_ready (bo_env io) (bo_notify io) <->
    bo_env io = Some path /\ payload = READY /\ notification_send READY (bo_notify io) = Ok ()) as Hr.
  { unfold notify_ready. destruct (bo_env io) as [p|]; [|by rewrite elem_of_nil; split; [|intros [? _]]].
    destruct (notification_send READY (bo_notify io)) as [[]|]; rewrite list_elem_of_singleton; [|by split; [|intros (_ & _ & ?)]].
    split; [by intros [= -> ->]|by intros ([= ->] & -> & _)]. }
  unfold boot. destruct (listen _ _) as [fs|]; [|by split; [intros ?%list_elem_of_singleton|intros [[? ?] _]]].
  destruct (bo_stub io); [|by split; [intros ?%list_elem_of_singleton|intros [[? ?] _]]]. cbn [negb].
  destruct (bo_config io) as [config|]; [|by split; [intros ?%list_elem_of_singleton|intros [[? ?] _]]].
  destruct (start _ _ _ _ _ _ _ _ _) as [m|]; cbn [fst snd].
  - rewrite !elem_of_app, Hw, Hr, list_elem_of_singleton. split; [|by intros [_ ?]; right; right].
    intros [[]|[?|?]]; [done|]. by split; [exists m|].
  - rewrite Hw. split; [done|]. by intros [[? ?] _].
Qed.
End lifecycle.

(** C4. The life of the process.  Start-up that fails ends it before anyone is
    told it is ready; readiness is announced exactly when the door is open as
    it should be, the stub listens, the configuration is loaded and the
    service manager takes the message.  From then on it serves whatever
    happens: an interrupted [poll] changes nothing, only one that fails for
    another reason ends the loop, and every state it is in is one that the
    daemon's theorems are about. *)
Theorem service_life `{MapOrder} `{Texts} if_nametoindex valid_descriptor access_check world `{PeiosTyped} io ps
    path payload m out on :
  entropy_ok (bo_entropy io) -> (forall c, bo_config io = Ok c -> exists K (k : RegKey K) root, load k root = Ok c) ->
  Forall TurnIo_wf (taken ps) ->
  let life := daemon_main if_nametoindex valid_descriptor access_check world io ps in
  (Notified path payload ∈ life.1 <->
   is_Some life.2 /\ bo_env io = Some path /\ payload = READY /\ notification_send READY (bo_notify io) = Ok ()) /\
  (life.2 = Some (m, out, on) ->
   (exists fs, listen (bo_listen io) (bo_files io) = Ok fs /\ door_open (bo_listen io) (bo_files io) fs) /\
   (on = true <-> PFailed ∉ ps) /\
   (exists m0, (boot valid_descriptor io).2 = Some m0 /\
      (m, out) = turns if_nametoindex valid_descriptor access_check netd_decode world m0 (taken ps)) /\
   Daemon_ok (m_r m)).
Proof.
  intros He Hc Hio life. unfold life, daemon_main.
  pose proof (boot_ready valid_descriptor io path payload) as Hready.
  pose proof (boot_starts valid_descriptor io) as Hstart.
  destruct (boot valid_descriptor io) as [events [m0|]]; cbn [fst snd fmap option_fmap option_map] in *;
    [|split; [rewrite Hready; by split; intros [[? ?] _]|done]].
  split; [rewrite Hready; by split; intros [_ ?]; split; [eauto|..]|]. intros E.
  destruct (Hstart m0 eq_refl) as (Hl & _ & config & Hcfg & Hst).
  destruct (main_loop_turns if_nametoindex valid_descriptor access_check world ps m0) as [Ht Ho].
  injection E as E. rewrite E in Ht, Ho. cbn [fst snd] in *. split_and!; [exact Hl|exact Ho|by exists m0|].
  replace m with (m, out).1 by done. rewrite Ht. apply turns_ok; [done|done|].
  eapply (start_ok valid_descriptor); [exact He| |exact Hst]. intros c [= <-]. by apply Hc.
Qed.

Definition demo_boot : BootIo :=
  mkBootIo demo_listen ∅ true (load sample_registry (Present true)) (mkWatchIo (Ok 3) None None) demo_entropy None 0
    (mkNetdIo (Err 2) None None None None) (Some (bytes_of "/run/notify")) (mkNotifyIo None None (Ok 7%nat)).

Definition demo_polls : list Polled := [PInterrupted; PReady demo_io; PFailed].

Lemma service_life_witness :
  Notified (bytes_of "/run/notify") READY ∈ (daemon_main (H := canonical_order) (H0 := demo_texts) (fun _ => 2)
    (fun _ => true) demo_access demo_world (PX := msgpack_peios) demo_boot demo_polls).1.
Proof.
  destruct (service_life (H := canonical_order) (H0 := demo_texts) (fun _ => 2) (fun _ => true) demo_access
    demo_world (H2 := msgpack_typed) demo_boot demo_polls (bytes_of "/run/notify") READY demo_idle [] true
    demo_entropy_ok) as [Hr _]; [intros c Hc; change (load sample_registry (Present true) = Ok c) in Hc; by eauto| |].
  { apply Forall_singleton. split; simpl; [|constructor|done]. intros rs [= <-]. apply Forall_singleton. by_decide. }
  apply Hr. split; [|split; [reflexivity|split; [reflexivity|vm_compute; reflexivity]]].
  destruct (daemon_main _ _ _ _ demo_boot demo_polls).2 as [x|] eqn:E; [eauto|]. exfalso.
  vm_compute in E. discriminate E.
Defined.
