(* ===== verification/DaemonTests.v ===== *)
(** * The daemon's unit tests

    The tests of the files that do I/O (accept_backoff.rs, entropy.rs, log.rs,
    reply_queue.rs, stub.rs, upstream.rs, netd_link.rs, control.rs, config.rs
    and main.rs), run on the model.  Where a test opens sockets, what its peer
    writes is what the stream yields, and the kernel's buffer is what a write
    takes.  A failed assertion is [None]. *)

From S2P Require Import Prelude Framing Net Names Message Cache EngineState IpText Io Msgpack NativeWire Stub Upstream Control NetdCodec NetdCodecProofs NetdLink NetdProps RegistryConfig Daemon Service FuzzEngine FuzzCodec CodecTests.
Local Open Scope Z_scope.
Local Open Scope codec_test_scope.

#[local] Existing Instance canonical_order.
#[local] Existing Instance no_texts.
#[local] Existing Instance msgpack_peios.

(** ** accept_backoff.rs *)

Definition an_error_pauses_only_until_the_retry_deadline : option () :=
  let now := 0 in
  let backoff := AcceptBackoff_default in
  poll_fd backoff 7 now == 7;;
  let backoff := backoff_failed backoff now in
  poll_fd backoff 7 now == -1;;
  backoff_deadline backoff now == Some (now + RETRY_DELAY);;
  poll_fd backoff 7 (now + RETRY_DELAY) == 7;;
  backoff_deadline backoff (now + RETRY_DELAY) == None.

(** ** entropy.rs *)

(** The closure fills at most two bytes with the number of the call. *)
Definition interrupted_and_short_reads_fill_the_entire_request : option () :=
  fill_with 5 [RandInterrupted; Filled [2; 2]; Filled [3; 3]; Filled [4; 4]] == Some (Ok [2; 2; 3; 3; 4]).

(** The kinds of error are one here. *)
Definition failures_and_zero_reads_are_not_replaced_with_other_entropy : option () :=
  fill_with 34 [RandFailed] == Some (Err IoOther);;
  fill_with 34 [Filled []] == Some (Err UnexpectedEof).

(** ** log.rs *)

Fixpoint infix_of (p s : list Z) : bool :=
  starts_with p s || match s with [] => false | _ :: s => infix_of p s end.

Definition mirror_unavailable_names_the_daemon_the_path_and_the_cause : option () :=
  let line := mirror_unavailable (bytes_of "permission denied") in
  assert (starts_with (bytes_of "resolvd: warn: ") line);;
  assert (infix_of (bytes_of "/dev/kmsg") line);;
  assert (infix_of (bytes_of "permission denied") (lower line));;
  length (List.filter (Z.eqb 10) line) == 1%nat;;
  last line == Some 10.

(** ** reply_queue.rs *)

(** [(0..n).map(|i| (i % 251) as u8)], from [i]. *)
Fixpoint pattern_frame (n : nat) (i : Z) : list Z :=
  match n with O => [] | S n => i mod 251 :: pattern_frame n (i + 1) end.

(** [rounds] services of one reply, of which the kernel takes [room] bytes
    each; the bytes its peer got. *)
Fixpoint drain_reply (rounds : nat) (rs : Replies) (id : Z) (room : nat) (now : Z) : option (Replies * list Z) :=
  match rounds with
  | O => Some (rs, [])
  | S rounds =>
      let got := match pending rs !! id with
                 | Some p => wrote (Takes room) (drop (pd_sent p) (pd_frame p))
                 | None => []
                 end in
      let '(rs, r) := service rs id (Takes room) now in
      _ ← ok r;
      '(rs, more) ← drain_reply rounds rs id room now;
      Some (rs, got ++ more)
  end.

Definition partial_reply_resumes_without_loss_and_does_not_block_another_peer : option () :=
  let now := 0 in
  let frame := pattern_frame (Z.to_nat 60000) 0 in
  let '(rs, r) := enqueue Replies_default 5 frame (Takes 2304) now in
  _ ← ok r;
  '(id, _) ← head (fds rs);
  let rs := (service rs id WriteWouldBlock now).1 in
  let '(rs, r) := enqueue rs 6 (bytes_of "another reply") (Takes 2304) now in
  _ ← ok r;
  wrote (Takes 2304) (bytes_of "another reply") == bytes_of "another reply";;
  replies_deadline rs == Some (now + WRITE_TIMEOUT);;
  '(rs, received) ← drain_reply 100 rs id 2304 now;
  take 2304 frame ++ received == frame;;
  fds rs == [].

Definition progress_does_not_extend_the_write_deadline : option () :=
  let now := 0 in
  let frame := replicate (Z.to_nat 60000) 42 in
  let '(rs, r) := enqueue Replies_default 5 frame (Takes 2304) now in
  _ ← ok r;
  '(id, _) ← head (fds rs);
  let '(rs, r) := service rs id (Takes 2304) (now + at_millis 500) in
  _ ← ok r;
  replies_deadline rs == Some (now + WRITE_TIMEOUT);;
  let '(rs, expired) := replies_expire rs (now + WRITE_TIMEOUT) in
  expired == 1%nat;;
  fds rs == [].

Definition a_failed_write_removes_its_pending_reply : option () :=
  let now := 0 in
  let '(rs, r) := enqueue Replies_default 5 (replicate (Z.to_nat 60000) 42) (Takes 2304) now in
  _ ← ok r;
  '(id, _) ← head (fds rs);
  let '(rs, r) := service rs id WriteFails now in
  assert (negb (is_ok r));;
  fds rs == [].

Definition a_full_queue_rejects_only_another_stalled_reply_and_recovers_on_expiry : option () :=
  let now := 0 in
  let rs := fold_left (fun rs _ => (enqueue rs (-1) [1] WriteWouldBlock now).1) (seq 0 MAX_PENDING_REPLIES)
              Replies_default in
  length (fds rs) == MAX_PENDING_REPLIES;;
  let '(rs, r) := enqueue rs (-1) [2] WriteWouldBlock now in
  assert (negb (is_ok r));;
  let '(rs, r) := enqueue rs (-1) [3] (Takes 1) now in
  assert (is_ok r);;
  wrote (Takes 1) [3] == [3];;
  let '(rs, expired) := replies_expire rs (now + WRITE_TIMEOUT) in
  expired == MAX_PENDING_REPLIES;;
  let '(rs, r) := enqueue rs (-1) [4] WriteWouldBlock (now + WRITE_TIMEOUT) in
  assert (is_ok r);;
  length (fds rs) == 1%nat.

(** ** stub.rs *)

Definition loopback_peer (port : Z) : Peer := mkPeer (ip_of "127.0.0.1") port.

(** The second call finds what the first one left in the socket. *)
Definition udp_batches_yield_even_when_the_first_batch_is_all_malformed : option () :=
  query ← ok (Message_encode (query_of 42 "localhost" rtype.A));
  let queue := replicate IO_BATCH_LIMIT (Datagram [] (loopback_peer 5000)) ++ [Datagram query (loopback_peer 5000)] in
  assert (match (receive_udp queue).1 with [] => true | _ => false end);;
  assert (match (receive_udp (drop IO_BATCH_LIMIT queue)).1 with [Query _] => true | _ => false end).

Definition tcp_accepts_yield_and_honor_the_remaining_reading_budget : option () :=
  let now := 0 in
  let peers := map (fun i => Accepted (Z.of_nat i) (loopback_peer 5000) true) (seq 0 (S IO_BATCH_LIMIT)) in
  let stub := accept Stub_open peers now (S IO_BATCH_LIMIT) in
  size (clients stub) == IO_BATCH_LIMIT;;
  let stub := accept stub (drop IO_BATCH_LIMIT peers) now (S IO_BATCH_LIMIT) in
  size (clients stub) == S IO_BATCH_LIMIT;;
  let stub := accept stub [Accepted 99 (loopback_peer 5001) true] now 0 in
  size (clients stub) == length peers.

(** ** upstream.rs *)

Definition idle_ready : Ready := mkReady RecvWouldBlock false WriteWouldBlock ReadWouldBlock.
Definition datagram (bytes : list Z) : Ready := mkReady (RecvBytes bytes) false WriteWouldBlock ReadWouldBlock.
Definition readable_with (rd : ReadTcp) : Ready := mkReady RecvWouldBlock false WriteWouldBlock rd.

Definition is_failed (e : option Event) : bool := match e with Some Failed => true | _ => false end.
Definition is_received (e : option Event) (bytes : list Z) : bool :=
  match e with Some (Received b) => bool_decide (b = bytes) | _ => false end.
Definition is_none {A} (o : option A) : bool := negb (is_some o).

(** The peer's reset shows as an error on the descriptor. *)
Definition a_reset_after_handshake_before_query_write_fails_immediately : option () :=
  let u := mkUpstream ∅ {[1 := mkTcp 5 (Sending [0; 1; 42] 0)]} in
  let '(u, e) := upstream_service u 1 (Z.lor POLLIN (Z.lor POLLERR POLLHUP)) (fun _ => false) idle_ready in
  assert (is_failed e);;
  upstream_fds u == [].

Definition matching (p : list Z) : bool := bool_decide (p = bytes_of "matching").

Definition unmatched_udp_keeps_the_socket_for_the_matching_reply : option () :=
  let u := mkUpstream {[1 := 5]} ∅ in
  let '(u, e) := upstream_service u 1 POLLIN matching (datagram (bytes_of "unmatched")) in
  assert (is_none e);;
  length (upstream_fds u) == 1%nat;;
  let '(u, e) := upstream_service u 1 POLLIN matching (datagram (bytes_of "matching")) in
  assert (is_received e (bytes_of "matching"));;
  upstream_fds u == [].

Definition tcp_receiver : Upstream := mkUpstream ∅ {[1 := mkTcp 5 (Receiving [])]}.

Definition tcp_uses_a_matching_frame_after_unmatched_frames_and_before_eof : option () :=
  let bytes := query_frame (bytes_of "unmatched") ++ query_frame [] ++ query_frame (bytes_of "matching") in
  let '(u, e) := upstream_service tcp_receiver 1 POLLIN matching (readable_with (ReadBytes bytes)) in
  assert (is_received e (bytes_of "matching"));;
  upstream_fds u == [].

(** The stream yields at most 4096 bytes to a read. *)
Fixpoint service_until (rounds : nat) (u : Upstream) (accepts : list Z -> bool) (left : list Z) : option (Upstream * option Event) :=
  match rounds with
  | O => None
  | S rounds =>
      match upstream_service u 1 POLLIN accepts (readable_with (ReadBytes (take 4096 left))) with
      | (u, None) => service_until rounds u accepts (drop 4096 left)
      | (u, e) => Some (u, e)
      end
  end.

Definition tcp_retains_a_partial_matching_frame_and_bounds_each_read : option () :=
  let wanted := replicate (Z.to_nat 8192) 42 in
  let accepts p := bool_decide (p = wanted) in
  let bytes := query_frame (bytes_of "unmatched") ++ query_frame wanted in
  let '(u, e) := upstream_service tcp_receiver 1 POLLIN accepts (readable_with (ReadBytes (take 4096 bytes))) in
  assert (is_none e);;
  length (upstream_fds u) == 1%nat;;
  '(u, e) ← service_until 10 u accepts (drop 4096 bytes);
  assert (is_received e wanted);;
  upstream_fds u == [].

Definition unmatched_tcp_can_still_fail_on_eof_or_be_cancelled : option () :=
  let refuse _ := false in
  let '(u, e) := upstream_service tcp_receiver 1 POLLIN refuse
                   (readable_with (ReadBytes (query_frame (bytes_of "unmatched")))) in
  assert (is_none e);;
  length (upstream_fds u) == 1%nat;;
  let '(u, e) := upstream_service u 1 POLLIN refuse (readable_with ReadEof) in
  assert (is_failed e);;
  upstream_fds u == [];;
  upstream_fds (cancel 1 tcp_receiver) == [].

(** EMFILE, ENFILE, ENOMEM, ENOBUFS, EADDRNOTAVAIL, EADDRINUSE, EACCES, EPERM;
    ECONNREFUSED, ENETUNREACH, EHOSTUNREACH, ETIMEDOUT. *)
Definition resource_and_permission_errors_do_not_describe_server_health : option () :=
  every [24; 23; 12; 105; 99; 98; 13; 1] (fun errno => assert (is_local_failure (RawOs errno)));;
  every [111; 101; 113; 110] (fun errno => assert (negb (is_local_failure (RawOs errno)))).

(** The interface table has [lo] alone. *)
Definition lo_only (name : Str) : Z := if bool_decide (name = bytes_of "lo") then 1 else 0.

Definition local_failure_of {A} (r : result NetError A) : bool :=
  match r with Err e => is_local_failure e | Ok _ => false end.

Definition link_local_zones_match_the_snapshot_and_survive_address_construction : option () :=
  let lo := bytes_of "lo" in
  index ← ok (interface_index lo_only lo);
  let ip := ip_of "fe80::53" in
  every [bytes_of "fe80::53"; bytes_of "fe80::53%lo"; bytes_of "fe80::53%" ++ fmt_dec index] (fun text =>
    assert (match scope_server lo_only text lo with Ok a => bool_decide (a = ip) | Err _ => false end));;
  every ["fe80::53%"; "fe80::53%other"; "fe80::53%0"; "::1%lo"; "192.0.2.1%lo"]%string (fun text =>
    assert (negb (is_ok (scope_server lo_only (bytes_of text) lo))));;
  address ← ok (server_address lo_only ip (Some lo));
  sa_scope_id address == index;;
  sa_port address == 53;;
  assert (local_failure_of (server_address lo_only ip None));;
  assert (local_failure_of (server_address lo_only ip (Some (bytes_of "pei-missing"))));;
  other ← ok (server_address lo_only (ip_of "::1") (Some (bytes_of "pei-missing")));
  sa_ip other == ip_of "::1";;
  sa_port other == 53.

(** ** netd_link.rs *)

Definition attach (l : NetdLink) : NetdLink :=
  mkNetdLink (Some 5) (nl_buf l) (nl_next_try l) (nl_backoff l) (nl_warned l).

(** [netd_core::send]. *)
Definition netd_frame (payload : list Z) : list Z := framed (H := u32_framing) payload.

Definition link_service (l : NetdLink) (now : Z) (rs : list ReadTcp) : NetdLink * list Snapshot :=
  (netd_service netd_decode l now rs).1.

(** What the peer wrote before it went away, by the number of the round. *)
Definition last_words (i : nat) : list ReadTcp :=
  match (i mod 3)%nat with
  | 0%nat => [ReadBytes (netd_frame (NetdReply_encode (NError (bytes_of "denied")))); ReadEof]
  | 1%nat => [ReadBytes (netd_frame [193]); ReadEof]
  | _ => [ReadEof]
  end.

Fixpoint retry_sequence (i : nat) (delays : list Z) (l : NetdLink) (now : Z) : option () :=
  match delays with
  | [] => Some ()
  | ms :: delays =>
      let '(l, out) := link_service (attach l) now (last_words i) in
      assert (match out with [] => true | _ => false end);;
      assert (negb (connected l));;
      netd_next_deadline l == Some (now + at_millis ms);;
      retry_sequence (S i) delays l (now + at_millis ms)
  end.

Definition refusal_malformed_frame_and_eof_share_a_capped_retry_sequence : option () :=
  retry_sequence 0 [500; 1000; 2000; 4000; 8000; 10000; 10000] (NetdLink_new 0) 0.

Definition only_a_complete_snapshot_resets_the_backoff : option () :=
  let now := 0 in
  let l := attach (mkNetdLink None [] now MAX_BACKOFF false) in
  let '(l, out) := link_service l now [ReadBytes (netd_frame (NetdReply_encode NOk))] in
  length out == 0%nat;;
  nl_backoff l == MAX_BACKOFF;;
  let frame := netd_frame (NetdReply_encode (NSnapshot (mkSnapshot (bytes_of "test-host") []))) in
  let '(l, out) := link_service l now [ReadBytes (take 2 frame)] in
  length out == 0%nat;;
  nl_backoff l == MAX_BACKOFF;;
  let '(l, out) := link_service l now [ReadBytes (drop 2 frame)] in
  assert (match out with [mkSnapshot host []] => bool_decide (host = bytes_of "test-host") | _ => false end);;
  nl_backoff l == MIN_BACKOFF;;
  assert (connected l);;
  let '(l, out) := link_service l now [ReadEof] in
  length out == 0%nat;;
  netd_next_deadline l == Some (now + MIN_BACKOFF);;
  nl_backoff l == MIN_BACKOFF * 2.

(** ** main.rs *)

Definition waiting_udp (peer : Peer) : Waiter := WStub (OUdp peer (query_of 1 "example.com" rtype.A)).

Definition peer_of (addr : string) (port : Z) : Peer := mkPeer (ip_of addr) port.

(** Ask for room, then take it: one waiter for each of [peers]. *)
Fixpoint take_in (qid : Z) (peers : list Peer) (waiters : gmap Qid Waiter) : option (gmap Qid Waiter) :=
  match peers with
  | [] => Some waiters
  | p :: peers => assert (udp_has_capacity waiters p);; take_in (qid + 1) peers (<[qid := waiting_udp p]> waiters)
  end.

Definition udp_endpoint_budget_releases_with_its_waiters_and_ignores_streams : option () :=
  let peer := peer_of "127.0.0.1" 10000 in
  waiters ← take_in 0 (replicate MAX_PENDING_UDP_PER_PEER peer) {[2 ^ 64 - 1 := WNative 5]};
  assert (negb (udp_has_capacity waiters peer));;
  assert (udp_has_capacity waiters (peer_of "127.0.0.1" 10001));;
  assert (udp_has_capacity waiters (peer_of "127.0.0.2" 10000));;
  assert (udp_has_capacity (delete 0 waiters) peer).

Definition changing_udp_source_ports_cannot_escape_the_aggregate_budget : option () :=
  waiters ← take_in 0 (map (fun i => peer_of "127.0.0.1" (10000 + Z.of_nat i)) (seq 0 MAX_PENDING_UDP)) ∅;
  let fresh := peer_of "127.0.0.1" 20000 in
  assert (negb (udp_has_capacity waiters fresh));;
  assert (udp_has_capacity (delete 0 waiters) fresh).

(** ** control.rs *)

Definition x_error (n : Z) : Reply := RError (replicate (Z.to_nat n) 120).

Definition native_reply_ceiling_is_inclusive_and_oversize_gets_an_error : option () :=
  let overhead := Z.of_nat (length (Reply_encode (x_error 32768))) - 32768 in
  every [MAX_MESSAGE_BYTES - 1; MAX_MESSAGE_BYTES; MAX_MESSAGE_BYTES + 1] (fun size =>
    let reply := x_error (size - overhead) in
    Z.of_nat (length (Reply_encode reply)) == size;;
    let frame := response_frame reply in
    let len := from_le (take 4 frame) in
    len == Z.of_nat (length frame) - 4;;
    assert (len <=? MAX_MESSAGE_BYTES);;
    let expected := if MAX_MESSAGE_BYTES <? size then Reply_encode (RError (bytes_of "reply too large"))
                    else Reply_encode reply in
    drop 4 frame == expected).

Definition status_frame : list Z := frame_of (Request_encode QStatus).

Definition is_status (p : Progress) : bool := match p with PRequest QStatus => true | _ => false end.
Definition is_incomplete (p : Progress) : bool := match p with Incomplete => true | _ => false end.
Definition is_closed (p : Progress) : bool := match p with Closed => true | _ => false end.

(** One byte for each call. *)
Fixpoint read_bytewise (c : Client) (bytes : list Z) : option Client :=
  match bytes with
  | [] => Some c
  | b :: bytes =>
      let '(p, c) := Client_read c [ReadBytes [b]] in
      assert (match bytes with [] => is_status p | _ => is_incomplete p end);;
      read_bytewise c bytes
  end.

Definition fragmented_header_and_payload_resume_until_complete : option () :=
  c ← Client_new 5 true 0;
  c ← read_bytewise c status_frame;
  cl_buf c == status_frame.

(** [client.read()], with what it leaves in the stream. *)
Definition read_leaving (rs : list ReadTcp) : Progress * list Z * list Z :=
  let '(p, buf, yet) := read_request_loop (S (reads_weight rs)) [] rs in (p, buf, arrived yet).

Definition arriving (xs : list (list Z)) : list ReadTcp :=
  map ReadBytes (List.filter (fun x => negb (bool_decide (x = []))) xs) ++ [ReadEof].

Definition an_oversized_header_leaves_every_payload_byte_unread : option () :=
  let payload := replicate (Z.to_nat 80000) 42 in
  every [MAX_MESSAGE_BYTES + 1; 2 ^ 32 - 1] (fun len =>
    let '(p, buf, unread) := read_leaving (arriving [le_bytes 4 len ++ payload]) in
    assert (match p with PReply (RError e) => bool_decide (e = bytes_of "request too large") | _ => false end);;
    length buf == 4%nat;;
    unread == payload).

Definition a_complete_request_is_decoded_before_trailing_bytes_or_eof : option () :=
  every [[]; replicate (Z.to_nat 80000) 42; status_frame] (fun trailing =>
    let '(p, buf, unread) := read_leaving (arriving [status_frame; trailing]) in
    assert (is_status p);;
    buf == status_frame;;
    unread == trailing).

Definition eof_before_a_complete_frame_is_dropped_and_empty_payload_is_decoded : option () :=
  every (seq 0 (length status_frame)) (fun prefix =>
    assert (is_closed (read_leaving (arriving [take prefix status_frame])).1.1));;
  assert (match (read_leaving [ReadBytes (le_bytes 4 0)]).1.1 with PReply (RError _) => true | _ => false end).

(** ** config.rs *)

Definition EIO : Z := 5.
Definition EACCES : Z := 13.

(** A key that fails as its name says. *)
Definition fixture : RegistryReader string := {|
  reg_value fault name :=
    if bool_decide (fault = "value"%string) && bool_decide (name = bytes_of "ControlSecurity")
    then Err (SystemError EIO) else Ok None;
  reg_values fault := if bool_decide (fault = "values"%string) then Err (SystemError EIO) else Ok [];
  reg_child fault name :=
    if bool_decide (fault = "child"%string) then Err (SystemError EACCES)
    else if bool_decide (fault = "disappeared"%string) && bool_decide (name = bytes_of "entry") then Ok None
    else Ok (Some fault);
|}.

Definition load_fixture (fault : option string) : result ReadFailure Config := load_from (H := fixture) fault.

Definition is_default (r : result ReadFailure Config) : bool :=
  match r with Ok c => Config_eqb c Config_default | Err _ => false end.

Definition missing_configuration_keeps_documented_defaults : option () :=
  assert (is_default (load_fixture None));;
  assert (is_default (load_fixture (Some ""%string))).

Definition failed_value_reads_do_not_produce_a_partial_configuration : option () :=
  assert (match load_fixture (Some "value"%string) with Err (SystemError e) => e =? EIO | _ => false end).

Definition malformed_text_cannot_silently_remove_one_list_entry : option () :=
  let value := mkRegValue MULTI_SZ (bytes_of "valid" ++ [0; 255; 0; 0]) in
  assert (match multi value with Err InvalidData => true | _ => false end).

Definition unreadable_subtrees_and_enumeration_failures_reject_the_read : option () :=
  every ["child"; "values"]%string (fun fault => assert (negb (is_ok (load_fixture (Some fault))))).

(** ** All of them pass *)

Definition queue_tests : list (option ()) :=
  [an_error_pauses_only_until_the_retry_deadline;
   interrupted_and_short_reads_fill_the_entire_request;
   failures_and_zero_reads_are_not_replaced_with_other_entropy;
   mirror_unavailable_names_the_daemon_the_path_and_the_cause;
   partial_reply_resumes_without_loss_and_does_not_block_another_peer;
   progress_does_not_extend_the_write_deadline;
   a_failed_write_removes_its_pending_reply;
   a_full_queue_rejects_only_another_stalled_reply_and_recovers_on_expiry].

Lemma queue_tests_pass : forallb is_some queue_tests = true.
Proof. vm_compute. reflexivity. Qed.

Definition transport_tests : list (option ()) :=
  [udp_batches_yield_even_when_the_first_batch_is_all_malformed;
   tcp_accepts_yield_and_honor_the_remaining_reading_budget;
   a_reset_after_handshake_before_query_write_fails_immediately;
   unmatched_udp_keeps_the_socket_for_the_matching_reply;
   tcp_uses_a_matching_frame_after_unmatched_frames_and_before_eof;
   tcp_retains_a_partial_matching_frame_and_bounds_each_read;
   unmatched_tcp_can_still_fail_on_eof_or_be_cancelled;
   resource_and_permission_errors_do_not_describe_server_health;
   link_local_zones_match_the_snapshot_and_survive_address_construction;
   refusal_malformed_frame_and_eof_share_a_capped_retry_sequence;
   only_a_complete_snapshot_resets_the_backoff].

Lemma transport_tests_pass : forallb is_some transport_tests = true.
Proof. vm_compute. reflexivity. Qed.

Definition door_tests : list (option ()) :=
  [udp_endpoint_budget_releases_with_its_waiters_and_ignores_streams;
   changing_udp_source_ports_cannot_escape_the_aggregate_budget;
   native_reply_ceiling_is_inclusive_and_oversize_gets_an_error;
   fragmented_header_and_payload_resume_until_complete;
   an_oversized_header_leaves_every_payload_byte_unread;
   a_complete_request_is_decoded_before_trailing_bytes_or_eof;
   eof_before_a_complete_frame_is_dropped_and_empty_payload_is_decoded;
   missing_configuration_keeps_documented_defaults;
   failed_value_reads_do_not_produce_a_partial_configuration;
   malformed_text_cannot_silently_remove_one_list_entry;
   unreadable_subtrees_and_enumeration_failures_reject_the_read].

Lemma door_tests_pass : forallb is_some door_tests = true.
Proof. vm_compute. reflexivity. Qed.
